(** * BSA: a shallow embedding of the Bit Shifter's Assembler (bsa.c)

    The development follows the C source function by function.  Global
    variables of the program become the fields of one [state] record that
    is threaded through a small state-and-exit monad; [char *] cursors into
    the line buffer become the remaining text; C [int] is a mathematical
    integer with the 32 bit wrap-around written out where an operation can
    leave the range.

    Not embedded: the listing, debug and preprocessor output files, macros,
    include files, [.REAL] data (floating point) and the file that [.STORE]
    writes in the final pass.  A line that needs one of them, or a C
    operation whose result the language leaves open (reading past the
    terminator of the line, an index outside [ROM], the division of
    [INT_MIN] by -1), yields the outcome [Beyond]. *)

From Stdlib Require Import ZArith Lia Bool List Ascii String.
From stdpp Require Import base option list strings.
Import ListNotations.

Local Open Scope Z_scope.

(** ** C integers *)

Definition wrap (z : Z) : Z := (z + 2147483648) mod 4294967296 - 2147483648.

Definition UNDEF : Z := 0xff0000.

Definition b2z (b : bool) : Z := if b then 1 else 0.
Definition z2b (z : Z) : bool := negb (z =? 0).

(** ** Characters and <ctype.h> in the C locale *)

Definition chr (c : ascii) : Z := Z.of_N (Ascii.N_of_ascii c).
Definition of_chr (z : Z) : ascii := Ascii.ascii_of_N (Z.to_N (z mod 256)).

(** [char] is signed on the hosts the program is built for. *)
Definition schar (c : ascii) : Z := if chr c <? 128 then chr c else chr c - 256.

Definition NUL : ascii := Ascii.zero.
Definition DQUOTE : ascii := of_chr 34.
Definition APOSTROPHE : ascii := of_chr 39.

Definition ceq (c d : ascii) : bool := Ascii.eqb c d.

Definition isspace (c : ascii) : bool :=
  (chr c =? 32) || ((9 <=? chr c) && (chr c <=? 13)).
Definition isdigit (c : ascii) : bool := (48 <=? chr c) && (chr c <=? 57).
Definition isupper (c : ascii) : bool := (65 <=? chr c) && (chr c <=? 90).
Definition islower (c : ascii) : bool := (97 <=? chr c) && (chr c <=? 122).
Definition isalpha (c : ascii) : bool := isupper c || islower c.
Definition isalnum (c : ascii) : bool := isalpha c || isdigit c.
Definition isxdigit (c : ascii) : bool :=
  isdigit c || ((65 <=? chr c) && (chr c <=? 70))
            || ((97 <=? chr c) && (chr c <=? 102)).

(** [tolower] is called on a [char], which is signed on the hosts the
    program is built for, so that a character above 127 arrives as a
    negative number.  The C library of these hosts hands such a character
    back as its unsigned value 128 .. 254; the character 255 arrives as -1,
    which is [EOF], and is handed back as -1. *)
Definition tolower (c : ascii) : Z :=
  if isupper c then chr c + 32
  else if chr c =? 255 then -1
  else chr c.

(** [toupper] is called on an [unsigned char] only (in [AddressMode]). *)
Definition toupper (c : ascii) : Z :=
  if islower c then chr c - 32 else chr c.

(** ** Cursors into a C string

    A [char *p] that walks a NUL terminated buffer is the text from [p] to
    the terminator.  [peek p] is [*p]; [at_ p n] is [p[n]], defined up to and
    including the terminator; [adv n p] is [p + n], defined while it stays
    inside the string. *)

Definition peek (p : string) : ascii :=
  match p with EmptyString => NUL | String c _ => c end.

Fixpoint at_ (p : string) (n : nat) : option ascii :=
  match p, n with
  | EmptyString, O => Some NUL
  | EmptyString, S _ => None
  | String c _, O => Some c
  | String _ r, S m => at_ r m
  end.

Fixpoint adv (n : nat) (p : string) : option string :=
  match n, p with
  | O, _ => Some p
  | S m, String _ r => adv m r
  | S _, EmptyString => None
  end.

Definition strlen (p : string) : Z := Z.of_nat (String.length p).

Fixpoint SkipSpace (p : string) : string :=
  match p with
  | String c r => if isspace c then SkipSpace r else p
  | EmptyString => p
  end.

(** [strchr p c] for a [c] other than NUL: the text from the first [c] on. *)
Fixpoint strchr (p : string) (c : ascii) : option string :=
  match p with
  | EmptyString => None
  | String d r => if ceq d c then Some p else strchr r c
  end.

(** [strchr set c != NULL] for [c != 0] *)
Fixpoint mem_char (c : ascii) (set : string) : bool :=
  match set with
  | EmptyString => false
  | String d r => ceq c d || mem_char c r
  end.

(** [!strncmp(p, op, strlen(op))]: [op] is a prefix of [p]. *)
Fixpoint starts_with (op p : string) : bool :=
  match op, p with
  | EmptyString, _ => true
  | String a r, String b q => ceq a b && starts_with r q
  | String _ _, EmptyString => false
  end.

(** [strcmp], as a sign *)
Fixpoint strcmp (s1 s2 : string) : Z :=
  match s1, s2 with
  | EmptyString, EmptyString => 0
  | EmptyString, String _ _ => -1
  | String _ _, EmptyString => 1
  | String a r, String b q =>
      if chr a <? chr b then -1 else if chr b <? chr a then 1 else strcmp r q
  end.

(** The program's own [Strcasecmp]: the loop runs over both strings up to
    and including the shorter one's terminator. *)
Fixpoint Strcasecmp (s1 s2 : string) : Z :=
  let a := peek s1 in
  let b := peek s2 in
  if tolower b <? tolower a then 1
  else if tolower a <? tolower b then -1
  else match s1, s2 with
       | String _ r, String _ q => Strcasecmp r q
       | _, _ => 0
       end.

Fixpoint Strncasecmp (s1 s2 : string) (n : nat) : Z :=
  match n with
  | O => 0
  | S m =>
      let a := peek s1 in
      let b := peek s2 in
      if tolower b <? tolower a then 1
      else if tolower a <? tolower b then -1
      else match s1, s2 with
           | String _ r, String _ q => Strncasecmp r q m
           | _, _ => 0
           end
  end.

(** [!Strncasecmp(p, kw, strlen(kw))] for a keyword [kw] *)
Definition keyword (kw p : string) : bool :=
  Strncasecmp p kw (String.length kw) =? 0.

Fixpoint strncmp (s1 s2 : string) (n : nat) : Z :=
  match n with
  | O => 0
  | S m =>
      match s1, s2 with
      | EmptyString, EmptyString => 0
      | EmptyString, String _ _ => -1
      | String _ _, EmptyString => 1
      | String a r, String b q =>
          if chr a <? chr b then -1 else if chr b <? chr a then 1
          else strncmp r q m
      end
  end.

(** ** The symbol table entry *)

Record LabelStruct : Type := mkLabel {
  Name : string;      (* Label name - case sensitive *)
  Address : Z;        (* Range 0 - 65536 *)
  Bytes : Z;          (* Length of object (string for example) *)
  Paired : bool;      (* Used in indirect addressing mode *)
  Locked : bool;      (* Defined from command line argument *)
  NumRef : Z;         (* # of references *)
  Ref : list Z;       (* list of references *)
  Att : list Z        (* list of attributes *)
}.

(** CPU types of the 6502 family *)
Definition CPU_6502 : Z := 1.
Definition CPU_65SC02 : Z := 2.
Definition CPU_65C02 : Z := 4.
Definition CPU_45GS02 : Z := 8.
Definition CPU_65816 : Z := 16.

Definition MAXLAB : Z := 8000.
Definition MAXPASS : Z := 20.
Definition ML : Z := 256.
Definition LDEF : Z := 20.
Definition LBSS : Z := 21.
Definition LPOS : Z := 22.

Record state : Type := mkState {
  BranchOpt : bool;  (* -b: branch optimisation *)
  BSO_Mode : bool;  (* VAX BSO compatibility mode (.src sources) *)
  IgnoreCase : bool;  (* 1: ignore case for symbols *)
  CPU_Type : Z;  (* one of the CPU_ bits *)
  MaxPass : Z;  (* number of the final pass *)
  unaops : Z;  (* number of unary operators in use *)
  ErrNum : Z;  (* error counter *)
  WriteLA : bool;  (* write load address (CBM) *)
  ModuleStart : Z;  (* address of a module *)
  LoadAddress : Z;
  bp : Z;  (* base page *)
  oc : Z;  (* op code *)
  am : Z;  (* address mode *)
  il : Z;  (* instruction length *)
  ml : Z;  (* mnemonic length *)
  pc : Z;  (* program counter *)
  bss : Z;  (* bss counter *)
  Pass : Z;
  o16 : bool;  (* force 16 bit operand *)
  BOC : list Z;  (* branch opt count, one entry per pass *)
  IfLevel : Z;
  Skipping : bool;
  SkipLine : list bool;  (* SkipLine[10] *)
  ForcedEnd : bool;  (* triggered by .END command *)
  GenStart : Z;  (* lowest assemble address *)
  GenEnd : Z;  (* highest assemble address *)
  ROM : Z -> Z;  (* binary 64K plus 1 page, read by index *)
  LiNo : Z;  (* line number of current file *)
  TotalLiNo : Z;  (* total line number *)
  Line : string;  (* source line *)
  Label : string;
  Operand : string;
  Scope : string;
  lab : list LabelStruct;  (* lab[0 .. Labels-1] *)
  GenIndex : Z;
  NegNeg : bool;
  PreNop : bool
}.

Definition set_BranchOpt (v : bool) (s : state) : state :=
  mkState v (BSO_Mode s) (IgnoreCase s) (CPU_Type s) (MaxPass s) (unaops s)
    (ErrNum s) (WriteLA s) (ModuleStart s) (LoadAddress s) (bp s) (oc s)
    (am s) (il s) (ml s) (pc s) (bss s) (Pass s) (o16 s) (BOC s) (IfLevel s)
    (Skipping s) (SkipLine s) (ForcedEnd s) (GenStart s) (GenEnd s) (ROM s)
    (LiNo s) (TotalLiNo s) (Line s) (Label s) (Operand s) (Scope s) (lab s)
    (GenIndex s) (NegNeg s) (PreNop s).
Definition set_BSO_Mode (v : bool) (s : state) : state :=
  mkState (BranchOpt s) v (IgnoreCase s) (CPU_Type s) (MaxPass s) (unaops s)
    (ErrNum s) (WriteLA s) (ModuleStart s) (LoadAddress s) (bp s) (oc s)
    (am s) (il s) (ml s) (pc s) (bss s) (Pass s) (o16 s) (BOC s) (IfLevel s)
    (Skipping s) (SkipLine s) (ForcedEnd s) (GenStart s) (GenEnd s) (ROM s)
    (LiNo s) (TotalLiNo s) (Line s) (Label s) (Operand s) (Scope s) (lab s)
    (GenIndex s) (NegNeg s) (PreNop s).
Definition set_IgnoreCase (v : bool) (s : state) : state :=
  mkState (BranchOpt s) (BSO_Mode s) v (CPU_Type s) (MaxPass s) (unaops s)
    (ErrNum s) (WriteLA s) (ModuleStart s) (LoadAddress s) (bp s) (oc s)
    (am s) (il s) (ml s) (pc s) (bss s) (Pass s) (o16 s) (BOC s) (IfLevel s)
    (Skipping s) (SkipLine s) (ForcedEnd s) (GenStart s) (GenEnd s) (ROM s)
    (LiNo s) (TotalLiNo s) (Line s) (Label s) (Operand s) (Scope s) (lab s)
    (GenIndex s) (NegNeg s) (PreNop s).
Definition set_CPU_Type (v : Z) (s : state) : state :=
  mkState (BranchOpt s) (BSO_Mode s) (IgnoreCase s) v (MaxPass s) (unaops s)
    (ErrNum s) (WriteLA s) (ModuleStart s) (LoadAddress s) (bp s) (oc s)
    (am s) (il s) (ml s) (pc s) (bss s) (Pass s) (o16 s) (BOC s) (IfLevel s)
    (Skipping s) (SkipLine s) (ForcedEnd s) (GenStart s) (GenEnd s) (ROM s)
    (LiNo s) (TotalLiNo s) (Line s) (Label s) (Operand s) (Scope s) (lab s)
    (GenIndex s) (NegNeg s) (PreNop s).
Definition set_MaxPass (v : Z) (s : state) : state :=
  mkState (BranchOpt s) (BSO_Mode s) (IgnoreCase s) (CPU_Type s) v (unaops s)
    (ErrNum s) (WriteLA s) (ModuleStart s) (LoadAddress s) (bp s) (oc s)
    (am s) (il s) (ml s) (pc s) (bss s) (Pass s) (o16 s) (BOC s) (IfLevel s)
    (Skipping s) (SkipLine s) (ForcedEnd s) (GenStart s) (GenEnd s) (ROM s)
    (LiNo s) (TotalLiNo s) (Line s) (Label s) (Operand s) (Scope s) (lab s)
    (GenIndex s) (NegNeg s) (PreNop s).
Definition set_unaops (v : Z) (s : state) : state :=
  mkState (BranchOpt s) (BSO_Mode s) (IgnoreCase s) (CPU_Type s) (MaxPass s) v
    (ErrNum s) (WriteLA s) (ModuleStart s) (LoadAddress s) (bp s) (oc s)
    (am s) (il s) (ml s) (pc s) (bss s) (Pass s) (o16 s) (BOC s) (IfLevel s)
    (Skipping s) (SkipLine s) (ForcedEnd s) (GenStart s) (GenEnd s) (ROM s)
    (LiNo s) (TotalLiNo s) (Line s) (Label s) (Operand s) (Scope s) (lab s)
    (GenIndex s) (NegNeg s) (PreNop s).
Definition set_ErrNum (v : Z) (s : state) : state :=
  mkState (BranchOpt s) (BSO_Mode s) (IgnoreCase s) (CPU_Type s) (MaxPass s)
    (unaops s) v (WriteLA s) (ModuleStart s) (LoadAddress s) (bp s) (oc s)
    (am s) (il s) (ml s) (pc s) (bss s) (Pass s) (o16 s) (BOC s) (IfLevel s)
    (Skipping s) (SkipLine s) (ForcedEnd s) (GenStart s) (GenEnd s) (ROM s)
    (LiNo s) (TotalLiNo s) (Line s) (Label s) (Operand s) (Scope s) (lab s)
    (GenIndex s) (NegNeg s) (PreNop s).
Definition set_WriteLA (v : bool) (s : state) : state :=
  mkState (BranchOpt s) (BSO_Mode s) (IgnoreCase s) (CPU_Type s) (MaxPass s)
    (unaops s) (ErrNum s) v (ModuleStart s) (LoadAddress s) (bp s) (oc s)
    (am s) (il s) (ml s) (pc s) (bss s) (Pass s) (o16 s) (BOC s) (IfLevel s)
    (Skipping s) (SkipLine s) (ForcedEnd s) (GenStart s) (GenEnd s) (ROM s)
    (LiNo s) (TotalLiNo s) (Line s) (Label s) (Operand s) (Scope s) (lab s)
    (GenIndex s) (NegNeg s) (PreNop s).
Definition set_ModuleStart (v : Z) (s : state) : state :=
  mkState (BranchOpt s) (BSO_Mode s) (IgnoreCase s) (CPU_Type s) (MaxPass s)
    (unaops s) (ErrNum s) (WriteLA s) v (LoadAddress s) (bp s) (oc s) (am s)
    (il s) (ml s) (pc s) (bss s) (Pass s) (o16 s) (BOC s) (IfLevel s)
    (Skipping s) (SkipLine s) (ForcedEnd s) (GenStart s) (GenEnd s) (ROM s)
    (LiNo s) (TotalLiNo s) (Line s) (Label s) (Operand s) (Scope s) (lab s)
    (GenIndex s) (NegNeg s) (PreNop s).
Definition set_LoadAddress (v : Z) (s : state) : state :=
  mkState (BranchOpt s) (BSO_Mode s) (IgnoreCase s) (CPU_Type s) (MaxPass s)
    (unaops s) (ErrNum s) (WriteLA s) (ModuleStart s) v (bp s) (oc s) (am s)
    (il s) (ml s) (pc s) (bss s) (Pass s) (o16 s) (BOC s) (IfLevel s)
    (Skipping s) (SkipLine s) (ForcedEnd s) (GenStart s) (GenEnd s) (ROM s)
    (LiNo s) (TotalLiNo s) (Line s) (Label s) (Operand s) (Scope s) (lab s)
    (GenIndex s) (NegNeg s) (PreNop s).
Definition set_bp (v : Z) (s : state) : state :=
  mkState (BranchOpt s) (BSO_Mode s) (IgnoreCase s) (CPU_Type s) (MaxPass s)
    (unaops s) (ErrNum s) (WriteLA s) (ModuleStart s) (LoadAddress s) v (oc s)
    (am s) (il s) (ml s) (pc s) (bss s) (Pass s) (o16 s) (BOC s) (IfLevel s)
    (Skipping s) (SkipLine s) (ForcedEnd s) (GenStart s) (GenEnd s) (ROM s)
    (LiNo s) (TotalLiNo s) (Line s) (Label s) (Operand s) (Scope s) (lab s)
    (GenIndex s) (NegNeg s) (PreNop s).
Definition set_oc (v : Z) (s : state) : state :=
  mkState (BranchOpt s) (BSO_Mode s) (IgnoreCase s) (CPU_Type s) (MaxPass s)
    (unaops s) (ErrNum s) (WriteLA s) (ModuleStart s) (LoadAddress s) (bp s) v
    (am s) (il s) (ml s) (pc s) (bss s) (Pass s) (o16 s) (BOC s) (IfLevel s)
    (Skipping s) (SkipLine s) (ForcedEnd s) (GenStart s) (GenEnd s) (ROM s)
    (LiNo s) (TotalLiNo s) (Line s) (Label s) (Operand s) (Scope s) (lab s)
    (GenIndex s) (NegNeg s) (PreNop s).
Definition set_am (v : Z) (s : state) : state :=
  mkState (BranchOpt s) (BSO_Mode s) (IgnoreCase s) (CPU_Type s) (MaxPass s)
    (unaops s) (ErrNum s) (WriteLA s) (ModuleStart s) (LoadAddress s) (bp s)
    (oc s) v (il s) (ml s) (pc s) (bss s) (Pass s) (o16 s) (BOC s) (IfLevel s)
    (Skipping s) (SkipLine s) (ForcedEnd s) (GenStart s) (GenEnd s) (ROM s)
    (LiNo s) (TotalLiNo s) (Line s) (Label s) (Operand s) (Scope s) (lab s)
    (GenIndex s) (NegNeg s) (PreNop s).
Definition set_il (v : Z) (s : state) : state :=
  mkState (BranchOpt s) (BSO_Mode s) (IgnoreCase s) (CPU_Type s) (MaxPass s)
    (unaops s) (ErrNum s) (WriteLA s) (ModuleStart s) (LoadAddress s) (bp s)
    (oc s) (am s) v (ml s) (pc s) (bss s) (Pass s) (o16 s) (BOC s) (IfLevel s)
    (Skipping s) (SkipLine s) (ForcedEnd s) (GenStart s) (GenEnd s) (ROM s)
    (LiNo s) (TotalLiNo s) (Line s) (Label s) (Operand s) (Scope s) (lab s)
    (GenIndex s) (NegNeg s) (PreNop s).
Definition set_ml (v : Z) (s : state) : state :=
  mkState (BranchOpt s) (BSO_Mode s) (IgnoreCase s) (CPU_Type s) (MaxPass s)
    (unaops s) (ErrNum s) (WriteLA s) (ModuleStart s) (LoadAddress s) (bp s)
    (oc s) (am s) (il s) v (pc s) (bss s) (Pass s) (o16 s) (BOC s) (IfLevel s)
    (Skipping s) (SkipLine s) (ForcedEnd s) (GenStart s) (GenEnd s) (ROM s)
    (LiNo s) (TotalLiNo s) (Line s) (Label s) (Operand s) (Scope s) (lab s)
    (GenIndex s) (NegNeg s) (PreNop s).
Definition set_pc (v : Z) (s : state) : state :=
  mkState (BranchOpt s) (BSO_Mode s) (IgnoreCase s) (CPU_Type s) (MaxPass s)
    (unaops s) (ErrNum s) (WriteLA s) (ModuleStart s) (LoadAddress s) (bp s)
    (oc s) (am s) (il s) (ml s) v (bss s) (Pass s) (o16 s) (BOC s) (IfLevel s)
    (Skipping s) (SkipLine s) (ForcedEnd s) (GenStart s) (GenEnd s) (ROM s)
    (LiNo s) (TotalLiNo s) (Line s) (Label s) (Operand s) (Scope s) (lab s)
    (GenIndex s) (NegNeg s) (PreNop s).
Definition set_bss (v : Z) (s : state) : state :=
  mkState (BranchOpt s) (BSO_Mode s) (IgnoreCase s) (CPU_Type s) (MaxPass s)
    (unaops s) (ErrNum s) (WriteLA s) (ModuleStart s) (LoadAddress s) (bp s)
    (oc s) (am s) (il s) (ml s) (pc s) v (Pass s) (o16 s) (BOC s) (IfLevel s)
    (Skipping s) (SkipLine s) (ForcedEnd s) (GenStart s) (GenEnd s) (ROM s)
    (LiNo s) (TotalLiNo s) (Line s) (Label s) (Operand s) (Scope s) (lab s)
    (GenIndex s) (NegNeg s) (PreNop s).
Definition set_Pass (v : Z) (s : state) : state :=
  mkState (BranchOpt s) (BSO_Mode s) (IgnoreCase s) (CPU_Type s) (MaxPass s)
    (unaops s) (ErrNum s) (WriteLA s) (ModuleStart s) (LoadAddress s) (bp s)
    (oc s) (am s) (il s) (ml s) (pc s) (bss s) v (o16 s) (BOC s) (IfLevel s)
    (Skipping s) (SkipLine s) (ForcedEnd s) (GenStart s) (GenEnd s) (ROM s)
    (LiNo s) (TotalLiNo s) (Line s) (Label s) (Operand s) (Scope s) (lab s)
    (GenIndex s) (NegNeg s) (PreNop s).
Definition set_o16 (v : bool) (s : state) : state :=
  mkState (BranchOpt s) (BSO_Mode s) (IgnoreCase s) (CPU_Type s) (MaxPass s)
    (unaops s) (ErrNum s) (WriteLA s) (ModuleStart s) (LoadAddress s) (bp s)
    (oc s) (am s) (il s) (ml s) (pc s) (bss s) (Pass s) v (BOC s) (IfLevel s)
    (Skipping s) (SkipLine s) (ForcedEnd s) (GenStart s) (GenEnd s) (ROM s)
    (LiNo s) (TotalLiNo s) (Line s) (Label s) (Operand s) (Scope s) (lab s)
    (GenIndex s) (NegNeg s) (PreNop s).
Definition set_BOC (v : list Z) (s : state) : state :=
  mkState (BranchOpt s) (BSO_Mode s) (IgnoreCase s) (CPU_Type s) (MaxPass s)
    (unaops s) (ErrNum s) (WriteLA s) (ModuleStart s) (LoadAddress s) (bp s)
    (oc s) (am s) (il s) (ml s) (pc s) (bss s) (Pass s) (o16 s) v (IfLevel s)
    (Skipping s) (SkipLine s) (ForcedEnd s) (GenStart s) (GenEnd s) (ROM s)
    (LiNo s) (TotalLiNo s) (Line s) (Label s) (Operand s) (Scope s) (lab s)
    (GenIndex s) (NegNeg s) (PreNop s).
Definition set_IfLevel (v : Z) (s : state) : state :=
  mkState (BranchOpt s) (BSO_Mode s) (IgnoreCase s) (CPU_Type s) (MaxPass s)
    (unaops s) (ErrNum s) (WriteLA s) (ModuleStart s) (LoadAddress s) (bp s)
    (oc s) (am s) (il s) (ml s) (pc s) (bss s) (Pass s) (o16 s) (BOC s) v
    (Skipping s) (SkipLine s) (ForcedEnd s) (GenStart s) (GenEnd s) (ROM s)
    (LiNo s) (TotalLiNo s) (Line s) (Label s) (Operand s) (Scope s) (lab s)
    (GenIndex s) (NegNeg s) (PreNop s).
Definition set_Skipping (v : bool) (s : state) : state :=
  mkState (BranchOpt s) (BSO_Mode s) (IgnoreCase s) (CPU_Type s) (MaxPass s)
    (unaops s) (ErrNum s) (WriteLA s) (ModuleStart s) (LoadAddress s) (bp s)
    (oc s) (am s) (il s) (ml s) (pc s) (bss s) (Pass s) (o16 s) (BOC s)
    (IfLevel s) v (SkipLine s) (ForcedEnd s) (GenStart s) (GenEnd s) (ROM s)
    (LiNo s) (TotalLiNo s) (Line s) (Label s) (Operand s) (Scope s) (lab s)
    (GenIndex s) (NegNeg s) (PreNop s).
Definition set_SkipLine (v : list bool) (s : state) : state :=
  mkState (BranchOpt s) (BSO_Mode s) (IgnoreCase s) (CPU_Type s) (MaxPass s)
    (unaops s) (ErrNum s) (WriteLA s) (ModuleStart s) (LoadAddress s) (bp s)
    (oc s) (am s) (il s) (ml s) (pc s) (bss s) (Pass s) (o16 s) (BOC s)
    (IfLevel s) (Skipping s) v (ForcedEnd s) (GenStart s) (GenEnd s) (ROM s)
    (LiNo s) (TotalLiNo s) (Line s) (Label s) (Operand s) (Scope s) (lab s)
    (GenIndex s) (NegNeg s) (PreNop s).
Definition set_ForcedEnd (v : bool) (s : state) : state :=
  mkState (BranchOpt s) (BSO_Mode s) (IgnoreCase s) (CPU_Type s) (MaxPass s)
    (unaops s) (ErrNum s) (WriteLA s) (ModuleStart s) (LoadAddress s) (bp s)
    (oc s) (am s) (il s) (ml s) (pc s) (bss s) (Pass s) (o16 s) (BOC s)
    (IfLevel s) (Skipping s) (SkipLine s) v (GenStart s) (GenEnd s) (ROM s)
    (LiNo s) (TotalLiNo s) (Line s) (Label s) (Operand s) (Scope s) (lab s)
    (GenIndex s) (NegNeg s) (PreNop s).
Definition set_GenStart (v : Z) (s : state) : state :=
  mkState (BranchOpt s) (BSO_Mode s) (IgnoreCase s) (CPU_Type s) (MaxPass s)
    (unaops s) (ErrNum s) (WriteLA s) (ModuleStart s) (LoadAddress s) (bp s)
    (oc s) (am s) (il s) (ml s) (pc s) (bss s) (Pass s) (o16 s) (BOC s)
    (IfLevel s) (Skipping s) (SkipLine s) (ForcedEnd s) v (GenEnd s) (ROM s)
    (LiNo s) (TotalLiNo s) (Line s) (Label s) (Operand s) (Scope s) (lab s)
    (GenIndex s) (NegNeg s) (PreNop s).
Definition set_GenEnd (v : Z) (s : state) : state :=
  mkState (BranchOpt s) (BSO_Mode s) (IgnoreCase s) (CPU_Type s) (MaxPass s)
    (unaops s) (ErrNum s) (WriteLA s) (ModuleStart s) (LoadAddress s) (bp s)
    (oc s) (am s) (il s) (ml s) (pc s) (bss s) (Pass s) (o16 s) (BOC s)
    (IfLevel s) (Skipping s) (SkipLine s) (ForcedEnd s) (GenStart s) v (ROM s)
    (LiNo s) (TotalLiNo s) (Line s) (Label s) (Operand s) (Scope s) (lab s)
    (GenIndex s) (NegNeg s) (PreNop s).
Definition set_ROM (v : Z -> Z) (s : state) : state :=
  mkState (BranchOpt s) (BSO_Mode s) (IgnoreCase s) (CPU_Type s) (MaxPass s)
    (unaops s) (ErrNum s) (WriteLA s) (ModuleStart s) (LoadAddress s) (bp s)
    (oc s) (am s) (il s) (ml s) (pc s) (bss s) (Pass s) (o16 s) (BOC s)
    (IfLevel s) (Skipping s) (SkipLine s) (ForcedEnd s) (GenStart s)
    (GenEnd s) v (LiNo s) (TotalLiNo s) (Line s) (Label s) (Operand s)
    (Scope s) (lab s) (GenIndex s) (NegNeg s) (PreNop s).
Definition set_LiNo (v : Z) (s : state) : state :=
  mkState (BranchOpt s) (BSO_Mode s) (IgnoreCase s) (CPU_Type s) (MaxPass s)
    (unaops s) (ErrNum s) (WriteLA s) (ModuleStart s) (LoadAddress s) (bp s)
    (oc s) (am s) (il s) (ml s) (pc s) (bss s) (Pass s) (o16 s) (BOC s)
    (IfLevel s) (Skipping s) (SkipLine s) (ForcedEnd s) (GenStart s)
    (GenEnd s) (ROM s) v (TotalLiNo s) (Line s) (Label s) (Operand s)
    (Scope s) (lab s) (GenIndex s) (NegNeg s) (PreNop s).
Definition set_TotalLiNo (v : Z) (s : state) : state :=
  mkState (BranchOpt s) (BSO_Mode s) (IgnoreCase s) (CPU_Type s) (MaxPass s)
    (unaops s) (ErrNum s) (WriteLA s) (ModuleStart s) (LoadAddress s) (bp s)
    (oc s) (am s) (il s) (ml s) (pc s) (bss s) (Pass s) (o16 s) (BOC s)
    (IfLevel s) (Skipping s) (SkipLine s) (ForcedEnd s) (GenStart s)
    (GenEnd s) (ROM s) (LiNo s) v (Line s) (Label s) (Operand s) (Scope s)
    (lab s) (GenIndex s) (NegNeg s) (PreNop s).
Definition set_Line (v : string) (s : state) : state :=
  mkState (BranchOpt s) (BSO_Mode s) (IgnoreCase s) (CPU_Type s) (MaxPass s)
    (unaops s) (ErrNum s) (WriteLA s) (ModuleStart s) (LoadAddress s) (bp s)
    (oc s) (am s) (il s) (ml s) (pc s) (bss s) (Pass s) (o16 s) (BOC s)
    (IfLevel s) (Skipping s) (SkipLine s) (ForcedEnd s) (GenStart s)
    (GenEnd s) (ROM s) (LiNo s) (TotalLiNo s) v (Label s) (Operand s)
    (Scope s) (lab s) (GenIndex s) (NegNeg s) (PreNop s).
Definition set_Label (v : string) (s : state) : state :=
  mkState (BranchOpt s) (BSO_Mode s) (IgnoreCase s) (CPU_Type s) (MaxPass s)
    (unaops s) (ErrNum s) (WriteLA s) (ModuleStart s) (LoadAddress s) (bp s)
    (oc s) (am s) (il s) (ml s) (pc s) (bss s) (Pass s) (o16 s) (BOC s)
    (IfLevel s) (Skipping s) (SkipLine s) (ForcedEnd s) (GenStart s)
    (GenEnd s) (ROM s) (LiNo s) (TotalLiNo s) (Line s) v (Operand s) (Scope s)
    (lab s) (GenIndex s) (NegNeg s) (PreNop s).
Definition set_Operand (v : string) (s : state) : state :=
  mkState (BranchOpt s) (BSO_Mode s) (IgnoreCase s) (CPU_Type s) (MaxPass s)
    (unaops s) (ErrNum s) (WriteLA s) (ModuleStart s) (LoadAddress s) (bp s)
    (oc s) (am s) (il s) (ml s) (pc s) (bss s) (Pass s) (o16 s) (BOC s)
    (IfLevel s) (Skipping s) (SkipLine s) (ForcedEnd s) (GenStart s)
    (GenEnd s) (ROM s) (LiNo s) (TotalLiNo s) (Line s) (Label s) v (Scope s)
    (lab s) (GenIndex s) (NegNeg s) (PreNop s).
Definition set_Scope (v : string) (s : state) : state :=
  mkState (BranchOpt s) (BSO_Mode s) (IgnoreCase s) (CPU_Type s) (MaxPass s)
    (unaops s) (ErrNum s) (WriteLA s) (ModuleStart s) (LoadAddress s) (bp s)
    (oc s) (am s) (il s) (ml s) (pc s) (bss s) (Pass s) (o16 s) (BOC s)
    (IfLevel s) (Skipping s) (SkipLine s) (ForcedEnd s) (GenStart s)
    (GenEnd s) (ROM s) (LiNo s) (TotalLiNo s) (Line s) (Label s) (Operand s) v
    (lab s) (GenIndex s) (NegNeg s) (PreNop s).
Definition set_lab (v : list LabelStruct) (s : state) : state :=
  mkState (BranchOpt s) (BSO_Mode s) (IgnoreCase s) (CPU_Type s) (MaxPass s)
    (unaops s) (ErrNum s) (WriteLA s) (ModuleStart s) (LoadAddress s) (bp s)
    (oc s) (am s) (il s) (ml s) (pc s) (bss s) (Pass s) (o16 s) (BOC s)
    (IfLevel s) (Skipping s) (SkipLine s) (ForcedEnd s) (GenStart s)
    (GenEnd s) (ROM s) (LiNo s) (TotalLiNo s) (Line s) (Label s) (Operand s)
    (Scope s) v (GenIndex s) (NegNeg s) (PreNop s).
Definition set_GenIndex (v : Z) (s : state) : state :=
  mkState (BranchOpt s) (BSO_Mode s) (IgnoreCase s) (CPU_Type s) (MaxPass s)
    (unaops s) (ErrNum s) (WriteLA s) (ModuleStart s) (LoadAddress s) (bp s)
    (oc s) (am s) (il s) (ml s) (pc s) (bss s) (Pass s) (o16 s) (BOC s)
    (IfLevel s) (Skipping s) (SkipLine s) (ForcedEnd s) (GenStart s)
    (GenEnd s) (ROM s) (LiNo s) (TotalLiNo s) (Line s) (Label s) (Operand s)
    (Scope s) (lab s) v (NegNeg s) (PreNop s).
Definition set_NegNeg (v : bool) (s : state) : state :=
  mkState (BranchOpt s) (BSO_Mode s) (IgnoreCase s) (CPU_Type s) (MaxPass s)
    (unaops s) (ErrNum s) (WriteLA s) (ModuleStart s) (LoadAddress s) (bp s)
    (oc s) (am s) (il s) (ml s) (pc s) (bss s) (Pass s) (o16 s) (BOC s)
    (IfLevel s) (Skipping s) (SkipLine s) (ForcedEnd s) (GenStart s)
    (GenEnd s) (ROM s) (LiNo s) (TotalLiNo s) (Line s) (Label s) (Operand s)
    (Scope s) (lab s) (GenIndex s) v (PreNop s).
Definition set_PreNop (v : bool) (s : state) : state :=
  mkState (BranchOpt s) (BSO_Mode s) (IgnoreCase s) (CPU_Type s) (MaxPass s)
    (unaops s) (ErrNum s) (WriteLA s) (ModuleStart s) (LoadAddress s) (bp s)
    (oc s) (am s) (il s) (ml s) (pc s) (bss s) (Pass s) (o16 s) (BOC s)
    (IfLevel s) (Skipping s) (SkipLine s) (ForcedEnd s) (GenStart s)
    (GenEnd s) (ROM s) (LiNo s) (TotalLiNo s) (Line s) (Label s) (Operand s)
    (Scope s) (lab s) (GenIndex s) (NegNeg s) v.

(** ** Outcomes and the monad of the assembler

    [Exit] is a call of [exit(1)] after a diagnostic; [Hang] a loop of the
    source that makes no progress; [Beyond] a behaviour the embedding does
    not cover; [NoFuel] the end of the recursion budget of the evaluator. *)

Inductive outcome (A : Type) : Type :=
| Ok (a : A) (s : state)
| Exit
| Hang
| Beyond
| NoFuel.

Arguments Ok {A} a s.
Arguments Exit {A}.
Arguments Hang {A}.
Arguments Beyond {A}.
Arguments NoFuel {A}.

Definition M (A : Type) : Type := state -> outcome A.

#[global] Instance M_ret : MRet M := fun A a s => Ok a s.

#[global] Instance M_bind : MBind M := fun A B f m s =>
  match m s with
  | Ok a s' => f a s'
  | Exit => Exit
  | Hang => Hang
  | Beyond => Beyond
  | NoFuel => NoFuel
  end.

Definition get : M state := fun s => Ok s s.
Definition modify (f : state -> state) : M unit := fun s => Ok tt (f s).
Definition exit_ {A} : M A := fun _ => Exit.
Definition hang {A} : M A := fun _ => Hang.
Definition beyond {A} : M A := fun _ => Beyond.
Definition nofuel {A} : M A := fun _ => NoFuel.
Definition inside {A} (o : option A) : M A :=
  match o with Some a => mret a | None => beyond end.
Definition when_ (b : bool) (m : M unit) : M unit := if b then m else mret tt.

(** [ROM[a] = v] with [unsigned char ROM[0x10100]] *)
Definition ROM_SIZE : Z := 0x10100.

Definition rom_set (a v : Z) (rom : Z -> Z) : Z -> Z :=
  fun x => if x =? a then Z.land v 0xff else rom x.

Definition store (a v : Z) : M unit := fun s =>
  if (0 <=? a) && (a <? ROM_SIZE) then Ok tt (set_ROM (rom_set a v (ROM s)) s)
  else Beyond.

(** [for (i = 0; i < l; ++i) ROM[a+i] = buf[i]] *)
Fixpoint store_bytes (a : Z) (buf : list Z) : M unit :=
  match buf with
  | [] => mret tt
  | b :: r => store a b;; store_bytes (a + 1) r
  end.

Definition final_pass (s : state) : bool := Pass s =? MaxPass s.

(** ** Symbols: isym, isnnd, GetSymbol *)

Definition isym (p : string) : bool :=
  match p with
  | EmptyString => false
  | String c r =>
      ceq c "_" || ceq c "$" || ceq c "." || isalnum c
      || (ceq c "@" && isalpha (peek r))
  end.

(** labels of style nn$ : every character before the first dollar is a
    digit *)
Fixpoint isnnd (p : string) : bool :=
  match p with
  | EmptyString => false
  | String c r => if ceq c "$" then true else if isdigit c then isnnd r else false
  end.

(** [do *s++ = *p; while ( *p++ != '$');] *)
Fixpoint copy_nnd (p : string) : string * string :=
  match p with
  | EmptyString => (EmptyString, EmptyString)
  | String c r =>
      if ceq c "$" then (String c EmptyString, r)
      else let '(a, q) := copy_nnd r in (String c a, q)
  end.

(** [while (isym(p)) *s++ = *p++;] *)
Fixpoint copy_sym (p : string) : string * string :=
  match p with
  | EmptyString => (EmptyString, p)
  | String c r =>
      if isym p then let '(a, q) := copy_sym r in (String c a, q)
      else (EmptyString, p)
  end.

Definition nonempty (s : string) : bool :=
  match s with EmptyString => false | _ => true end.

(** [GetSymbol(p, s)]: the symbol written to [s] and the new cursor *)
Definition GetSymbol (st : state) (p : string) : string * string :=
  if isnnd p then
    let '(a, q) := copy_nnd p in
    ((if nonempty (Scope st) then Scope st +:+ "_" else EmptyString) +:+ a, q)
  else
    match p with
    | String c r =>
        if negb (BSO_Mode st) && (ceq c "." || ceq c "_") && nonempty (Scope st)
        then let '(a, q) := copy_sym r in (Scope st +:+ String c a, q)
        else copy_sym p
    | EmptyString => copy_sym p
    end.

Definition StrCmp (st : state) (s1 s2 : string) : Z :=
  if IgnoreCase st then Strcasecmp s1 s2 else strcmp s1 s2.

Fixpoint LabelIndex_from (st : state) (p : string) (l : list LabelStruct)
    (i : nat) : option nat :=
  match l with
  | [] => None
  | x :: r => if StrCmp st p (Name x) =? 0 then Some i
              else LabelIndex_from st p r (S i)
  end.

Definition LabelIndex (st : state) (p : string) : option nat :=
  LabelIndex_from st p (lab st) 0%nat.

Fixpoint AddressIndex_from (a : Z) (l : list LabelStruct) (i : nat)
    : option nat :=
  match l with
  | [] => None
  | x :: r => if Address x =? a then Some i else AddressIndex_from a r (S i)
  end.

Definition AddressIndex (st : state) (a : Z) : option nat :=
  AddressIndex_from a (lab st) 0%nat.

Definition Labels (st : state) : Z := Z.of_nat (length (lab st)).

Definition set_Address (v : Z) (x : LabelStruct) : LabelStruct :=
  mkLabel (Name x) v (Bytes x) (Paired x) (Locked x) (NumRef x) (Ref x) (Att x).
Definition set_Bytes (v : Z) (x : LabelStruct) : LabelStruct :=
  mkLabel (Name x) (Address x) v (Paired x) (Locked x) (NumRef x) (Ref x) (Att x).
Definition set_Locked (v : bool) (x : LabelStruct) : LabelStruct :=
  mkLabel (Name x) (Address x) (Bytes x) (Paired x) v (NumRef x) (Ref x) (Att x).
(** [Ref[0] = line; Att[0] = att] *)
Definition set_Def (line att : Z) (x : LabelStruct) : LabelStruct :=
  mkLabel (Name x) (Address x) (Bytes x) (Paired x) (Locked x) (NumRef x)
    (<[0%nat := line]> (Ref x)) (<[0%nat := att]> (Att x)).

(** A fresh entry of the zero-initialised array [lab[]] with one slot for
    the definition site *)
Definition new_label (name : string) (addr line att : Z) : LabelStruct :=
  mkLabel name addr 0 false false 0 [line] [att].

Definition update_lab (j : nat) (f : LabelStruct -> LabelStruct) : M unit :=
  modify (fun s => set_lab (alter f j (lab s)) s).

Definition too_many_labels (st : state) : bool := MAXLAB - 2 <? Labels st.

Definition AddLabel (p : string) : M unit :=
  st ← get;
  if too_many_labels st then exit_
  else modify (set_lab (lab st ++ [new_label p UNDEF (LiNo st) 0])).

(** [SymRefs(i)]: in the final pass append the reference (line, address
    mode); [Ref] and [Att] hold [NumRef + 1] entries. *)
Definition SymRefs (i : nat) : M unit :=
  st ← get;
  if negb (final_pass st) then mret tt
  else update_lab i (fun x =>
         mkLabel (Name x) (Address x) (Bytes x) (Paired x) (Locked x)
           (NumRef x + 1) (Ref x ++ [LiNo st]) (Att x ++ [am st])).

Definition EvalSymValue (p : string) : M (string * Z) :=
  st ← get;
  let '(Sym, q) := GetSymbol st p in
  match LabelIndex st Sym with
  | Some i =>
      let v := default UNDEF (Address <$> lab st !! i) in
      SymRefs i;;
      if final_pass st && (v =? UNDEF) then exit_ else mret (q, v)
  | None => AddLabel Sym;; mret (q, UNDEF)
  end.

Definition EvalSymBytes (p : string) : M (string * Z) :=
  st ← get;
  let '(Sym, q) := GetSymbol st p in
  match LabelIndex st Sym with
  | Some i =>
      let v := default UNDEF (Bytes <$> lab st !! i) in
      SymRefs i;; mret (q, v)
  | None => AddLabel Sym;; mret (q, UNDEF)
  end.

(** ** Constants: EvalDecValue, EvalHexValue, EvalOctValue, EvalBinValue,
       EvalCharValue *)

Definition digit_val (c : ascii) : Z :=
  if isdigit c then chr c - 48
  else if isupper c then chr c - 55
  else chr c - 87.

(** the value of the longest run of digits accepted by [ok], read in
    [base], and the text after it *)
Fixpoint scan_digits (ok : ascii -> bool) (base acc : Z) (p : string)
    : Z * string :=
  match p with
  | String c r =>
      if ok c then scan_digits ok base (acc * base + digit_val c) r
      else (acc, p)
  | EmptyString => (acc, p)
  end.

Fixpoint skip_while (ok : ascii -> bool) (p : string) : string :=
  match p with
  | String c r => if ok c then skip_while ok r else p
  | EmptyString => p
  end.

Definition isodigit (c : ascii) : bool := (48 <=? chr c) && (chr c <=? 55).

(** [*v = atoi(p)] at a digit; the result of [atoi] is open when the number
    does not fit an [int]. *)
Definition EvalDecValue (p : string) : M (string * Z) :=
  let '(v, q) := scan_digits isdigit 10 0 p in
  if negb (v <? 2147483648) then beyond
  else if negb (isalpha (peek q)) then mret (q, v)
  else exit_.

(** [sscanf(p,"%x",&w)] into an [unsigned int], then the cursor skips the
    hex digits.  Covered: a number that starts at [p] with a hex digit,
    has no 0x prefix and fits 32 bits. *)
Definition EvalHexValue (p : string) : M (string * Z) :=
  match p with
  | String c r =>
      if negb (isxdigit c) then beyond
      else if ceq c "0" && (ceq (peek r) "x" || ceq (peek r) "X") then beyond
      else
        let '(w, q) := scan_digits isxdigit 16 0 p in
        if w <? 4294967296 then mret (q, wrap w) else beyond
  | EmptyString => beyond
  end.

(** [sscanf(p,"%o",&w)]; the cursor then skips hex digits. *)
Definition EvalOctValue (p : string) : M (string * Z) :=
  if negb (isodigit (peek p)) then beyond
  else
    let '(w, _) := scan_digits isodigit 8 0 p in
    if w <? 4294967296 then mret (skip_while isxdigit p, wrap w) else beyond.

Fixpoint EvalBinValue_loop (r : Z) (p : string) : string * Z :=
  match p with
  | String c q =>
      if ceq c " " || ceq c "1" || ceq c "0" || ceq c "*" || ceq c "."
      then
        let r1 := if ceq c "1" || ceq c "*" then wrap (wrap (r * 2) + 1) else r in
        let r2 := if ceq c "0" || ceq c "." then wrap (r1 * 2) else r1 in
        EvalBinValue_loop r2 q
      else (p, r)
  | EmptyString => (p, r)
  end.

Definition EvalBinValue (p : string) : M (string * Z) :=
  mret (EvalBinValue_loop 0 p).

Definition escape_val (c : ascii) : Z :=
  if ceq c "r" then 13
  else if ceq c "n" then 10
  else if ceq c "a" then 7
  else if ceq c "e" then 27
  else if ceq c "0" then 0
  else schar c.

Definition EvalCharValue (p : string) : M (string * Z) :=
  match p with
  | EmptyString => mret (EmptyString, 32)
  | String c r =>
      if ceq c " " then mret (EmptyString, 32)
      else
        '(v, q) ← (if ceq c "\" then
                     match r with
                     | String e q => mret (escape_val e, q)
                     | EmptyString => beyond
                     end
                   else mret (schar c, r));
        match q with
        | String d q' => if ceq d APOSTROPHE then mret (q', v) else exit_
        | EmptyString => beyond
        end
  end.

(** ** Operators *)

Inductive unaop_foo : Type :=
| op_par | op_plu | op_min | op_lno | op_bno | op_low | op_hig
| op_prc | op_hex | op_cha | op_bin | op_len | op_oct.

Definition UNAOPS : Z := 14.

(** table of unary operators in C style *)
Definition unaop : list (ascii * unaop_foo) :=
  [ ("[", op_par)   (* bracket *)
  ; ("(", op_par)   (* parenthesis *)
  ; ("+", op_plu)   (* positive sign *)
  ; ("-", op_min)   (* negative sign *)
  ; ("!", op_lno)   (* logical NOT *)
  ; ("~", op_bno)   (* bitwise NOT *)
  ; ("<", op_low)   (* low byte *)
  ; (">", op_hig)   (* high byte *)
  ; ("*", op_prc)   (* program counter *)
  ; ("$", op_hex)   (* hex constant *)
  ; (APOSTROPHE, op_cha)   (* char constant *)
  ; ("%", op_bin)   (* binary constant *)
  ; ("?", op_len)   (* length of .BYTE data line *)
  ; ("@", op_oct)   (* octal constant *)
  ]%char.

(** [unastring] holds the operator characters of the first [unaops]
    entries: the test [strchr(unastring, *p)] and the loop over the table
    find the same entry. *)
Fixpoint find_unaop (c : ascii) (tbl : list (ascii * unaop_foo))
    : option unaop_foo :=
  match tbl with
  | [] => None
  | (d, f) :: r => if ceq c d then Some f else find_unaop c r
  end.

Definition unaop_of (st : state) (c : ascii) : option unaop_foo :=
  find_unaop c (take (Z.to_nat (unaops st)) unaop).

Inductive binop_foo : Type :=
| op_mul | op_div | op_add | op_sub | op_asl | op_lsr
| op_cle | op_clt | op_cge | op_cgt | op_ceq | op_cne
| op_xor | op_and | op_bnd | op_lor | op_bor.

Definition INT_MIN : Z := -2147483648.

(** The functions of the table.  The shift count is taken modulo 32, as the
    shift instructions of the hosts do; C leaves the other counts open.
    The division [l / r] of [op_div] has no result for [INT_MIN / -1]: the
    quotient is no [int], C leaves the operation open and the division of
    the hosts traps.  Every other quotient of two [int] is an [int]. *)
Definition binop_call (f : binop_foo) (l r : Z) : option Z :=
  match f with
  | op_mul => Some (wrap (l * r))
  | op_div => if r =? 0 then Some UNDEF
              else if (l =? INT_MIN) && (r =? -1) then None
              else Some (Z.quot l r)
  | op_add => Some (wrap (l + r))
  | op_sub => Some (wrap (l - r))
  | op_asl => Some (wrap (Z.shiftl l (r mod 32)))
  | op_lsr => Some (Z.shiftr l (r mod 32))
  | op_cle => Some (b2z (l <=? r))
  | op_clt => Some (b2z (l <? r))
  | op_cge => Some (b2z (r <=? l))
  | op_cgt => Some (b2z (r <? l))
  | op_ceq => Some (b2z (l =? r))
  | op_cne => Some (b2z (negb (l =? r)))
  | op_xor => Some (Z.lxor l r)
  | op_and => Some (b2z (z2b l && z2b r))
  | op_bnd => Some (Z.land l r)
  | op_lor => Some (b2z (z2b l || z2b r))
  | op_bor => Some (Z.lor l r)
  end.

Definition BINOPS : Z := 17.

(** table of binary operators in C style and priority *)
Definition binop : list (string * Z * binop_foo) :=
  [ ("*" , 11, op_mul)   (* Multiplication *)
  ; ("/" , 11, op_div)   (* Division *)
  ; ("+" , 10, op_add)   (* Addition *)
  ; ("-" , 10, op_sub)   (* Subtraction *)
  ; ("<<",  9, op_asl)   (* bitwise left  shift *)
  ; (">>",  9, op_lsr)   (* bitwise right shift *)
  ; ("<=",  8, op_cle)   (* less than or equal to *)
  ; ("<" ,  8, op_clt)   (* less than *)
  ; (">=",  8, op_cge)   (* greater than or equal to *)
  ; (">" ,  8, op_cgt)   (* greater than *)
  ; ("==",  7, op_ceq)   (* equal to *)
  ; ("!=",  7, op_cne)   (* not equal to *)
  ; ("^" ,  5, op_xor)   (* bitwise XOR *)
  ; ("&&",  3, op_and)   (* logical AND *)
  ; ("&" ,  6, op_bnd)   (* bitwise AND *)
  ; ("||",  2, op_lor)   (* logical OR *)
  ; ("|" ,  4, op_bor)   (* bitwise OR *)
  ].

(** the first entry whose text starts the rest of the line *)
Fixpoint find_binop (p : string) (tbl : list (string * Z * binop_foo))
    : option (string * Z * binop_foo) :=
  match tbl with
  | [] => None
  | (op, o, f) :: r =>
      if starts_with op p then Some (op, o, f) else find_binop p r
  end.

(** [if ( *v == UNDEF || w == UNDEF) *v = UNDEF; else *v = binop[i].foo( *v,w);] *)
Definition binop_apply (f : binop_foo) (v w : Z) : option Z :=
  if (v =? UNDEF) || (w =? UNDEF) then Some UNDEF else binop_call f v w.

(** what a unary operator does to the value of its operand *)
Definition unaop_value (f : unaop_foo) (v : Z) : Z :=
  match f with
  | op_min => wrap (- v)
  | op_lno => b2z (v =? 0)
  | op_bno => Z.lnot v
  | op_low => if v =? UNDEF then v else Z.land v 0xff
  | op_hig => if v =? UNDEF then v else Z.shiftr v 8
  | _ => v
  end.

(** ** EvalOperand

    [EvalOperand_ n p prio] is [EvalOperand(p, &v, prio)] with a budget of
    [n] nested calls and operator steps; [BinOps_] is its loop over the
    binary operators that follow the left operand. *)

Fixpoint EvalOperand_ (n : nat) (p : string) (prio : Z) {struct n}
    : M (string * Z) :=
  match n with
  | O => nofuel
  | S n' =>
      let p := SkipSpace p in
      match p with
      | EmptyString => exit_
      | String c r =>
          if ceq c "," then mret (p, UNDEF)   (* comma separator *)
          else
            st ← get;
            '(q, v) ←
              match unaop_of st c with
              | Some op_par =>
                  let closing := (if ceq c "[" then "]" else ")")%char in
                  '(q, v) ← EvalOperand_ n' r 0;
                  match strchr q closing with
                  | Some (String _ q') => mret (q', v)
                  | _ => exit_
                  end
              | Some op_prc => mret (r, pc st)
              | Some op_hex => EvalHexValue r
              | Some op_oct => EvalOctValue r
              | Some op_cha => EvalCharValue r
              | Some op_bin => EvalBinValue r
              | Some op_len => EvalSymBytes r
              | Some f =>
                  '(q, v) ← EvalOperand_ n' r 12;
                  mret (q, unaop_value f v)
              | None =>
                  if isdigit c && negb (isnnd p) then EvalDecValue p
                  else if isym p || isnnd p then EvalSymValue p
                  else exit_
              end;
            BinOps_ n' (SkipSpace q) v prio
      end
  end
with BinOps_ (n : nat) (p : string) (v prio : Z) {struct n}
    : M (string * Z) :=
  match n with
  | O => nofuel
  | S n' =>
      if negb (ceq (peek p) NUL) && mem_char (peek p) "=*/+-<>!&^|" then
        match find_binop p binop with
        | None => hang
        | Some (op, o, f) =>
            if o <=? prio then mret (p, v)
            else
              q ← inside (adv (String.length op) p);
              '(q', w) ← EvalOperand_ n' q o;
              x ← inside (binop_apply f v w);
              BinOps_ n' q' x prio
        end
      else mret (p, v)
  end.

Definition EvalOperand (p : string) (prio : Z) : M (string * Z) :=
  EvalOperand_ (2 * String.length p + 2) p prio.

(** ** DefineLabel *)

Definition tail (p : string) : string :=
  match p with String _ r => r | EmptyString => EmptyString end.

Definition lab_at (j : nat) : M LabelStruct :=
  st ← get; inside (lab st !! j).

(** [j = LabelIndex(Label); if (j < 0) { j = Labels; ... Labels++; }] *)
Definition find_or_add (name : string) (addr att : Z) : M nat :=
  st ← get;
  match LabelIndex st name with
  | Some j => mret j
  | None =>
      modify (set_lab (lab st ++ [new_label name addr (LiNo st) att]));;
      mret (length (lab st))
  end.

(** [++BOC[Pass-1]] *)
Definition count_change : M unit :=
  modify (fun s => set_BOC (alter Z.succ (Z.to_nat (Pass s - 1)) (BOC s)) s).

(** [NAME = expr] *)
Definition DefineLabel_assign (p : string) (Locked_ : bool)
    : M (string * option Z) :=
  st ← get;
  j ← find_or_add (Label st) UNDEF LDEF;
  update_lab j (set_Def (LiNo st) LDEF);;
  '(q, v) ← EvalOperand (tail p) 0;
  x ← lab_at j;
  st1 ← get;
  (if Address x =? UNDEF then update_lab j (set_Address v)
   else if negb (Address x =? v) && negb (Locked x) then
     if Pass st1 <? MaxPass st1 then update_lab j (set_Address v)
     else exit_          (* Multiple assignments for label *)
   else mret tt);;
  when_ Locked_ (update_lab j (set_Locked true));;
  mret (q, Some v).

(** [NAME .BSS n] *)
Definition DefineLabel_bss (p : string) : M (string * option Z) :=
  p4 ← inside (adv 4 p);
  '(q, v) ← EvalOperand p4 0;
  st ← get;
  j ← find_or_add (Label st) UNDEF LBSS;
  update_lab j (set_Def (LiNo st) LBSS);;
  x ← lab_at j;
  (if Address x =? UNDEF then update_lab j (set_Address (bss st))
   else if negb (Address x =? bss st) then exit_
   else mret tt);;
  modify (set_bss (wrap (bss st + v)));;
  mret (q, Some (bss st)).

(** a label on its own: the value is the program counter *)
Definition DefineLabel_position (p : string) : M (string * option Z) :=
  st ← get;
  j ← match LabelIndex st (Label st) with
      | None =>
          modify (set_lab (lab st ++ [new_label (Label st) (pc st) (LiNo st) LPOS]));;
          mret (length (lab st))
      | Some j =>
          x ← lab_at j;
          (if Address x =? UNDEF then update_lab j (set_Address (pc st))
           else if negb (Address x =? pc st) && negb (Locked x) then
             if Pass st =? 1 then exit_        (* Multiple label definition *)
             else if Pass st <? MaxPass st then
               update_lab j (set_Address (pc st));; count_change
             else exit_                        (* Phase error *)
           else mret tt);;
          mret j
      end;
  x ← lab_at j;
  update_lab j (set_Def (LiNo st) LPOS);;
  mret (p, if Locked x then None else Some (pc st)).

(** [DefineLabel(p, &val, Locked)]: the cursor after the definition and the
    value stored through [val], if one is stored *)
Definition DefineLabel (p : string) (Locked_ : bool) : M (string * option Z) :=
  st ← get;
  if too_many_labels st then exit_
  else
    let '(sym, p) := GetSymbol st p in
    modify (set_Label sym);;
    (* in BSO mode use scope *)
    when_ (BSO_Mode st && isalpha (peek sym)
           && (strncmp sym (Line st) (String.length sym) =? 0))
          (modify (fun s => set_ModuleStart (pc s) (set_Scope sym s)));;
    let p := if ceq (peek p) ":" then tail p else p in   (* Ignore colon *)
    let p := SkipSpace p in
    if ceq (peek p) "=" then DefineLabel_assign p Locked_
    else if keyword ".BSS" p then DefineLabel_bss p
    else DefineLabel_position p.

(** ** SetPC and SetBSS *)

Definition SetPC (p : string) : M string :=
  q ← (if ceq (peek p) "*" then
         match strchr p "=" with
         | Some q => mret q
         | None => exit_
         end
       else inside (adv 3 p));      (* .ORG syntax *)
  q1 ← inside (adv 1 q);
  '(r, v) ← EvalOperand q1 0;
  modify (set_pc v);;
  st ← get;
  when_ (LoadAddress st =? UNDEF) (modify (set_LoadAddress v));;
  when_ (v <? GenStart st) (modify (set_GenStart v));;   (* lowest pc value *)
  mret r.

Definition SetBSS (p : string) : M string :=
  match strchr p "=" with
  | None => exit_
  | Some q =>
      '(r, v) ← EvalOperand (tail q) 0;
      modify (set_bss v);;
      mret r
  end.

(** ** Data directives *)

Fixpoint SkipToComma (p : string) : string :=
  match p with
  | String c r => if ceq c "," || ceq c ";" then p else SkipToComma r
  | EmptyString => p
  end.

(** [while ( *p && *p != ';')] *)
Definition more_data (p : string) : bool :=
  negb (ceq (peek p) NUL) && negb (ceq (peek p) ";").

(** [p = SkipToComma(p); if ( *p == ',') ++p;] *)
Definition next_item (p : string) : string :=
  let q := SkipToComma p in
  if ceq (peek q) "," then tail q else q.

(** [ByteBuffer[l++] = b] with [unsigned char ByteBuffer[ML]]: the model
    keeps the first [l] bytes of the buffer. *)
Definition push (buf : list Z) (b : Z) : M (list Z) :=
  if Z.of_nat (length buf) <? ML then mret (buf ++ [Z.land b 0xff])
  else beyond.

Definition lo_byte (v : Z) : Z := Z.land v 0xff.
Definition hi_byte (v : Z) : Z := Z.shiftr v 8.

(** [for ( ; j < Labels ; ++j) if (lab[j].Address == pc) lab[j].Bytes = l;]
    from the first label at [pc] on, which is every label at [pc] *)
Definition set_lengths (l : Z) : M unit :=
  modify (fun s =>
    set_lab (map (fun x => if Address x =? pc s then set_Bytes l x else x)
                 (lab s)) s).

(** the common end of the data directives: record the length, write the
    bytes in the final pass, advance the program counter *)
Definition emit_data (buf : list Z) : M unit :=
  let l := Z.of_nat (length buf) in
  set_lengths l;;
  st ← get;
  when_ (final_pass st) (store_bytes (pc st) buf);;
  modify (set_pc (pc st + l)).

(** one turn of the loop of [ParseWordData] *)
Definition word_item (p : string) (bigendian : bool) (buf : list Z)
    : M (string * list Z) :=
  '(q, v) ← EvalOperand (SkipSpace p) 0;
  st ← get;
  if (v =? UNDEF) && final_pass st then exit_   (* Undefined symbol *)
  else
    buf1 ← push buf (if bigendian then hi_byte v else lo_byte v);
    buf2 ← push buf1 (if bigendian then lo_byte v else hi_byte v);
    mret (next_item q, buf2).

Fixpoint ParseWordData_loop (n : nat) (p : string) (bigendian : bool)
    (buf : list Z) : M (string * list Z) :=
  if more_data p then
    match n with
    | O => nofuel
    | S n' =>
        '(q, buf') ← word_item p bigendian buf;
        ParseWordData_loop n' q bigendian buf'
    end
  else mret (p, buf).

Definition ParseWordData (p : string) (bigendian : bool) : M string :=
  '(q, buf) ← ParseWordData_loop (String.length p) p bigendian [];
  if Z.of_nat (length buf) <? 1 then exit_     (* Missing WORD data *)
  else emit_data buf;; mret q.

(** the values of the items of a data line, read the way the loop of
    [ParseWordData] reads them *)
Fixpoint word_values (n : nat) (p : string) : M (list Z) :=
  if more_data p then
    match n with
    | O => nofuel
    | S n' =>
        '(q, v) ← EvalOperand (SkipSpace p) 0;
        st ← get;
        if (v =? UNDEF) && final_pass st then exit_
        else vs ← word_values n' (next_item q); mret (v :: vs)
    end
  else mret [].

(** *** .BYTE, .PET, .DISP *)

Definition ASCII : Z := 0.
Definition PETSCII : Z := 1.
Definition SCREENCODE : Z := 2.

Definition byte_escape (c : ascii) : Z :=
  if ceq c "r" then 13
  else if ceq c "n" then 10
  else if ceq c "a" then 7
  else if ceq c "e" then 27
  else if ceq c "0" then 0
  else chr c.

(** the loop of [ParseASCII] *)
Fixpoint ParseASCII_loop (n : nat) (Delimiter : ascii) (p : string)
    (b : list Z) : M (string * list Z) :=
  match p with
  | EmptyString => mret (p, b)
  | String c r =>
      if (negb (ceq c Delimiter) || ceq (peek r) c)
         && (Z.of_nat (length b) <? ML - 1) then
        match n with
        | O => nofuel
        | S n' =>
            if ceq c "\" then          (* special character CR, LF, NULL *)
              match r with
              | String e q => ParseASCII_loop n' Delimiter q (b ++ [byte_escape e])
              | EmptyString => beyond
              end
            else if ceq c APOSTROPHE && ceq (peek r) APOSTROPHE then
              ParseASCII_loop n' Delimiter (tail r) (b ++ [chr c])
            else ParseASCII_loop n' Delimiter r (b ++ [chr c])
        end
      else mret (p, b)
  end.

(** [b[( *l)-1] |= 0x80] : Set bit 7 of last char *)
Definition set_bit7 (b : list Z) : M (list Z) :=
  match length b with
  | O => beyond
  | S i => mret (alter (fun x => Z.lor x 0x80) i b)
  end.

Definition ParseASCII (p : string) (b : list Z) : M (string * list Z) :=
  match p with
  | EmptyString => beyond
  | String Delimiter r =>
      '(q, b1) ← ParseASCII_loop (String.length r) Delimiter r b;
      let q := if negb (ceq (peek q) NUL) && ceq (peek q) Delimiter
               then tail q else q in
      '(q, b2) ← (if ceq (peek q) "^" then
                    b' ← set_bit7 b1; mret (tail q, b')
                  else mret (q, b1));
      if starts_with "+$80" q then
        b' ← set_bit7 b2; q' ← inside (adv 4 q); mret (q', b')
      else mret (q, b2)
  end.

(** the recoding of the bytes from index [i] on *)
Definition to_petscii (x : Z) : Z :=
  let x := if (65 <=? x) && (x <=? 90) then Z.lor x 0x80 else x in
  if (97 <=? x) && (x <=? 122) then x - 0x20 else x.

Definition to_screencode (x : Z) : Z :=
  if (97 <=? x) && (x <=? 122) then x - 0x60 else x.

Definition recode (Charset : Z) (i : nat) (b : list Z) : list Z :=
  let f := if Charset =? PETSCII then to_petscii
           else if Charset =? SCREENCODE then to_screencode
           else fun x => x in
  take i b ++ map f (drop i b).

(** [p[k]] as an [int] *)
Definition char_at (p : string) (k : nat) : M Z :=
  c ← inside (at_ p k); mret (schar c).

(** [Delimiter == d && p[1] == '"' && p[5] == '"'] *)
Definition packed (d : ascii) (p : string) : M bool :=
  if ceq (peek p) d && negb (ceq d NUL) then
    if ceq (peek (tail p)) DQUOTE then
      c5 ← inside (at_ p 5); mret (ceq c5 DQUOTE)
    else mret false
  else mret false.

(** a numeric item: the low byte, and the high byte when the value is no
    byte and the item does not start with a byte operator *)
Definition byte_number (Delimiter : ascii) (p : string) (buf : list Z)
    : M (string * list Z) :=
  '(q, v) ← EvalOperand p 0;
  st ← get;
  if (v =? UNDEF) && final_pass st then exit_   (* Undefined symbol *)
  else
    buf1 ← push buf (lo_byte v);
    if negb (ceq Delimiter "<") && negb (ceq Delimiter ">")
       && ((255 <? v) || (v <? -127))
    then buf2 ← push buf1 (hi_byte v); mret (q, buf2)
    else mret (q, buf1).

(** [<"XXX"], [>"XXX"]: Packed ASCII; [#"XXX"]: Hashed ASCII.  Each stores
    from [ByteBuffer[0]] on and resets the length. *)
Definition packed_low (p : string) : M (string * list Z) :=
  c3 ← char_at p 3; c4 ← char_at p 4; q ← inside (adv 6 p);
  mret (q, [Z.land (Z.lor ((c3 - 63) * 64) ((c4 - 63) * 2)) 0xff]).

Definition packed_high (p : string) : M (string * list Z) :=
  c2 ← char_at p 2; c3 ← char_at p 3; q ← inside (adv 6 p);
  mret (q, [Z.land (Z.lor ((c2 - 63) * 8) (Z.shiftr (c3 - 63) 2)) 0xff]).

Definition hashed (p : string) : M (string * list Z) :=
  c2 ← char_at p 2; c3 ← char_at p 3; c4 ← char_at p 4;
  q ← inside (adv 6 p);
  let v := c4 - 64 + 27 * (c3 - 64 + 27 * (c2 - 64)) in
  mret (q, [Z.land v 0xff; Z.land (Z.shiftr v 8) 0xff]).

Definition quoted (p : string) (Charset : Z) (buf : list Z)
    : M (string * list Z) :=
  '(q, b) ← ParseASCII p buf;
  mret (q, recode Charset (length buf) b).

(** the form of a [.BYTE] item, decided by the if-chain at the head of the
    loop of [ParseByteData] *)
Inductive byte_form : Type :=
| PackedLow | PackedHigh | Hashed | Quoted | Number.

Definition byte_form_of (p : string) : M byte_form :=
  let Delimiter := peek p in
  lo ← packed "<" p;
  if (lo : bool) then mret PackedLow
  else
    hi ← packed ">" p;
    if (hi : bool) then mret PackedHigh
    else
      ha ← packed "#" p;
      if (ha : bool) then mret Hashed
      else if ceq Delimiter DQUOTE || ceq Delimiter APOSTROPHE
      then mret Quoted
      else mret Number.

(** one turn of the loop of [ParseByteData] *)
Definition byte_item (p : string) (Charset : Z) (buf : list Z)
    : M (string * list Z) :=
  let p := SkipSpace p in
  form ← byte_form_of p;
  '(q, buf') ←
    match form with
    | PackedLow => packed_low p
    | PackedHigh => packed_high p
    | Hashed => hashed p
    | Quoted => quoted p Charset buf
    | Number => byte_number (peek p) p buf
    end;
  mret (next_item q, buf').

Fixpoint ParseByteData_loop (n : nat) (p : string) (Charset : Z)
    (buf : list Z) : M (string * list Z) :=
  if more_data p then
    match n with
    | O => nofuel
    | S n' =>
        '(q, buf') ← byte_item p Charset buf;
        ParseByteData_loop n' q Charset buf'
    end
  else mret (p, buf).

Definition ParseByteData (p : string) (Charset : Z) : M string :=
  '(q, buf) ← ParseByteData_loop (String.length p) p Charset [];
  if Z.of_nat (length buf) <? 1 then exit_     (* Missing byte data *)
  else emit_data buf;; mret q.

(** *** .BSS *)

Definition ParseBSSData (p : string) : M string :=
  '(q, m) ← EvalOperand p 0;
  if (m <? 1) || (32767 <? m) then exit_        (* Illegal BSS size *)
  else modify (fun s => set_bss (wrap (bss s + m)) s);; mret q.

(** *** .FILL, .BITS, .LITS, .HEX4, .DEC4, .QUAD

    These directives do not set the length of the labels at [pc]. *)

Definition emit_raw (buf : list Z) : M unit :=
  st ← get;
  when_ (final_pass st) (store_bytes (pc st) buf);;
  modify (set_pc (pc st + Z.of_nat (length buf))).

Definition ParseFillData (p : string) : M string :=
  '(q, m) ← EvalOperand p 0;
  if (m <? 0) || (32767 <? m) then exit_        (* Illegal FILL multiplier *)
  else
    match strchr q "(" with
    | None => exit_                             (* Missing '(' *)
    | Some q1 =>
        '(r, v) ← EvalOperand (tail q1) 0;
        emit_raw (replicate (Z.to_nat m) (Z.land v 0xff));;
        mret r
    end.

(** the loop of [ParseBitData] ([msb = true]) and [ParseLitData] *)
Fixpoint bits_loop (n : nat) (msb : bool) (v : Z) (p : string)
    : M (string * Z) :=
  match n with
  | O => mret (p, v)
  | S n' =>
      let v := if msb then v * 2 else Z.shiftr v 1 in
      p1 ← inside (adv 1 p);
      let q := SkipSpace p1 in
      if ceq (peek q) "*" then
        bits_loop n' msb (Z.lor v (if msb then 1 else 128)) q
      else if negb (ceq (peek q) ".") then exit_
      else bits_loop n' msb v q
  end.

Definition ParseBitData (p : string) : M string :=
  '(q, v) ← bits_loop 8 true 0 p;
  emit_raw [v];; mret q.

Definition ParseLitData (p : string) : M string :=
  '(q, v) ← bits_loop 8 false 0 p;
  emit_raw [v];; mret q.

Definition hex_char (d : Z) : Z := if d <? 10 then 48 + d else 55 + d.

(** [sprintf(hbuf,"%4.4X",v & 0xffff)] *)
Definition hex4 (v : Z) : list Z :=
  let w := Z.land v 0xffff in
  [ hex_char (Z.shiftr w 12); hex_char (Z.land (Z.shiftr w 8) 15);
    hex_char (Z.land (Z.shiftr w 4) 15); hex_char (Z.land w 15) ].

Definition ParseHex4Data (p : string) : M string :=
  '(q, v) ← EvalOperand p 0;
  emit_raw (hex4 v);; mret q.

(** the decimal digits of a natural number, most significant first *)
Fixpoint dec_digits (n : nat) (v : Z) (acc : list Z) : list Z :=
  match n with
  | O => acc
  | S n' =>
      let acc := (48 + v mod 10) :: acc in
      if v / 10 =? 0 then acc else dec_digits n' (v / 10) acc
  end.

(** [sprintf(hbuf,"%4d",v)] into [char hbuf[10]], followed by the
    terminator *)
Definition dec4 (v : Z) : list Z :=
  let body := (if v <? 0 then [45] else []) ++ dec_digits 10 (Z.abs v) [] in
  replicate (4 - length body) 32 ++ body.

Definition ParseDec4Data (p : string) : M string :=
  '(q, v) ← EvalOperand p 0;
  st ← get;
  (if final_pass st then
     if 9 <? Z.of_nat (length (dec4 v)) then beyond
     else store_bytes (pc st) (take 4 (dec4 v))
   else mret tt);;
  modify (set_pc (pc st + 4));; mret q.

(** [.QUAD]: [ParseLongData(p, 4)].  Covered: [$] followed by [l] pairs of
    hex digits, or a decimal number without sign that fits an [int].  The
    bytes pass through the scratch buffer [Operand], which nothing reads
    before [ParseLine] clears it. *)
Fixpoint hex_pairs (l : nat) (p : string) : option (list Z * string) :=
  match l with
  | O => Some ([], p)
  | S l' =>
      match p with
      | String a (String b r) =>
          if isxdigit a && isxdigit b then
            match hex_pairs l' r with
            | Some (bs, q) => Some (digit_val a * 16 + digit_val b :: bs, q)
            | None => None
            end
          else None
      | _ => None
      end
  end.

Definition ParseLongData (p : string) (l : nat) : M string :=
  let p := SkipSpace p in
  '(bytes, q) ←
    (if ceq (peek p) "$" then inside (hex_pairs l (tail p))
     else
       let '(w, _) := scan_digits isdigit 10 0 p in
       if isdigit (peek p) && (w <? 2147483648) then
         mret (take l [ Z.land (Z.shiftr w 24) 255; Z.land (Z.shiftr w 16) 255;
                        Z.land (Z.shiftr w 8) 255; Z.land w 255 ], p)
       else beyond);
  emit_raw bytes;; mret q.

(** *** .CPU, .BASE, .CASE *)

Definition CPU_Names : list (string * Z) :=
  [ ("6502", CPU_6502); ("65SC02", CPU_65SC02); ("65C02", CPU_65C02);
    ("45GS02", CPU_45GS02); ("65816", CPU_65816) ].

Fixpoint find_cpu (p : string) (tbl : list (string * Z)) : option Z :=
  match tbl with
  | [] => None
  | (name, t) :: r => if keyword name p then Some t else find_cpu p r
  end.

Definition ParseCPUData (p : string) : M string :=
  let p := SkipSpace p in
  match find_cpu p CPU_Names with
  | Some t => modify (set_CPU_Type t);; mret p
  | None => exit_                               (* Unsupported CPU type *)
  end.

Definition ParseBaseData (p : string) : M string :=
  '(q, v) ← EvalOperand p 0;
  modify (set_bp v);;
  if (v <? 0) || (255 <? v) then exit_ else mret q.

Definition ParseCaseData (p : string) : M string :=
  let p := SkipSpace p in
  if ceq (peek p) "+" then modify (set_IgnoreCase false);; mret (tail p)
  else if ceq (peek p) "-" then modify (set_IgnoreCase true);; mret (tail p)
  else exit_.

(** ** .STORE

    [if (Pass < MaxPass) return p;] In the final pass the directive writes
    a file, which is not embedded. *)
Definition ParseStoreData (p : string) : M string :=
  st ← get;
  if Pass st <? MaxPass st then mret p else beyond.

(** ** IsPseudo *)

Definition to_end (p : string) : string := EmptyString.

Definition after (n : nat) (p : string) (k : string -> M string) : M string :=
  q ← inside (adv n p); k q.

(** the if-chain of [IsPseudo]: keyword and action, in the order of the
    tests *)
Definition pseudo_ops : list (string * (string -> M string)) :=
  [ ("WORD", fun p => after 4 p (fun q => ParseWordData q false))
  ; ("BIGW", fun p => after 4 p (fun q => ParseWordData q true))
  ; ("HEX4", fun p => after 4 p ParseHex4Data)
  ; ("DEC4", fun p => after 4 p ParseDec4Data)
  ; ("WOR", fun p => after 3 p (fun q => ParseWordData q false))
  ; ("BYTE", fun p => after 4 p (fun q => ParseByteData q ASCII))
  ; ("BYT", fun p => after 3 p (fun q => ParseByteData q ASCII))
  ; ("PET", fun p => after 3 p (fun q => ParseByteData q PETSCII))
  ; ("DISP", fun p => after 4 p (fun q => ParseByteData q SCREENCODE))
  ; ("BITS", fun p => after 4 p ParseBitData)
  ; ("LITS", fun p => after 4 p ParseLitData)
  ; ("QUAD", fun p => after 4 p (fun q => ParseLongData q 4))
  ; ("REAL", fun p => beyond)
  ; ("FILL", fun p => after 4 p ParseFillData)
  ; ("BSS", fun p => after 4 p ParseBSSData)
  ; ("STORE", fun p => after 5 p ParseStoreData)
  ; ("CPU", fun p => after 3 p ParseCPUData)
  ; ("BASE", fun p => after 4 p ParseBaseData)
  ; ("CASE", fun p => after 4 p ParseCaseData)
  ; ("ORG", SetPC)
  ; ("LOAD", fun p => modify (set_WriteLA true);; mret p)
  ; ("INCLUDE", fun p => beyond)
  ; ("!SRC", fun p => beyond)
  ; ("SIZE", fun p => mret (to_end p))
  ; ("SKI", fun p => mret (to_end p))
  ; ("PAG", fun p => mret (to_end p))
  ; ("NAM", fun p => mret (to_end p))
  ; ("SUBTTL", fun p => mret (to_end p))
  ; ("END", fun p => mret (to_end p))
  ; ("!ADDR ", fun p => after 6 p mret)
  ].

Fixpoint find_pseudo (p : string) (tbl : list (string * (string -> M string)))
    : option (string -> M string) :=
  match tbl with
  | [] => None
  | (kw, action) :: r => if keyword kw p then Some action else find_pseudo p r
  end.

Definition IsPseudo (p : string) : M string :=
  q ← match find_pseudo p pseudo_ops with
      | Some action => action p
      | None => mret p
      end;
  st ← get;
  if (0x10000 <? pc st) && negb (pc st =? UNDEF) then exit_  (* pc overflow *)
  else mret q.

(** ** Conditional assembly *)

(** [Skipping = SkipLine[1] | ... | SkipLine[IfLevel]] *)
Definition CheckSkip : M unit :=
  modify (fun s =>
    set_Skipping
      (existsb (fun b => b) (take (Z.to_nat (IfLevel s)) (drop 1 (SkipLine s)))) s).

Definition set_skip (b : bool) : M unit :=
  modify (fun s => set_SkipLine (<[Z.to_nat (IfLevel s) := b]> (SkipLine s)) s).

Definition end_or_space (c : ascii) : bool := ceq c NUL || isspace c.

(** the [#endif] test at the end of [CheckCondition] *)
Definition check_endif (p : string) (r : bool) : M bool :=
  if keyword "endif" p && end_or_space (default NUL (at_ p 5)) then
    modify (fun s => set_IfLevel (IfLevel s - 1) s);;
    st ← get;
    if IfLevel st <? 0 then exit_               (* endif without if *)
    else CheckSkip;; mret true
  else mret r.

(** [CheckCondition(p)]: true when the line was a directive of the
    conditional assembly *)
Definition CheckCondition (p : string) : M bool :=
  if negb (ceq (peek p) "#") then mret false    (* No preprocessing *)
  else
    let p := SkipSpace (tail p) in
    st ← get;
    if keyword "error" p && (Pass st =? 1) then
      CheckSkip;;
      st1 ← get;
      if Skipping st1 then mret false else exit_
    else
      let Ifdef := keyword "ifdef " p in
      let Ifval := keyword "if " p in
      if Ifdef || Ifval then
        modify (set_IfLevel (IfLevel st + 1));;
        if 9 <? IfLevel st + 1 then exit_       (* More than 10 nested *)
        else
          p' ← inside (adv (if Ifdef then 6 else 3) p);
          '(q, v) ← EvalOperand p' 0;
          set_skip (if Ifdef then v =? UNDEF else (v =? UNDEF) || (v =? 0));;
          CheckSkip;;
          check_endif q true
      else if keyword "else" p && end_or_space (default NUL (at_ p 4)) then
        st1 ← get;
        set_skip (negb (default false (SkipLine st1 !! Z.to_nat (IfLevel st1))));;
        CheckSkip;;
        check_endif p true
      else check_endif p false.

(** ** The instruction set tables *)

Definition C45 : Z := 0xf7.
Definition C16 : Z := 0xef.

Definition AM_None : Z := -1.
Definition AM_Dpag : Z := 0.
Definition AM_Abso : Z := 1.
Definition AM_Dpgx : Z := 2.
Definition AM_Absx : Z := 3.
Definition AM_Indx : Z := 4.
Definition AM_Imme : Z := 5.
Definition AM_Indy : Z := 6.
Definition AM_Absy : Z := 7.
Definition AM_Indz : Z := 8.
Definition AM_Rela : Z := 9.
Definition AM_Relo : Z := 10.
Definition AM_Bits : Z := 11.
Definition AM_Impl : Z := 12.
Definition AM_Indi : Z := 13.
Definition AM_Quad : Z := 14.

(** Mnemonics with implied address mode: mnemonic, CPU type, opcode *)
Definition Imp : list (string * Z * Z) :=
  [ ("BRK", 0, 0x00); ("PHP", 0, 0x08); ("ASL", 0, 0x0a);
    ("CLC", 0, 0x18); ("PLP", 0, 0x28); ("ROL", 0, 0x2a);
    ("BIT", 0, 0x2c); ("SEC", 0, 0x38); ("RTI", 0, 0x40);
    ("ASR", 0, 0x43); ("PHA", 0, 0x48); ("LSR", 0, 0x4a);
    ("CLI", 0, 0x58); ("RTS", 0, 0x60); ("PLA", 0, 0x68);
    ("ROR", 0, 0x6a); ("SEI", 0, 0x78); ("DEY", 0, 0x88);
    ("TXA", 0, 0x8a); ("TYA", 0, 0x98); ("TXS", 0, 0x9a);
    ("TAY", 0, 0xa8); ("TAX", 0, 0xaa); ("CLV", 0, 0xb8);
    ("TSX", 0, 0xba); ("INY", 0, 0xc8); ("DEX", 0, 0xca);
    ("CLD", 0, 0xd8); ("INX", 0, 0xe8); ("NOP", 0, 0xea);
    ("SED", 0, 0xf8); ("INA", 1, 0x1a); ("INC", 1, 0x1a);
    ("DEA", 1, 0x3a); ("DEC", 1, 0x3a); ("PHY", 1, 0x5a);
    ("PLY", 1, 0x7a); ("PHX", 1, 0xda); ("PLX", 1, 0xfa);
    ("CLE", C45, 0x02); ("SEE", C45, 0x03); ("TSY", C45, 0x0b);
    ("INZ", C45, 0x1b); ("TYS", C45, 0x2b); ("DEZ", C45, 0x3b);
    ("NEG", C45, 0x42); ("TAZ", C45, 0x4b); ("TAB", C45, 0x5b);
    ("AUG", C45, 0x5c); ("MAP", C45, 0x5c); ("TZA", C45, 0x6b);
    ("TBA", C45, 0x7b); ("PHZ", C45, 0xdb); ("EOM", C45, 0xea);
    ("PLZ", C45, 0xfb); ("PHD", C16, 0x0b); ("TCS", C16, 0x1b);
    ("PLD", C16, 0x2b); ("TSA", C16, 0x3b); ("TSC", C16, 0x3b);
    ("WDM", C16, 0x42); ("MVP", C16, 0x44); ("PHK", C16, 0x4b);
    ("MVN", C16, 0x54); ("TCD", C16, 0x5b); ("RTL", C16, 0x6b);
    ("TDC", C16, 0x7b); ("PHB", C16, 0x8b); ("PLB", C16, 0xab);
    ("TYX", C16, 0xbb); ("WAI", C16, 0xcb); ("STP", C16, 0xdb);
    ("SWA", C16, 0xeb); ("XBA", C16, 0xeb); ("XCE", C16, 0xfb) ].

Definition Rel : list (string * Z * Z) :=
  [ ("BPL", 0, 0x10); ("BMI", 0, 0x30); ("BVC", 0, 0x50);
    ("BVS", 0, 0x70); ("BCC", 0, 0x90); ("BCS", 0, 0xb0);
    ("BNE", 0, 0xd0); ("BEQ", 0, 0xf0); ("BRA", 1, 0x80);
    ("BRU", 1, 0x80); ("BSR", 1, 0x63) ].

Definition Bit : list (string * Z * Z) :=
  [ ("RMB", C45, 0x07); ("SMB", C45, 0x87); ("BBR", C45, 0x0f);
    ("BBS", C45, 0x8f) ].

Definition Gen : list (string * Z * list Z) :=
  [ ("ORA", 0, [0x05; 0x0d; 0x15; 0x1d; 0x01; 0x09; 0x11; 0x19; 0x12]);
    ("AND", 0, [0x25; 0x2d; 0x35; 0x3d; 0x21; 0x29; 0x31; 0x39; 0x32]);
    ("EOR", 0, [0x45; 0x4d; 0x55; 0x5d; 0x41; 0x49; 0x51; 0x59; 0x52]);
    ("ADC", 0, [0x65; 0x6d; 0x75; 0x7d; 0x61; 0x69; 0x71; 0x79; 0x72]);
    ("STA", 0, [0x85; 0x8d; 0x95; 0x9d; 0x81; (-1); 0x91; 0x99; 0x92]);
    ("LDA", 0, [0xa5; 0xad; 0xb5; 0xbd; 0xa1; 0xa9; 0xb1; 0xb9; 0xb2]);
    ("CMP", 0, [0xc5; 0xcd; 0xd5; 0xdd; 0xc1; 0xc9; 0xd1; 0xd9; 0xd2]);
    ("SBC", 0, [0xe5; 0xed; 0xf5; 0xfd; 0xe1; 0xe9; 0xf1; 0xf9; 0xf2]);
    ("ASL", 0, [0x06; 0x0e; 0x16; 0x1e; (-1); (-1); (-1); (-1); (-1)]);
    ("ROL", 0, [0x26; 0x2e; 0x36; 0x3e; (-1); (-1); (-1); (-1); (-1)]);
    ("LSR", 0, [0x46; 0x4e; 0x56; 0x5e; (-1); (-1); (-1); (-1); (-1)]);
    ("ROR", 0, [0x66; 0x6e; 0x76; 0x7e; (-1); (-1); (-1); (-1); (-1)]);
    ("DEC", 0, [0xc6; 0xce; 0xd6; 0xde; (-1); (-1); (-1); (-1); (-1)]);
    ("INC", 0, [0xe6; 0xee; 0xf6; 0xfe; (-1); (-1); (-1); (-1); (-1)]);
    ("ASR", C45, [0x44; (-1); 0x54; (-1); (-1); (-1); (-1); (-1); (-1)]);
    ("BIT", 0, [0x24; 0x2c; 0x34; 0x3c; (-1); 0x89; (-1); (-1); (-1)]);
    ("JMP", 0, [(-1); 0x4c; (-1); (-1); 0x7c; (-1); (-1); (-1); 0x6c]);
    ("JSR", 0, [(-1); 0x20; (-1); (-1); 0x23; (-1); (-1); (-1); 0x22]);
    ("CPX", 0, [0xe4; 0xec; (-1); (-1); (-1); 0xe0; (-1); (-1); (-1)]);
    ("CPY", 0, [0xc4; 0xcc; (-1); (-1); (-1); 0xc0; (-1); (-1); (-1)]);
    ("LDX", 0, [0xa6; 0xae; (-1); (-1); (-1); 0xa2; (-1); 0xbe; (-1)]);
    ("LDY", 0, [0xa4; 0xac; 0xb4; 0xbc; (-1); 0xa0; (-1); (-1); (-1)]);
    ("STX", 0, [0x86; 0x8e; (-1); (-1); (-1); (-1); (-1); 0x9b; (-1)]);
    ("STY", 0, [0x84; 0x8c; 0x94; 0x8b; (-1); (-1); (-1); (-1); (-1)]);
    ("STZ", 1, [0x64; 0x9c; 0x74; 0x9e; (-1); (-1); (-1); (-1); (-1)]);
    ("CPZ", C45, [0xd4; 0xdc; (-1); (-1); (-1); 0xc2; (-1); (-1); (-1)]);
    ("LDZ", C45, [(-1); 0xab; (-1); 0xbb; (-1); 0xa3; (-1); (-1); (-1)]);
    ("ASW", C45, [(-1); 0xcb; (-1); (-1); (-1); (-1); (-1); (-1); (-1)]);
    ("ROW", C45, [(-1); 0xeb; (-1); (-1); (-1); (-1); (-1); (-1); (-1)]);
    ("DEW", C45, [0xc3; (-1); (-1); (-1); (-1); (-1); (-1); (-1); (-1)]);
    ("INW", C45, [0xe3; (-1); (-1); (-1); (-1); (-1); (-1); (-1); (-1)]);
    ("PHW", C45, [(-1); 0xfc; (-1); (-1); (-1); 0xf4; (-1); (-1); (-1)]);
    ("TSB", C45, [0x04; 0x0c; (-1); (-1); (-1); (-1); (-1); (-1); (-1)]);
    ("TRB", C45, [0x14; 0x1c; (-1); (-1); (-1); (-1); (-1); (-1); (-1)]) ].

(** mnemonics for 45GS02 32 bit instructions with the Q register *)
Definition MneQ : list string :=
  [ "ORQ"; "ANDQ"; "EORQ"; "ADCQ"; "STQ"; "LDQ"; "CMPQ"; "SBCQ";
    "ASLQ"; "ROLQ"; "LSRQ"; "RORQ"; "DEQ"; "INQ"; "ASRQ"; "BITQ" ].

(** [Gen[i].Opc[m]]: the initialiser gives nine of the [AM_MODES] entries,
    the others are zero. *)
Definition Gen_Opc (i m : Z) : Z :=
  match Gen !! Z.to_nat i with
  | Some (_, _, opc) => if (0 <=? m) && (m <? 15) then nth (Z.to_nat m) opc 0 else 0
  | None => 0
  end.

Fixpoint GetIndex_from (mne : string) (tbl : list (string * Z * list Z))
    (i : Z) : Z :=
  match tbl with
  | [] => -1
  | (m, _, _) :: r => if strcmp m mne =? 0 then i else GetIndex_from mne r (i + 1)
  end.

Definition GetIndex (mne : string) : Z := GetIndex_from mne Gen 0.

Definition JMPIndex : Z := GetIndex "JMP".
Definition JSRIndex : Z := GetIndex "JSR".
Definition BITIndex : Z := GetIndex "BIT".
Definition STYIndex : Z := GetIndex "STY".
Definition PHWIndex : Z := GetIndex "PHW".
Definition LDAIndex : Z := GetIndex "LDA".
Definition STAIndex : Z := GetIndex "STA".

(** ** IsInstruction *)

Definition OperandExists (st : state) (p : string) : bool :=
  let p := SkipSpace p in
  let c := peek p in
  if ceq c ";" || ceq c NUL then false
  else if negb (ceq c "A") && negb (ceq c "a") && negb (ceq c "Q")
          && negb (ceq c "q") then true
  else if negb (CPU_Type st =? CPU_45GS02) && (ceq c "Q" || ceq c "q") then true
  else
    (* treat accumulator mode as implied *)
    let q := SkipSpace (tail p) in
    negb (ceq (peek q) ";") && negb (ceq (peek q) NUL).

Definition Qumulator (p : string) : bool :=
  let p := SkipSpace p in
  if negb (ceq (peek p) "Q") && negb (ceq (peek p) "q") then false
  else if ceq (peek (tail p)) NUL then true
  else if isym (tail p) then false
  else true.

(** match mnemonic and CPU *)
Definition mne_match (st : state) (p mne : string) (cpu : Z) : bool :=
  (Strncasecmp p mne 3 =? 0) && (Z.land cpu (CPU_Type st) =? 0).

Fixpoint find_mne (st : state) (p : string) (tbl : list (string * Z * Z))
    (i : Z) : option (Z * Z) :=
  match tbl with
  | [] => None
  | (mne, cpu, opc) :: r =>
      if mne_match st p mne cpu then Some (i, opc) else find_mne st p r (i + 1)
  end.

Fixpoint find_gen (st : state) (p : string) (tbl : list (string * Z * list Z))
    (i : Z) : option Z :=
  match tbl with
  | [] => None
  | (mne, cpu, _) :: r =>
      if mne_match st p mne cpu then Some i else find_gen st p r (i + 1)
  end.

(** the loop over the Q mnemonics: the index of the first mnemonic that is
    followed by white space, and whether the loop stops there with a
    [break] (operand Q) or returns *)
Fixpoint find_q (p : string) (tbl : list string) (i : Z) : option (Z * bool) :=
  match tbl with
  | [] => None
  | mne :: r =>
      if keyword mne p && isspace (default NUL (at_ p (String.length mne)))
      then Some (i, Qumulator (default EmptyString (adv (String.length mne) p)))
      else find_q p r (i + 1)
  end.

(** the loop over the mnemonics of the long branches, which does not look
    at the CPU column *)
Fixpoint find_long (p : string) (tbl : list (string * Z * Z)) : option Z :=
  match tbl with
  | [] => None
  | (mne, _, opc) :: r =>
      if Strncasecmp p mne 3 =? 0 then Some opc else find_long p r
  end.

Definition nthc (p : string) (k : nat) : ascii := default NUL (at_ p k).

(** the checks of [IsInstruction] after the Q mnemonics *)
Definition IsInstruction_rest (p : string) : M Z :=
  st ← get;
  let mega := CPU_Type st =? CPU_45GS02 in
  let long :=
    if mega && (ceq (peek p) "L" || ceq (peek p) "l")
    then find_long (tail p) (take 9 Rel) else None in
  match long with
  | Some opc => modify (set_am AM_Relo);; mret (opc + 3)
  | None =>
      if mega && keyword "BSR" p then modify (set_am AM_Relo);; mret 0x63
      else
        let q4 := mega && (3 <? strlen p)
                  && (ceq (nthc p 3) "Q" || ceq (nthc p 3) "q") in
        let k := if q4 then 4%nat else 3%nat in
        if negb (ceq (nthc p k) NUL) && negb (isspace (nthc p k)) then mret (-1)
        else
          when_ q4 (modify (set_ml 4));;
          let oe := OperandExists st (default EmptyString (adv k p)) in
          match (if oe then None else find_mne st p Imp 0) with
          | Some (_, opc) =>
              modify (set_am AM_Impl);;
              mret (if ceq (nthc p 3) "Q" || ceq (nthc p 3) "q"
                    then 512 + opc else opc)
          | None =>
              match find_mne st p Rel 0 with
              | Some (_, opc) => modify (set_am AM_Rela);; mret opc
              | None =>
                  match find_gen st p Gen 0 with
                  | Some i => modify (set_GenIndex i);; mret (256 + i)
                  | None => mret (-1)       (* No mnemonic *)
                  end
              end
          end
  end.

Definition IsInstruction (p : string) : M Z :=
  (* Initialize *)
  modify (fun s => set_ml 3 (set_GenIndex (-1) (set_o16 false (set_am AM_None s))));;
  st ← get;
  if strlen p <? 3 then mret (-1)
  else if negb (isalpha (nthc p 0) && isalpha (nthc p 1) && isalpha (nthc p 2))
  then mret (-1)
  else
    (* Check 4 character mnemonics *)
    let bit :=
      if (3 <? strlen p) && (48 <=? schar (nthc p 3)) && (schar (nthc p 3) <=? 55)
         && (schar (nthc p 4) <=? 0x20)
      then find_mne st p Bit 0 else None in
    match bit with
    | Some (i, opc) =>
        modify (set_am (if 1 <? i then AM_Bits else AM_Dpag));;
        mret (Z.lor opc (Z.land (chr (nthc p 3)) 7 * 16))
    | None =>
        (* Check Q mnemonics *)
        match (if (CPU_Type st =? CPU_45GS02) && (5 <? strlen p)
               then find_q p MneQ 0 else None) with
        | Some (i, false) => modify (set_GenIndex i);; mret (512 + i)
        | _ => IsInstruction_rest p
        end
    end.

(** ** AddressMode

    The function edits the buffer [Operand] in place.  The model works on
    the characters of the operand; [pre] is the part of the buffer before
    the cursor [p]. *)

Definition chars (s : string) : list ascii := String.list_ascii_of_string s.
Definition text (l : list ascii) : string := String.string_of_list_ascii l.

Definition cnth (p : list ascii) (k : Z) : ascii :=
  if k <? 0 then NUL else nth (Z.to_nat k) p NUL.
Definition blank (k : Z) (p : list ascii) : list ascii :=
  <[Z.to_nat k := " "%char]> p.
Definition upc (c : ascii) : ascii := of_chr (toupper c).
Definition len (p : list ascii) : Z := Z.of_nat (length p).

Definition is_in (c : ascii) (set : string) : bool := mem_char c set.

(** [while (l > 0 && isspace(p[l-l])) --l;] *)
Definition trim0 (p : list ascii) (l : Z) : Z :=
  if (0 <? l) && isspace (cnth p 0) then 0 else l.

(** the outer, middle and inner characters and their positions *)
Definition outer_char (p : list ascii) (l : Z) : ascii * Z :=
  let o := if 0 <? l then upc (cnth p (l - 1)) else NUL in
  if is_in o ")XYZ" then (o, l - 1) else (NUL, 0).

Definition middle_char (p : list ascii) (l : Z) : ascii * Z * Z :=
  let l := trim0 p (l - 1) in
  let l := if (0 <? l) && ceq (cnth p (l - 1)) " " then l - 1 else l in
  let m := if 0 <? l then upc (cnth p (l - 1)) else NUL in
  if is_in m ",X" then (m, l - 1, l) else (NUL, 0, l).

Definition inner_char (p : list ascii) (l : Z) : ascii * Z :=
  let l := trim0 p (l - 1) in
  let i := if 0 <? l then upc (cnth p (l - 1)) else NUL in
  if is_in i ",)]" then (i, l - 1) else (NUL, 0).

(** the body of [AddressMode] from the prefix character on; the result is
    the address mode, the new [il] if one is set, and the edited text *)
Definition classify (p : list ascii) : Z * option Z * list ascii :=
  let l := len p in
  let s := cnth p 0 in
  let s := if ceq s "(" || ceq s "[" then s else NUL in
  let '(o, oi) := outer_char p l in
  let '(m, mi, l1) :=
    if ceq o NUL then (NUL, 0, l) else middle_char p l in
  let '(i, ii) :=
    if ceq m NUL then (NUL, 0) else inner_char p l1 in
  let four := blank oi (blank mi (blank ii (blank 0 p))) in
  if ceq s "[" && ceq i "]" && ceq m "," && ceq o "Z"
  then (AM_Indz, Some 3, four)          (* [DP],Z : 32 bit indirect *)
  else if ceq s "(" && ceq i ")" && ceq m "," && ceq o "Z"
  then (AM_Indz, Some 2, four)          (* (DP),Z *)
  else if ceq s "(" && ceq i ")" && ceq m "," && ceq o "Y"
  then (AM_Indy, Some 2, four)          (* (DP),Y *)
  else if ceq s "(" && ceq i "," && ceq m "X" && ceq o ")"
  then (AM_Indx, Some 2, four)          (* (DP,X) *)
  else if ceq s "(" && ceq o ")"
  then (AM_Indz, Some 3, blank oi (blank 0 p))   (* (ADR) *)
  else if ceq m "," && ceq o "Y"
  then (AM_Absy, Some 3, blank oi (blank mi p))  (* ADR,Y *)
  else if ceq m "," && ceq o "X"
  then (AM_Absx, Some 3, blank oi (blank mi p))  (* ADR,X *)
  else (AM_Abso, None, p).

Fixpoint spaces_of (p : list ascii) : list ascii * list ascii :=
  match p with
  | c :: r => if isspace c then let '(a, b) := spaces_of r in (c :: a, b)
              else ([], p)
  | [] => ([], [])
  end.

(** [am = AddressMode(Operand)]: sets [il], [o16] and [Operand] *)
Definition AddressMode : M Z :=
  st ← get;
  let p := chars (Operand st) in
  let l := len p in
  (* remove ",Z" for Q instructions *)
  let p :=
    if (2 <? l) && (511 <? oc st) && ceq (cnth p (l - 2)) ","
       && (ceq (cnth p (l - 1)) "z" || ceq (cnth p (l - 1)) "Z")
    then take (Z.to_nat (l - 2)) p else p in
  let l := len p in
  (* remove redundant pair of brackets
     or identify Q operation with 32 bit address *)
  let bracket := (1 <? l) && ceq (cnth p 0) "[" && ceq (cnth p (l - 1)) "]" in
  let '(pre, p) :=
    if bracket then spaces_of (blank 0 (take (Z.to_nat (l - 1)) p))
    else ([], p) in
  if bracket && (511 <? oc st) then
    modify (fun s => set_il 5 (set_Operand (text (pre ++ p)) s));;
    mret AM_Indz                          (* Q instruction *)
  else if ceq (cnth p 0) "#" then          (* immediate *)
    modify (fun s => set_il 2 (set_Operand (text (pre ++ blank 0 p)) s));;
    mret AM_Imme
  else
    let forced := ceq (cnth p 0) "`" in
    let '(mode, new_il, q) := classify (if forced then blank 0 p else p) in
    (* the prefix character is read before the backtick is blanked *)
    when_ forced (modify (fun s => set_il 3 (set_o16 true s)));;
    modify (set_Operand (text (pre ++ q)));;
    match new_il with
    | Some n => modify (set_il n)
    | None => mret tt
    end;;
    mret mode.

(** ** SplitOperand *)

(** the operand up to a semicolon outside quotes and apostrophes, and the
    cursor at the end of it *)
Fixpoint extract_operand (p : string) (inquo inapo : bool)
    : list ascii * string :=
  match p with
  | EmptyString => ([], p)
  | String c r =>
      let inquo := if ceq c DQUOTE && negb inapo then negb inquo else inquo in
      let inapo := if ceq c APOSTROPHE && negb inquo then negb inapo else inapo in
      if ceq c ";" && negb inquo && negb inapo then ([], p)
      else let '(a, q) := extract_operand r inquo inapo in (c :: a, q)
  end.

(** [while (l && isspace(Operand[l-1])) Operand[--l] = 0;] *)
Definition rtrim (l : list ascii) : list ascii :=
  reverse (snd (spaces_of (reverse l))).

Definition SplitOperand (p : string) : M string :=
  modify (set_il 3);;                      (* default instruction length *)
  st0 ← get;
  when_ (negb (am st0 =? AM_Dpag)) (modify (set_am AM_Abso));;
  let '(op, q) := extract_operand (SkipSpace p) false false in
  let op := rtrim op in
  modify (set_Operand (text op));;
  st ← get;
  (if 511 <? oc st then                    (* Q mnemonics *)
     m ← AddressMode;
     modify (set_am m);;
     if m =? AM_Abso then
       modify (fun s => set_il 5 (set_oc (Gen_Opc (GenIndex s) m) s))
     else if m =? AM_Impl then
       modify (fun s => set_il 3 (set_oc (Gen_Opc (GenIndex s) m) s))
     else if m =? AM_Indz then
       modify (fun s => set_oc (Gen_Opc (GenIndex s) m) s);;
       st1 ← get;
       when_ (il st1 =? 3) (modify (set_il 4))
     else exit_                            (* illegal address mode *)
   else if 255 <? oc st then
     m ← AddressMode;
     modify (set_am m);;
     if m <? 9 then
       st1 ← get;
       let to := Gen_Opc (GenIndex st1) m in
       if (to =? -1) && (m =? AM_Absx) then
         modify (fun s => set_oc (Gen_Opc (GenIndex s) AM_Dpgx)
                            (set_il 2 (set_am AM_Dpgx s)))
       else if (to =? -1) && (m =? AM_Abso) then
         modify (fun s => set_oc (Gen_Opc (GenIndex s) AM_Dpag)
                            (set_il 2 (set_am AM_Dpag s)))
       else modify (set_oc to)
     else mret tt
   else mret tt);;
  st2 ← get;
  if (oc st2 <? 0) || (255 <? oc st2) then exit_       (* syntax error *)
  else
    (* Allow BIT mnemonic with missing operand *)
    when_ ((len op =? 0) && (oc st2 =? 0x24))
          (modify (fun s => set_il 1 (set_am AM_Impl (set_oc 0x2c s))));;
    mret q.

(** ** AdjustOpcode *)

Definition CPU_Error {A} : M A := exit_.

(** [AdjustOpcode(&v)]: the new value of [v] *)
Definition AdjustOpcode (v : Z) : M Z :=
  modify (fun s => set_PreNop false (set_NegNeg false s));;
  st ← get;
  if GenIndex st =? JMPIndex then
    if (am st =? AM_Indx) && (CPU_Type st <? CPU_65SC02) then CPU_Error
    else modify (set_il 3);; mret v
  else if GenIndex st =? JSRIndex then
    if (am st =? AM_Indx) && (CPU_Type st <? CPU_45GS02) then CPU_Error
    else
      modify (set_il 3);;
      when_ (CPU_Type st =? CPU_65816) (modify (set_oc 0xfc));;
      mret v
  else if GenIndex st =? BITIndex then
    if (AM_Abso <? am st) && (CPU_Type st <? CPU_65SC02) then CPU_Error
    else mret v
  else if GenIndex st =? STYIndex then
    if (am st =? AM_Absx) && negb (CPU_Type st =? CPU_45GS02) then CPU_Error
    else mret v
  else if GenIndex st =? PHWIndex then
    when_ (am st =? AM_Imme) (modify (set_il 3));; mret v
  else if (am st =? AM_Indz) && (il st =? 3) then
    (* MEGA65 32 bit indirect address mode *)
    modify (set_oc 0xea);;
    mret (Z.lor (wrap (v * 256)) (oc st))
  else if ((am st =? AM_Impl) && (il st =? 3))
          || ((am st =? AM_Dpag) && (il st =? 4))
          || ((am st =? AM_Abso) && (il st =? 5))
          || ((am st =? AM_Indz) && (il st =? 4)) then
    modify (set_NegNeg true);; mret v
  else if (am st =? AM_Indz) && (il st =? 5) then
    modify (fun s => set_PreNop true (set_NegNeg true s));; mret v
  else mret v.

(** ** GenerateCode

    Each path of the first part yields the operand value [v] and the cursor
    [o] behind the operand. *)

(** implied instruction (no operand or implied A register) *)
Definition gen_implied : M (Z * string) :=
  st ← get;
  (if 511 <? oc st then modify (fun s => set_oc (oc s - 512) (set_il 3 s))
   else modify (set_il 1));;
  mret (0, Operand st).

(** test & branch  BBRn dp,label *)
Definition gen_bits (p : string) : M (Z * string) :=
  modify (set_il 3);;                  (* opcode + dp address + branch *)
  p4 ← inside (adv 4 p);
  '(o, lo) ← EvalOperand p4 0;
  st ← get;
  let lo := lo - bp st * 256 in
  if final_pass st && ((lo <? 0) || (255 <? lo)) then exit_
  else
    let o := SkipSpace o in
    if negb (ceq (peek o) ",") then exit_           (* Need two arguments *)
    else
      '(o, hi) ← EvalOperand (tail o) 0;
      st ← get;
      let hi := if hi =? UNDEF then hi else hi - (pc st + 3) in
      if final_pass st && (hi =? UNDEF) then exit_
      else if final_pass st && ((hi <? -128) || (127 <? hi)) then exit_
      else
        mret (if negb (lo =? UNDEF) && negb (hi =? UNDEF)
              then Z.lor lo (wrap (hi * 256)) else UNDEF, o).

(** automatic branch optimisation *)
Definition gen_branch_opt (p : string) : M (Z * string) :=
  modify (set_il 2);;                  (* default = short branch *)
  p3 ← inside (adv 3 p);
  '(o, v) ← EvalOperand p3 0;
  st ← get;
  let v := if v =? UNDEF then v else v - (pc st + 2) in
  let long := (v =? UNDEF) || (v <? -128) || (127 <? v) in
  when_ long (modify (fun s => set_oc (Z.lor (oc s) 3) (set_il 3 s)));;
  let v := if long && negb (v =? UNDEF) then Z.land v 0xffff else v in
  (* lock branch opcode on pass before final *)
  st ← get;
  when_ (Pass st =? MaxPass st - 1) (store (pc st) (oc st));;
  (* use locked opcode on final pass *)
  if final_pass st then
    if v =? UNDEF then exit_
    else
      let locked := ROM st (pc st) in
      modify (fun s => set_il 2 (set_oc locked s));;
      if Z.land locked 3 =? 3 then
        modify (set_il 3);; mret (Z.land v 0xffff, o)
      else mret (v, o)
  else mret (v, o).

(** short branches *)
Definition gen_short (p : string) : M (Z * string) :=
  modify (set_il 2);;
  p3 ← inside (adv 3 p);
  '(o, v) ← EvalOperand p3 0;
  st ← get;
  let v := if v =? UNDEF then v else v - (pc st + 2) in
  if final_pass st && (v =? UNDEF) then exit_       (* undefined label *)
  else if final_pass st && ((v <? -128) || (127 <? v)) then exit_
  else mret (v, o).                                 (* Branch too long *)

(** long branches *)
Definition gen_long (p : string) : M (Z * string) :=
  modify (set_il 3);;
  p4 ← inside (adv 4 p);
  '(o, v) ← EvalOperand p4 0;
  st ← get;
  let v := if v =? UNDEF then v else Z.land (v - pc st - 2) 0xffff in
  if final_pass st && (v =? UNDEF) then exit_
  else mret (v, o).

(** the operand of the other instructions: evaluation of [Operand] and
    the choice of the base page modes *)
Definition gen_operand (v0 : Z) (o0 : string) : M (Z * string) :=
  st ← get;
  if nonempty (Operand st) then
    if ceq (peek (Operand st)) APOSTROPHE then exit_
    else
      '(o, v) ← EvalOperand (Operand st) 0;
      st ← get;
      let w := v - bp st * 256 in          (* for base page != zero *)
      if negb (GenIndex st =? PHWIndex) && (am st =? AM_Imme)
         && final_pass st && ((v <? -128) || (255 <? v))
      then exit_                           (* Immediate value out of range *)
      else if am st =? AM_Dpag then
        modify (set_il 2);;
        if (w <? -128) || (255 <? w) then exit_
        else mret (w, o)
      else if (0 <=? w) && (w <? 256) && (0 <=? GenIndex st) && negb (o16 st) then
        if (am st =? AM_Abso) && (0 <=? Gen_Opc (GenIndex st) AM_Dpag) then
          modify (fun s => set_il (il s - 1)
                     (set_oc (Gen_Opc (GenIndex s) AM_Dpag) (set_am AM_Dpag s)));;
          mret (w, o)
        else if (am st =? AM_Absx) && (0 <=? Gen_Opc (GenIndex st) AM_Dpgx) then
          modify (fun s => set_il 2
                     (set_oc (Gen_Opc (GenIndex s) AM_Dpgx) (set_am AM_Dpgx s)));;
          mret (w, o)
        else if oc st =? 0xbe then         (* LDX Abs,Y *)
          modify (fun s => set_il 2 (set_oc 0xb6 s));; mret (w, o)
        else if oc st =? 0x9b then         (* STX Abs,Y *)
          modify (fun s => set_il 2 (set_oc 0x96 s));; mret (w, o)
        else mret (v, o)
      else mret (v, o)
  else if negb (am st =? AM_Impl) && negb (am st =? AM_Rela)
          && negb (am st =? AM_Relo) && negb (am st =? AM_Bits)
  then exit_                               (* Operand missing *)
  else mret (v0, o0).

(** check for LDA (bp,SP),Y or STA (bp,SP),Y *)
Definition gen_stack (o : string) : M string :=
  st ← get;
  if (CPU_Type st =? CPU_45GS02) && (am st =? AM_Indy) && keyword ",SP" o then
    if GenIndex st =? LDAIndex then modify (set_oc 0xe2);; mret EmptyString
    else if GenIndex st =? STAIndex then modify (set_oc 0x82);; mret EmptyString
    else mret o
  else mret o.

(** insert binary code (final pass) *)
Definition gen_emit (v : Z) : M unit :=
  st ← get;
  if v =? UNDEF then exit_                 (* Use of an undefined label *)
  else
    let lo := Z.land v 0xff in
    let hi := Z.shiftr v 8 in
    let small := (hi =? bp st) && (il st <? 3) in
    let hi := if small then 0 else hi in
    let v := if small then lo else v in
    when_ ((il st <? 3) && ((v <? -128) || (255 <? v)))
          (modify (fun s => set_ErrNum (ErrNum s + 1) s));;   (* Not a byte value *)
    let pl := pc st in
    pl ← (if NegNeg st then store pl 0x42;; store (pl + 1) 0x42;; mret (pl + 2)
          else mret pl);
    pl ← (if PreNop st then store pl 0xea;; mret (pl + 1) else mret pl);
    store pl (oc st);;
    let pl := pl + 1 in
    pl ← (if pl <? pc st + il st then store pl lo;; mret (pl + 1) else mret pl);
    when_ (pl <? pc st + il st) (store pl hi).

(** the part of [GenerateCode] behind the choice of the path: the
    operand, the opcode, the bytes and the program counter *)
Definition gen_finish (v : Z) (o : string) : M unit :=
  '(v, o) ← gen_operand v o;
  o ← gen_stack o;
  if negb (ceq (peek o) NUL) && negb (ceq (peek o) ";") then exit_
  else                                     (* Operand syntax error *)
    v ← AdjustOpcode v;
    st ← get;
    when_ (final_pass st) (gen_emit v);;
    st ← get;
    if 0xffff <? pc st + il st then
      when_ (final_pass st) (modify (fun s => set_ErrNum (ErrNum s + 1) s))
    else modify (set_pc (pc st + il st)).

Definition GenerateCode (p : string) : M unit :=
  st ← get;
  if pc st <? 0 then exit_                 (* Undefined program counter *)
  else
    '(v, o) ←
      (if am st =? AM_Impl then gen_implied
       else if am st =? AM_Bits then gen_bits p
       else if (am st =? AM_Rela) && BranchOpt st && (CPU_Type st =? CPU_45GS02)
       then gen_branch_opt p
       else if am st =? AM_Rela then gen_short p
       else if am st =? AM_Relo then gen_long p
       else
         p4 ← inside (adv 4 p);
         SplitOperand (SkipSpace p4);;
         st1 ← get; mret (0, Operand st1));
    gen_finish v o.

(** ** ParseLine

    The listing file, the preprocessed file and the debug file are not
    written.  The option [-x] is off.  No macro is ever recorded, so that
    [ExpandMacro] finds none and answers -1. *)

Definition SkipHexCode (p : string) : string :=
  if (20 <? strlen p) && isdigit (nthc p 4) && isspace (nthc p 5)
     && isxdigit (nthc p 6) && isxdigit (nthc p 7)
     && isxdigit (nthc p 8) && isxdigit (nthc p 9)
     && negb (ceq (nthc p 0) ";")
  then default EmptyString (adv 20 p) else p.

Definition CommentLine (p : string) : bool :=
  let p := SkipSpace p in
  if ceq (peek p) ";" || ceq (peek p) NUL then true
  else if ceq (peek p) "*" then
    negb (ceq (peek (SkipSpace (tail p))) "=")     (* set ORG *)
  else false.

Definition ParseModule (p : string) : M string :=
  '(_, val) ← DefineLabel (SkipSpace p) false;
  match val with
  | Some v => modify (set_ModuleStart v)
  | None => mret tt
  end;;
  modify (fun s => set_Scope (Label s) s);;
  mret EmptyString.

Definition ParseEndMod (p : string) : M string :=
  modify (fun s => set_ModuleStart 0 (set_Scope EmptyString s));;
  mret EmptyString.

(** the part of [ParseLine] behind the label: program counter, pseudo
    operations, instruction *)
Definition ParseLine_code (cp : string) : M unit :=
  if ceq (peek cp) NUL then mret tt                (* No code *)
  else
    cp ← (if ceq (peek cp) "*" then SetPC cp else mret cp);
    cp ← (if ceq (peek cp) "&" then SetBSS cp else mret cp);
    cp ← (if ceq (peek cp) "." then IsPseudo (tail cp) else mret cp);
    cp ← (if ceq (peek cp) "!" then IsPseudo cp else mret cp);
    if ceq (peek cp) "," then exit_                (* Syntax Error *)
    else
      cp ← (if nonempty cp then IsPseudo cp else mret cp);
      st ← get;
      if ForcedEnd st then mret tt
      else
        (if oc st <? 0 then o ← IsInstruction cp; modify (set_oc o)
         else mret tt);;
        st ← get;
        if 0 <=? oc st then GenerateCode cp else mret tt.

(** Macro, Label or mnemonic at the start of the line *)
Definition ParseLine_label (cp : string) : M unit :=
  if ceq (peek cp) "_" || isalpha (peek cp) || isnnd cp then
    if keyword "MACRO " cp then beyond
    else
      o ← IsInstruction cp;
      modify (set_oc o);;
      if o <? 0 then
        '(cp, _) ← DefineLabel cp false;
        let cp := SkipSpace cp in
        if ceq (peek cp) NUL || ceq (peek cp) ";" then mret tt  (* no code or data *)
        else ParseLine_code cp
      else ParseLine_code cp
  else ParseLine_code cp.

Definition ParseLine (cp : string) : M unit :=
  modify (fun s => set_Operand EmptyString (set_Label EmptyString
                     (set_oc (-1) (set_am (-1) s))));;
  let cp := SkipSpace (SkipHexCode cp) in
  r ← CheckCondition cp;
  if (r : bool) then mret tt
  else
    st ← get;
    if Skipping st then mret tt
    else if CommentLine cp then mret tt
    else
      cp ← (if keyword "!ADDR " cp then inside (adv 6 cp) else mret cp);
      cp ← (if keyword "MODULE" cp then after 6 cp ParseModule else mret cp);
      cp ← (if keyword "ENDMOD" cp then after 6 cp ParseEndMod else mret cp);
      ParseLine_label cp.

(** ** The passes

    The source file is the list of its lines, each without the line end;
    include files are not embedded. *)

Definition ERRMAX : Z := 10.

Definition next_line (l : string) : M unit :=
  modify (fun s => set_Line l (set_TotalLiNo (TotalLiNo s + 1)
                     (set_LiNo (LiNo s + 1) s)));;
  ParseLine l.

Fixpoint Pass1_loop (src : list string) : M unit :=
  match src with
  | [] => mret tt
  | l :: r =>
      next_line l;;
      st ← get;
      if ForcedEnd st then mret tt else Pass1_loop r
  end.

Definition Pass1 (src : list string) : M unit :=
  modify (fun s => set_Scope "Main" (set_TotalLiNo 0 (set_LiNo 0
                     (set_ForcedEnd false (set_bp 0 (set_pc (-1) s))))));;
  Pass1_loop src.

Fixpoint Pass2_loop (src : list string) : M unit :=
  match src with
  | [] => mret tt
  | l :: r =>
      next_line l;;
      (* Remember highest assemble address *)
      st0 ← get;
      when_ (GenEnd st0 <? pc st0) (modify (set_GenEnd (pc st0)));;
      st ← get;
      if ERRMAX <=? ErrNum st then mret tt         (* Assembly stopped *)
      else if ForcedEnd st then mret tt
      else Pass2_loop r
  end.

Definition Pass2 (src : list string) : M unit :=
  modify (fun s => set_Scope "Main" (set_ForcedEnd false (set_bp 0 (set_pc (-1) s))));;
  st ← get;
  if negb (IfLevel st =? 0) then exit_      (* #endif statements are missing *)
  else
    modify (fun s => set_TotalLiNo 0 (set_LiNo 0 s));;
    Pass2_loop src.

(** [for (Pass = 1 ; Pass < MaxPass ; ++Pass) Pass1();] *)
Fixpoint Pass1_for (n : nat) (src : list string) : M unit :=
  st ← get;
  if Pass st <? MaxPass st then
    match n with
    | O => nofuel
    | S n' =>
        Pass1 src;;
        modify (fun s => set_Pass (Pass s + 1) s);;
        Pass1_for n' src
    end
  else mret tt.

(** the passes of [main], after the options are read and the image is
    filled *)
Definition main_passes (src : list string) : M unit :=
  modify (set_Pass 1);;
  st ← get;
  Pass1_for (Z.to_nat (MaxPass st)) src;;
  Pass2 src.

(** ** The state at the start of [main]

    Globals are zero-initialised unless the source gives an initialiser;
    [ROM] is filled with [ROM_Fill]. *)

Definition start_state (ROM_Fill : Z) : state :=
  {| BranchOpt := false; BSO_Mode := false; IgnoreCase := false;
     CPU_Type := CPU_6502; MaxPass := MAXPASS; unaops := UNAOPS - 1;
     ErrNum := 0; WriteLA := false; ModuleStart := 0; LoadAddress := UNDEF;
     bp := 0; oc := 0; am := 0; il := 0; ml := 0; pc := -1; bss := 0;
     Pass := 0; o16 := false; BOC := replicate (Z.to_nat MAXPASS) 0;
     IfLevel := 0; Skipping := false; SkipLine := replicate 10 false;
     ForcedEnd := false; GenStart := 0x10000; GenEnd := 0;
     ROM := fun _ => ROM_Fill; LiNo := 0; TotalLiNo := 0;
     Line := EmptyString; Label := EmptyString; Operand := EmptyString;
     Scope := EmptyString; lab := []; GenIndex := 0;
     NegNeg := false; PreNop := false |}.

(** ** The operators as the specification reads them

    [c_binary] and [binary_result] are not taken from the source: they give
    each operator text its arithmetic meaning, to be compared with the
    table and the functions of the evaluator. *)

Definition c_binary (op : string) (l r : Z) : Z :=
  if String.eqb op "*" then wrap (l * r)
  else if String.eqb op "/" then Z.quot l r
  else if String.eqb op "+" then wrap (l + r)
  else if String.eqb op "-" then wrap (l - r)
  else if String.eqb op "<<" then wrap (Z.shiftl l (r mod 32))
  else if String.eqb op ">>" then Z.shiftr l (r mod 32)
  else if String.eqb op "<=" then b2z (l <=? r)
  else if String.eqb op "<" then b2z (l <? r)
  else if String.eqb op ">=" then b2z (l >=? r)
  else if String.eqb op ">" then b2z (l >? r)
  else if String.eqb op "==" then b2z (l =? r)
  else if String.eqb op "!=" then b2z (negb (l =? r))
  else if String.eqb op "^" then Z.lxor l r
  else if String.eqb op "&&" then b2z (negb (l =? 0) && negb (r =? 0))
  else if String.eqb op "&" then Z.land l r
  else if String.eqb op "||" then b2z (negb (l =? 0) || negb (r =? 0))
  else if String.eqb op "|" then Z.lor l r
  else 0.

(** the result of a binary operator as the specification states it *)
Definition binary_result (op : string) (v w : Z) : Z :=
  if (v =? UNDEF) || (w =? UNDEF) then UNDEF
  else if String.eqb op "/" && (w =? 0) then UNDEF
  else c_binary op v w.

(** the one application of a binary operator for which the C division of
    [op_div] has no result *)
Definition division_overflow (op : string) (v w : Z) : bool :=
  String.eqb op "/" && (v =? INT_MIN) && (w =? -1).

(** the unary operators that evaluate an operand of priority 12 and then
    work on its value *)
Definition on_operand (f : unaop_foo) : bool :=
  match f with
  | op_plu | op_min | op_lno | op_bno | op_low | op_hig => true
  | _ => false
  end.

(** the closing character that [op_par] asks for *)
Definition closing (c : ascii) : ascii :=
  (if ceq c "[" then "]" else ")")%char.

(** ** Frames

    [only_lab st st']: the two states differ in the symbol table at most.
    [steady q st st']: the pass counters and the branch option are kept,
    and so is the image whenever [q] holds of the first state.  [nonfinal]
    are the passes before the last one, [quiet] those that neither are the
    last nor freeze branch opcodes. *)

Definition only_lab (st st' : state) : Prop := st' = set_lab (lab st') st.

Definition nonfinal (st : state) : bool := negb (Pass st =? MaxPass st).

Definition quiet (st : state) : bool :=
  negb (Pass st =? MaxPass st)
  && (negb (Pass st =? MaxPass st - 1) || negb (BranchOpt st)).

Record Quiet (q : state -> bool) : Prop := {
  quiet_mode : forall st st',
    Pass st' = Pass st -> MaxPass st' = MaxPass st ->
    BranchOpt st' = BranchOpt st -> q st' = q st;
  quiet_final : forall st, final_pass st = true -> q st = false
}.

Definition steady (q : state -> bool) (st st' : state) : Prop :=
  Pass st' = Pass st /\ MaxPass st' = MaxPass st
  /\ BranchOpt st' = BranchOpt st
  /\ (q st = true -> ROM st' = ROM st).

(** [Kept q m]: every run of [m] that returns is steady; [Same m]: it leaves
    the state as it is. *)
Definition Kept {A} (q : state -> bool) (m : M A) : Prop :=
  forall st r st', m st = Ok r st' -> steady q st st'.

Definition Same {A} (m : M A) : Prop :=
  forall st r st', m st = Ok r st' -> st' = st.

(** ** The store of the branch optimisation

    [freezes s1 s']: [GenerateCode] is called in the state [s1] on a
    relative branch, with the branch optimisation of the 45GS02 on and in
    the pass before the final one, and returns in [s']; the image of [s']
    is that of [s1] but for the byte at the program counter of the branch,
    which holds its opcode or the long form [oc | 3] of it.

    [image_step s s']: the image of [s'] is that of [s], or it is the image
    after such a call, made with the image of [s]. *)
Definition freezes (s1 s' : state) : Prop :=
  am s1 = AM_Rela /\ BranchOpt s1 = true /\ CPU_Type s1 = CPU_45GS02
  /\ Pass s1 = MaxPass s1 - 1
  /\ (exists p, GenerateCode p s1 = Ok tt s')
  /\ (ROM s' = rom_set (pc s1) (oc s1) (ROM s1)
      \/ ROM s' = rom_set (pc s1) (Z.lor (oc s1) 3) (ROM s1)).

Definition image_step (s s' : state) : Prop :=
  ROM s' = ROM s \/ exists s1, ROM s1 = ROM s /\ freezes s1 s'.

(** [Frozen m]: in a pass before the final one every run of [m] that
    returns is such a step *)
Definition Frozen {A} (m : M A) : Prop :=
  forall st r st',
    nonfinal st = true -> m st = Ok r st' -> image_step st st'.

(** the two bytes of a word item the way the specification lists them *)
Definition word_bytes (bigendian : bool) (v : Z) : list Z :=
  if bigendian then [Z.land (hi_byte v) 0xff; lo_byte v]
  else [lo_byte v; Z.land (hi_byte v) 0xff].

(** [grows st st']: the second state differs from the first in the symbol
    table only, where every entry is still at its index with its name,
    address and lock *)
Definition kept_label (x x' : LabelStruct) : Prop :=
  Name x' = Name x /\ Address x' = Address x /\ Locked x' = Locked x.

Definition grows (st st' : state) : Prop :=
  only_lab st st'
  /\ forall j x, lab st !! j = Some x ->
       exists x', lab st' !! j = Some x' /\ kept_label x x'.

(** the schedule of the driver: [k] times [Pass1], the number of the pass
    going up by one behind each *)
Fixpoint passes (k : nat) (src : list string) : M unit :=
  match k with
  | O => mret tt
  | S k' =>
      Pass1 src;;
      modify (fun s => set_Pass (Pass s + 1) s);;
      passes k' src
  end.

(** [Fueled m]: no run of [m] ends for want of recursion budget *)
Definition Fueled {A} (m : M A) : Prop := forall st, m st <> NoFuel.

(** ** Texts of C strings

    [no_nul s]: the text holds no NUL character, as every text between a
    [char *] and its terminator does *)
Definition no_nul (s : string) : bool :=
  forallb (fun c => negb (ceq c NUL)) (String.list_ascii_of_string s).

(** ** An operator character that starts no operator
    [lone_operator p]: the text starts with [=] or [!] and no [=] follows *)
Definition lone_operator (p : string) : bool :=
  (ceq (peek p) "=" || ceq (peek p) "!") && negb (ceq (peek (tail p)) "=").

(** ** The symbol table under evaluation
    [appends st st']: the second state differs from the first in the
    symbol table only, the table has not outgrown MAXLAB - 1 entries unless
    it was larger, and in a pass before the final one the new table is the
    old one with entries without an address behind it *)
Definition appends (st st' : state) : Prop :=
  only_lab st st'
  /\ Labels st' <= Z.max (Labels st) (MAXLAB - 1)
  /\ (final_pass st = false ->
      exists new, lab st' = lab st ++ new
        /\ Forall (fun x => Address x = UNDEF) new).

(** ** Lines of a skipped region
    [line_start l st]: the state in which the reading of the line [l]
    begins, the counters of lines moved on and the scratch variables of
    [ParseLine] reset; [plain_line l]: the line is no directive of the
    conditional assembly; [same_but_line st st']: the second state differs
    from the first in those variables only *)
Definition line_start (l : string) (st : state) : state :=
  set_Operand EmptyString (set_Label EmptyString (set_oc (-1) (set_am (-1)
    (set_Line l (set_TotalLiNo (TotalLiNo st + 1)
       (set_LiNo (LiNo st + 1) st)))))).

Definition plain_line (l : string) : bool :=
  negb (ceq (peek (SkipSpace (SkipHexCode l))) "#").

Definition same_but_line (st st' : state) : Prop :=
  st' = set_Operand (Operand st') (set_Label (Label st') (set_oc (oc st')
          (set_am (am st') (set_Line (Line st')
             (set_TotalLiNo (TotalLiNo st') (set_LiNo (LiNo st') st)))))).

(** ** Text of a string literal
    [plain_text d s]: the text holds neither the delimiter [d] nor a
    backslash, an apostrophe or a NUL character *)
Definition plain_text (d : ascii) (s : string) : bool :=
  forallb (fun c => negb (ceq c d) && negb (ceq c "\")
                    && negb (ceq c APOSTROPHE) && negb (ceq c NUL))
          (chars s).

(** ** Bit patterns
    [mirrored k v w]: the bits 7, 6, ... of [w], [k] of them, are the bits
    0, 1, ... of [v], and [w] has no other bit *)
Definition mirrored (k v w : Z) : Prop :=
  forall i, 0 <= i ->
    Z.testbit w i = (8 - k <=? i) && (i <? 8) && Z.testbit v (7 - i).

(** ** The orders of the symbol listings: CmpAddress, CmpRefs

    The comparison functions handed to [qsort]: by address, and by the
    number of references with the address as the second key. *)
Definition CmpAddress (Label1 Label2 : LabelStruct) : Z :=
  if Address Label1 =? Address Label2 then 0
  else if Address Label2 <? Address Label1 then 1
  else -1.

Definition CmpRefs (Label1 Label2 : LabelStruct) : Z :=
  if NumRef Label1 =? NumRef Label2 then
    if Address Label1 <? Address Label2 then 1
    else if Address Label2 <? Address Label1 then -1
    else 0
  else if NumRef Label1 <? NumRef Label2 then 1
  else -1.

(** ** Steps that leave the image and the program counter
    [Still m]: every run of [m] that returns has left both as they were *)
Definition Still {A} (m : M A) : Prop :=
  forall st r st', m st = Ok r st' -> ROM st' = ROM st /\ pc st' = pc st.

(** ** Decimal numbers in an operand
    [number a]: a text of decimal digits whose value fits an [int];
    [value a]: its value; [ends_operand r]: at the text [r] no operand and
    no operator goes on *)
Definition value (a : string) : Z := fst (scan_digits isdigit 10 0 a).

Definition number (a : string) : bool :=
  nonempty a && forallb isdigit (chars a) && (value a <? 2147483648).

Definition ends_operand (r : string) : bool :=
  negb (isdigit (peek r)) && negb (isalpha (peek r))
  && negb (ceq (peek r) "$") && negb (isspace (peek r))
  && negb (mem_char (peek r) "=*/+-<>!&^|").

(** ** The reference lists of the symbols
    [refs_ok x]: the arrays [Ref] and [Att] of the symbol hold
    [NumRef + 1] entries, the slot of the definition and one slot for each
    recorded reference; [table_ok st]: so for every symbol of the table *)
Definition refs_ok (x : LabelStruct) : Prop :=
  0 <= NumRef x
  /\ Z.of_nat (length (Ref x)) = NumRef x + 1
  /\ Z.of_nat (length (Att x)) = NumRef x + 1.

Definition table_ok (st : state) : Prop := Forall refs_ok (lab st).

(** * Properties *)

(** ** The monad *)

Lemma bind_Ok {A B} (m : M A) (k : A -> M B) st b st' :
  (m ≫= k) st = Ok b st' ->
  exists a st1, m st = Ok a st1 /\ k a st1 = Ok b st'.
Proof.
  unfold mbind, M_bind. destruct (m st) as [a st1| | | |]; try discriminate.
  intros H. exists a, st1. split; [reflexivity | exact H].
Qed.

Lemma bind_eq {A B} (m : M A) (k : A -> M B) st a st1 :
  m st = Ok a st1 -> (m ≫= k) st = k a st1.
Proof. unfold mbind, M_bind. intros ->. reflexivity. Qed.

Lemma bind_Exit {A B} (m : M A) (k : A -> M B) st :
  m st = Exit -> (m ≫= k) st = Exit.
Proof. unfold mbind, M_bind. intros ->. reflexivity. Qed.

Lemma inside_bind {A B} (o : option A) (k : A -> M B) st r st' :
  (inside o ≫= k) st = Ok r st' -> exists a, o = Some a /\ k a st = Ok r st'.
Proof.
  destruct o as [a|]; [|discriminate].
  intros H. exists a. split; [reflexivity | exact H].
Qed.

Lemma ret_Ok {A} (a b : A) st st' :
  (mret a : M A) st = Ok b st' -> b = a /\ st' = st.
Proof. unfold mret, M_ret. intros H. inversion H. auto. Qed.

(** Inversion of a run that ended in [Ok]: the equation is taken apart
    along binds, conditionals and matches. *)
Ltac inv_Ok H :=
  match type of H with
  | Ok _ _ = Ok _ _ => inversion H; subst; clear H
  | Exit = Ok _ _ => discriminate H
  | Hang = Ok _ _ => discriminate H
  | Beyond = Ok _ _ => discriminate H
  | NoFuel = Ok _ _ => discriminate H
  | @mret _ _ _ _ _ = Ok _ _ => apply ret_Ok in H; destruct H; subst
  | exit_ _ = Ok _ _ => discriminate H
  | hang _ = Ok _ _ => discriminate H
  | beyond _ = Ok _ _ => discriminate H
  | nofuel _ = Ok _ _ => discriminate H
  | get _ = Ok _ _ => unfold get in H; inversion H; subst; clear H
  | modify _ _ = Ok _ _ => unfold modify in H; inversion H; subst; clear H
  | inside ?o _ = Ok _ _ =>
      let E := fresh "E" in
      destruct o eqn:E; [apply ret_Ok in H; destruct H; subst | discriminate H]
  | when_ ?b _ _ = Ok _ _ =>
      let E := fresh "E" in
      destruct b eqn:E; unfold when_ in H; [ inv_Ok H | apply ret_Ok in H; destruct H; subst ]
  | @mbind _ _ _ _ _ _ _ = Ok _ _ =>
      let a := fresh "a" in
      let s := fresh "s" in
      let H1 := fresh "H" in
      apply bind_Ok in H; destruct H as (a & s & H1 & H);
      inv_Ok H1; inv_Ok H
  | (if ?b then _ else _) _ = Ok _ _ =>
      let E := fresh "E" in destruct b eqn:E; inv_Ok H
  | (let '(_, _) := ?x in _) _ = Ok _ _ =>
      let E := fresh "E" in destruct x eqn:E; inv_Ok H
  | (match ?x with _ => _ end) _ = Ok _ _ =>
      let E := fresh "E" in destruct x eqn:E; inv_Ok H
  | (if ?b then _ else _) = Ok _ _ =>
      let E := fresh "E" in destruct b eqn:E; inv_Ok H
  | (match ?x with _ => _ end) = Ok _ _ =>
      let E := fresh "E" in destruct x eqn:E; inv_Ok H
  | _ => idtac
  end.

(** ** C integers and the sentinel *)

Lemma wrap_small z : -2147483648 <= z < 2147483648 -> wrap z = z.
Proof.
  intros H. unfold wrap.
  rewrite Z.mod_small by lia. lia.
Qed.

Lemma wrap_range z : -2147483648 <= wrap z < 2147483648.
Proof.
  unfold wrap.
  pose proof (Z.mod_pos_bound (z + 2147483648) 4294967296 ltac:(lia)). lia.
Qed.

(** the components of equal pairs *)
Ltac inv_pairs :=
  repeat match goal with
         | H : (_, _) = (_, _) |- _ => inversion H; subst; clear H
         end.
(** ** What the evaluator changes: the symbol table only *)

Lemma only_lab_refl st : only_lab st st.
Proof. unfold only_lab. destruct st; reflexivity. Qed.

Lemma only_lab_trans s1 s2 s3 : only_lab s1 s2 -> only_lab s2 s3 -> only_lab s1 s3.
Proof. unfold only_lab. intros H1 H2. rewrite H2, H1. reflexivity. Qed.

Lemma only_lab_set l st : only_lab st (set_lab l st).
Proof. reflexivity. Qed.

Create HintDb frames discriminated.
#[local] Hint Constants Opaque : frames.
#[local] Hint Variables Opaque : frames.

Lemma update_lab_only j f st a st' :
  update_lab j f st = Ok a st' -> only_lab st st'.
Proof. unfold update_lab. intros H. inv_Ok H. reflexivity. Qed.

Lemma AddLabel_only p st a st' : AddLabel p st = Ok a st' -> only_lab st st'.
Proof. unfold AddLabel. intros H. inv_Ok H. reflexivity. Qed.

Lemma SymRefs_only i st a st' : SymRefs i st = Ok a st' -> only_lab st st'.
Proof.
  unfold SymRefs. intros H. inv_Ok H; eauto using update_lab_only, only_lab_refl.
Qed.

Lemma EvalSymValue_only p st r st' :
  EvalSymValue p st = Ok r st' -> only_lab st st'.
Proof.
  unfold EvalSymValue. intros H. inv_Ok H;
    eauto using SymRefs_only, AddLabel_only.
Qed.

Lemma EvalSymBytes_only p st r st' :
  EvalSymBytes p st = Ok r st' -> only_lab st st'.
Proof.
  unfold EvalSymBytes. intros H. inv_Ok H;
    eauto using SymRefs_only, AddLabel_only.
Qed.

Lemma EvalDecValue_same p st r st' : EvalDecValue p st = Ok r st' -> st' = st.
Proof. unfold EvalDecValue. intros H. inv_Ok H. reflexivity. Qed.

Lemma EvalHexValue_same p st r st' : EvalHexValue p st = Ok r st' -> st' = st.
Proof. unfold EvalHexValue. intros H. inv_Ok H. reflexivity. Qed.

Lemma EvalOctValue_same p st r st' : EvalOctValue p st = Ok r st' -> st' = st.
Proof. unfold EvalOctValue. intros H. inv_Ok H. reflexivity. Qed.

Lemma EvalBinValue_same p st r st' : EvalBinValue p st = Ok r st' -> st' = st.
Proof. unfold EvalBinValue. intros H. inv_Ok H. reflexivity. Qed.

Lemma EvalCharValue_same p st r st' : EvalCharValue p st = Ok r st' -> st' = st.
Proof. unfold EvalCharValue. intros H. inv_Ok H; reflexivity. Qed.

Lemma EvalOperand_only_both n :
  (forall p prio st r st', EvalOperand_ n p prio st = Ok r st' -> only_lab st st')
  /\ (forall p v prio st r st', BinOps_ n p v prio st = Ok r st' -> only_lab st st').
Proof.
  induction n as [|n [IHe IHb]]; split; intros; try discriminate.
  - simpl in H. 
    destruct (SkipSpace p) as [|c q] eqn:Ep; [discriminate|].
    inv_Ok H;
      repeat match goal with
      | H : EvalOperand_ n _ _ _ = Ok _ _ |- _ => apply IHe in H
      | H : BinOps_ n _ _ _ _ = Ok _ _ |- _ => apply IHb in H
      | H : EvalHexValue _ _ = Ok _ _ |- _ => apply EvalHexValue_same in H; subst
      | H : EvalOctValue _ _ = Ok _ _ |- _ => apply EvalOctValue_same in H; subst
      | H : EvalBinValue _ _ = Ok _ _ |- _ => apply EvalBinValue_same in H; subst
      | H : EvalCharValue _ _ = Ok _ _ |- _ => apply EvalCharValue_same in H; subst
      | H : EvalDecValue _ _ = Ok _ _ |- _ => apply EvalDecValue_same in H; subst
      | H : EvalSymValue _ _ = Ok _ _ |- _ => apply EvalSymValue_only in H
      | H : EvalSymBytes _ _ = Ok _ _ |- _ => apply EvalSymBytes_only in H
      end; eauto using only_lab_trans, only_lab_refl.
  - simpl in H. inv_Ok H;
      repeat match goal with
      | H : EvalOperand_ n _ _ _ = Ok _ _ |- _ => apply IHe in H
      | H : BinOps_ n _ _ _ _ = Ok _ _ |- _ => apply IHb in H
      end; eauto using only_lab_trans, only_lab_refl.
Qed.

Lemma EvalOperand_only p prio st r st' :
  EvalOperand p prio st = Ok r st' -> only_lab st st'.
Proof. apply EvalOperand_only_both. Qed.

(** ** What a pass keeps

    [steady q st st']: the run from [st] to [st'] kept the pass counters,
    and kept the image if [q st] holds.  Two readings of [q] are used: the
    passes before the final one ([nonfinal]), for everything but the branch
    optimisation, and the passes that neither are final nor freeze branch
    opcodes ([quiet]), for the whole line. *)

Lemma Quiet_nonfinal : Quiet nonfinal.
Proof.
  split; unfold nonfinal, final_pass.
  - intros st st' -> -> _. reflexivity.
  - intros st ->. reflexivity.
Qed.

Lemma Quiet_quiet : Quiet quiet.
Proof.
  split; unfold quiet, final_pass.
  - intros st st' -> -> ->. reflexivity.
  - intros st ->. reflexivity.
Qed.

Lemma steady_refl q st : steady q st st.
Proof. unfold steady. auto. Qed.

Lemma steady_quiet q st st' : Quiet q -> steady q st st' -> q st' = q st.
Proof. intros Q (H1 & H2 & H3 & _). apply (quiet_mode q Q); assumption. Qed.

Lemma steady_trans q s1 s2 s3 :
  Quiet q -> steady q s1 s2 -> steady q s2 s3 -> steady q s1 s3.
Proof.
  intros Q H12 H23. pose proof (steady_quiet _ _ _ Q H12) as E.
  destruct H12 as (A1 & A2 & A3 & A4), H23 as (B1 & B2 & B3 & B4).
  unfold steady. repeat split; try congruence.
  intros Hq. rewrite B4, A4; congruence.
Qed.

Lemma only_lab_steady q st st' : only_lab st st' -> steady q st st'.
Proof. unfold only_lab. intros ->. unfold steady. simpl. auto. Qed.

(** a state built from [st] by setters of other fields *)
Lemma steady_fields q st st' :
  Pass st' = Pass st -> MaxPass st' = MaxPass st ->
  BranchOpt st' = BranchOpt st -> ROM st' = ROM st -> steady q st st'.
Proof. unfold steady. auto. Qed.

(** a store into the image in a pass that writes *)
Lemma steady_loud q st st' :
  Pass st' = Pass st -> MaxPass st' = MaxPass st ->
  BranchOpt st' = BranchOpt st -> q st = false -> steady q st st'.
Proof. unfold steady. intros. repeat split; auto. congruence. Qed.

Lemma store_loud q a v st r st' :
  q st = false -> store a v st = Ok r st' -> steady q st st'.
Proof.
  unfold store. intros E H. inv_Ok H. apply steady_loud; auto.
Qed.

Lemma store_bytes_loud q buf : Quiet q -> forall a st r st',
  q st = false -> store_bytes a buf st = Ok r st' -> steady q st st'.
Proof.
  intros Q.
  induction buf as [|b buf IH]; simpl; intros a st r st' E H.
  - inv_Ok H. apply steady_refl.
  - inv_Ok H. apply (store_loud q _ _ _ _ _ E) in H0.
    eapply steady_trans; [exact Q|exact H0|].
    eapply IH; [|exact H]. rewrite (steady_quiet _ _ _ Q H0). exact E.
Qed.

Lemma Same_Kept {A} q (m : M A) : Same m -> Kept q m.
Proof. intros H st r st' E. rewrite (H _ _ _ E). apply steady_refl. Qed.

#[local] Hint Resolve Same_Kept | 9 : frames.

(** Every run that is left after [inv_Ok] is replaced by what it keeps;
    the lemma for it is looked up by the head of the call. *)
Ltac to_steady :=
  repeat match goal with
  | Q : Quiet ?q, E : final_pass ?s = true,
    H : store_bytes _ _ ?s = Ok _ ?s' |- _ =>
      apply (store_bytes_loud q _ Q _ _ _ _ (quiet_final q Q _ E)) in H
  | Q : Quiet ?q, H : ?m = Ok ?r ?s' |- _ =>
      lazymatch m with
      | ?f ?s =>
          let F := fresh "F" in
          assert (F : steady q s s')
            by (refine ((_ : Kept q f) s r s' H); eauto with frames);
          clear H
      | _ => fail
      end
  end.

Ltac steady_chain :=
  first
  [ apply steady_refl
  | apply steady_fields; reflexivity
  | apply steady_loud;
    [ reflexivity | reflexivity | reflexivity
    | first [ assumption
            | match goal with
              | Q : Quiet ?q |- _ => apply (quiet_final q Q); assumption
              end ] ]
  | match goal with
    | Q : Quiet ?q, F : steady ?q ?b ?c |- steady ?q ?a ?c =>
        apply (fun G => steady_trans q a b c Q G F); clear F; steady_chain
    end
  | match goal with
    | Q : Quiet ?q, F : steady ?q _ ?s |- steady ?q ?a ?c =>
        lazymatch c with
        | context [s] =>
            apply (steady_trans q a s c Q);
            [ steady_chain | apply steady_fields; reflexivity ]
        end
    end ].

Ltac steady_tac H := inv_Ok H; to_steady; steady_chain.

(** the usual proof: unfold the function, take the run apart, chain *)
Ltac kept :=
  let H := fresh "H" in
  intros st r st' H; steady_tac H.

Ltac same :=
  let H := fresh "H" in
  intros st r st' H; inv_Ok H;
  repeat match goal with
  | H : ?m = Ok ?r ?s' |- _ =>
      lazymatch m with
      | ?f ?s =>
          let F := fresh "F" in
          assert (F : s' = s)
            by (refine ((_ : Same f) s r s' H); eauto with frames);
          clear H; subst
      end
  end; try reflexivity.

Section Keeping.

Variable q : state -> bool.
Hypothesis Q : Quiet q.

Lemma EvalOperand_steady p prio : Kept q (EvalOperand p prio).
Proof. intros st r st' H. apply only_lab_steady. eapply EvalOperand_only; eauto. Qed.

Lemma update_lab_steady j f : Kept q (update_lab j f).
Proof. intros st r st' H. apply only_lab_steady. eapply update_lab_only; eauto. Qed.

#[local] Hint Resolve EvalOperand_steady update_lab_steady : frames.

Lemma lab_at_steady j : Kept q (lab_at j).
Proof. unfold lab_at. kept. Qed.

Lemma find_or_add_steady n a t : Kept q (find_or_add n a t).
Proof. unfold find_or_add. kept. Qed.

Lemma count_change_steady : Kept q count_change.
Proof. unfold count_change. kept. Qed.

#[local] Hint Resolve lab_at_steady find_or_add_steady count_change_steady : frames.

Lemma DefineLabel_assign_steady p lk : Kept q (DefineLabel_assign p lk).
Proof. unfold DefineLabel_assign. kept. Qed.

Lemma DefineLabel_bss_steady p : Kept q (DefineLabel_bss p).
Proof. unfold DefineLabel_bss. kept. Qed.

Lemma DefineLabel_position_steady p : Kept q (DefineLabel_position p).
Proof. unfold DefineLabel_position. kept. Qed.

#[local] Hint Resolve DefineLabel_assign_steady DefineLabel_bss_steady
  DefineLabel_position_steady : frames.

Lemma DefineLabel_steady p lk : Kept q (DefineLabel p lk).
Proof. unfold DefineLabel. kept. Qed.

#[local] Hint Resolve DefineLabel_steady : frames.

Lemma SetPC_steady p : Kept q (SetPC p).
Proof. unfold SetPC. kept. Qed.

Lemma SetBSS_steady p : Kept q (SetBSS p).
Proof. unfold SetBSS. kept. Qed.

Lemma emit_data_steady buf : Kept q (emit_data buf).
Proof. unfold emit_data, set_lengths. kept. Qed.

Lemma emit_raw_steady buf : Kept q (emit_raw buf).
Proof. unfold emit_raw. kept. Qed.

Lemma push_same buf b : Same (push buf b).
Proof. unfold push. same. Qed.

#[local] Hint Resolve SetPC_steady SetBSS_steady emit_data_steady
  emit_raw_steady push_same : frames.

Lemma word_item_steady p be buf : Kept q (word_item p be buf).
Proof. unfold word_item. kept. Qed.

#[local] Hint Resolve word_item_steady : frames.

Lemma ParseWordData_loop_steady n : forall p be buf,
  Kept q (ParseWordData_loop n p be buf).
Proof.
  induction n as [|n IH]; simpl; intros p be buf st r st' H.
  - steady_tac H.
  - inv_Ok H; [apply IH in H|]; to_steady; steady_chain.
Qed.

#[local] Hint Resolve ParseWordData_loop_steady : frames.

Lemma ParseWordData_steady p be : Kept q (ParseWordData p be).
Proof. unfold ParseWordData. kept. Qed.

#[local] Hint Resolve ParseWordData_steady : frames.

Lemma ParseASCII_loop_same n : forall d p b, Same (ParseASCII_loop n d p b).
Proof.
  induction n as [|n IH]; intros d p b st r st' H; destruct p as [|c p];
    simpl in H; inv_Ok H;
    repeat match goal with
    | H : ParseASCII_loop n _ _ _ _ = Ok _ _ |- _ => apply IH in H
    end; auto.
Qed.

Lemma set_bit7_same b : Same (set_bit7 b).
Proof. unfold set_bit7. same. Qed.

#[local] Hint Resolve ParseASCII_loop_same set_bit7_same : frames.

Lemma ParseASCII_same p b : Same (ParseASCII p b).
Proof. unfold ParseASCII. same. Qed.

#[local] Hint Resolve ParseASCII_same : frames.

Lemma quoted_same p c buf : Same (quoted p c buf).
Proof. unfold quoted. same. Qed.

Lemma char_at_same p k : Same (char_at p k).
Proof. unfold char_at. same. Qed.

Lemma packed_same d p : Same (packed d p).
Proof. unfold packed. same. Qed.

#[local] Hint Resolve quoted_same char_at_same packed_same : frames.

Lemma byte_form_of_same p : Same (byte_form_of p).
Proof. unfold byte_form_of. same. Qed.

Lemma packed_low_same p : Same (packed_low p).
Proof. unfold packed_low. same. Qed.

Lemma packed_high_same p : Same (packed_high p).
Proof. unfold packed_high. same. Qed.

Lemma hashed_same p : Same (hashed p).
Proof. unfold hashed. same. Qed.

#[local] Hint Resolve byte_form_of_same packed_low_same packed_high_same
  hashed_same : frames.

Lemma byte_number_steady d p buf : Kept q (byte_number d p buf).
Proof. unfold byte_number. kept. Qed.

#[local] Hint Resolve byte_number_steady : frames.

Lemma byte_item_steady p c buf : Kept q (byte_item p c buf).
Proof. unfold byte_item. kept. Qed.

#[local] Hint Resolve byte_item_steady : frames.

Lemma ParseByteData_loop_steady n : forall p c buf,
  Kept q (ParseByteData_loop n p c buf).
Proof.
  induction n as [|n IH]; simpl; intros p c buf st r st' H.
  - steady_tac H.
  - inv_Ok H; [apply IH in H|]; to_steady; steady_chain.
Qed.

#[local] Hint Resolve ParseByteData_loop_steady : frames.

Lemma ParseByteData_steady p c : Kept q (ParseByteData p c).
Proof. unfold ParseByteData. kept. Qed.

Lemma ParseBSSData_steady p : Kept q (ParseBSSData p).
Proof. unfold ParseBSSData. kept. Qed.

Lemma ParseFillData_steady p : Kept q (ParseFillData p).
Proof. unfold ParseFillData. kept. Qed.

Lemma bits_loop_same n : forall msb v p, Same (bits_loop n msb v p).
Proof.
  induction n as [|n IH]; simpl; intros msb v p st r st' H; inv_Ok H;
    repeat match goal with
    | H : bits_loop n _ _ _ _ = Ok _ _ |- _ => apply IH in H
    end; auto.
Qed.

#[local] Hint Resolve bits_loop_same : frames.

Lemma ParseBitData_steady p : Kept q (ParseBitData p).
Proof. unfold ParseBitData. kept. Qed.

Lemma ParseLitData_steady p : Kept q (ParseLitData p).
Proof. unfold ParseLitData. kept. Qed.

Lemma ParseHex4Data_steady p : Kept q (ParseHex4Data p).
Proof. unfold ParseHex4Data. kept. Qed.

Lemma ParseDec4Data_steady p : Kept q (ParseDec4Data p).
Proof. unfold ParseDec4Data. kept. Qed.

Lemma ParseLongData_steady p l : Kept q (ParseLongData p l).
Proof. unfold ParseLongData. kept. Qed.

Lemma ParseCPUData_steady p : Kept q (ParseCPUData p).
Proof. unfold ParseCPUData. kept. Qed.

Lemma ParseBaseData_steady p : Kept q (ParseBaseData p).
Proof. unfold ParseBaseData. kept. Qed.

Lemma ParseCaseData_steady p : Kept q (ParseCaseData p).
Proof. unfold ParseCaseData. kept. Qed.

Lemma ParseStoreData_steady p : Kept q (ParseStoreData p).
Proof. unfold ParseStoreData. kept. Qed.

#[local] Hint Resolve ParseByteData_steady ParseBSSData_steady
  ParseFillData_steady ParseBitData_steady ParseLitData_steady
  ParseHex4Data_steady ParseDec4Data_steady ParseLongData_steady
  ParseCPUData_steady ParseBaseData_steady ParseCaseData_steady
  ParseStoreData_steady : frames.

Lemma pseudo_ops_steady :
  Forall (fun e => forall p, Kept q (snd e p)) pseudo_ops.
Proof.
  unfold pseudo_ops.
  repeat (apply List.Forall_cons; [cbn [snd]; unfold after; intros p; kept|]).
  apply List.Forall_nil.
Qed.

Lemma find_pseudo_In p tbl action :
  find_pseudo p tbl = Some action -> exists kw, In (kw, action) tbl.
Proof.
  induction tbl as [|[kw a] tbl IH]; simpl; [discriminate|].
  destruct (keyword kw p).
  - intros [= ->]. eauto.
  - intros H. destruct (IH H) as [k Hk]. eauto.
Qed.

Lemma IsPseudo_steady p : Kept q (IsPseudo p).
Proof.
  unfold IsPseudo. intros st r st' H. inv_Ok H.
  - destruct (find_pseudo_In _ _ _ E) as [kw Hin].
    pose proof pseudo_ops_steady as Hall. rewrite Forall_forall in Hall.
    apply list_elem_of_In in Hin. specialize (Hall _ Hin p). cbn [snd] in Hall.
    eapply Hall; eauto.
  - apply steady_refl.
Qed.

Lemma CheckSkip_steady : Kept q CheckSkip.
Proof. unfold CheckSkip. kept. Qed.

Lemma set_skip_steady b : Kept q (set_skip b).
Proof. unfold set_skip. kept. Qed.

#[local] Hint Resolve IsPseudo_steady CheckSkip_steady set_skip_steady : frames.

Lemma check_endif_steady p b : Kept q (check_endif p b).
Proof. unfold check_endif. kept. Qed.

#[local] Hint Resolve check_endif_steady : frames.

Lemma CheckCondition_steady p : Kept q (CheckCondition p).
Proof. unfold CheckCondition. kept. Qed.

Lemma IsInstruction_rest_steady p : Kept q (IsInstruction_rest p).
Proof. unfold IsInstruction_rest. kept. Qed.

#[local] Hint Resolve CheckCondition_steady IsInstruction_rest_steady : frames.

Lemma IsInstruction_steady p : Kept q (IsInstruction p).
Proof. unfold IsInstruction. kept. Qed.

Lemma AddressMode_steady : Kept q AddressMode.
Proof. unfold AddressMode. kept. Qed.

#[local] Hint Resolve IsInstruction_steady AddressMode_steady : frames.

Lemma SplitOperand_steady p : Kept q (SplitOperand p).
Proof. unfold SplitOperand. kept. Qed.

Lemma AdjustOpcode_steady v : Kept q (AdjustOpcode v).
Proof. unfold AdjustOpcode, CPU_Error. kept. Qed.

#[local] Hint Resolve SplitOperand_steady AdjustOpcode_steady : frames.

Lemma gen_implied_steady : Kept q gen_implied.
Proof. unfold gen_implied. kept. Qed.

Lemma gen_bits_steady p : Kept q (gen_bits p).
Proof. unfold gen_bits. kept. Qed.

Lemma gen_short_steady p : Kept q (gen_short p).
Proof. unfold gen_short. kept. Qed.

Lemma gen_long_steady p : Kept q (gen_long p).
Proof. unfold gen_long. kept. Qed.

Lemma gen_operand_steady v o : Kept q (gen_operand v o).
Proof. unfold gen_operand. kept. Qed.

Lemma gen_stack_steady o : Kept q (gen_stack o).
Proof. unfold gen_stack. kept. Qed.

#[local] Hint Resolve gen_implied_steady gen_bits_steady gen_short_steady
  gen_long_steady gen_operand_steady gen_stack_steady : frames.


Lemma gen_emit_loud v st r st' :
  q st = false -> gen_emit v st = Ok r st' -> steady q st st'.
Proof.
  unfold gen_emit, store. intros E H. inv_Ok H; steady_chain.
Qed.

End Keeping.

#[local] Hint Resolve Quiet_quiet Quiet_nonfinal : frames.
#[local] Hint Resolve EvalOperand_steady update_lab_steady lab_at_steady
  find_or_add_steady count_change_steady DefineLabel_steady SetPC_steady
  SetBSS_steady IsPseudo_steady CheckCondition_steady IsInstruction_steady
  SplitOperand_steady AdjustOpcode_steady gen_implied_steady gen_bits_steady
  gen_short_steady gen_long_steady gen_operand_steady gen_stack_steady
  : frames.

(** The freezing store of the branch optimisation happens in the pass before
    the final one, and only with the optimisation on. *)
Lemma gen_branch_opt_steady p st r st' :
  BranchOpt st = true -> gen_branch_opt p st = Ok r st' -> steady quiet st st'.
Proof.
  pose proof Quiet_quiet as Q.
  unfold gen_branch_opt. intros B H. inv_Ok H; to_steady.
  all: try match goal with
    | H : store _ _ ?s = Ok _ _, E : (Pass ?s =? MaxPass ?s - 1) = true |- _ =>
        apply (store_loud quiet) in H;
        [ | unfold quiet; rewrite E;
            replace (BranchOpt s) with true
              by (symmetry; first [ exact B | cbn; destruct F as (_ & _ & -> & _); exact B ]);
            apply andb_false_r ]
    end.
  all: steady_chain.
Qed.

Lemma GenerateCode_steady p : Kept quiet (GenerateCode p).
Proof.
  pose proof Quiet_quiet as Q.
  unfold GenerateCode, gen_finish. intros st r st' H. inv_Ok H; to_steady.
  all: repeat match goal with
    | E : final_pass ?s = true, H : gen_emit _ ?s = Ok _ _ |- _ =>
        eapply (gen_emit_loud quiet) in H; [ | apply (quiet_final _ Q); exact E ]
    | E : _ && BranchOpt ?s && _ = true, H : gen_branch_opt _ ?s = Ok _ _ |- _ =>
        apply gen_branch_opt_steady in H;
        [ | apply andb_prop in E; destruct E as [E _];
            apply andb_prop in E; destruct E as [_ E]; exact E ]
    end.
  all: steady_chain.
Qed.

Ltac kept_quiet := pose proof Quiet_quiet as Q; kept.

Lemma ParseModule_steady q p : Quiet q -> Kept q (ParseModule p).
Proof. intros Q. unfold ParseModule. kept. Qed.

Lemma ParseEndMod_steady q p : Quiet q -> Kept q (ParseEndMod p).
Proof. intros Q. unfold ParseEndMod. kept. Qed.

#[local] Hint Resolve GenerateCode_steady ParseModule_steady
  ParseEndMod_steady : frames.

Lemma ParseLine_code_steady cp : Kept quiet (ParseLine_code cp).
Proof. unfold ParseLine_code. kept_quiet. Qed.

#[local] Hint Resolve ParseLine_code_steady : frames.

Lemma ParseLine_label_steady cp : Kept quiet (ParseLine_label cp).
Proof. unfold ParseLine_label. kept_quiet. Qed.

#[local] Hint Resolve ParseLine_label_steady : frames.

Lemma ParseLine_steady cp : Kept quiet (ParseLine cp).
Proof. unfold ParseLine, after. kept_quiet. Qed.

#[local] Hint Resolve ParseLine_steady : frames.

Lemma next_line_steady l : Kept quiet (next_line l).
Proof. unfold next_line. kept_quiet. Qed.

#[local] Hint Resolve next_line_steady : frames.

Lemma Pass1_loop_steady src : Kept quiet (Pass1_loop src).
Proof.
  pose proof Quiet_quiet as Q.
  induction src as [|l src IH]; simpl; intros st r st' H.
  - steady_tac H.
  - inv_Ok H; [|apply IH in H]; to_steady; steady_chain.
Qed.

#[local] Hint Resolve Pass1_loop_steady : frames.

Lemma Pass1_steady src : Kept quiet (Pass1 src).
Proof. unfold Pass1. kept_quiet. Qed.

Lemma Pass2_loop_steady src : Kept quiet (Pass2_loop src).
Proof.
  pose proof Quiet_quiet as Q.
  induction src as [|l src IH]; simpl; intros st r st' H.
  - steady_tac H.
  - inv_Ok H;
      repeat match goal with
      | H : Pass2_loop src _ = Ok _ _ |- _ => apply IH in H
      end; to_steady; steady_chain.
Qed.

#[local] Hint Resolve Pass1_steady Pass2_loop_steady : frames.

Lemma Pass2_steady src : Kept quiet (Pass2 src).
Proof. unfold Pass2. kept_quiet. Qed.

(** ** The binary operators (claim C4) *)

Lemma find_binop_In p tbl e :
  find_binop p tbl = Some e -> In e tbl /\ starts_with (fst (fst e)) p = true.
Proof.
  induction tbl as [|[[op o] f] tbl IH]; simpl; [discriminate|].
  destruct (starts_with op p) eqn:E.
  - intros [= <-]. auto.
  - intros H. destruct (IH H). auto.
Qed.

Lemma binop_apply_spec op o f v w :
  In (op, o, f) binop ->
  binop_apply f v w
  = if division_overflow op v w then None else Some (binary_result op v w).
Proof.
  unfold binop. intros H.
  repeat (destruct H as [H|H];
          [ injection H as <- <- <-;
            unfold binop_apply, binary_result, binop_call, c_binary,
              division_overflow; simpl;
            destruct ((v =? UNDEF) || (w =? UNDEF)) eqn:U;
            try rewrite ?Z.geb_leb, ?Z.gtb_ltb; try reflexivity
          | ]); [| |destruct H].
  - apply orb_true_iff in U.
    destruct (Z.eqb_spec v INT_MIN); [|reflexivity].
    destruct (Z.eqb_spec w (-1)); [|reflexivity].
    subst. destruct U; discriminate.
  - destruct (Z.eqb_spec w 0).
    + subst w. rewrite andb_false_r. reflexivity.
    + destruct ((v =? INT_MIN) && (w =? -1)); reflexivity.
Qed.

Lemma BinOps_unfold n p v prio :
  BinOps_ (S n) p v prio =
  if negb (ceq (peek p) NUL) && mem_char (peek p) "=*/+-<>!&^|" then
    match find_binop p binop with
    | None => hang
    | Some (op, o, f) =>
        if o <=? prio then mret (p, v)
        else
          q ← inside (adv (String.length op) p);
          '(q', w) ← EvalOperand_ n q o;
          x ← inside (binop_apply f v w);
          BinOps_ n q' x prio
    end
  else mret (p, v).
Proof. reflexivity. Qed.

(** One turn of the loop over the binary operators: when the text at the
    cursor starts with an operator of the table whose priority exceeds the
    current one, the right operand is evaluated and the loop goes on with
    UNDEF if either operand is UNDEF, with UNDEF for a division by zero,
    and with the arithmetic result of the operator in every other case but
    one: for the quotient of [INT_MIN] by -1 the division of [op_div] has
    no result, and the evaluation ends there without one. *)
Lemma binary_operator_application n p v prio st op o f q0 q w st1 :
  find_binop p binop = Some (op, o, f) ->
  prio < o ->
  adv (String.length op) p = Some q0 ->
  EvalOperand_ n q0 o st = Ok (q, w) st1 ->
  BinOps_ (S n) p v prio st
  = if division_overflow op v w then Beyond
    else BinOps_ n q (binary_result op v w) prio st1.
Proof.
  intros Hf Hp Ha He.
  destruct (find_binop_In _ _ _ Hf) as [Hin Hs]. simpl in Hs.
  assert (Hc : negb (ceq (peek p) NUL) && mem_char (peek p) "=*/+-<>!&^|" = true).
  { unfold binop in Hin.
    repeat (destruct Hin as [Hin|Hin];
            [ injection Hin as <- <- <-; destruct p as [|c p];
              cbn [starts_with] in Hs; [discriminate|];
              apply andb_prop in Hs; destruct Hs as [Hs _];
              unfold ceq in Hs; apply Ascii.eqb_eq in Hs; subst c; reflexivity
            | ]).
    destruct Hin. }
  rewrite BinOps_unfold, Hc, Hf.
  replace (o <=? prio) with false by (symmetry; apply Z.leb_gt; exact Hp).
  rewrite Ha. cbn [inside].
  unfold mbind, M_bind, mret, M_ret. rewrite He.
  rewrite (binop_apply_spec _ _ _ v w Hin).
  destruct (division_overflow op v w); reflexivity.
Qed.

Lemma binary_operator_application_witness :
  BinOps_ 5 "/0" 10 0 (start_state 0)
  = BinOps_ 4 EmptyString UNDEF 0 (start_state 0)
  /\ BinOps_ 5 "/-1" INT_MIN 0 (start_state 0) = Beyond.
Proof.
  split.
  - apply (binary_operator_application 4 "/0" 10 0 (start_state 0)
             "/" 11 op_div "0" EmptyString 0 (start_state 0)).
    + reflexivity.
    + lia.
    + reflexivity.
    + reflexivity.
  - apply (binary_operator_application 4 "/-1" INT_MIN 0 (start_state 0)
             "/" 11 op_div "-1" EmptyString (-1) (start_state 0)).
    + reflexivity.
    + lia.
    + reflexivity.
    + reflexivity.
Defined.

Example quotient_by_zero :
  exists st, EvalOperand "10/0" 0 (start_state 0) = Ok (EmptyString, UNDEF) st.
Proof. eexists. vm_compute. reflexivity. Qed.

Example undefined_left_operand :
  exists st, EvalOperand "MISSING*2" 0 (start_state 0) = Ok (EmptyString, UNDEF) st.
Proof. eexists. vm_compute. reflexivity. Qed.

Example defined_operands :
  exists st, EvalOperand "2+3*4" 0 (start_state 0) = Ok (EmptyString, 14) st.
Proof. eexists. vm_compute. reflexivity. Qed.

(** C4.  The claim holds of every application of a binary operator but
    one, which [op_div] misses: it tests the divisor for 0 only, and the
    quotient of [INT_MIN] by -1 has no result.  The hexadecimal constant
    $80000000 is [INT_MIN] and the operand -1 has the value -1, neither is
    UNDEF and the divisor is not 0; the evaluation of their quotient ends
    without a result, in an operand and so in the run of a source that
    holds it. *)
Theorem quotient_without_result :
  EvalOperand "$80000000" 0 (start_state 0)
    = Ok (EmptyString, INT_MIN) (start_state 0)
  /\ EvalOperand "-1" 11 (start_state 0) = Ok (EmptyString, -1) (start_state 0)
  /\ binop_apply op_div INT_MIN (-1) = None
  /\ EvalOperand "$80000000/-1" 0 (start_state 0) = Beyond
  /\ main_passes ["*=$1000"; " .WORD $80000000/-1"] (start_state 0) = Beyond.
Proof. vm_compute. repeat split; reflexivity. Qed.

(** ** The unary operators (claim C9) *)

Lemma find_unaop_In c tbl f :
  find_unaop c tbl = Some f -> In (c, f) tbl.
Proof.
  induction tbl as [|[d g] tbl IH]; simpl; [discriminate|].
  destruct (ceq c d) eqn:E.
  - intros [= <-]. unfold ceq in E. apply Ascii.eqb_eq in E. subst. auto.
  - auto.
Qed.

Lemma In_take {A} (x : A) n : forall l, In x (take n l) -> In x l.
Proof.
  induction n as [|n IH]; intros [|y l]; simpl; try tauto.
  intros [H|H]; auto.
Qed.

Lemma unaop_of_In st c f : unaop_of st c = Some f -> In (c, f) unaop.
Proof.
  unfold unaop_of. intros H. apply find_unaop_In in H.
  eapply In_take; eauto.
Qed.

Lemma EvalOperand_unfold n p prio :
  EvalOperand_ (S n) p prio =
  let p := SkipSpace p in
  match p with
  | EmptyString => exit_
  | String c r =>
      if ceq c "," then mret (p, UNDEF)
      else
        st ← get;
        '(q, v) ←
          match unaop_of st c with
          | Some op_par =>
              let closing := (if ceq c "[" then "]" else ")")%char in
              '(q, v) ← EvalOperand_ n r 0;
              match strchr q closing with
              | Some (String _ q') => mret (q', v)
              | _ => exit_
              end
          | Some op_prc => mret (r, pc st)
          | Some op_hex => EvalHexValue r
          | Some op_oct => EvalOctValue r
          | Some op_cha => EvalCharValue r
          | Some op_bin => EvalBinValue r
          | Some op_len => EvalSymBytes r
          | Some f =>
              '(q, v) ← EvalOperand_ n r 12;
              mret (q, unaop_value f v)
          | None =>
              if isdigit c && negb (isnnd p) then EvalDecValue p
              else if isym p || isnnd p then EvalSymValue p
              else exit_
          end;
        BinOps_ n (SkipSpace q) v prio
  end.
Proof. reflexivity. Qed.

Lemma unaop_char st c f :
  unaop_of st c = Some f -> isspace c = false /\ ceq c "," = false.
Proof.
  intros H. apply unaop_of_In in H. unfold unaop in H.
  repeat (destruct H as [H|H]; [injection H as <- <-; split; reflexivity|]).
  destruct H.
Qed.

Lemma EvalOperand_unary n c r prio st f :
  unaop_of st c = Some f -> on_operand f = true ->
  EvalOperand_ (S n) (String c r) prio st =
  ('(q, v) ← EvalOperand_ n r 12;
   BinOps_ n (SkipSpace q) (unaop_value f v) prio) st.
Proof.
  intros Hu Ho. destruct (unaop_char _ _ _ Hu) as [Hs Hc].
  rewrite EvalOperand_unfold. cbv zeta. cbn [SkipSpace]. rewrite Hs, Hc.
  unfold mbind, M_bind, get. rewrite Hu.
  destruct f; try discriminate Ho;
    destruct (EvalOperand_ n r 12 st) as [[q v] s| | | |]; reflexivity.
Qed.

Lemma EvalOperand_bracket n c r prio st :
  unaop_of st c = Some op_par ->
  EvalOperand_ (S n) (String c r) prio st =
  ('(q, v) ← ('(q, v) ← EvalOperand_ n r 0;
              match strchr q (closing c) with
              | Some (String _ q') => mret (q', v)
              | _ => exit_
              end);
   BinOps_ n (SkipSpace q) v prio) st.
Proof.
  intros Hu. destruct (unaop_char _ _ _ Hu) as [Hs Hc].
  rewrite EvalOperand_unfold. cbv zeta. cbn [SkipSpace]. rewrite Hs, Hc.
  unfold mbind at 1, M_bind at 1, get at 1. rewrite Hu. reflexivity.
Qed.

(** C9, as amended.  A unary operator of the table that works on the
    value of its operand, applied to an operand whose value is UNDEF:
    minus, logical not and bitwise not go on with the arithmetic result
    computed on the sentinel (-0xFF0000, 0 and ~0xFF0000), which is not
    UNDEF; the low-byte and the high-byte operator go on with UNDEF, and
    so does unary plus: these three are the operators of this kind that
    hand UNDEF on.  A bracket, round or square, around an operand whose
    value is UNDEF goes on with UNDEF as well. *)
Theorem unary_operator_on_undefined n c r prio st f q st1 :
  unaop_of st c = Some f ->
  (on_operand f = true ->
   EvalOperand_ n r 12 st = Ok (q, UNDEF) st1 ->
   EvalOperand_ (S n) (String c r) prio st
     = BinOps_ n (SkipSpace q) (unaop_value f UNDEF) prio st1
   /\ (f = op_min -> unaop_value f UNDEF = - 0xFF0000)
   /\ (f = op_lno -> unaop_value f UNDEF = 0)
   /\ (f = op_bno -> unaop_value f UNDEF = - 0xFF0000 - 1)
   /\ (unaop_value f UNDEF = UNDEF
       <-> f = op_plu \/ f = op_low \/ f = op_hig))
  /\ (f = op_par ->
      forall d q',
        EvalOperand_ n r 0 st = Ok (q, UNDEF) st1 ->
        strchr q (closing c) = Some (String d q') ->
        EvalOperand_ (S n) (String c r) prio st
        = BinOps_ n (SkipSpace q') UNDEF prio st1).
Proof.
  intros Hu. split.
  - intros Ho He. split.
    + rewrite (EvalOperand_unary _ _ _ _ _ _ Hu Ho).
      unfold mbind, M_bind. rewrite He. reflexivity.
    + repeat split; try (intros ->; reflexivity).
      * destruct f; try discriminate Ho; vm_compute; intros H;
          try discriminate H; auto.
      * intros [-> | [-> | ->]]; reflexivity.
  - intros -> d q' He Hq.
    rewrite (EvalOperand_bracket _ _ _ _ _ Hu).
    unfold mbind, M_bind. rewrite He. cbn beta iota. rewrite Hq.
    reflexivity.
Qed.

Lemma unary_operator_on_undefined_witness :
  (exists st1 : state,
     EvalOperand_ 6 "-MISSING" 0 (start_state 0)
     = BinOps_ 5 EmptyString (- 0xFF0000) 0 st1)
  /\ (exists st1 : state,
        EvalOperand_ 6 "+MISSING" 0 (start_state 0)
        = BinOps_ 5 EmptyString UNDEF 0 st1)
  /\ (exists st1 : state,
        EvalOperand_ 6 "(MISSING)" 0 (start_state 0)
        = BinOps_ 5 EmptyString UNDEF 0 st1).
Proof.
  split; [|split]; eexists.
  - epose proof (unary_operator_on_undefined 5 "-" "MISSING" 0 (start_state 0)
                   op_min EmptyString _ eq_refl) as [H _].
    destruct (H eq_refl eq_refl) as (H1 & _). exact H1.
  - epose proof (unary_operator_on_undefined 5 "+" "MISSING" 0 (start_state 0)
                   op_plu EmptyString _ eq_refl) as [H _].
    destruct (H eq_refl eq_refl) as (H1 & _). exact H1.
  - epose proof (unary_operator_on_undefined 5 "(" "MISSING)" 0 (start_state 0)
                   op_par ")" _ eq_refl) as [_ H].
    exact (H eq_refl ")"%char EmptyString eq_refl eq_refl).
Defined.

(** C9 as it is stated fails: the low-byte and the high-byte operator are
    not the only unary operators that hand UNDEF on.  The operand MISSING,
    a symbol without a value, is UNDEF, and so are +MISSING, (MISSING) and
    [MISSING] . *)
Lemma byte_operators_are_not_alone :
  ~ (forall c : ascii,
       (exists st, EvalOperand (String c "MISSING") 0 (start_state 0)
                   = Ok (EmptyString, UNDEF) st) ->
       c = "<"%char \/ c = ">"%char)
  /\ (exists st, EvalOperand "(MISSING)" 0 (start_state 0)
                 = Ok (EmptyString, UNDEF) st)
  /\ (exists st, EvalOperand "[MISSING]" 0 (start_state 0)
                 = Ok (EmptyString, UNDEF) st).
Proof.
  split; [|split].
  - intros H. destruct (H "+"%char) as [E|E]; [|discriminate E..].
    eexists. vm_compute. reflexivity.
  - eexists. vm_compute. reflexivity.
  - eexists. vm_compute. reflexivity.
Qed.

Example minus_undefined :
  exists st, EvalOperand "-MISSING" 0 (start_state 0)
             = Ok (EmptyString, - 0xFF0000) st.
Proof. eexists. vm_compute. reflexivity. Qed.

Example not_undefined :
  exists st, EvalOperand "!MISSING" 0 (start_state 0) = Ok (EmptyString, 0) st.
Proof. eexists. vm_compute. reflexivity. Qed.

Example complement_undefined :
  exists st, EvalOperand "~MISSING" 0 (start_state 0)
             = Ok (EmptyString, - 0xFF0000 - 1) st.
Proof. eexists. vm_compute. reflexivity. Qed.

Example low_byte_undefined :
  exists st, EvalOperand "<MISSING" 0 (start_state 0)
             = Ok (EmptyString, UNDEF) st.
Proof. eexists. vm_compute. reflexivity. Qed.

Example high_byte_undefined :
  exists st, EvalOperand ">MISSING" 0 (start_state 0)
             = Ok (EmptyString, UNDEF) st.
Proof. eexists. vm_compute. reflexivity. Qed.

(** unary plus hands the sentinel on, as it hands on every value *)
Example plus_undefined :
  exists st, EvalOperand "+MISSING" 0 (start_state 0)
             = Ok (EmptyString, UNDEF) st.
Proof. eexists. vm_compute. reflexivity. Qed.

(** ** Cursors only move forward *)

Local Open Scope nat_scope.

Lemma SkipSpace_length p : String.length (SkipSpace p) <= String.length p.
Proof. induction p as [|c p IH]; simpl; [lia|]. destruct (isspace c); simpl; lia. Qed.

Lemma tail_length p : String.length (tail p) <= String.length p.
Proof. destruct p; simpl; lia. Qed.

Lemma adv_length n : forall p q,
  adv n p = Some q -> String.length q + n = String.length p.
Proof.
  induction n as [|n IH]; intros p q H; simpl in H.
  - injection H as <-. lia.
  - destruct p as [|c p]; [discriminate H|]. apply IH in H. simpl. lia.
Qed.

Lemma strchr_length c : forall p s,
  strchr p c = Some s -> String.length s <= String.length p.
Proof.
  induction p as [|d p IH]; intros s H; simpl in H; [discriminate H|].
  destruct (ceq d c).
  - injection H as <-. simpl. lia.
  - apply IH in H. simpl. lia.
Qed.

Lemma scan_digits_length ok base : forall p acc,
  String.length (snd (scan_digits ok base acc p)) <= String.length p.
Proof.
  induction p as [|c p IH]; intros acc; simpl; [lia|].
  destruct (ok c); simpl; [|lia]. specialize (IH (acc * base + digit_val c)%Z). lia.
Qed.

Lemma skip_while_length ok p :
  String.length (skip_while ok p) <= String.length p.
Proof. induction p as [|c p IH]; simpl; [lia|]. destruct (ok c); simpl; lia. Qed.

Lemma EvalBinValue_loop_length : forall p r,
  String.length (fst (EvalBinValue_loop r p)) <= String.length p.
Proof.
  induction p as [|c p IH]; intros r; simpl; [lia|].
  destruct (_ || _); simpl; [|lia].
  match goal with |- context [EvalBinValue_loop ?x p] => specialize (IH x) end.
  lia.
Qed.

Lemma copy_nnd_length p :
  String.length (snd (copy_nnd p)) <= String.length p.
Proof.
  induction p as [|c p IH]; simpl; [lia|].
  destruct (ceq c "$"); simpl; [lia|].
  destruct (copy_nnd p) as [a q]. simpl in *. lia.
Qed.

Lemma copy_sym_length p :
  String.length (snd (copy_sym p)) <= String.length p.
Proof.
  induction p as [|c p IH]; [simpl; lia|].
  cbn [copy_sym]. destruct (isym (String c p)); [|simpl; lia].
  destruct (copy_sym p) as [a q]. simpl in *. lia.
Qed.

Lemma GetSymbol_length st p :
  String.length (snd (GetSymbol st p)) <= String.length p.
Proof.
  unfold GetSymbol. destruct (isnnd p).
  - pose proof (copy_nnd_length p). destruct (copy_nnd p). simpl in *. lia.
  - destruct p as [|c r]; [apply copy_sym_length|].
    destruct (_ && _); [|apply copy_sym_length].
    pose proof (copy_sym_length r). destruct (copy_sym r). simpl in *. lia.
Qed.

Lemma EvalDecValue_length p st q v st' :
  EvalDecValue p st = Ok (q, v) st' -> String.length q <= String.length p.
Proof.
  unfold EvalDecValue. pose proof (scan_digits_length isdigit 10 p 0) as L.
  destruct (scan_digits isdigit 10 0 p) as [w r]. simpl in L.
  intros H. inv_Ok H. inv_pairs. exact L.
Qed.

Lemma EvalHexValue_length p st q v st' :
  EvalHexValue p st = Ok (q, v) st' -> String.length q <= String.length p.
Proof.
  unfold EvalHexValue. destruct p as [|c r]; [discriminate|].
  pose proof (scan_digits_length isxdigit 16 (String c r) 0) as L.
  destruct (scan_digits isxdigit 16 0 (String c r)) as [w s]. simpl in L.
  intros H. inv_Ok H. inv_pairs. exact L.
Qed.

Lemma EvalOctValue_length p st q v st' :
  EvalOctValue p st = Ok (q, v) st' -> String.length q <= String.length p.
Proof.
  unfold EvalOctValue. intros H. inv_Ok H. inv_pairs. apply skip_while_length.
Qed.

Lemma EvalBinValue_length p st q v st' :
  EvalBinValue p st = Ok (q, v) st' -> String.length q <= String.length p.
Proof.
  unfold EvalBinValue. intros H. inv_Ok H.
  pose proof (EvalBinValue_loop_length p 0) as L. rewrite <- H in L. exact L.
Qed.

Lemma EvalCharValue_length p st q v st' :
  EvalCharValue p st = Ok (q, v) st' -> String.length q <= String.length p.
Proof.
  unfold EvalCharValue. intros H. inv_Ok H; inv_pairs; simpl; lia.
Qed.

Lemma EvalSymValue_length p st q v st' :
  EvalSymValue p st = Ok (q, v) st' -> String.length q <= String.length p.
Proof.
  unfold EvalSymValue. intros H.
  apply bind_Ok in H. destruct H as (g & g' & Hg & H).
  unfold get in Hg. inversion Hg; subst g g'; clear Hg.
  pose proof (GetSymbol_length st p) as L.
  destruct (GetSymbol st p) as [Sym r]. simpl in L.
  inv_Ok H; inv_pairs; exact L.
Qed.

Lemma EvalSymBytes_length p st q v st' :
  EvalSymBytes p st = Ok (q, v) st' -> String.length q <= String.length p.
Proof.
  unfold EvalSymBytes. intros H.
  apply bind_Ok in H. destruct H as (g & g' & Hg & H).
  unfold get in Hg. inversion Hg; subst g g'; clear Hg.
  pose proof (GetSymbol_length st p) as L.
  destruct (GetSymbol st p) as [Sym r]. simpl in L.
  inv_Ok H; inv_pairs; exact L.
Qed.

Lemma EvalOperand_length_both n :
  (forall p prio st q v st',
     EvalOperand_ n p prio st = Ok (q, v) st' ->
     String.length q <= String.length p)
  /\ (forall p v prio st q w st',
        BinOps_ n p v prio st = Ok (q, w) st' ->
        String.length q <= String.length p).
Proof.
  induction n as [|n [IHe IHb]]; split; intros; try discriminate.
  - rewrite EvalOperand_unfold in H. cbv zeta in H.
    pose proof (SkipSpace_length p) as Ls.
    destruct (SkipSpace p) as [|c r] eqn:Ep; [discriminate|].
    simpl in Ls.
    destruct (ceq c ","); [inv_Ok H; inv_pairs; simpl; lia|].
    apply bind_Ok in H. destruct H as (g & g' & Hg & H).
    unfold get in Hg. inversion Hg; subst g g'; clear Hg.
    apply bind_Ok in H. destruct H as ([q1 v1] & s1 & H1 & H).
    apply IHb in H. pose proof (SkipSpace_length q1) as L1.
    assert (L : String.length q1 <= S (String.length r)); [|lia].
    clear H. inv_Ok H1; inv_pairs;
      repeat match goal with
      | H : EvalOperand_ n _ _ _ = Ok _ _ |- _ => apply IHe in H
      | H : EvalHexValue _ _ = Ok _ _ |- _ => apply EvalHexValue_length in H
      | H : EvalOctValue _ _ = Ok _ _ |- _ => apply EvalOctValue_length in H
      | H : EvalBinValue _ _ = Ok _ _ |- _ => apply EvalBinValue_length in H
      | H : EvalCharValue _ _ = Ok _ _ |- _ => apply EvalCharValue_length in H
      | H : EvalDecValue _ _ = Ok _ _ |- _ => apply EvalDecValue_length in H
      | H : EvalSymValue _ _ = Ok _ _ |- _ => apply EvalSymValue_length in H
      | H : EvalSymBytes _ _ = Ok _ _ |- _ => apply EvalSymBytes_length in H
      | H : strchr _ _ = Some _ |- _ => apply strchr_length in H
      end; simpl in *; lia.
  - rewrite BinOps_unfold in H.
    destruct (_ && _); [|inv_Ok H; inv_pairs; lia].
    destruct (find_binop p binop) as [[[op o] f]|]; [|discriminate].
    destruct (o <=? prio)%Z; [inv_Ok H; inv_pairs; lia|].
    apply bind_Ok in H. destruct H as (q0 & s0 & H0 & H).
    unfold inside in H0. destruct (adv (String.length op) p) eqn:Ea;
      [|discriminate]. inversion H0; subst; clear H0.
    apply adv_length in Ea.
    apply bind_Ok in H. destruct H as ([q1 w1] & s1 & H1 & H).
    apply IHe in H1.
    apply inside_bind in H. destruct H as (x & _ & H).
    apply IHb in H. lia.
Qed.

Lemma EvalOperand_length p prio st q v st' :
  EvalOperand p prio st = Ok (q, v) st' ->
  String.length q <= String.length p.
Proof. apply EvalOperand_length_both. Qed.

(** ** The recursion budget is never spent *)

Lemma bind_fuel {A B} (m : M A) (k : A -> M B) st :
  m st <> NoFuel ->
  (forall a s, m st = Ok a s -> k a s <> NoFuel) ->
  (m ≫= k) st <> NoFuel.
Proof.
  unfold mbind, M_bind. intros Hm Hk.
  destruct (m st) as [a s| | | |]; try discriminate; auto.
Qed.

Lemma find_binop_length p e :
  find_binop p binop = Some e -> 1 <= String.length (fst (fst e)).
Proof.
  intros H. apply find_binop_In in H. destruct H as [H _]. unfold binop in H.
  repeat (destruct H as [H|H]; [subst e; simpl; lia|]). destruct H.
Qed.

Lemma EvalOperand_fuel_both n :
  (forall p prio st, 2 * String.length p + 2 <= n ->
     EvalOperand_ n p prio st <> NoFuel)
  /\ (forall p v prio st, 2 * String.length p + 1 <= n ->
        BinOps_ n p v prio st <> NoFuel).
Proof.
  induction n as [|n [IHe IHb]]; split; intros; try lia.
  - rewrite EvalOperand_unfold. cbv zeta.
    pose proof (SkipSpace_length p) as Ls.
    destruct (SkipSpace p) as [|c r] eqn:Ep; [discriminate|].
    simpl in Ls.
    destruct (ceq c ","); [discriminate|].
    apply bind_fuel; [discriminate|]. intros g g' Hg.
    unfold get in Hg. inversion Hg; subst g g'; clear Hg.
    apply bind_fuel.
    + destruct (unaop_of st c) as [f|].
      * destruct f; try discriminate;
          try (apply bind_fuel;
               [ apply IHe; lia
               | intros [q1 v1] s1 _; try discriminate;
                 destruct (strchr q1 _) as [[|? ?]|]; discriminate ]).
        -- unfold EvalHexValue. destruct r; [discriminate|].
           destruct (negb _); [discriminate|]. destruct (_ && _); [discriminate|].
           destruct (scan_digits _ _ _ _). destruct (_ <? _)%Z; discriminate.
        -- unfold EvalCharValue. destruct r as [|d r']; [discriminate|].
           destruct (ceq d " "); [discriminate|].
           apply bind_fuel.
           ++ destruct (ceq d "\"); [destruct r'|]; discriminate.
           ++ intros [v1 q1] s1 _. destruct q1; [discriminate|].
              destruct (ceq _ _); discriminate.
        -- unfold EvalSymBytes. apply bind_fuel; [discriminate|].
           intros g g' Hg. destruct (GetSymbol g r).
           destruct (LabelIndex g s).
           ++ apply bind_fuel; [|discriminate].
              unfold SymRefs. apply bind_fuel; [discriminate|].
              intros g1 g1' _. destruct (negb _); discriminate.
           ++ apply bind_fuel; [|discriminate].
              unfold AddLabel. apply bind_fuel; [discriminate|].
              intros g1 g1' _. destruct (too_many_labels g1); discriminate.
        -- unfold EvalOctValue. destruct (negb _); [discriminate|].
           destruct (scan_digits _ _ _ _). destruct (_ <? _)%Z; discriminate.
      * destruct (_ && _).
        -- unfold EvalDecValue. destruct (scan_digits _ _ _ _).
           destruct (negb _); [discriminate|]. destruct (negb _); discriminate.
        -- destruct (_ || _); [|discriminate].
           unfold EvalSymValue. apply bind_fuel; [discriminate|].
           intros g g' Hg. destruct (GetSymbol g _).
           destruct (LabelIndex g s).
           ++ apply bind_fuel.
              ** unfold SymRefs. apply bind_fuel; [discriminate|].
                 intros g1 g1' _. destruct (negb _); discriminate.
              ** intros ? ? _. destruct (_ && _); discriminate.
           ++ apply bind_fuel; [|discriminate].
              unfold AddLabel. apply bind_fuel; [discriminate|].
              intros g1 g1' _. destruct (too_many_labels g1); discriminate.
    + intros [q1 v1] s1 H1. apply IHb.
      pose proof (SkipSpace_length q1) as L1.
      assert (L : String.length q1 <= S (String.length r)); [|lia].
      inv_Ok H1; inv_pairs;
      repeat match goal with
      | H : EvalOperand_ n _ _ _ = Ok _ _ |- _ =>
          apply (proj1 (EvalOperand_length_both n)) in H
      | H : EvalHexValue _ _ = Ok _ _ |- _ => apply EvalHexValue_length in H
      | H : EvalOctValue _ _ = Ok _ _ |- _ => apply EvalOctValue_length in H
      | H : EvalBinValue _ _ = Ok _ _ |- _ => apply EvalBinValue_length in H
      | H : EvalCharValue _ _ = Ok _ _ |- _ => apply EvalCharValue_length in H
      | H : EvalDecValue _ _ = Ok _ _ |- _ => apply EvalDecValue_length in H
      | H : EvalSymValue _ _ = Ok _ _ |- _ => apply EvalSymValue_length in H
      | H : EvalSymBytes _ _ = Ok _ _ |- _ => apply EvalSymBytes_length in H
      | H : strchr _ _ = Some _ |- _ => apply strchr_length in H
      end; simpl in *; lia.
  - rewrite BinOps_unfold.
    destruct (_ && _); [|discriminate].
    destruct (find_binop p binop) as [[[op o] f]|] eqn:Ef; [|discriminate].
    apply find_binop_length in Ef. simpl in Ef.
    destruct (o <=? prio)%Z; [discriminate|].
    apply bind_fuel.
    + destruct (adv _ _); discriminate.
    + intros q0 s0 H0.
      unfold inside in H0. destruct (adv (String.length op) p) eqn:Ea;
        [|discriminate]. inversion H0; subst; clear H0.
      apply adv_length in Ea.
      apply bind_fuel; [apply IHe; lia|].
      intros [q1 w1] s1 H1.
      apply (proj1 (EvalOperand_length_both n)) in H1.
      apply bind_fuel; [destruct (binop_apply f v w1); discriminate|].
      intros x s2 Hx.
      destruct (binop_apply f v w1); [|discriminate Hx].
      inversion Hx; subst. apply IHb. lia.
Qed.

(** the budget of [EvalOperand] is enough: the evaluator never answers
    [NoFuel] *)
Lemma EvalOperand_fuel p prio st : EvalOperand p prio st <> NoFuel.
Proof. apply EvalOperand_fuel_both. unfold EvalOperand. lia. Qed.

(** more budget changes nothing *)
Lemma bind_congr {A B} (m1 m2 : M A) (k1 k2 : A -> M B) st :
  m1 st = m2 st ->
  (forall a s, m2 st = Ok a s -> k1 a s = k2 a s) ->
  (m1 ≫= k1) st = (m2 ≫= k2) st.
Proof.
  unfold mbind, M_bind. intros -> Hk.
  destruct (m2 st) as [a s| | | |]; auto.
Qed.

Lemma bind_fuel_inv {A B} (m : M A) (k : A -> M B) st :
  (m ≫= k) st <> NoFuel ->
  m st <> NoFuel /\ forall a s, m st = Ok a s -> k a s <> NoFuel.
Proof.
  unfold mbind, M_bind. intros H.
  destruct (m st) as [a s| | | |]; split; try discriminate; try congruence;
    try (intros a' s' E; inversion E; subst; exact H).
Qed.

Lemma EvalOperand_more_both n :
  (forall m p prio st, n <= m -> EvalOperand_ n p prio st <> NoFuel ->
     EvalOperand_ m p prio st = EvalOperand_ n p prio st)
  /\ (forall m p v prio st, n <= m -> BinOps_ n p v prio st <> NoFuel ->
        BinOps_ m p v prio st = BinOps_ n p v prio st).
Proof.
  induction n as [|n [IHe IHb]]; split; intros m p; intros.
  - exfalso. apply H0. reflexivity.
  - exfalso. apply H0. reflexivity.
  - destruct m as [|m]; [lia|]. assert (Hm : n <= m) by lia.
    rewrite !EvalOperand_unfold in *. cbv zeta in *.
    destruct (SkipSpace p) as [|c r]; [reflexivity|].
    destruct (ceq c ","); [reflexivity|].
    apply bind_congr; [reflexivity|]. intros g g' Hg.
    apply bind_fuel_inv in H0. destruct H0 as [_ H0].
    specialize (H0 _ _ Hg).
    unfold get in Hg. inversion Hg; subst g g'; clear Hg.
    apply bind_fuel_inv in H0. destruct H0 as [H1 H2].
    apply bind_congr.
    + destruct (unaop_of st c) as [f|]; [|reflexivity].
      destruct f; try reflexivity;
        (apply bind_fuel_inv in H1; destruct H1 as [H1 _];
         apply bind_congr; [apply IHe; assumption | reflexivity]).
    + intros [q1 v1] s1 E1. apply IHb; [exact Hm|]. apply (H2 _ _ E1).
  - destruct m as [|m]; [lia|]. assert (Hm : n <= m) by lia.
    rewrite !BinOps_unfold in *.
    destruct (_ && _); [|reflexivity].
    destruct (find_binop p binop) as [[[op o] f]|]; [|reflexivity].
    destruct (o <=? prio)%Z; [reflexivity|].
    apply bind_congr; [reflexivity|]. intros q0 s0 E0.
    apply bind_fuel_inv in H0. destruct H0 as [_ H0].
    specialize (H0 _ _ E0).
    apply bind_fuel_inv in H0. destruct H0 as [H1 H2].
    apply bind_congr; [apply IHe; assumption|].
    intros [q1 w1] s1 E1. specialize (H2 _ _ E1).
    apply bind_fuel_inv in H2. destruct H2 as [_ H2].
    apply bind_congr; [reflexivity|].
    intros x s2 Ex. apply IHb; [exact Hm|]. apply (H2 _ _ Ex).
Qed.

(** [EvalOperand] is the evaluator with any budget from its own on *)
Lemma EvalOperand_any_budget n p prio st :
  2 * String.length p + 2 <= n ->
  EvalOperand_ n p prio st = EvalOperand p prio st.
Proof.
  intros H. unfold EvalOperand.
  apply (proj1 (EvalOperand_more_both _)); [exact H|].
  apply EvalOperand_fuel_both. lia.
Qed.

(** ** No run ends for want of budget *)

Lemma Fueled_ret {A} (a : A) : Fueled (mret a : M A).
Proof. intros st. discriminate. Qed.

Lemma Fueled_bind {A B} (m : M A) (k : A -> M B) :
  Fueled m -> (forall a, Fueled (k a)) -> Fueled (m ≫= k).
Proof. intros Hm Hk st. apply bind_fuel; [apply Hm | intros a s _; apply Hk]. Qed.

Lemma Fueled_get : Fueled get.
Proof. intros st. discriminate. Qed.

Lemma Fueled_modify f : Fueled (modify f).
Proof. intros st. discriminate. Qed.

Lemma Fueled_exit {A} : Fueled (exit_ : M A).
Proof. intros st. discriminate. Qed.

Lemma Fueled_hang {A} : Fueled (hang : M A).
Proof. intros st. discriminate. Qed.

Lemma Fueled_beyond {A} : Fueled (beyond : M A).
Proof. intros st. discriminate. Qed.

Lemma Fueled_inside {A} (o : option A) : Fueled (inside o).
Proof. intros st. destruct o; discriminate. Qed.

Lemma Fueled_when b m : Fueled m -> Fueled (when_ b m).
Proof. intros H. destruct b; [exact H | apply Fueled_ret]. Qed.

Lemma Fueled_store a v : Fueled (store a v).
Proof. intros st. unfold store. destruct (_ && _); discriminate. Qed.

Create HintDb fuel discriminated.
#[local] Hint Constants Opaque : fuel.
#[local] Hint Variables Opaque : fuel.
#[local] Hint Resolve Fueled_store : fuel.

(** the usual proof: along binds, conditionals and matches *)
Ltac fueled :=
  repeat (intros; cbv beta;
    lazymatch goal with
    | |- Fueled (@mret _ _ _ _) => apply Fueled_ret
    | |- Fueled (@mbind _ _ _ _ _ _) => apply Fueled_bind
    | |- Fueled get => apply Fueled_get
    | |- Fueled (modify _) => apply Fueled_modify
    | |- Fueled exit_ => apply Fueled_exit
    | |- Fueled hang => apply Fueled_hang
    | |- Fueled beyond => apply Fueled_beyond
    | |- Fueled (inside _) => apply Fueled_inside
    | |- Fueled (when_ _ _) => apply Fueled_when
    | |- Fueled (if ?b then _ else _) => destruct b
    | |- Fueled (let '(_, _) := ?x in _) => destruct x
    | |- Fueled (match ?x with _ => _ end) => destruct x
    | |- Fueled _ => solve [eauto with fuel]
    end).

Lemma Fueled_store_bytes buf : forall a, Fueled (store_bytes a buf).
Proof. induction buf as [|b buf IH]; intros a; simpl; fueled. Qed.

Lemma Fueled_EvalOperand p prio : Fueled (EvalOperand p prio).
Proof. intros st. apply EvalOperand_fuel. Qed.

#[local] Hint Resolve Fueled_store_bytes Fueled_EvalOperand : fuel.

Lemma Fueled_update_lab j f : Fueled (update_lab j f).
Proof. unfold update_lab. fueled. Qed.

Lemma Fueled_lab_at j : Fueled (lab_at j).
Proof. unfold lab_at. fueled. Qed.

Lemma Fueled_find_or_add n a t : Fueled (find_or_add n a t).
Proof. unfold find_or_add. fueled. Qed.

Lemma Fueled_count_change : Fueled count_change.
Proof. unfold count_change. fueled. Qed.

#[local] Hint Resolve Fueled_update_lab Fueled_lab_at Fueled_find_or_add
  Fueled_count_change : fuel.

Lemma Fueled_DefineLabel_assign p lk : Fueled (DefineLabel_assign p lk).
Proof. unfold DefineLabel_assign. fueled. Qed.

Lemma Fueled_DefineLabel_bss p : Fueled (DefineLabel_bss p).
Proof. unfold DefineLabel_bss. fueled. Qed.

Lemma Fueled_DefineLabel_position p : Fueled (DefineLabel_position p).
Proof. unfold DefineLabel_position. fueled. Qed.

#[local] Hint Resolve Fueled_DefineLabel_assign Fueled_DefineLabel_bss
  Fueled_DefineLabel_position : fuel.

Lemma Fueled_DefineLabel p lk : Fueled (DefineLabel p lk).
Proof. unfold DefineLabel. fueled. Qed.

Lemma Fueled_SetPC p : Fueled (SetPC p).
Proof. unfold SetPC. fueled. Qed.

Lemma Fueled_SetBSS p : Fueled (SetBSS p).
Proof. unfold SetBSS. fueled. Qed.

Lemma Fueled_emit_data buf : Fueled (emit_data buf).
Proof. unfold emit_data, set_lengths. fueled. Qed.

Lemma Fueled_emit_raw buf : Fueled (emit_raw buf).
Proof. unfold emit_raw. fueled. Qed.

Lemma Fueled_push buf b : Fueled (push buf b).
Proof. unfold push. fueled. Qed.

#[local] Hint Resolve Fueled_DefineLabel Fueled_SetPC Fueled_SetBSS
  Fueled_emit_data Fueled_emit_raw Fueled_push : fuel.

(** *** The data lines: every turn of a loop takes an item off the line *)

Lemma SkipToComma_length p :
  String.length (SkipToComma p) <= String.length p.
Proof.
  induction p as [|c p IH]; simpl; [lia|].
  destruct (_ || _); simpl; lia.
Qed.

Lemma SkipToComma_stop p :
  ceq (peek (SkipToComma p)) "," = true \/ more_data (SkipToComma p) = false.
Proof.
  induction p as [|c p IH]; simpl; [right; reflexivity|].
  destruct (ceq c ",") eqn:E1; simpl; [left; simpl; exact E1|].
  destruct (ceq c ";") eqn:E2; simpl; [|exact IH].
  right. unfold more_data. simpl. rewrite E2. apply andb_false_r.
Qed.

Lemma next_item_length q :
  String.length (next_item q) <= String.length q
  /\ (more_data (next_item q) = true ->
      String.length (next_item q) < String.length q).
Proof.
  unfold next_item. pose proof (SkipToComma_length q) as L.
  destruct (SkipToComma_stop q) as [E | E].
  - rewrite E. destruct (SkipToComma q) as [|c r]; [discriminate E|].
    simpl in *. lia.
  - destruct (ceq (peek (SkipToComma q)) ",") eqn:E1.
    + destruct (SkipToComma q) as [|c r]; [discriminate E1|]. simpl in *. lia.
    + rewrite E. split; [lia | discriminate].
Qed.

Lemma more_data_length p : more_data p = true -> 1 <= String.length p.
Proof. destruct p; [discriminate | simpl; lia]. Qed.

Lemma word_item_length p be buf st q buf' st' :
  word_item p be buf st = Ok (q, buf') st' ->
  String.length q <= String.length p
  /\ (more_data q = true -> String.length q < String.length p).
Proof.
  unfold word_item. intros H.
  apply bind_Ok in H. destruct H as ([q0 v] & s0 & He & H).
  apply EvalOperand_length in He. pose proof (SkipSpace_length p) as Ls.
  inv_Ok H. inv_pairs.
  destruct (next_item_length q0) as [L1 L2]. split; [lia|].
  intros Hm. specialize (L2 Hm). lia.
Qed.

Lemma Fueled_word_item p be buf : Fueled (word_item p be buf).
Proof. unfold word_item. fueled. Qed.

Lemma ParseWordData_loop_fuel n : forall p be buf st,
  String.length p <= n -> ParseWordData_loop n p be buf st <> NoFuel.
Proof.
  induction n as [|n IH]; intros p be buf st Hn; simpl;
    destruct (more_data p) eqn:Em; try discriminate.
  - apply more_data_length in Em. lia.
  - apply bind_fuel; [apply Fueled_word_item|].
    intros [q buf'] s H. apply word_item_length in H. destruct H as [L1 L2].
    destruct (more_data q) eqn:Eq.
    + apply IH. specialize (L2 eq_refl). lia.
    + destruct n; simpl; rewrite Eq; discriminate.
Qed.

Lemma Fueled_ParseWordData p be : Fueled (ParseWordData p be).
Proof.
  unfold ParseWordData. apply Fueled_bind.
  - intros st. apply ParseWordData_loop_fuel. lia.
  - fueled.
Qed.

(** the loop of [ParseASCII] *)
Lemma ParseASCII_loop_fuel n : forall d p b st,
  String.length p <= n -> ParseASCII_loop n d p b st <> NoFuel.
Proof.
  induction n as [|n IH]; intros d p b st Hn.
  - destruct p; [discriminate | simpl in Hn; lia].
  - destruct p as [|c r]; [discriminate|]. cbn [ParseASCII_loop].
    simpl in Hn.
    destruct (_ && _); [|discriminate].
    destruct (ceq c "\").
    + destruct r as [|e q]; [discriminate|]. apply IH. simpl in Hn. lia.
    + destruct (_ && _); apply IH; [|lia].
      pose proof (tail_length r). lia.
Qed.

Lemma ParseASCII_loop_length n : forall d p b st q b' st',
  ParseASCII_loop n d p b st = Ok (q, b') st' ->
  String.length q <= String.length p.
Proof.
  induction n as [|n IH]; intros d p b st q b' st' H.
  - destruct p as [|c r]; simpl in H.
    + inv_Ok H. inv_pairs. lia.
    + destruct (_ && _); [discriminate|]. inv_Ok H. inv_pairs. lia.
  - destruct p as [|c r]; cbn [ParseASCII_loop] in H.
    + inv_Ok H. inv_pairs. lia.
    + destruct (_ && _); [|inv_Ok H; inv_pairs; lia].
      destruct (ceq c "\").
      * destruct r as [|e r']; [discriminate|]. apply IH in H. simpl. lia.
      * destruct (_ && _); apply IH in H; simpl.
        -- pose proof (tail_length r). lia.
        -- lia.
Qed.

Lemma Fueled_set_bit7 b : Fueled (set_bit7 b).
Proof. unfold set_bit7. fueled. Qed.

#[local] Hint Resolve Fueled_set_bit7 : fuel.

Lemma Fueled_ParseASCII p b : Fueled (ParseASCII p b).
Proof.
  unfold ParseASCII. destruct p as [|d r]; [fueled|].
  apply Fueled_bind; [|fueled].
  intros st. apply ParseASCII_loop_fuel. lia.
Qed.

Lemma ParseASCII_length p b st q b' st' :
  ParseASCII p b st = Ok (q, b') st' ->
  String.length q < String.length p.
Proof.
  unfold ParseASCII. destruct p as [|d r]; [discriminate|]. intros H.
  apply bind_Ok in H. destruct H as ([q1 b1] & s1 & H1 & H).
  apply ParseASCII_loop_length in H1.
  set (q2 := if negb (ceq (peek q1) NUL) && ceq (peek q1) d
             then tail q1 else q1) in H.
  assert (L2 : String.length q2 <= String.length q1).
  { unfold q2. destruct (_ && _); [apply tail_length | lia]. }
  apply bind_Ok in H. destruct H as ([q3 b3] & s3 & H3 & H).
  assert (L3 : String.length q3 <= String.length q2).
  { destruct (ceq (peek q2) "^").
    - apply bind_Ok in H3. destruct H3 as (x & t & _ & H3).
      inv_Ok H3. inv_pairs. apply tail_length.
    - inv_Ok H3. inv_pairs. lia. }
  assert (L4 : String.length q <= String.length q3).
  { destruct (starts_with "+$80" q3).
    - apply bind_Ok in H. destruct H as (x & t & _ & H).
      apply bind_Ok in H. destruct H as (y & t' & Hy & H).
      unfold inside in Hy. destruct (adv 4 q3) eqn:Ea; [|discriminate].
      apply adv_length in Ea. inv_Ok Hy. inv_Ok H. inv_pairs. lia.
    - inv_Ok H. inv_pairs. lia. }
  simpl. lia.
Qed.

Lemma Fueled_byte_item p c buf : Fueled (byte_item p c buf).
Proof.
  pose proof Fueled_ParseASCII.
  unfold byte_item, byte_form_of, packed, packed_low, packed_high, hashed,
    quoted, byte_number, char_at.
  fueled.
Qed.

Lemma byte_item_length p c buf st q buf' st' :
  byte_item p c buf st = Ok (q, buf') st' ->
  String.length q <= String.length p
  /\ (more_data q = true -> String.length q < String.length p).
Proof.
  unfold byte_item. intros H.
  pose proof (SkipSpace_length p) as Ls.
  apply bind_Ok in H. destruct H as (form & s0 & _ & H).
  apply bind_Ok in H. destruct H as ([q0 b0] & s1 & H1 & H).
  inv_Ok H. inv_pairs.
  assert (L : String.length q0 <= String.length (SkipSpace p)).
  { destruct form.
    - unfold packed_low in H1. inv_Ok H1. inv_pairs.
      match goal with E : adv 6 _ = Some _ |- _ => apply adv_length in E end.
      lia.
    - unfold packed_high in H1. inv_Ok H1. inv_pairs.
      match goal with E : adv 6 _ = Some _ |- _ => apply adv_length in E end.
      lia.
    - unfold hashed in H1. inv_Ok H1. inv_pairs.
      match goal with E : adv 6 _ = Some _ |- _ => apply adv_length in E end.
      lia.
    - unfold quoted in H1.
      apply bind_Ok in H1. destruct H1 as ([q1 b1] & t & Hq & H1).
      apply ParseASCII_length in Hq. inv_Ok H1. inv_pairs. lia.
    - unfold byte_number in H1.
      apply bind_Ok in H1. destruct H1 as ([q1 v1] & t & Hq & H1).
      apply EvalOperand_length in Hq. inv_Ok H1; inv_pairs; lia. }
  destruct (next_item_length q0) as [L1 L2]. split; [lia|].
  intros Hm. specialize (L2 Hm). lia.
Qed.

Lemma ParseByteData_loop_fuel n : forall p c buf st,
  String.length p <= n -> ParseByteData_loop n p c buf st <> NoFuel.
Proof.
  induction n as [|n IH]; intros p c buf st Hn; simpl;
    destruct (more_data p) eqn:Em; try discriminate.
  - apply more_data_length in Em. lia.
  - apply bind_fuel; [apply Fueled_byte_item|].
    intros [q buf'] s H. apply byte_item_length in H. destruct H as [L1 L2].
    destruct (more_data q) eqn:Eq.
    + apply IH. specialize (L2 eq_refl). lia.
    + destruct n; simpl; rewrite Eq; discriminate.
Qed.

Lemma Fueled_ParseByteData p c : Fueled (ParseByteData p c).
Proof.
  unfold ParseByteData. apply Fueled_bind.
  - intros st. apply ParseByteData_loop_fuel. lia.
  - fueled.
Qed.

#[local] Hint Resolve Fueled_ParseWordData Fueled_ParseByteData : fuel.

Lemma Fueled_ParseBSSData p : Fueled (ParseBSSData p).
Proof. unfold ParseBSSData. fueled. Qed.

Lemma Fueled_ParseFillData p : Fueled (ParseFillData p).
Proof. unfold ParseFillData. fueled. Qed.

Lemma Fueled_bits_loop n : forall msb v p, Fueled (bits_loop n msb v p).
Proof. induction n as [|n IH]; intros msb v p; simpl; fueled. Qed.

#[local] Hint Resolve Fueled_bits_loop : fuel.

Lemma Fueled_ParseBitData p : Fueled (ParseBitData p).
Proof. unfold ParseBitData. fueled. Qed.

Lemma Fueled_ParseLitData p : Fueled (ParseLitData p).
Proof. unfold ParseLitData. fueled. Qed.

Lemma Fueled_ParseHex4Data p : Fueled (ParseHex4Data p).
Proof. unfold ParseHex4Data. fueled. Qed.

Lemma Fueled_ParseDec4Data p : Fueled (ParseDec4Data p).
Proof. unfold ParseDec4Data. fueled. Qed.

Lemma Fueled_ParseLongData p l : Fueled (ParseLongData p l).
Proof. unfold ParseLongData. fueled. Qed.

Lemma Fueled_ParseCPUData p : Fueled (ParseCPUData p).
Proof. unfold ParseCPUData. fueled. Qed.

Lemma Fueled_ParseBaseData p : Fueled (ParseBaseData p).
Proof. unfold ParseBaseData. fueled. Qed.

Lemma Fueled_ParseCaseData p : Fueled (ParseCaseData p).
Proof. unfold ParseCaseData. fueled. Qed.

Lemma Fueled_ParseStoreData p : Fueled (ParseStoreData p).
Proof. unfold ParseStoreData. fueled. Qed.

#[local] Hint Resolve Fueled_ParseBSSData Fueled_ParseFillData
  Fueled_ParseBitData Fueled_ParseLitData Fueled_ParseHex4Data
  Fueled_ParseDec4Data Fueled_ParseLongData Fueled_ParseCPUData
  Fueled_ParseBaseData Fueled_ParseCaseData Fueled_ParseStoreData : fuel.

Lemma Fueled_pseudo_ops :
  List.Forall (fun e => forall p, Fueled (snd e p)) pseudo_ops.
Proof.
  unfold pseudo_ops.
  repeat (apply List.Forall_cons; [cbn [snd]; unfold after; fueled|]).
  apply List.Forall_nil.
Qed.

Lemma Fueled_IsPseudo p : Fueled (IsPseudo p).
Proof.
  unfold IsPseudo. apply Fueled_bind; [|fueled].
  destruct (find_pseudo p pseudo_ops) as [action|] eqn:E; [|fueled].
  apply find_pseudo_In in E. destruct E as (kw & Hin).
  pose proof Fueled_pseudo_ops as Hall.
  rewrite List.Forall_forall in Hall. apply (Hall _ Hin p).
Qed.

Lemma Fueled_CheckCondition p : Fueled (CheckCondition p).
Proof. unfold CheckCondition, check_endif, CheckSkip, set_skip. fueled. Qed.

Lemma Fueled_IsInstruction p : Fueled (IsInstruction p).
Proof. unfold IsInstruction, IsInstruction_rest. fueled. Qed.

Lemma Fueled_AddressMode : Fueled AddressMode.
Proof. unfold AddressMode. fueled. Qed.

#[local] Hint Resolve Fueled_IsPseudo Fueled_CheckCondition
  Fueled_IsInstruction Fueled_AddressMode : fuel.

Lemma Fueled_SplitOperand p : Fueled (SplitOperand p).
Proof. unfold SplitOperand. fueled. Qed.

Lemma Fueled_AdjustOpcode v : Fueled (AdjustOpcode v).
Proof. unfold AdjustOpcode, CPU_Error. fueled. Qed.

#[local] Hint Resolve Fueled_SplitOperand Fueled_AdjustOpcode : fuel.

Lemma Fueled_GenerateCode p : Fueled (GenerateCode p).
Proof.
  unfold GenerateCode, gen_finish, gen_implied, gen_bits, gen_branch_opt,
    gen_short, gen_long, gen_operand, gen_stack, gen_emit.
  fueled.
Qed.

Lemma Fueled_ParseModule p : Fueled (ParseModule p).
Proof. unfold ParseModule. fueled. Qed.

Lemma Fueled_ParseEndMod p : Fueled (ParseEndMod p).
Proof. unfold ParseEndMod. fueled. Qed.

#[local] Hint Resolve Fueled_GenerateCode Fueled_ParseModule
  Fueled_ParseEndMod : fuel.

Lemma Fueled_ParseLine_code cp : Fueled (ParseLine_code cp).
Proof. unfold ParseLine_code. fueled. Qed.

#[local] Hint Resolve Fueled_ParseLine_code : fuel.

Lemma Fueled_ParseLine cp : Fueled (ParseLine cp).
Proof. unfold ParseLine, ParseLine_label, after. fueled. Qed.

#[local] Hint Resolve Fueled_ParseLine : fuel.

Lemma Fueled_Pass1 src : Fueled (Pass1 src).
Proof.
  unfold Pass1. apply Fueled_bind; [fueled|]. intros _.
  induction src as [|l src IH]; simpl; unfold next_line; fueled.
Qed.

Lemma Fueled_Pass2 src : Fueled (Pass2 src).
Proof.
  unfold Pass2. fueled.
  induction src as [|l src IH]; simpl; unfold next_line; fueled.
Qed.

#[local] Hint Resolve Fueled_Pass1 Fueled_Pass2 : fuel.

Lemma Fueled_passes src k : Fueled (passes k src).
Proof. induction k as [|k IH]; simpl; fueled. Qed.

Local Close Scope nat_scope.

(** ** The image after a store *)

Lemma store_ROM a v st r st' :
  store a v st = Ok r st' -> st' = set_ROM (rom_set a v (ROM st)) st.
Proof. unfold store. intros H. inv_Ok H. reflexivity. Qed.

Lemma rom_set_same a v rom : rom_set a v rom a = Z.land v 0xff.
Proof. unfold rom_set. rewrite Z.eqb_refl. reflexivity. Qed.

Lemma rom_set_other a v rom x : x <> a -> rom_set a v rom x = rom x.
Proof. unfold rom_set. intros H. destruct (Z.eqb_spec x a); [contradiction|reflexivity]. Qed.

Lemma store_bytes_ROM buf : forall a st r st',
  store_bytes a buf st = Ok r st' ->
  st' = set_ROM (ROM st') st
  /\ (forall k b, buf !! k = Some b -> ROM st' (a + Z.of_nat k) = Z.land b 0xff)
  /\ (forall x, x < a \/ a + Z.of_nat (length buf) <= x -> ROM st' x = ROM st x).
Proof.
  induction buf as [|b buf IH]; intros a st r st' H; simpl in H.
  - inv_Ok H. repeat split.
    + destruct st; reflexivity.
    + intros k b Hk. destruct k; discriminate Hk.
  - apply bind_Ok in H. destruct H as (u & s1 & H1 & H2).
    apply store_ROM in H1. apply IH in H2. destruct H2 as (E & Hin & Hout).
    repeat split.
    + rewrite E, H1. reflexivity.
    + intros k x Hk. destruct k as [|k]; simpl in Hk.
      * inversion Hk; subst x. rewrite Z.add_0_r, Hout by lia.
        rewrite H1. simpl. apply rom_set_same.
      * replace (a + Z.of_nat (S k)) with (a + 1 + Z.of_nat k) by lia.
        apply Hin, Hk.
    + intros x Hx. simpl length in Hx. rewrite Hout by lia.
      rewrite H1. simpl. apply rom_set_other. lia.
Qed.

Lemma land_byte_idem v : Z.land (Z.land v 0xff) 0xff = Z.land v 0xff.
Proof. rewrite <- Z.land_assoc. reflexivity. Qed.

Lemma push_app buf b st buf' st' :
  push buf b st = Ok buf' st' -> buf' = buf ++ [Z.land b 0xff] /\ st' = st.
Proof. unfold push. intros H. inv_Ok H. auto. Qed.

(** ** .WORD and .BIGW *)

Lemma ParseWordData_loop_values n : forall p be buf st q buf' st',
  ParseWordData_loop n p be buf st = Ok (q, buf') st' ->
  exists vs, word_values n p st = Ok vs st'
             /\ buf' = buf ++ flat_map (word_bytes be) vs.
Proof.
  induction n as [|n IH]; intros p be buf st q buf' st' H; simpl in H |- *;
    (destruct (more_data p);
     [ | inv_Ok H; inversion H; subst; exists []; rewrite app_nil_r; auto ]).
  - discriminate H.
  - apply bind_Ok in H. destruct H as ([q1 b1] & s1 & H1 & H2).
    unfold word_item in H1.
    apply bind_Ok in H1. destruct H1 as ([q0 v] & s0 & He & H1).
    rewrite (bind_eq _ _ _ _ _ He).
    apply bind_Ok in H1. destruct H1 as (s & s' & Hg & H1).
    unfold get in Hg. inversion Hg; subst s s'; clear Hg.
    rewrite (bind_eq get _ s0 s0 s0 eq_refl).
    destruct ((v =? UNDEF) && final_pass s0); [discriminate H1|].
    apply bind_Ok in H1. destruct H1 as (x1 & t1 & P1 & H1).
    apply bind_Ok in H1. destruct H1 as (x2 & t2 & P2 & H1).
    apply push_app in P1. destruct P1 as [-> ->].
    apply push_app in P2. destruct P2 as [-> ->].
    inv_Ok H1. inv_pairs.
    apply IH in H2. destruct H2 as (vs & Hv & ->).
    exists (v :: vs). rewrite (bind_eq _ _ _ _ _ Hv). split; [reflexivity|].
    rewrite <- !app_assoc. f_equal. simpl. unfold word_bytes, lo_byte.
    destruct be; simpl; rewrite ?land_byte_idem; reflexivity.
Qed.

Lemma word_values_only n : forall p st vs st',
  word_values n p st = Ok vs st' -> only_lab st st'.
Proof.
  induction n as [|n IH]; intros p st vs st' H; simpl in H;
    (destruct (more_data p); [ | inv_Ok H; apply only_lab_refl ]).
  - discriminate H.
  - apply bind_Ok in H. destruct H as ([q0 v] & s0 & He & H1).
    apply EvalOperand_only in He.
    apply bind_Ok in H1. destruct H1 as (s & s' & Hg & H1).
    unfold get in Hg. inversion Hg; subst s s'; clear Hg.
    destruct ((v =? UNDEF) && final_pass s0); [discriminate H1|].
    apply bind_Ok in H1. destruct H1 as (x1 & t1 & P1 & H1).
    inv_Ok H1. apply IH in P1. eapply only_lab_trans; eauto.
Qed.

Lemma flat_map_word_length be vs :
  length (flat_map (word_bytes be) vs) = (2 * length vs)%nat.
Proof.
  induction vs as [|v vs IH]; simpl; [reflexivity|].
  rewrite length_app, IH. unfold word_bytes. destruct be; simpl; lia.
Qed.

Lemma flat_map_word_lookup be vs : forall k v,
  vs !! k = Some v ->
  flat_map (word_bytes be) vs !! (2 * k)%nat = word_bytes be v !! 0%nat
  /\ flat_map (word_bytes be) vs !! (2 * k + 1)%nat = word_bytes be v !! 1%nat.
Proof.
  induction vs as [|x vs IH]; intros k v Hk; [destruct k; discriminate Hk|].
  destruct k as [|k]; simpl in Hk.
  - inversion Hk; subst x. unfold word_bytes. destruct be; simpl; auto.
  - apply IH in Hk. destruct Hk as [H0 H1].
    replace (2 * S k)%nat with (S (S (2 * k))) by lia.
    replace (S (S (2 * k)) + 1)%nat with (S (S (2 * k + 1))) by lia.
    unfold word_bytes at 1 3. destruct be; simpl; auto.
Qed.

Lemma emit_data_final buf st r st' :
  final_pass st = true ->
  emit_data buf st = Ok r st' ->
  pc st' = pc st + Z.of_nat (length buf)
  /\ (forall k b, buf !! k = Some b -> ROM st' (pc st + Z.of_nat k) = Z.land b 0xff)
  /\ (forall x, x < pc st \/ pc st + Z.of_nat (length buf) <= x ->
                ROM st' x = ROM st x).
Proof.
  intros F H. unfold emit_data, set_lengths in H.
  apply bind_Ok in H. destruct H as (u & s1 & H1 & H).
  unfold modify in H1. inversion H1; subst u s1; clear H1.
  apply bind_Ok in H. destruct H as (s & s' & Hg & H).
  unfold get in Hg. inversion Hg; subst s s'; clear Hg.
  apply bind_Ok in H. destruct H as (u & s2 & H1 & H).
  unfold modify in H. inversion H; subst r st'; clear H.
  replace (final_pass _) with true in H1 by (rewrite <- F; reflexivity).
  unfold when_ in H1. apply store_bytes_ROM in H1.
  destruct H1 as (E & Hin & Hout).
  rewrite E. simpl. rewrite E in Hin, Hout. simpl in Hin, Hout. auto.
Qed.

(** C7. In the final pass a [.WORD] line stores, for its k-th value [v],
    the low byte [v & 0xFF] at [pc + 2k] and the byte of [v >> 8] at
    [pc + 2k + 1]; [.BIGW] stores the same two bytes in the other order.
    The buffer holds bytes, so the second byte is [v >> 8] itself for every
    value of 16 bits. *)
Theorem word_data_bytes p bigendian st q st' :
  final_pass st = true ->
  ParseWordData p bigendian st = Ok q st' ->
  exists vs st1,
    word_values (String.length p) p st = Ok vs st1
    /\ pc st' = pc st + 2 * Z.of_nat (length vs)
    /\ forall k v, vs !! k = Some v ->
         let a := pc st + 2 * Z.of_nat k in
         ROM st' a = (if bigendian then Z.land (hi_byte v) 0xff else lo_byte v)
         /\ ROM st' (a + 1)
            = (if bigendian then lo_byte v else Z.land (hi_byte v) 0xff)
         /\ lo_byte v = Z.land v 0xff
         /\ (0 <= v <= 0xFFFF -> Z.land (hi_byte v) 0xff = Z.shiftr v 8).
Proof.
  intros F H. unfold ParseWordData in H.
  apply bind_Ok in H. destruct H as ([q1 buf] & s1 & HL & H).
  destruct (Z.of_nat (length buf) <? 1); [discriminate H|].
  apply bind_Ok in H. destruct H as (u & s2 & HE & H).
  inversion H; subst q1 s2; clear H.
  apply ParseWordData_loop_values in HL. destruct HL as (vs & Hv & Hb).
  simpl in Hb. subst buf. exists vs, s1. split; [exact Hv|].
  apply word_values_only in Hv.
  assert (Hpc : pc s1 = pc st) by (rewrite Hv; reflexivity).
  assert (F1 : final_pass s1 = true) by (rewrite Hv; exact F).
  apply (emit_data_final _ _ _ _ F1) in HE. destruct HE as (Ep & Hin & _).
  rewrite Hpc in Ep, Hin. split.
  - rewrite Ep, flat_map_word_length. lia.
  - intros k v Hk a.
    destruct (flat_map_word_lookup bigendian vs k v Hk) as [L0 L1].
    assert (B0 : forall b, word_bytes bigendian v !! 0%nat = Some b ->
                           ROM st' a = Z.land b 0xff).
    { intros b Hb. rewrite Hb in L0. apply Hin in L0.
      rewrite <- L0. f_equal. unfold a. lia. }
    assert (B1 : forall b, word_bytes bigendian v !! 1%nat = Some b ->
                           ROM st' (a + 1) = Z.land b 0xff).
    { intros b Hb. rewrite Hb in L1. apply Hin in L1.
      rewrite <- L1. f_equal. unfold a. lia. }
    unfold word_bytes in B0, B1.
    repeat split.
    + destruct bigendian; rewrite (B0 _ eq_refl); unfold lo_byte;
        apply land_byte_idem.
    + destruct bigendian; rewrite (B1 _ eq_refl); unfold lo_byte;
        apply land_byte_idem.
    + intros Hr. unfold hi_byte.
      change 0xff with (Z.ones 8). rewrite Z.land_ones by lia.
      rewrite Z.shiftr_div_pow2 by lia. apply Z.mod_small.
      change (2 ^ 8) with 256.
      split; [apply Z.div_pos; lia | apply Z.div_lt_upper_bound; lia].
Qed.

Lemma word_data_bytes_witness :
  let st := set_pc 0x1000 (set_Pass 20 (start_state 0)) in
  exists st', ParseWordData " $1234, 513" false st = Ok EmptyString st'
    /\ ROM st' 0x1000 = 0x34 /\ ROM st' 0x1001 = 0x12
    /\ ROM st' 0x1002 = 1 /\ ROM st' 0x1003 = 2.
Proof.
  intros st.
  destruct (ParseWordData " $1234, 513" false st) as [q st'| | | |] eqn:E;
    try (vm_compute in E; discriminate E).
  assert (Hq : q = EmptyString).
  { assert (X : match ParseWordData " $1234, 513" false st with
                | Ok q _ => q | _ => "x"%string end = EmptyString)
      by (vm_compute; reflexivity).
    rewrite E in X. exact X. }
  subst q. exists st'. split; [reflexivity|].
  destruct (word_data_bytes " $1234, 513" false st EmptyString st' eq_refl E) as (vs & st1 & Hv & _ & Hb).
  assert (Hvs : vs = [0x1234; 513]).
  { assert (X : match word_values (String.length " $1234, 513") " $1234, 513" st with
                | Ok vs _ => vs | _ => [] end = [0x1234; 513])
      by (vm_compute; reflexivity).
    rewrite Hv in X. exact X. }
  subst vs.
  destruct (Hb 0%nat _ eq_refl) as (A0 & A1 & _).
  destruct (Hb 1%nat _ eq_refl) as (B0 & B1 & _).
  repeat split; [exact A0 | exact A1 | exact B0 | exact B1].
Defined.

(** whole runs of a [.WORD] and of a [.BIGW] line *)
Example word_line :
  match main_passes ["*=$1000"; " .WORD $1234, 513"] (start_state 0) with
  | Ok _ st' =>
      ROM st' 0x1000 = 0x34 /\ ROM st' 0x1001 = 0x12
      /\ ROM st' 0x1002 = 0x01 /\ ROM st' 0x1003 = 0x02
  | _ => False
  end.
Proof. vm_compute. repeat split; reflexivity. Qed.

Example bigw_line :
  match main_passes ["*=$1000"; " .BIGW $1234, 513"] (start_state 0) with
  | Ok _ st' =>
      ROM st' 0x1000 = 0x12 /\ ROM st' 0x1001 = 0x34
      /\ ROM st' 0x1002 = 0x02 /\ ROM st' 0x1003 = 0x01
  | _ => False
  end.
Proof. vm_compute. repeat split; reflexivity. Qed.

(** ** BSS *)

(** what a BSS allocation may change: the BSS pointer and the symbol table *)
Lemma only_bss_lab_trans s1 s2 s3 :
  s2 = set_bss (bss s2) (set_lab (lab s2) s1) ->
  s3 = set_bss (bss s3) (set_lab (lab s3) s2) ->
  s3 = set_bss (bss s3) (set_lab (lab s3) s1).
Proof. intros H1 H2. rewrite H2, H1. reflexivity. Qed.

Lemma only_lab_bss s1 s2 :
  only_lab s1 s2 -> s2 = set_bss (bss s2) (set_lab (lab s2) s1).
Proof. unfold only_lab. intros H. rewrite H. destruct s1; reflexivity. Qed.

Lemma find_or_add_only n a t st j st' :
  find_or_add n a t st = Ok j st' -> only_lab st st'.
Proof.
  unfold find_or_add. intros H. inv_Ok H;
    [apply only_lab_refl | apply only_lab_set].
Qed.

Lemma lab_at_same j st x st' : lab_at j st = Ok x st' -> st' = st.
Proof. unfold lab_at. intros H. inv_Ok H. reflexivity. Qed.

Lemma ParseBSSData_only p st q st' :
  ParseBSSData p st = Ok q st' ->
  st' = set_bss (bss st') (set_lab (lab st') st).
Proof.
  unfold ParseBSSData. intros H.
  apply bind_Ok in H. destruct H as ([q0 m] & s1 & He & H).
  apply EvalOperand_only, only_lab_bss in He.
  destruct ((m <? 1) || (32767 <? m)); [discriminate H|].
  inv_Ok H. eapply only_bss_lab_trans; [exact He|].
  destruct s1; reflexivity.
Qed.

Lemma DefineLabel_bss_only p st r st' :
  DefineLabel_bss p st = Ok r st' ->
  st' = set_bss (bss st') (set_lab (lab st') st).
Proof.
  unfold DefineLabel_bss. intros H.
  apply bind_Ok in H. destruct H as (p4 & s0 & Hp & H).
  unfold inside in Hp. destruct (adv 4 p); [|discriminate Hp].
  inversion Hp; subst p4 s0; clear Hp.
  apply bind_Ok in H. destruct H as ([q0 v] & s1 & He & H).
  apply EvalOperand_only, only_lab_bss in He.
  apply bind_Ok in H. destruct H as (g & g' & Hg & H).
  unfold get in Hg. inversion Hg; subst g g'; clear Hg.
  apply bind_Ok in H. destruct H as (j & s2 & Hf & H).
  apply find_or_add_only, only_lab_bss in Hf.
  apply bind_Ok in H. destruct H as (u1 & s3 & Hu & H).
  apply update_lab_only, only_lab_bss in Hu.
  apply bind_Ok in H. destruct H as (x & s4 & Hx & H).
  apply lab_at_same in Hx. subst s4.
  apply bind_Ok in H. destruct H as (u2 & s5 & Hc & H).
  assert (H5 : s5 = set_bss (bss s5) (set_lab (lab s5) s3)).
  { destruct (Address x =? UNDEF).
    - apply update_lab_only, only_lab_bss in Hc. exact Hc.
    - destruct (negb (Address x =? bss s1)); [discriminate Hc|].
      inv_Ok Hc. match goal with |- ?s = _ => destruct s; reflexivity end. }
  apply bind_Ok in H. destruct H as (u3 & s6 & Hm & H).
  unfold modify in Hm. inversion Hm; subst u3 s6; clear Hm.
  inversion H; subst r st'; clear H.
  eapply only_bss_lab_trans; [exact He|].
  eapply only_bss_lab_trans; [exact Hf|].
  eapply only_bss_lab_trans; [exact Hu|].
  eapply only_bss_lab_trans; [exact H5|].
  destruct s5; reflexivity.
Qed.

(** C8. A [.BSS] directive and a definition [NAME .BSS n] change the BSS
    pointer and the symbol table and nothing else: every byte of the image
    and the program counter are as before, and the BSS pointer has moved on
    by the value of the size expression. *)
Theorem bss_leaves_image p st q st' :
  ParseBSSData p st = Ok q st'
  \/ (exists v, DefineLabel_bss p st = Ok (q, v) st') ->
  st' = set_bss (bss st') (set_lab (lab st') st)
  /\ (forall a, ROM st' a = ROM st a)
  /\ pc st' = pc st
  /\ exists p' n s1,
       (p' = p \/ adv 4 p = Some p')
       /\ EvalOperand p' 0 st = Ok (q, n) s1
       /\ bss st' = wrap (bss st + n).
Proof.
  intros H.
  assert (E : st' = set_bss (bss st') (set_lab (lab st') st)).
  { destruct H as [H | [v H]].
    - eapply ParseBSSData_only, H.
    - eapply DefineLabel_bss_only, H. }
  split; [exact E|]. split; [intros a; rewrite E; reflexivity|].
  split; [rewrite E; reflexivity|].
  destruct H as [H | [v H]].
  - unfold ParseBSSData in H.
    apply bind_Ok in H. destruct H as ([q0 m] & s1 & He & H).
    pose proof (EvalOperand_only _ _ _ _ _ He) as Ho.
    destruct ((m <? 1) || (32767 <? m)); [discriminate H|].
    inv_Ok H. exists p, m, s1. split; [left; reflexivity|].
    split; [exact He|]. simpl. rewrite Ho. reflexivity.
  - unfold DefineLabel_bss in H.
    apply bind_Ok in H. destruct H as (p4 & s0 & Hp & H).
    unfold inside in Hp. destruct (adv 4 p) as [p5|] eqn:Ea; [|discriminate Hp].
    inversion Hp; subst p4 s0; clear Hp.
    apply bind_Ok in H. destruct H as ([q0 n] & s1 & He & H).
    pose proof (EvalOperand_only _ _ _ _ _ He) as Ho.
    apply bind_Ok in H. destruct H as (g & g' & Hg & H).
    unfold get in Hg. inversion Hg; subst g g'; clear Hg.
    apply bind_Ok in H. destruct H as (j & s2 & Hf & H).
    apply bind_Ok in H. destruct H as (u1 & s3 & Hu & H).
    apply bind_Ok in H. destruct H as (x & s4 & Hx & H).
    apply bind_Ok in H. destruct H as (u2 & s5 & Hc & H).
    apply bind_Ok in H. destruct H as (u3 & s6 & Hm & H).
    unfold modify in Hm. inversion Hm; subst u3 s6; clear Hm.
    inversion H; subst. exists p5, n, s1. split; [right; reflexivity|].
    split; [exact He|]. simpl. rewrite Ho. reflexivity.
Qed.

Lemma bss_leaves_image_witness :
  let st := set_bss 0x200 (set_pc 0x1000 (set_Pass 20 (start_state 0))) in
  exists st', ParseBSSData " 16" st = Ok EmptyString st'
    /\ (forall a, ROM st' a = ROM st a) /\ pc st' = pc st
    /\ bss st' = 0x210.
Proof.
  intros st.
  destruct (ParseBSSData " 16" st) as [q st'| | | |] eqn:E;
    try (vm_compute in E; discriminate E).
  assert (Hq : q = EmptyString /\ bss st' = 0x210).
  { assert (X : match ParseBSSData " 16" st with
                | Ok q s => q = EmptyString /\ bss s = 0x210
                | _ => False end)
      by (vm_compute; split; reflexivity).
    rewrite E in X. exact X. }
  destruct Hq as [-> Hb]. exists st'. split; [reflexivity|].
  destruct (bss_leaves_image " 16" st EmptyString st' (or_introl E))
    as (_ & HR & Hp & _).
  repeat split; [exact HR | exact Hp | exact Hb].
Defined.

(** the label form of the allocation, run on a line [BUF .BSS 16] *)
Example bss_label_definition :
  let st := set_Label "BUF" (set_bss 0x200 (set_Pass 1 (start_state 0))) in
  match DefineLabel "BUF .BSS 16" false st with
  | Ok (q, v) st' =>
      q = EmptyString /\ v = Some 0x200 /\ bss st' = 0x210 /\ pc st' = pc st
      /\ (Address <$> lab st' !! 0%nat) = Some 0x200
  | _ => False
  end.
Proof. vm_compute. repeat split; reflexivity. Qed.

(** ** .BYTE *)





(** the number of bytes of a line can exceed the number of its items *)
Example byte_line_of_two_items :
  let st := set_pc 0x1000 (set_Pass 20 (start_state 0)) in
  match ParseByteData " 256, 1" ASCII st with
  | Ok _ st' =>
      pc st' = pc st + 3
      /\ ROM st' 0x1000 = 0 /\ ROM st' 0x1001 = 1 /\ ROM st' 0x1002 = 1
  | _ => False
  end.
Proof. vm_compute. repeat split; reflexivity. Qed.

(** the lower bound: -127 is one byte, -128 two *)
Example byte_lower_bound :
  let st := set_pc 0x1000 (set_Pass 20 (start_state 0)) in
  match ParseByteData " -127" ASCII st, ParseByteData " -128" ASCII st with
  | Ok _ s1, Ok _ s2 =>
      pc s1 = pc st + 1 /\ ROM s1 0x1000 = 0x81
      /\ pc s2 = pc st + 2 /\ ROM s2 0x1000 = 0x80 /\ ROM s2 0x1001 = 0xFF
  | _, _ => False
  end.
Proof. vm_compute. repeat split; reflexivity. Qed.

(** ** The symbol table under evaluation *)

Lemma grows_refl st : grows st st.
Proof.
  split; [apply only_lab_refl|]. intros j x H. exists x.
  unfold kept_label. auto.
Qed.

Lemma grows_trans s1 s2 s3 : grows s1 s2 -> grows s2 s3 -> grows s1 s3.
Proof.
  intros [O1 G1] [O2 G2]. split; [eapply only_lab_trans; eauto|].
  intros j x H. apply G1 in H. destruct H as (x1 & H1 & K1 & K2 & K3).
  apply G2 in H1. destruct H1 as (x2 & H2 & L1 & L2 & L3).
  exists x2. unfold kept_label. repeat split; congruence.
Qed.

Lemma update_lab_grows j f st a st' :
  (forall x, kept_label x (f x)) ->
  update_lab j f st = Ok a st' -> grows st st'.
Proof.
  intros Hf H. split; [eapply update_lab_only, H|].
  unfold update_lab, modify in H. inversion H; subst; clear H. simpl.
  intros i x Hi. destruct (decide (i = j)) as [->|Hn].
  - exists (f x). split; [|apply Hf].
    rewrite list_lookup_alter_eq, Hi. reflexivity.
  - exists x. split; [|unfold kept_label; auto].
    rewrite list_lookup_alter_ne by congruence. exact Hi.
Qed.

Lemma AddLabel_grows p st a st' : AddLabel p st = Ok a st' -> grows st st'.
Proof.
  intros H. split; [eapply AddLabel_only, H|].
  unfold AddLabel in H. inv_Ok H. simpl.
  intros j x Hj. exists x. split; [|unfold kept_label; auto].
  apply lookup_app_l_Some. exact Hj.
Qed.

Lemma SymRefs_grows i st a st' : SymRefs i st = Ok a st' -> grows st st'.
Proof.
  unfold SymRefs. intros H. inv_Ok H; [apply grows_refl|].
  eapply update_lab_grows; [|eassumption].
  intros x. unfold kept_label. auto.
Qed.

Lemma EvalSymValue_grows p st r st' :
  EvalSymValue p st = Ok r st' -> grows st st'.
Proof.
  unfold EvalSymValue. intros H. inv_Ok H;
    eauto using SymRefs_grows, AddLabel_grows.
Qed.

Lemma EvalSymBytes_grows p st r st' :
  EvalSymBytes p st = Ok r st' -> grows st st'.
Proof.
  unfold EvalSymBytes. intros H. inv_Ok H;
    eauto using SymRefs_grows, AddLabel_grows.
Qed.

Lemma EvalOperand_grows_both n :
  (forall p prio st r st', EvalOperand_ n p prio st = Ok r st' -> grows st st')
  /\ (forall p v prio st r st', BinOps_ n p v prio st = Ok r st' -> grows st st').
Proof.
  induction n as [|n [IHe IHb]]; split; intros; try discriminate.
  - simpl in H.
    destruct (SkipSpace p) as [|c q] eqn:Ep; [discriminate|].
    inv_Ok H;
      repeat match goal with
      | H : EvalOperand_ n _ _ _ = Ok _ _ |- _ => apply IHe in H
      | H : BinOps_ n _ _ _ _ = Ok _ _ |- _ => apply IHb in H
      | H : EvalHexValue _ _ = Ok _ _ |- _ => apply EvalHexValue_same in H; subst
      | H : EvalOctValue _ _ = Ok _ _ |- _ => apply EvalOctValue_same in H; subst
      | H : EvalBinValue _ _ = Ok _ _ |- _ => apply EvalBinValue_same in H; subst
      | H : EvalCharValue _ _ = Ok _ _ |- _ => apply EvalCharValue_same in H; subst
      | H : EvalDecValue _ _ = Ok _ _ |- _ => apply EvalDecValue_same in H; subst
      | H : EvalSymValue _ _ = Ok _ _ |- _ => apply EvalSymValue_grows in H
      | H : EvalSymBytes _ _ = Ok _ _ |- _ => apply EvalSymBytes_grows in H
      end; eauto using grows_trans, grows_refl.
  - simpl in H. inv_Ok H;
      repeat match goal with
      | H : EvalOperand_ n _ _ _ = Ok _ _ |- _ => apply IHe in H
      | H : BinOps_ n _ _ _ _ = Ok _ _ |- _ => apply IHb in H
      end; eauto using grows_trans, grows_refl.
Qed.

Lemma EvalOperand_grows p prio st r st' :
  EvalOperand p prio st = Ok r st' -> grows st st'.
Proof. apply EvalOperand_grows_both. Qed.

Lemma LabelIndex_from_grows st st' p : forall l l' i j,
  IgnoreCase st' = IgnoreCase st ->
  (forall k x, l !! k = Some x ->
     exists x', l' !! k = Some x' /\ Name x' = Name x) ->
  LabelIndex_from st p l i = Some j ->
  LabelIndex_from st' p l' i = Some j.
Proof.
  induction l as [|x l IH]; intros l' i j Hc Hl H; simpl in H; [discriminate|].
  destruct (Hl 0%nat x eq_refl) as (x' & H0 & Hn).
  destruct l' as [|y l']; [discriminate H0|]. simpl in H0.
  inversion H0; subst y; clear H0. simpl.
  unfold StrCmp in *. rewrite Hc, Hn.
  destruct (_ =? 0); [exact H|].
  apply IH; auto. intros k z Hk. apply (Hl (S k) z Hk).
Qed.

Lemma LabelIndex_grows st st' p j :
  grows st st' -> LabelIndex st p = Some j -> LabelIndex st' p = Some j.
Proof.
  intros [Ho Hg] H. unfold LabelIndex in *.
  eapply LabelIndex_from_grows; [| |exact H].
  - rewrite Ho. reflexivity.
  - intros k x Hk. apply Hg in Hk. destruct Hk as (x' & Hx & Hn & _).
    exists x'. auto.
Qed.

(** ** Redefinition of a symbol *)

Lemma position_conflict st j x p :
  lab st !! j = Some x -> LabelIndex st (Label st) = Some j ->
  Address x <> UNDEF -> Locked x = false -> Address x <> pc st ->
  DefineLabel_position p st =
    if Pass st =? 1 then Exit
    else if Pass st <? MaxPass st then
      Ok (p, Some (pc st))
         (set_lab (alter (set_Def (LiNo st) LPOS) j
                     (alter (set_Address (pc st)) j (lab st)))
            (set_BOC (alter Z.succ (Z.to_nat (Pass st - 1)) (BOC st)) st))
    else Exit.
Proof.
  intros Hx HL Hu Hk Hd.
  apply Z.eqb_neq in Hu. apply Z.eqb_neq in Hd.
  unfold DefineLabel_position, lab_at, inside, update_lab, count_change,
    modify, exit_, mbind, M_bind, get, mret, M_ret.
  rewrite HL. cbn beta iota. rewrite Hx. cbn beta iota.
  rewrite Hu, Hd, Hk. cbn [negb andb].
  destruct (Pass st =? 1); [reflexivity|].
  destruct (Pass st <? MaxPass st); [|reflexivity].
  cbn [lab set_lab set_BOC].
  rewrite list_lookup_alter_eq, Hx. simpl. rewrite Hk.
  destruct st; reflexivity.
Qed.

(** runs of the small steps *)
Lemma get_run st : get st = Ok st st.
Proof. reflexivity. Qed.

Lemma update_lab_run j f st :
  update_lab j f st = Ok tt (set_lab (alter f j (lab st)) st).
Proof. reflexivity. Qed.

Lemma lab_at_found j st x : lab st !! j = Some x -> lab_at j st = Ok x st.
Proof.
  intros H. unfold lab_at, mbind, M_bind, get, inside. rewrite H. reflexivity.
Qed.

Lemma find_or_add_found n a t st j :
  LabelIndex st n = Some j -> find_or_add n a t st = Ok j st.
Proof.
  intros H. unfold find_or_add, mbind, M_bind, get. rewrite H. reflexivity.
Qed.

Ltac step E := rewrite (bind_eq _ _ _ _ _ E); cbn beta iota.

Lemma assign_conflict st j x p lk q v s2 :
  lab st !! j = Some x -> LabelIndex st (Label st) = Some j ->
  Address x <> UNDEF -> Locked x = false ->
  EvalOperand (tail p) 0
    (set_lab (alter (set_Def (LiNo st) LDEF) j (lab st)) st) = Ok (q, v) s2 ->
  v <> Address x ->
  (Pass st < MaxPass st ->
   exists st', DefineLabel_assign p lk st = Ok (q, Some v) st'
     /\ Address <$> (lab st' !! j) = Some v /\ BOC st' = BOC st)
  /\ (MaxPass st <= Pass st -> DefineLabel_assign p lk st = Exit).
Proof.
  intros Hx HL Hu Hk He Hv.
  pose proof (EvalOperand_grows _ _ _ _ _ He) as [Ho Hg].
  destruct (Hg j (set_Def (LiNo st) LDEF x)) as (x2 & Hx2 & _ & Ha & Hl).
  { simpl. rewrite list_lookup_alter_eq, Hx. reflexivity. }
  simpl in Ha, Hl.
  assert (Hu2 : (Address x2 =? UNDEF) = false) by (apply Z.eqb_neq; congruence).
  assert (Hv2 : (Address x2 =? v) = false) by (apply Z.eqb_neq; congruence).
  assert (Hp : Pass s2 = Pass st) by (rewrite Ho; reflexivity).
  assert (Hm : MaxPass s2 = MaxPass st) by (rewrite Ho; reflexivity).
  assert (Hb : BOC s2 = BOC st) by (rewrite Ho; reflexivity).
  assert (E : DefineLabel_assign p lk st =
              if Pass st <? MaxPass st then
                (when_ lk (update_lab j (set_Locked true));; mret (q, Some v))
                  (set_lab (alter (set_Address v) j (lab s2)) s2)
              else Exit).
  { unfold DefineLabel_assign.
    step (get_run st). step (find_or_add_found _ UNDEF LDEF _ _ HL).
    step (update_lab_run j (set_Def (LiNo st) LDEF) st).
    step He. step (lab_at_found _ _ _ Hx2). step (get_run s2).
    rewrite Hu2, Hv2, Hl, Hk, Hp, Hm. cbn [negb andb].
    destruct (Pass st <? MaxPass st).
    - step (update_lab_run j (set_Address v) s2). reflexivity.
    - reflexivity. }
  rewrite E. split.
  - intros Hlt. apply Z.ltb_lt in Hlt. rewrite Hlt.
    assert (Hj : forall l : list LabelStruct, l !! j = Some x2 ->
                   Address <$> (alter (set_Address v) j l !! j) = Some v).
    { intros l Hlj. rewrite list_lookup_alter_eq, Hlj. reflexivity. }
    destruct lk; unfold when_, update_lab, modify, mbind, M_bind, mret, M_ret.
    + eexists. split; [reflexivity|]. cbn [lab set_lab BOC]. split.
      * rewrite list_lookup_alter_eq, list_lookup_alter_eq, Hx2. reflexivity.
      * exact Hb.
    + eexists. split; [reflexivity|]. cbn [lab set_lab BOC]. split.
      * apply Hj, Hx2.
      * exact Hb.
  - intros Hge. apply Z.ltb_ge in Hge. rewrite Hge. reflexivity.
Qed.

Lemma bss_conflict st j x p p4 q v s2 :
  lab st !! j = Some x -> LabelIndex st (Label st) = Some j ->
  Address x <> UNDEF -> adv 4 p = Some p4 ->
  EvalOperand p4 0 st = Ok (q, v) s2 ->
  Address x <> bss st ->
  DefineLabel_bss p st = Exit.
Proof.
  intros Hx HL Hu H4 He Hv.
  pose proof (EvalOperand_grows _ _ _ _ _ He) as G.
  pose proof (LabelIndex_grows _ _ _ _ G HL) as HL2.
  destruct G as [Ho Hg].
  destruct (Hg j x Hx) as (x2 & Hx2 & _ & Ha & _).
  assert (Hu2 : (Address x2 =? UNDEF) = false) by (apply Z.eqb_neq; congruence).
  assert (Hb : bss s2 = bss st) by (rewrite Ho; reflexivity).
  assert (Hv2 : (Address x2 =? bss s2) = false)
    by (apply Z.eqb_neq; congruence).
  assert (Hn : Label s2 = Label st) by (rewrite Ho; reflexivity).
  rewrite <- Hn in HL2.
  unfold DefineLabel_bss. rewrite H4.
  step (eq_refl : inside (Some p4) st = Ok p4 st).
  step He. step (get_run s2). step (find_or_add_found _ UNDEF LBSS _ _ HL2).
  step (update_lab_run j (set_Def (LiNo s2) LBSS) s2).
  assert (Hx3 : lab (set_lab (alter (set_Def (LiNo s2) LBSS) j (lab s2)) s2) !! j
                = Some (set_Def (LiNo s2) LBSS x2)).
  { simpl. rewrite list_lookup_alter_eq, Hx2. reflexivity. }
  step (lab_at_found _ _ _ Hx3).
  cbn [Address set_Def]. rewrite Hu2, Hv2. reflexivity.
Qed.

(** C3, as amended.  Let the symbol be in the table with a defined address
    and not locked.  A position label whose place differs from the stored
    address is fatal in pass 1, is overwritten and counted in [BOC] in the
    passes between, and is fatal (phase error) from the last pass on.  An
    assignment [NAME = expr] of a differing value overwrites the address in
    every pass before the last, pass 1 included, and counts nothing; in the
    last pass it is fatal.  A definition [NAME .BSS n] at a differing BSS
    pointer is fatal in every pass. *)
Theorem phase_error_policy st j x p :
  lab st !! j = Some x -> LabelIndex st (Label st) = Some j ->
  Address x <> UNDEF -> Locked x = false ->
  (Address x <> pc st ->
     (Pass st = 1 -> DefineLabel_position p st = Exit)
     /\ (Pass st <> 1 -> Pass st < MaxPass st ->
         exists st', DefineLabel_position p st = Ok (p, Some (pc st)) st'
           /\ Address <$> (lab st' !! j) = Some (pc st)
           /\ BOC st' = alter Z.succ (Z.to_nat (Pass st - 1)) (BOC st))
     /\ (Pass st <> 1 -> MaxPass st <= Pass st ->
         DefineLabel_position p st = Exit))
  /\ (forall lk q v s2,
        EvalOperand (tail p) 0
          (set_lab (alter (set_Def (LiNo st) LDEF) j (lab st)) st)
          = Ok (q, v) s2 ->
        v <> Address x ->
        (Pass st < MaxPass st ->
         exists st', DefineLabel_assign p lk st = Ok (q, Some v) st'
           /\ Address <$> (lab st' !! j) = Some v /\ BOC st' = BOC st)
        /\ (MaxPass st <= Pass st -> DefineLabel_assign p lk st = Exit))
  /\ (forall p4 q v s2,
        adv 4 p = Some p4 -> EvalOperand p4 0 st = Ok (q, v) s2 ->
        Address x <> bss st -> DefineLabel_bss p st = Exit).
Proof.
  intros Hx HL Hu Hk. split; [|split].
  - intros Hd. rewrite (position_conflict st j x p Hx HL Hu Hk Hd).
    split; [|split].
    + intros ->. reflexivity.
    + intros H1 Hlt. apply Z.eqb_neq in H1. apply Z.ltb_lt in Hlt.
      rewrite H1, Hlt. eexists. split; [reflexivity|].
      cbn [lab set_lab BOC set_BOC]. split; [|reflexivity].
      rewrite !list_lookup_alter_eq, Hx. reflexivity.
    + intros H1 Hge. apply Z.eqb_neq in H1. apply Z.ltb_ge in Hge.
      rewrite H1, Hge. reflexivity.
  - intros lk q v s2 He Hv. eapply assign_conflict; eauto.
  - intros p4 q v s2 H4 He Hb. eapply bss_conflict; eauto.
Qed.

Lemma phase_error_policy_witness :
  let st := set_lab [new_label "L" 0x1000 1 LPOS]
              (set_Label "L" (set_pc 0x1002 (set_Pass 2 (start_state 0)))) in
  exists st', DefineLabel_position EmptyString st
                = Ok (EmptyString, Some 0x1002) st'
    /\ Address <$> (lab st' !! 0%nat) = Some 0x1002
    /\ BOC st' !! 1%nat = Some 1.
Proof.
  intros st.
  assert (Hu : Address (new_label "L" 0x1000 1 LPOS) <> UNDEF)
    by (vm_compute; discriminate).
  destruct (phase_error_policy st 0%nat (new_label "L" 0x1000 1 LPOS)
              EmptyString eq_refl eq_refl Hu eq_refl) as (P & _).
  assert (Hd : Address (new_label "L" 0x1000 1 LPOS) <> pc st)
    by (vm_compute; discriminate).
  destruct (P Hd) as (_ & P2 & _).
  destruct P2 as (st' & E & Ha & Hb).
  - vm_compute; discriminate.
  - vm_compute; reflexivity.
  - exists st'. split; [exact E|]. split; [exact Ha|].
    rewrite Hb. reflexivity.
Defined.

(** C3 as it is stated fails for an assignment: in pass 1 the second of two
    differing assignments to a symbol that is not locked is no error, the
    address is overwritten and no change is counted. *)
Lemma assignment_conflict_in_pass_one :
  let st := set_Pass 1 (start_state 0) in
  match Pass1 ["FOO = 1"; "FOO = 2"] st with
  | Ok _ st' =>
      Pass st' = 1 /\ map Address (lab st') = [2]
      /\ map Locked (lab st') = [false]
      /\ BOC st' = replicate 20 0
  | _ => False
  end.
Proof. vm_compute. repeat split; reflexivity. Qed.

(** the same on [DefineLabel] alone *)
Example redefinition_by_assignment :
  let st := set_lab [new_label "FOO" 1 1 LDEF] (set_Pass 1 (start_state 0)) in
  match DefineLabel "FOO = 2" false st with
  | Ok (_, v) st' =>
      v = Some 2 /\ map Address (lab st') = [2] /\ BOC st' = BOC st
  | _ => False
  end.
Proof. vm_compute. repeat split; reflexivity. Qed.

(** a position label redefined in pass 1, and a BSS symbol at a second
    place, end the run *)
Example redefinition_by_position :
  Pass1 ["*=$1000"; "L NOP"; "L NOP"] (set_Pass 1 (start_state 0)) = Exit.
Proof. vm_compute. reflexivity. Qed.

Example redefinition_by_bss :
  Pass1 ["B .BSS 2"; "B .BSS 2"] (set_Pass 1 (start_state 0)) = Exit.
Proof. vm_compute. reflexivity. Qed.

(** ** Conditional assembly *)

(** a directive [#if] or [#ifdef] at level 9 ends the run: the level is
    raised first and compared with 9 *)
Lemma nesting_limit st p :
  let q := SkipSpace p in
  9 <= IfLevel st ->
  keyword "error" q = false ->
  keyword "ifdef " q || keyword "if " q = true ->
  CheckCondition (String "#" p) st = Exit.
Proof.
  intros q H9 He Hi. unfold CheckCondition.
  change (negb (ceq (peek (String "#" p)) "#")) with false.
  cbn [tail]. fold q. cbn iota.
  unfold mbind, M_bind, get. rewrite He. cbn [andb]. rewrite Hi.
  unfold modify.
  replace (9 <? IfLevel st + 1) with true by (symmetry; apply Z.ltb_lt; lia).
  reflexivity.
Qed.

Lemma nesting_limit_witness :
  CheckCondition "#if 1" (set_IfLevel 9 (start_state 0)) = Exit.
Proof.
  apply (nesting_limit (set_IfLevel 9 (start_state 0)) "if 1");
    [vm_compute; discriminate | reflexivity | reflexivity].
Defined.

(** below that level the directive is taken *)
Lemma nesting_below_limit :
  forall n, (n < 9)%nat ->
  exists st', CheckCondition "#if 1" (set_IfLevel (Z.of_nat n) (start_state 0))
              = Ok true st'
    /\ IfLevel st' = Z.of_nat n + 1.
Proof.
  intros n Hn.
  do 9 (destruct n as [|n]; [eexists; split; vm_compute; reflexivity|]).
  lia.
Qed.

(** [#endif] at level 0 *)
Lemma endif_without_if st p :
  let q := SkipSpace p in
  IfLevel st <= 0 ->
  keyword "error" q = false -> keyword "ifdef " q = false ->
  keyword "if " q = false -> keyword "else" q = false ->
  keyword "endif" q && end_or_space (default NUL (at_ q 5)) = true ->
  CheckCondition (String "#" p) st = Exit.
Proof.
  intros q H0 He Hd Hi Hl Hn. unfold CheckCondition.
  change (negb (ceq (peek (String "#" p)) "#")) with false.
  cbn [tail]. fold q. cbn iota.
  unfold mbind, M_bind, get. rewrite He, Hd, Hi, Hl. cbn [andb orb].
  unfold check_endif. rewrite Hn. unfold mbind, M_bind, modify, get.
  cbn [IfLevel set_IfLevel].
  replace (IfLevel st - 1 <? 0) with true by (symmetry; apply Z.ltb_lt; lia).
  reflexivity.
Qed.

Lemma endif_without_if_witness :
  CheckCondition "#endif" (start_state 0) = Exit.
Proof.
  apply (endif_without_if (start_state 0) "endif");
    [vm_compute; discriminate | reflexivity | reflexivity | reflexivity
    | reflexivity | reflexivity].
Defined.

(** an open condition at the start of the last pass *)
Lemma missing_endif src st : IfLevel st <> 0 -> Pass2 src st = Exit.
Proof.
  intros H. unfold Pass2, mbind, M_bind, modify, get.
  cbn [IfLevel set_Scope set_ForcedEnd set_bp set_pc].
  apply Z.eqb_neq in H. rewrite H. reflexivity.
Qed.

Lemma missing_endif_witness :
  Pass2 ["#if 1"] (set_IfLevel 1 (start_state 0)) = Exit.
Proof. apply missing_endif. vm_compute. discriminate. Defined.

(** C6. Nine conditions can be open at a time.  A source of nine nested
    [#if] with their [#endif] is read to its end and leaves level 0; the
    tenth nested [#if] ends the run, and so does the whole run of the
    passes over such a source.  The limit in the header of the source and
    in the message of this very exit is 10. *)
Theorem tenth_nested_condition_exits :
  let nest (n : nat) := ["*=$1000"%string] ++ replicate n "#if 1"%string
                        ++ [" NOP"%string] ++ replicate n "#endif"%string in
  let st := set_Pass 1 (start_state 0) in
  (exists st', Pass1 (nest 9%nat) st = Ok tt st' /\ IfLevel st' = 0)
  /\ Pass1 (nest 10%nat) st = Exit
  /\ Pass1 (replicate 10 "#if 1"%string) st = Exit
  /\ main_passes (nest 10%nat) (start_state 0) = Exit
  /\ (exists st', main_passes (nest 9%nat) (start_state 0) = Ok tt st'
                  /\ ROM st' 0x1000 = 0xEA).
Proof.
  intros nest st. split; [|split; [|split; [|split]]].
  - eexists. split; vm_compute; reflexivity.
  - vm_compute. reflexivity.
  - vm_compute. reflexivity.
  - vm_compute. reflexivity.
  - eexists. split; vm_compute; reflexivity.
Qed.

(** a missing [#endif] ends the run as well: the level is not reset between
    the passes, and the run ends at the limit of the nesting or at the
    start of the last pass *)
Example missing_endif_run :
  main_passes ["*=$1000"; "#if 1"; " NOP"] (start_state 0) = Exit
  /\ (let st := set_MaxPass 3 (start_state 0) in
      main_passes ["*=$1000"; "#if 1"; " NOP"] st = Exit).
Proof. split; vm_compute; reflexivity. Qed.

(** ** Relative branches *)










(** a line whose mnemonic is a relative branch reaches [GenerateCode] with
    no generic index *)
Lemma IsInstruction_branch p st r st' :
  IsInstruction p st = Ok r st' -> am st' = AM_Rela ->
  GenIndex st' = -1 /\ Operand st' = Operand st.
Proof.
  unfold IsInstruction, IsInstruction_rest. intros H Ha.
  inv_Ok H; cbn in Ha |- *; try discriminate Ha; auto;
    match type of Ha with
    | (if ?b then _ else _) = _ => destruct b; discriminate Ha
    end.
Qed.



(** whole runs: a branch to itself, a branch to the next instruction, and
    the same with the branch optimisation of the 45GS02 *)
Example branch_to_itself :
  match main_passes ["*=$1000"; "L BNE L"] (start_state 0) with
  | Ok _ st' => ROM st' 0x1000 = 0xD0 /\ ROM st' 0x1001 = 0xFE
  | _ => False
  end.
Proof. vm_compute. split; reflexivity. Qed.

Example branch_to_next :
  match main_passes ["*=$1000"; " BEQ N"; "N RTS"] (start_state 0) with
  | Ok _ st' =>
      ROM st' 0x1000 = 0xF0 /\ ROM st' 0x1001 = 0 /\ ROM st' 0x1002 = 0x60
  | _ => False
  end.
Proof. vm_compute. repeat split; reflexivity. Qed.

Example branch_to_next_optimised :
  let st := set_BranchOpt true (set_CPU_Type CPU_45GS02 (start_state 0)) in
  match main_passes ["*=$1000"; " BEQ N"; "N RTS"] st with
  | Ok _ st' =>
      ROM st' 0x1000 = 0xF0 /\ ROM st' 0x1001 = 0 /\ ROM st' 0x1002 = 0x60
  | _ => False
  end.
Proof. vm_compute. repeat split; reflexivity. Qed.

(** ** The passes *)

Lemma Pass1_counters src st r st' :
  Pass1 src st = Ok r st' ->
  Pass st' = Pass st /\ MaxPass st' = MaxPass st /\ BranchOpt st' = BranchOpt st.
Proof.
  intros H. apply Pass1_steady in H. destruct H as (H1 & H2 & H3 & _). auto.
Qed.

Lemma Pass1_for_passes src : forall k n st,
  Z.to_nat (MaxPass st - Pass st) = k -> (k <= n)%nat ->
  Pass1_for n src st = passes k src st.
Proof.
  induction k as [|k IH]; intros n st Hk Hn.
  - assert (E : (Pass st <? MaxPass st) = false) by (apply Z.ltb_ge; lia).
    destruct n; simpl; unfold mbind, M_bind, get; rewrite E; reflexivity.
  - assert (E : (Pass st <? MaxPass st) = true) by (apply Z.ltb_lt; lia).
    destruct n as [|n]; [lia|]. simpl. unfold mbind at 1, M_bind at 1, get.
    rewrite E. unfold mbind, M_bind.
    destruct (Pass1 src st) as [u s1| | | |] eqn:E1; try reflexivity.
    apply Pass1_counters in E1. destruct E1 as (P1 & P2 & _).
    unfold modify. apply IH; [|lia]. cbn [Pass MaxPass set_Pass]. lia.
Qed.

Lemma passes_counters src : forall k st st',
  passes k src st = Ok tt st' ->
  Pass st' = Pass st + Z.of_nat k /\ MaxPass st' = MaxPass st
  /\ BranchOpt st' = BranchOpt st.
Proof.
  induction k as [|k IH]; intros st st' H; simpl in H.
  - inv_Ok H. repeat split; lia.
  - apply bind_Ok in H. destruct H as (u & s1 & H1 & H).
    apply Pass1_counters in H1. destruct H1 as (P1 & P2 & P3).
    apply bind_Ok in H. destruct H as (u' & s2 & H2 & H).
    unfold modify in H2. inversion H2; subst; clear H2.
    apply IH in H. cbn [Pass MaxPass BranchOpt set_Pass] in H.
    destruct H as (Q1 & Q2 & Q3). repeat split; try congruence. lia.
Qed.

Lemma main_passes_schedule src st :
  main_passes src st
  = (modify (set_Pass 1);;
     passes (Z.to_nat (MaxPass st - 1)) src;;
     Pass2 src) st.
Proof.
  unfold main_passes.
  unfold mbind at 1 5, M_bind at 1 5, modify.
  unfold mbind at 1, M_bind at 1, get.
  unfold mbind, M_bind.
  rewrite (Pass1_for_passes src (Z.to_nat (MaxPass st - 1))
             (Z.to_nat (MaxPass (set_Pass 1 st))) (set_Pass 1 st)).
  - reflexivity.
  - reflexivity.
  - cbn [MaxPass set_Pass]. lia.
Qed.

(** the passes never end for want of budget: the count of the loop of the
    driver, the budget of the evaluator and the budgets of the loops over
    the data lines are all enough *)
Lemma main_passes_fuel src st : main_passes src st <> NoFuel.
Proof.
  rewrite main_passes_schedule.
  pose proof (Fueled_passes src) as Hp.
  assert (F : Fueled (modify (set_Pass 1);;
                      passes (Z.to_nat (MaxPass st - 1)) src;;
                      Pass2 src)) by fueled.
  apply F.
Qed.

(** C1, as amended.  The driver runs [Pass1] exactly [MaxPass - 1] times
    and then [Pass2], whatever the passes count in [BOC]: the run of the
    passes is the fixed schedule, and nothing in it reads the count.  With
    the default of 20 passes these are 19 runs of [Pass1]; a run that
    returns has ended in pass [MaxPass]. *)
Theorem fixed_pass_count src st :
  main_passes src st
  = (modify (set_Pass 1);;
     passes (Z.to_nat (MaxPass st - 1)) src;;
     Pass2 src) st
  /\ (forall fill, Z.to_nat (MaxPass (start_state fill) - 1) = 19%nat)
  /\ (forall st', main_passes src st = Ok tt st' -> 1 <= MaxPass st ->
       Pass st' = MaxPass st).
Proof.
  pose proof (main_passes_schedule src st) as E.
  split; [exact E|]. split; [reflexivity|].
  intros st' H Hm. rewrite E in H.
  apply bind_Ok in H. destruct H as (u & s0 & H0 & H).
  unfold modify in H0. inversion H0; subst; clear H0.
  apply bind_Ok in H. destruct H as (u' & s1 & H1 & H).
  destruct u'. apply passes_counters in H1.
  cbn [Pass MaxPass set_Pass] in H1. destruct H1 as (P1 & P2 & _).
  apply Pass2_steady in H. destruct H as (Q1 & _).
  rewrite Q1, P1. lia.
Qed.

(** C1 as it is stated fails on a source that has converged after its first
    pass: no change is counted, and the pass that follows is pass 2 of 20,
    not the final one; the loop goes on to pass 20 and has written nothing
    when it ends. *)
Lemma converged_run_is_not_cut_short :
  let src := ["*=$1000"; " NOP"]%string in
  match (modify (set_Pass 1);; Pass1 src;;
         modify (fun s => set_Pass (Pass s + 1) s)) (start_state 0) with
  | Ok _ st1 =>
      BOC st1 = replicate 20 0 /\ Pass st1 = 2 /\ final_pass st1 = false
      /\ match Pass1_for 20 src st1 with
         | Ok _ st2 => Pass st2 = 20 /\ ROM st2 0x1000 = 0
         | _ => False
         end
      /\ match main_passes src (start_state 0) with
         | Ok _ st3 => Pass st3 = 20 /\ ROM st3 0x1000 = 0xEA
         | _ => False
         end
  | _ => False
  end.
Proof. vm_compute. repeat split; reflexivity. Qed.

(** ** The image before the final pass *)

Lemma quiet_true st :
  Pass st <> MaxPass st ->
  BranchOpt st = false \/ Pass st <> MaxPass st - 1 ->
  quiet st = true.
Proof.
  intros H1 H2. unfold quiet. apply andb_true_iff. split.
  - apply negb_true_iff, Z.eqb_neq, H1.
  - apply orb_true_iff. destruct H2 as [H2 | H2].
    + right. rewrite H2. reflexivity.
    + left. apply negb_true_iff, Z.eqb_neq, H2.
Qed.

Lemma Pass1_for_image src : forall n st st',
  BranchOpt st = false ->
  Pass1_for n src st = Ok tt st' -> ROM st' = ROM st.
Proof.
  induction n as [|n IH]; intros st st' Hb H; simpl in H;
    apply bind_Ok in H; destruct H as (g & g' & Hg & H);
    unfold get in Hg; inversion Hg; subst g g'; clear Hg;
    destruct (Pass st <? MaxPass st) eqn:E;
    try discriminate H; try (inv_Ok H; reflexivity).
  apply Z.ltb_lt in E.
  apply bind_Ok in H. destruct H as (u & s1 & H1 & H).
  apply Pass1_steady in H1. destruct H1 as (P1 & P2 & P3 & PR).
  apply bind_Ok in H. destruct H as (u' & s2 & H2 & H).
  unfold modify in H2. inversion H2; subst; clear H2.
  apply IH in H; [|cbn [BranchOpt set_Pass]; congruence].
  cbn [ROM set_Pass] in H. rewrite H. apply PR, quiet_true; [lia|auto].
Qed.

(** the store of the branch optimisation goes to the place of the opcode *)
Lemma gen_branch_opt_store p st r st' :
  gen_branch_opt p st = Ok r st' ->
  forall a, a <> pc st -> ROM st' a = ROM st a.
Proof.
  intros H a Ha. unfold gen_branch_opt in H.
  apply bind_Ok in H. destruct H as (u0 & s0 & H0 & H).
  unfold modify in H0. inversion H0; subst; clear H0.
  apply bind_Ok in H. destruct H as (p3 & s0 & H0 & H).
  unfold inside in H0. destruct (adv 3 p); [|discriminate H0].
  inversion H0; subst; clear H0.
  apply bind_Ok in H. destruct H as ([o v] & s1 & He & H).
  apply EvalOperand_only in He.
  apply bind_Ok in H. destruct H as (g & g' & Hg & H).
  unfold get in Hg. inversion Hg; subst g g'; clear Hg.
  apply bind_Ok in H. destruct H as (u1 & s2 & H1 & H).
  assert (E2 : ROM s2 = ROM st /\ pc s2 = pc st).
  { unfold when_ in H1. destruct (_ || _).
    - unfold modify in H1. inversion H1; subst; clear H1.
      rewrite He. split; reflexivity.
    - inv_Ok H1. rewrite He. split; reflexivity. }
  clear H1. destruct E2 as [R2 P2].
  apply bind_Ok in H. destruct H as (g & g' & Hg & H).
  unfold get in Hg. inversion Hg; subst g g'; clear Hg.
  apply bind_Ok in H. destruct H as (u2 & s3 & H2 & H).
  assert (E3 : ROM s3 a = ROM st a).
  { unfold when_ in H2. destruct (_ =? _).
    - apply store_ROM in H2. rewrite H2. cbn [ROM set_ROM].
      rewrite rom_set_other by congruence. rewrite R2. reflexivity.
    - inv_Ok H2. rewrite R2. reflexivity. }
  clear H2.
  assert (E4 : ROM st' = ROM s3).
  { destruct (final_pass s2).
    - destruct (_ =? UNDEF); [discriminate H|].
      apply bind_Ok in H. destruct H as (u3 & s4 & H3 & H).
      unfold modify in H3. inversion H3; subst; clear H3.
      destruct (_ =? 3).
      + apply bind_Ok in H. destruct H as (u4 & s5 & H4 & H).
        unfold modify in H4. inversion H4; subst; clear H4.
        inversion H; subst. reflexivity.
      + inversion H; subst. reflexivity.
    - inversion H; subst. reflexivity. }
  rewrite E4. exact E3.
Qed.

(** *** What a line stores before the final pass *)

Lemma nonfinal_steady s s' :
  steady nonfinal s s' -> nonfinal s' = nonfinal s.
Proof. apply steady_quiet, Quiet_nonfinal. Qed.

Lemma image_step_steady s s' :
  nonfinal s = true -> steady nonfinal s s' -> image_step s s'.
Proof. intros N (_ & _ & _ & R). left. apply R, N. Qed.

Lemma image_step_after s s1 s' :
  nonfinal s = true -> steady nonfinal s s1 -> image_step s1 s' ->
  image_step s s'.
Proof.
  intros N (_ & _ & _ & R) [E | (s0 & E & F)].
  - left. rewrite E. apply R, N.
  - right. exists s0. split; [rewrite E; apply R, N | exact F].
Qed.

(** the image behind the branch optimisation, in a pass before the final
    one *)
Lemma gen_branch_opt_image p st r st' :
  nonfinal st = true -> gen_branch_opt p st = Ok r st' ->
  Pass st' = Pass st /\ MaxPass st' = MaxPass st
  /\ BranchOpt st' = BranchOpt st
  /\ (ROM st' = ROM st
      \/ Pass st = MaxPass st - 1
         /\ (ROM st' = rom_set (pc st) (oc st) (ROM st)
             \/ ROM st' = rom_set (pc st) (Z.lor (oc st) 3) (ROM st))).
Proof.
  intros N H. unfold gen_branch_opt in H.
  apply bind_Ok in H. destruct H as (u0 & s0 & H0 & H).
  unfold modify in H0. inversion H0; subst; clear H0.
  apply bind_Ok in H. destruct H as (p3 & s0 & H0 & H).
  unfold inside in H0. destruct (adv 3 p); [|discriminate H0].
  inversion H0; subst; clear H0.
  apply bind_Ok in H. destruct H as ([o v] & s1 & He & H).
  apply EvalOperand_only in He.
  apply bind_Ok in H. destruct H as (g & g' & Hg & H).
  unfold get in Hg. inversion Hg; subst g g'; clear Hg.
  apply bind_Ok in H. destruct H as (u1 & s2 & H1 & H).
  assert (E2 : Pass s2 = Pass st /\ MaxPass s2 = MaxPass st
               /\ BranchOpt s2 = BranchOpt st /\ ROM s2 = ROM st
               /\ pc s2 = pc st
               /\ (oc s2 = oc st \/ oc s2 = Z.lor (oc st) 3)).
  { unfold when_ in H1. destruct (_ || _).
    - unfold modify in H1. inversion H1; subst; clear H1.
      rewrite He. cbn. repeat split; auto.
    - inv_Ok H1. rewrite He. cbn. repeat split; auto. }
  clear H1. destruct E2 as (P2 & M2 & B2 & R2 & C2 & O2).
  apply bind_Ok in H. destruct H as (g & g' & Hg & H).
  unfold get in Hg. inversion Hg; subst g g'; clear Hg.
  apply bind_Ok in H. destruct H as (u2 & s3 & H2 & H).
  assert (F : final_pass s2 = false).
  { unfold final_pass. rewrite P2, M2. unfold nonfinal in N.
    apply negb_true_iff in N. exact N. }
  rewrite F in H. inversion H; subst; clear H.
  unfold when_ in H2. destruct (Pass s2 =? MaxPass s2 - 1) eqn:E.
  - apply Z.eqb_eq in E. unfold store in H2.
    destruct (_ && _); [|discriminate H2]. inversion H2; subst; clear H2.
    cbn [Pass MaxPass BranchOpt ROM set_ROM].
    repeat split; auto. right. split; [congruence|].
    rewrite R2, C2. destruct O2 as [-> | ->]; auto.
  - inv_Ok H2. repeat split; auto.
Qed.

Lemma gen_finish_steady v o : Kept nonfinal (gen_finish v o).
Proof.
  pose proof Quiet_nonfinal as Q.
  unfold gen_finish. intros st r st' H. inv_Ok H; to_steady.
  all: repeat match goal with
    | E : final_pass ?s = true, H : gen_emit _ ?s = Ok _ _ |- _ =>
        eapply (gen_emit_loud nonfinal) in H;
        [ | apply (quiet_final _ Q); exact E ]
    end.
  all: steady_chain.
Qed.

Lemma GenerateCode_frozen p : Frozen (GenerateCode p).
Proof.
  pose proof Quiet_nonfinal as Q.
  intros st r st' N H. pose proof H as G. destruct r.
  unfold GenerateCode in H.
  apply bind_Ok in H. destruct H as (g & g' & Hg & H).
  unfold get in Hg. inversion Hg; subst g g'; clear Hg.
  destruct (pc st <? 0); [discriminate H|].
  apply bind_Ok in H. destruct H as ([v o] & s1 & H1 & H).
  apply gen_finish_steady in H.
  destruct ((am st =? AM_Rela) && BranchOpt st && (CPU_Type st =? CPU_45GS02))
    eqn:E.
  - destruct (am st =? AM_Impl) eqn:E1.
    { apply Z.eqb_eq in E1. rewrite E1 in E. discriminate E. }
    destruct (am st =? AM_Bits) eqn:E2.
    { apply Z.eqb_eq in E2. rewrite E2 in E. discriminate E. }
    apply andb_prop in E. destruct E as [E Ec].
    apply andb_prop in E. destruct E as [Ea Eb].
    apply Z.eqb_eq in Ea, Ec.
    apply (gen_branch_opt_image _ _ _ _ N) in H1.
    destruct H1 as (P1 & M1 & B1 & R1).
    assert (N1 : nonfinal s1 = true)
      by (unfold nonfinal in *; rewrite P1, M1; exact N).
    destruct H as (_ & _ & _ & R). specialize (R N1).
    destruct R1 as [R1 | (P & R1)].
    + left. congruence.
    + right. exists st. split; [reflexivity|].
      unfold freezes. repeat split; auto.
      * exists p. exact G.
      * rewrite R. exact R1.
  - assert (F : steady nonfinal st s1).
    { destruct (am st =? AM_Impl); [to_steady; steady_chain|].
      destruct (am st =? AM_Bits); [to_steady; steady_chain|].
      destruct (am st =? AM_Rela); [to_steady; steady_chain|].
      destruct (am st =? AM_Relo); [to_steady; steady_chain|].
      inv_Ok H1; to_steady; steady_chain. }
    apply image_step_steady; [exact N|].
    eapply steady_trans; eauto.
Qed.

(** a run that ends in such a step, behind steps that keep the image *)
Ltac frozen_tail lem :=
  match goal with
  | N : nonfinal ?s0 = true, H : ?m ?s = Ok _ ?s' |- image_step ?s0 ?s' =>
      let T := fresh "T" in
      assert (T : steady nonfinal s0 s)
        by (to_steady; steady_chain);
      let N' := fresh "N" in
      assert (N' : nonfinal s = true)
        by (pose proof (nonfinal_steady _ _ T); congruence);
      exact (image_step_after s0 s s' N T (lem _ s _ s' N' H))
  end.

Ltac frozen_none :=
  match goal with
  | N : nonfinal ?s0 = true |- image_step ?s0 ?s' =>
      apply (image_step_steady s0 s' N); to_steady; steady_chain
  end.

Lemma ParseLine_code_frozen cp : Frozen (ParseLine_code cp).
Proof.
  pose proof Quiet_nonfinal as Q.
  unfold ParseLine_code. intros st r st' N H.
  inv_Ok H; first [frozen_tail GenerateCode_frozen | frozen_none].
Qed.

Lemma ParseLine_label_frozen cp : Frozen (ParseLine_label cp).
Proof.
  pose proof Quiet_nonfinal as Q.
  unfold ParseLine_label. intros st r st' N H.
  inv_Ok H; first [frozen_tail ParseLine_code_frozen | frozen_none].
Qed.

Lemma ParseLine_frozen cp : Frozen (ParseLine cp).
Proof.
  pose proof Quiet_nonfinal as Q.
  unfold ParseLine, after. intros st r st' N H.
  inv_Ok H; first [frozen_tail ParseLine_label_frozen | frozen_none].
Qed.

Lemma next_line_frozen l : Frozen (next_line l).
Proof.
  pose proof Quiet_nonfinal as Q.
  unfold next_line. intros st r st' N H.
  inv_Ok H; first [frozen_tail ParseLine_frozen | frozen_none].
Qed.

(** the byte that such a step leaves at an address: the old one, or the
    opcode stored there *)
Lemma image_step_at s s' a :
  image_step s s' ->
  ROM s' a = ROM s a
  \/ exists s1, ROM s1 = ROM s /\ freezes s1 s' /\ pc s1 = a
       /\ (ROM s' a = Z.land (oc s1) 0xff
           \/ ROM s' a = Z.land (Z.lor (oc s1) 3) 0xff).
Proof.
  intros [E | (s1 & E & F)]; [left; rewrite E; reflexivity|].
  pose proof F as (_ & _ & _ & _ & _ & R).
  destruct (Z.eqb_spec a (pc s1)) as [->|Ne].
  - right. exists s1. split; [exact E|]. split; [exact F|].
    split; [reflexivity|].
    destruct R as [-> | ->]; rewrite rom_set_same; auto.
  - left. rewrite <- E.
    destruct R as [-> | ->]; apply rom_set_other; exact Ne.
Qed.

(** the lines of a pass before the final one: every byte of the image is
    the old one, or the opcode that a line of the source, a relative
    branch, has stored at its program counter *)
Lemma Pass1_loop_frozen : forall src s0 st' a,
  nonfinal s0 = true -> Pass1_loop src s0 = Ok tt st' ->
  ROM st' a = ROM s0 a
  \/ exists src1 l src2 s s1 s',
       src = src1 ++ l :: src2
       /\ Pass1_loop src1 s0 = Ok tt s /\ next_line l s = Ok tt s'
       /\ ROM s1 = ROM s /\ freezes s1 s' /\ pc s1 = a
       /\ (ROM st' a = Z.land (oc s1) 0xff
           \/ ROM st' a = Z.land (Z.lor (oc s1) 3) 0xff).
Proof.
  induction src as [|l0 r IH]; intros s0 st' a N H.
  - cbn [Pass1_loop] in H. inv_Ok H. left. reflexivity.
  - cbn [Pass1_loop] in H.
    apply bind_Ok in H. destruct H as ([] & sa & Hl & H).
    apply bind_Ok in H. destruct H as (g & g' & Hg & H).
    unfold get in Hg. inversion Hg; subst g g'; clear Hg.
    pose proof (next_line_frozen l0 _ _ _ N Hl) as St.
    assert (Na : nonfinal sa = true).
    { apply next_line_steady in Hl. destruct Hl as (P1 & P2 & _).
      unfold nonfinal in *. rewrite P1, P2. exact N. }
    assert (Here : ROM sa a = ROM s0 a
                   \/ exists s1, ROM s1 = ROM s0 /\ freezes s1 sa /\ pc s1 = a
                        /\ (ROM sa a = Z.land (oc s1) 0xff
                            \/ ROM sa a = Z.land (Z.lor (oc s1) 3) 0xff))
      by (apply image_step_at; exact St).
    assert (Last : forall x, ROM st' a = ROM sa a ->
              ROM sa a = x -> ROM st' a = x) by (intros; congruence).
    assert (This : ROM st' a = ROM sa a ->
              ROM st' a = ROM s0 a
              \/ exists src1 l src2 s s1 s',
                   l0 :: r = src1 ++ l :: src2
                   /\ Pass1_loop src1 s0 = Ok tt s /\ next_line l s = Ok tt s'
                   /\ ROM s1 = ROM s /\ freezes s1 s' /\ pc s1 = a
                   /\ (ROM st' a = Z.land (oc s1) 0xff
                       \/ ROM st' a = Z.land (Z.lor (oc s1) 3) 0xff)).
    { intros E. destruct Here as [E0 | (s1 & E1 & F & Pa & V)].
      - left. congruence.
      - right. exists [], l0, r, s0, s1, sa.
        split; [reflexivity|]. split; [reflexivity|].
        split; [exact Hl|]. split; [exact E1|]. split; [exact F|].
        split; [exact Pa|].
        destruct V as [V | V]; [left | right]; congruence. }
    destruct (ForcedEnd sa) eqn:Ef.
    + inv_Ok H. apply This. reflexivity.
    + destruct (IH sa st' a Na H)
        as [E | (r1 & l & r2 & s & s1 & s' & Er & Hr & Hn & E1 & F & Pa & V)].
      * apply This. exact E.
      * right. exists (l0 :: r1), l, r2, s, s1, s'.
        split; [rewrite Er; reflexivity|].
        split.
        { cbn [Pass1_loop]. step Hl. step (get_run sa). rewrite Ef.
          destruct r1 as [|l1 r1]; exact Hr. }
        auto.
Qed.

(** C2, as amended.  A pass that is not the final one stores no byte into
    the image, unless the branch optimisation is on and the pass is the
    one before the final pass.  In that pass, and so in every pass before
    the final one, a byte of the image is the one that was there when the
    pass began, or it is the opcode of a relative branch (or its long form
    [oc | 3]) at the program counter of the branch: the address is the
    [pc] of a call of [GenerateCode] with the addressing mode [AM_Rela],
    the branch optimisation on and the 45GS02 as the processor, made by a
    line [l] of the source that the pass has reached in the state [s]. *)
Theorem image_kept_before_final_pass src st st' :
  Pass st <> MaxPass st ->
  Pass1 src st = Ok tt st' ->
  (BranchOpt st = false \/ Pass st <> MaxPass st - 1 ->
   forall a, ROM st' a = ROM st a)
  /\ forall a,
       ROM st' a = ROM st a
       \/ exists src1 l src2 s s1 s',
            src = src1 ++ l :: src2
            /\ Pass1 src1 st = Ok tt s /\ next_line l s = Ok tt s'
            /\ ROM s1 = ROM s /\ freezes s1 s' /\ pc s1 = a
            /\ (ROM st' a = Z.land (oc s1) 0xff
                \/ ROM st' a = Z.land (Z.lor (oc s1) 3) 0xff).
Proof.
  intros H1 H. split.
  - intros H2 a. apply Pass1_steady in H.
    destruct H as (_ & _ & _ & HR). rewrite HR; [reflexivity|].
    apply quiet_true; assumption.
  - intros a. unfold Pass1 in H.
    apply bind_Ok in H. destruct H as ([] & s0 & H0 & H).
    unfold modify in H0. inversion H0; subst s0; clear H0.
    assert (N : nonfinal
                  (set_Scope "Main" (set_TotalLiNo 0 (set_LiNo 0
                     (set_ForcedEnd false (set_bp 0 (set_pc (-1) st))))))
                = true).
    { unfold nonfinal. cbn. apply negb_true_iff, Z.eqb_neq, H1. }
    destruct (Pass1_loop_frozen _ _ _ a N H)
      as [E | (r1 & l & r2 & s & s1 & s' & Er & Hr & Hn & E1 & F & Pa & V)].
    + left. exact E.
    + right. exists r1, l, r2, s, s1, s'.
      split; [exact Er|]. split; [|auto].
      unfold Pass1. step (eq_refl : modify (fun s => set_Scope "Main"
                 (set_TotalLiNo 0 (set_LiNo 0 (set_ForcedEnd false
                    (set_bp 0 (set_pc (-1) s)))))) st = Ok tt _).
      exact Hr.
Qed.

(** a second pass of three lines stores nothing; with the branch
    optimisation the pass before the final one leaves the opcode of [BNE]
    at $1000, the program counter of the branch *)
Lemma image_kept_before_final_pass_witness :
  (let st := set_Pass 1 (start_state 0) in
   exists st', Pass1 ["*=$1000"; " LDA #1"; " .BYTE 2"] st = Ok tt st'
     /\ pc st' = 0x1003 /\ forall a, ROM st' a = 0)
  /\ (let st := set_Pass 19 (set_BranchOpt true (start_state 0)) in
      let src := [" .CPU 45GS02"; "*=$1000"; "L BNE L"]%string in
      exists st', Pass1 src st = Ok tt st' /\ ROM st' 0x1000 = 0xD0
        /\ exists src1 l src2 s s1 s',
             src = src1 ++ l :: src2
             /\ Pass1 src1 st = Ok tt s /\ next_line l s = Ok tt s'
             /\ ROM s1 = ROM s /\ freezes s1 s' /\ pc s1 = 0x1000).
Proof.
  split.
  - intros st.
    destruct (Pass1 ["*=$1000"; " LDA #1"; " .BYTE 2"] st)
      as [[] st'| | | |] eqn:E;
      try (vm_compute in E; discriminate E).
    exists st'. split; [reflexivity|]. split.
    + assert (X : match Pass1 ["*=$1000"; " LDA #1"; " .BYTE 2"] st with
                  | Ok _ s => pc s | _ => 0 end = 0x1003)
        by (vm_compute; reflexivity).
      rewrite E in X. exact X.
    + intros a.
      rewrite (proj1 (image_kept_before_final_pass
                        ["*=$1000"; " LDA #1"; " .BYTE 2"]%string st st'
                        ltac:(vm_compute; discriminate) E)
                 (or_introl eq_refl) a).
      reflexivity.
  - intros st src.
    destruct (Pass1 src st) as [[] st'| | | |] eqn:E;
      try (vm_compute in E; discriminate E).
    assert (X : match Pass1 src st with
                | Ok _ s => ROM s 0x1000 | _ => 0 end = 0xD0)
      by (vm_compute; reflexivity).
    rewrite E in X.
    exists st'. split; [reflexivity|]. split; [exact X|].
    destruct (proj2 (image_kept_before_final_pass src st st'
                       ltac:(vm_compute; discriminate) E) 0x1000)
      as [L | (src1 & l & src2 & s & s1 & s' & H)].
    + rewrite X in L. vm_compute in L. discriminate L.
    + exists src1, l, src2, s, s1, s'.
      destruct H as (H1 & H2 & H3 & H4 & H5 & H6 & _).
      split; [exact H1|]. split; [exact H2|]. split; [exact H3|].
      split; [exact H4|]. split; [exact H5 | exact H6].
Defined.

(** without the branch optimisation the image is untouched when the final
    pass begins *)
Lemma image_untouched_at_final_pass src n st st' :
  BranchOpt st = false ->
  (modify (set_Pass 1);; Pass1_for n src) st = Ok tt st' ->
  ROM st' = ROM st.
Proof.
  intros Hb H. apply bind_Ok in H. destruct H as (u & s0 & H0 & H).
  unfold modify in H0. inversion H0; subst; clear H0.
  apply Pass1_for_image in H; [exact H | exact Hb].
Qed.

(** C2 as it is stated fails twice.  With the branch optimisation (option
    [-b]) and the 45GS02 the pass before the final one stores the opcode of a
    branch: after 18 passes the image is untouched, the 19th leaves the
    opcode of [BNE] at $1000, and the final pass has not begun.  And an address has no single
    writer: the final pass stores twice to $1000 when the origin is set
    back, the image holds 1 there after the second line and 2 after the
    fourth. *)
Lemma image_written_before_final_pass :
  (let st := set_BranchOpt true (start_state 0) in
   let src := [" .CPU 45GS02"; "*=$1000"; "L BNE L"]%string in
   match (modify (set_Pass 1);; passes 18 src) st with
   | Ok _ s18 =>
       Pass s18 = 19 /\ MaxPass s18 = 20 /\ ROM s18 0x1000 = 0
       /\ match Pass1 src s18 with
          | Ok _ s19 => Pass s19 = 19 /\ ROM s19 0x1000 = 0xD0
          | _ => False
          end
   | _ => False
   end)
  /\ (let st := set_Pass 20 (start_state 0) in
      match Pass2 ["*=$1000"; " .BYTE 1"] st,
            Pass2 ["*=$1000"; " .BYTE 1"; "*=$1000"; " .BYTE 2"] st with
      | Ok _ s1, Ok _ s2 => ROM s1 0x1000 = 1 /\ ROM s2 0x1000 = 2
      | _, _ => False
      end).
Proof. split; vm_compute; repeat split; reflexivity. Qed.

(** * Further properties of the code *)

(** ** Strcasecmp and Strncasecmp *)

Lemma tolower_nul c : tolower c = 0 -> c = NUL.
Proof.
  destruct c as [[] [] [] [] [] [] [] []]; vm_compute; intros H;
    first [reflexivity | discriminate H].
Qed.

Lemma Strcasecmp_zero : forall s1 s2,
  no_nul s1 = true -> no_nul s2 = true ->
  (Strcasecmp s1 s2 = 0
   <-> map tolower (String.list_ascii_of_string s1)
       = map tolower (String.list_ascii_of_string s2)).
Proof.
  induction s1 as [|a r IH]; intros s2 N1 N2.
  - destruct s2 as [|b q].
    + simpl. tauto.
    + cbn [Strcasecmp peek].
      assert (Hb : tolower b <> 0).
      { intros E. apply tolower_nul in E. subst b. discriminate N2. }
      change (tolower NUL) with 0.
      destruct (Z.ltb_spec (tolower b) 0); [split; discriminate|].
      destruct (Z.ltb_spec 0 (tolower b)); [split; discriminate|]. lia.
  - unfold no_nul in N1. simpl in N1. apply andb_prop in N1.
    destruct N1 as [Na N1].
    assert (Ha : tolower a <> 0).
    { intros E. apply tolower_nul in E. subst a. discriminate Na. }
    destruct s2 as [|b q].
    + cbn [Strcasecmp peek]. change (tolower NUL) with 0.
      destruct (Z.ltb_spec 0 (tolower a)); [split; discriminate|].
      destruct (Z.ltb_spec (tolower a) 0); [split; discriminate|]. lia.
    + unfold no_nul in N2. simpl in N2. apply andb_prop in N2.
      destruct N2 as [Nb N2].
      cbn [Strcasecmp peek]. simpl.
      destruct (Z.ltb_spec (tolower b) (tolower a)).
      { split; [discriminate|]. intros E. inversion E. lia. }
      destruct (Z.ltb_spec (tolower a) (tolower b)).
      { split; [discriminate|]. intros E. inversion E. lia. }
      rewrite (IH q N1 N2). split.
      * intros ->. f_equal. lia.
      * intros E. inversion E. reflexivity.
Qed.

Lemma Strcasecmp_swap : forall s1 s2, Strcasecmp s2 s1 = - Strcasecmp s1 s2.
Proof.
  induction s1 as [|a r IH]; intros [|b q]; cbn [Strcasecmp peek];
    repeat match goal with
           | |- context [?x <? ?y] => destruct (Z.ltb_spec x y)
           end; try reflexivity; try lia.
  apply IH.
Qed.

(** X1.  [Strcasecmp] answers 0 exactly for two texts that are equal up to
    the case of their letters, and the answers for the two orders of the
    arguments are opposite. *)
Theorem Strcasecmp_caseless s1 s2 :
  no_nul s1 = true -> no_nul s2 = true ->
  (Strcasecmp s1 s2 = 0
   <-> map tolower (String.list_ascii_of_string s1)
       = map tolower (String.list_ascii_of_string s2))
  /\ Strcasecmp s2 s1 = - Strcasecmp s1 s2.
Proof.
  intros N1 N2. split; [apply Strcasecmp_zero; assumption | apply Strcasecmp_swap].
Qed.

Lemma Strcasecmp_caseless_witness :
  Strcasecmp "Lda" "LDA" = 0 /\ Strcasecmp "LDA" "Lda" = - Strcasecmp "Lda" "LDA".
Proof.
  destruct (Strcasecmp_caseless "Lda" "LDA" eq_refl eq_refl) as [[_ H] S].
  split; [apply H; reflexivity | exact S].
Defined.

Lemma Strncasecmp_zero : forall kw p,
  no_nul kw = true ->
  (Strncasecmp p kw (String.length kw) = 0
   <-> map tolower (take (String.length kw) (String.list_ascii_of_string p))
       = map tolower (String.list_ascii_of_string kw)).
Proof.
  induction kw as [|k kr IH]; intros p N.
  - destruct p; split; intros _; reflexivity.
  - unfold no_nul in N. simpl in N. apply andb_prop in N.
    destruct N as [Nk N].
    assert (Hk : tolower k <> 0).
    { intros E. apply tolower_nul in E. subst k. discriminate Nk. }
    destruct p as [|a r]; cbn [Strncasecmp String.length peek].
    + change (tolower NUL) with 0. simpl.
      destruct (Z.ltb_spec (tolower k) 0); [split; discriminate|].
      destruct (Z.ltb_spec 0 (tolower k)); [split; discriminate|]. lia.
    + simpl.
      destruct (Z.ltb_spec (tolower k) (tolower a)).
      { split; [discriminate|]. intros E. inversion E. lia. }
      destruct (Z.ltb_spec (tolower a) (tolower k)).
      { split; [discriminate|]. intros E. inversion E. lia. }
      rewrite (IH r N). split.
      * intros ->. f_equal. lia.
      * intros E. inversion E. reflexivity.
Qed.

(** X2.  A keyword test [!Strncasecmp(p, kw, strlen(kw))] holds exactly when
    the line at [p] starts with the keyword up to the case of the letters;
    nothing is asked of the text behind the keyword. *)
Theorem keyword_caseless_prefix kw p :
  no_nul kw = true ->
  (keyword kw p = true
   <-> map tolower (take (String.length kw) (String.list_ascii_of_string p))
       = map tolower (String.list_ascii_of_string kw)).
Proof.
  intros N. unfold keyword. rewrite Z.eqb_eq. apply Strncasecmp_zero, N.
Qed.

Lemma keyword_caseless_prefix_witness :
  keyword "WOR" "words 1" = true.
Proof.
  apply (keyword_caseless_prefix "WOR" "words 1" eq_refl). reflexivity.
Defined.

(** ** The symbol table: entering and finding a symbol *)

Lemma strcmp_refl s : strcmp s s = 0.
Proof.
  induction s as [|a r IH]; simpl; [reflexivity|].
  rewrite Z.ltb_irrefl. exact IH.
Qed.

Lemma Strcasecmp_refl s : Strcasecmp s s = 0.
Proof.
  induction s as [|a r IH]; cbn [Strcasecmp peek]; rewrite Z.ltb_irrefl;
    [reflexivity | exact IH].
Qed.

Lemma StrCmp_refl st s : StrCmp st s s = 0.
Proof.
  unfold StrCmp. destruct (IgnoreCase st);
    [apply Strcasecmp_refl | apply strcmp_refl].
Qed.

Lemma LabelIndex_from_app st p x : forall l i,
  LabelIndex_from st p l i = None ->
  StrCmp st p (Name x) = 0 ->
  LabelIndex_from st p (l ++ [x]) i = Some (i + length l)%nat.
Proof.
  induction l as [|y l IH]; intros i H E; simpl in *.
  - rewrite E. simpl. f_equal. lia.
  - destruct (StrCmp st p (Name y) =? 0); [discriminate H|].
    rewrite (IH _ H E). f_equal. lia.
Qed.

Lemma LabelIndex_from_keep st p x : forall l i j,
  LabelIndex_from st p l i = Some j ->
  LabelIndex_from st p (l ++ [x]) i = Some j.
Proof.
  induction l as [|y l IH]; intros i j H; simpl in *; [discriminate H|].
  destruct (StrCmp st p (Name y) =? 0); [exact H | apply IH, H].
Qed.

Lemma LabelIndex_from_bound st p : forall l i j,
  LabelIndex_from st p l i = Some j -> (i <= j < i + length l)%nat.
Proof.
  induction l as [|y l IH]; intros i j H; simpl in *; [discriminate H|].
  destruct (StrCmp st p (Name y) =? 0).
  - injection H as <-. lia.
  - apply IH in H. lia.
Qed.

Lemma LabelIndex_from_case st st' p l i :
  IgnoreCase st' = IgnoreCase st ->
  LabelIndex_from st' p l i = LabelIndex_from st p l i.
Proof.
  intros E. revert i. induction l as [|y l IH]; intros i; simpl;
    [reflexivity|].
  unfold StrCmp. rewrite E, IH. reflexivity.
Qed.

(** X3.  [AddLabel] enters a symbol that [LabelIndex] does not find behind
    the entries of the table, with the address UNDEF; from then on
    [LabelIndex] finds it there, and it finds every other symbol where it
    was.  A table of more than MAXLAB - 2 entries ends the run instead. *)
Theorem added_symbol_is_found st p :
  LabelIndex st p = None ->
  (too_many_labels st = true -> AddLabel p st = Exit)
  /\ (too_many_labels st = false ->
      exists st', AddLabel p st = Ok tt st'
        /\ LabelIndex st' p = Some (length (lab st))
        /\ Address <$> (lab st' !! length (lab st)) = Some UNDEF
        /\ Labels st' = Labels st + 1
        /\ forall n i, LabelIndex st n = Some i ->
             LabelIndex st' n = Some i
             /\ lab st' !! i = lab st !! i).
Proof.
  intros HN. unfold AddLabel, mbind, M_bind, get. split; intros E; rewrite E.
  - reflexivity.
  - eexists. split; [reflexivity|]. unfold LabelIndex, Labels in *.
    cbn [lab set_lab IgnoreCase]. repeat split.
    + rewrite (LabelIndex_from_case st) by reflexivity.
      rewrite (LabelIndex_from_app st p (new_label p UNDEF (LiNo st) 0) _ _ HN
                 (StrCmp_refl st p)).
      reflexivity.
    + rewrite list_lookup_middle by reflexivity. reflexivity.
    + rewrite length_app. simpl. lia.
    + rewrite (LabelIndex_from_case st) by reflexivity.
      apply LabelIndex_from_keep, H.
    + apply LabelIndex_from_bound in H.
      apply lookup_app_l. lia.
Qed.

Lemma added_symbol_is_found_witness :
  exists st', AddLabel "TARGET" (start_state 0) = Ok tt st'
    /\ LabelIndex st' "TARGET" = Some 0%nat.
Proof.
  destruct (added_symbol_is_found (start_state 0) "TARGET" eq_refl) as [_ H].
  destruct (H eq_refl) as (st' & E & L & _).
  exists st'. split; [exact E | exact L].
Defined.

(** ** A reference to a symbol *)

Lemma GetSymbol_scope st st' p :
  Scope st' = Scope st -> BSO_Mode st' = BSO_Mode st ->
  GetSymbol st' p = GetSymbol st p.
Proof. intros E1 E2. unfold GetSymbol. rewrite E1, E2. reflexivity. Qed.

Lemma EvalSymValue_found st t sym q j y :
  GetSymbol st t = (sym, q) ->
  LabelIndex st sym = Some j -> lab st !! j = Some y ->
  final_pass st && (Address y =? UNDEF) = false ->
  exists st', EvalSymValue t st = Ok (q, Address y) st' /\ grows st st'.
Proof.
  intros HG HL Hy Hf.
  assert (exists st', SymRefs j st = Ok tt st') as [st' HS].
  { unfold SymRefs, mbind, M_bind, get.
    destruct (negb (final_pass st)); eexists; reflexivity. }
  exists st'. split; [|eapply SymRefs_grows, HS].
  unfold EvalSymValue. step (get_run st). rewrite HG, HL.
  step HS. rewrite Hy. simpl. rewrite Hf. reflexivity.
Qed.

Lemma EvalSymValue_unknown st t sym q :
  GetSymbol st t = (sym, q) -> LabelIndex st sym = None ->
  too_many_labels st = false ->
  EvalSymValue t st
  = Ok (q, UNDEF) (set_lab (lab st ++ [new_label sym UNDEF (LiNo st) 0]) st).
Proof.
  intros HG HL HT. unfold EvalSymValue. step (get_run st). rewrite HG, HL.
  unfold AddLabel, mbind, M_bind, get. rewrite HT. reflexivity.
Qed.

(** X4.  The first reference to a symbol that is not in the table has the
    value UNDEF and enters the symbol, in every pass.  As long as no
    definition follows, a further reference has the value UNDEF again and
    changes nothing in a pass before the final one, and ends the run in the
    final pass. *)
Theorem forward_reference st t sym q :
  GetSymbol st t = (sym, q) ->
  LabelIndex st sym = None ->
  too_many_labels st = false ->
  exists st1,
    EvalSymValue t st = Ok (q, UNDEF) st1
    /\ LabelIndex st1 sym = Some (length (lab st))
    /\ (final_pass st = false -> EvalSymValue t st1 = Ok (q, UNDEF) st1)
    /\ (final_pass st = true -> EvalSymValue t st1 = Exit).
Proof.
  intros HG HL HT. eexists. split; [apply EvalSymValue_unknown; eassumption|].
  set (st1 := set_lab _ st).
  assert (L1 : LabelIndex st1 sym = Some (length (lab st))).
  { unfold LabelIndex, st1. cbn [lab set_lab].
    rewrite (LabelIndex_from_case st) by reflexivity.
    rewrite (LabelIndex_from_app st sym (new_label sym UNDEF (LiNo st) 0) _ _
               HL (StrCmp_refl st sym)).
    reflexivity. }
  assert (G1 : GetSymbol st1 t = (sym, q)).
  { rewrite <- HG. apply GetSymbol_scope; reflexivity. }
  assert (Y1 : lab st1 !! length (lab st)
               = Some (new_label sym UNDEF (LiNo st) 0)).
  { unfold st1. cbn [lab set_lab]. apply list_lookup_middle. reflexivity. }
  split; [exact L1|].
  split; intros F; unfold EvalSymValue; step (get_run st1);
    rewrite G1, L1, Y1; unfold SymRefs, mbind, M_bind, get;
    change (final_pass st1) with (final_pass st); rewrite F; reflexivity.
Qed.

Lemma forward_reference_witness :
  exists st1,
    EvalSymValue "target+1" (start_state 0) = Ok ("+1"%string, UNDEF) st1
    /\ EvalSymValue "target+1" st1 = Ok ("+1"%string, UNDEF) st1.
Proof.
  destruct (forward_reference (start_state 0) "target+1" "target" "+1"
              eq_refl eq_refl eq_refl) as (st1 & E & _ & N & _).
  exists st1. split; [exact E | exact (N eq_refl)].
Defined.

(** ** Definition, then reference *)

Lemma LabelIndex_from_alter st p f j : forall l i,
  (forall x, Name (f x) = Name x) ->
  LabelIndex_from st p (alter f j l) i = LabelIndex_from st p l i.
Proof.
  intros l. revert j. induction l as [|y l IH]; intros j i Hf;
    [reflexivity|].
  destruct j as [|j]; simpl.
  - rewrite Hf. reflexivity.
  - change (list_alter f j l) with (alter f j l). rewrite IH by exact Hf.
    reflexivity.
Qed.

Lemma DefineLabel_position_defines st p :
  match LabelIndex st (Label st) with
  | None => True
  | Some j => exists x, lab st !! j = Some x
                /\ (Address x = UNDEF \/ Address x = pc st)
  end ->
  exists o st' j y,
    DefineLabel_position p st = Ok (p, o) st'
    /\ only_lab st st'
    /\ LabelIndex st' (Label st) = Some j
    /\ lab st' !! j = Some y /\ Address y = pc st.
Proof.
  intros H. unfold DefineLabel_position. step (get_run st).
  assert (exists j s1 z,
    match LabelIndex st (Label st) with
    | None =>
        modify (set_lab (lab st ++ [new_label (Label st) (pc st) (LiNo st) LPOS]));;
        mret (length (lab st))
    | Some j =>
        x ← lab_at j;
        (if Address x =? UNDEF then update_lab j (set_Address (pc st))
         else if negb (Address x =? pc st) && negb (Locked x) then
           if Pass st =? 1 then exit_
           else if Pass st <? MaxPass st then
             update_lab j (set_Address (pc st));; count_change
           else exit_
         else mret tt);;
        mret j
    end st = Ok j s1
    /\ only_lab st s1
    /\ LabelIndex_from st (Label st) (lab s1) 0 = Some j
    /\ lab s1 !! j = Some z /\ Address z = pc st) as (j & s1 & z & E & O & L & Z1 & Z2).
  { destruct (LabelIndex st (Label st)) as [j|] eqn:HL.
    - destruct H as (x & Hx & Ha). step (lab_at_found _ _ _ Hx).
      destruct (Address x =? UNDEF) eqn:EU.
      + step (update_lab_run j (set_Address (pc st)) st).
        do 3 eexists. split; [reflexivity|]. split; [reflexivity|].
        cbn [lab set_lab]. split; [|split].
        * rewrite LabelIndex_from_alter by reflexivity. exact HL.
        * rewrite list_lookup_alter_eq, Hx. reflexivity.
        * reflexivity.
      + destruct Ha as [Ha|Ha]; [apply Z.eqb_neq in EU; contradiction|].
        rewrite Ha, Z.eqb_refl. cbn [negb andb].
        exists j, st, x. repeat split; try assumption.
        destruct st; reflexivity.
    - do 3 eexists. split; [reflexivity|]. split; [reflexivity|].
      cbn [lab set_lab]. split; [|split].
      + rewrite (LabelIndex_from_app st (Label st)
                   (new_label (Label st) (pc st) (LiNo st) LPOS) _ _ HL
                   (StrCmp_refl st _)).
        reflexivity.
      + apply list_lookup_middle. reflexivity.
      + reflexivity. }
  step E. step (lab_at_found _ _ _ Z1).
  step (update_lab_run j (set_Def (LiNo st) LPOS) s1).
  do 4 eexists. split; [reflexivity|]. split; [|split; [|split]].
  - unfold only_lab in *. cbn [lab set_lab]. rewrite O at 2.
    destruct st; reflexivity.
  - unfold LabelIndex. cbn [lab set_lab].
    rewrite (LabelIndex_from_case st)
      by (cbn [IgnoreCase set_lab]; rewrite O; reflexivity).
    rewrite LabelIndex_from_alter by reflexivity. exact L.
  - cbn [lab set_lab]. rewrite list_lookup_alter_eq, Z1. reflexivity.
  - exact Z2.
Qed.

(** X5.  A label on a line of its own (no [=] and no [.BSS] behind it) that
    is new, or known without an address (referenced before), or known at
    the address of the program counter, is defined with the program counter
    as its address: every reference behind the definition has this value. *)
Theorem position_label_resolves st p lk sym r :
  too_many_labels st = false ->
  GetSymbol st p = (sym, r) ->
  let r' := SkipSpace (if ceq (peek r) ":" then tail r else r) in
  ceq (peek r') "=" = false -> keyword ".BSS" r' = false ->
  match LabelIndex st sym with
  | None => True
  | Some j => exists x, lab st !! j = Some x
                /\ (Address x = UNDEF \/ Address x = pc st)
  end ->
  exists o st',
    DefineLabel p lk st = Ok (r', o) st'
    /\ pc st' = pc st /\ ROM st' = ROM st
    /\ forall t q,
         GetSymbol st' t = (sym, q) ->
         final_pass st && (pc st =? UNDEF) = false ->
         exists st'', EvalSymValue t st' = Ok (q, pc st) st''.
Proof.
  intros HT HG r' He Hk H.
  unfold DefineLabel. step (get_run st). rewrite HT, HG. cbn beta iota.
  step (eq_refl : modify (set_Label sym) st = Ok tt (set_Label sym st)).
  assert (exists s2, when_ (BSO_Mode st && isalpha (peek sym)
             && (strncmp sym (Line st) (String.length sym) =? 0))
            (modify (fun s => set_ModuleStart (pc s) (set_Scope sym s)))
            (set_Label sym st) = Ok tt s2
          /\ Label s2 = sym /\ lab s2 = lab st /\ pc s2 = pc st
          /\ IgnoreCase s2 = IgnoreCase st /\ Pass s2 = Pass st
          /\ MaxPass s2 = MaxPass st /\ ROM s2 = ROM st)
    as (s2 & E2 & F1 & F2 & F3 & F4 & F5 & F6 & F7).
  { destruct (_ && _ && _); eexists; (split; [reflexivity|]);
      repeat split. }
  step E2. fold r'. rewrite He, Hk.
  destruct (DefineLabel_position_defines s2 r') as (o & st' & j & y & E & O & L & Y & A).
  { rewrite F1, F3. unfold LabelIndex in *. rewrite F2.
    rewrite (LabelIndex_from_case st) by exact F4.
    destruct (LabelIndex_from st sym (lab st) 0); [|exact I].
    exact H. }
  exists o, st'. split; [exact E|].
  split; [rewrite O; cbn; exact F3|].
  split; [rewrite O; cbn; exact F7|].
  intros t q G Hf. rewrite F1 in L. rewrite F3 in A.
  destruct (EvalSymValue_found st' t sym q j y G L Y) as (st'' & E' & _).
  - rewrite A. unfold final_pass in *. rewrite O. cbn.
    rewrite F5, F6. exact Hf.
  - exists st''. rewrite <- A. exact E'.
Qed.

Lemma position_label_resolves_witness :
  exists o st',
    DefineLabel "loop: dex"
      false (set_pc 4096 (start_state 0)) = Ok ("dex"%string, o) st'
    /\ exists st'', EvalSymValue "loop" st' = Ok (""%string, 4096) st''.
Proof.
  destruct (position_label_resolves (set_pc 4096 (start_state 0))
              "loop: dex" false "loop" ": dex"
              eq_refl eq_refl eq_refl eq_refl I)
    as (o & st' & E & P & _ & R).
  exists o, st'. split; [exact E|].
  apply R; [|reflexivity].
  unfold DefineLabel in E. vm_compute in E. inversion E. reflexivity.
Defined.

(** ** Symbols of the command line *)





(** ** The loop over the binary operators *)

Lemma find_binop_lone p :
  negb (ceq (peek p) NUL) && mem_char (peek p) "=*/+-<>!&^|" = true ->
  find_binop p binop = None <-> lone_operator p = true.
Proof.
  destruct p as [|c r]; [discriminate|].
  destruct c as [[] [] [] [] [] [] [] []]; try discriminate; intros _;
    unfold lone_operator; cbn;
    try (split; intros H; discriminate H);
    destruct r as [|d r]; cbn;
    try (split; intros H; (discriminate H || reflexivity));
    destruct d as [[] [] [] [] [] [] [] []]; cbn;
    split; intros H; (discriminate H || reflexivity).
Qed.

(** X7.  The loop of [EvalOperand] over the binary operators accepts the
    characters [=*/+-<>!&^|]; at one of them, no operator of the table
    matches exactly when the character is a [=] or a [!] that no [=]
    follows.  There the loop does not move on: the evaluation does not
    end, whatever the left operand, the priority and the state. *)
Theorem lone_operator_stalls p :
  negb (ceq (peek p) NUL) && mem_char (peek p) "=*/+-<>!&^|" = true ->
  (find_binop p binop = None <-> lone_operator p = true)
  /\ (lone_operator p = true ->
      forall n v prio st, BinOps_ (S n) p v prio st = Hang).
Proof.
  intros Hc. split; [apply find_binop_lone, Hc|].
  intros Hl n v prio st. cbn [BinOps_]. rewrite Hc.
  apply (find_binop_lone p Hc) in Hl. rewrite Hl. reflexivity.
Qed.

Lemma lone_operator_stalls_witness :
  BinOps_ 1 "=2" 1 0 (start_state 0) = Hang
  /\ EvalOperand "1=2" 0 (start_state 0) = Hang.
Proof.
  split.
  - destruct (lone_operator_stalls "=2" eq_refl) as [_ H].
    exact (H eq_refl 0%nat 1 0 (start_state 0)).
  - vm_compute. reflexivity.
Defined.

(** ** What the evaluation of an operand leaves as it is *)

Section EvalOperand_relation.

Variable R : state -> state -> Prop.
Hypothesis R_refl : forall st, R st st.
Hypothesis R_trans : forall s1 s2 s3, R s1 s2 -> R s2 s3 -> R s1 s3.
Hypothesis R_AddLabel : forall p st a st', AddLabel p st = Ok a st' -> R st st'.
Hypothesis R_SymRefs : forall i st a st', SymRefs i st = Ok a st' -> R st st'.

Lemma EvalSymValue_rel p st r st' : EvalSymValue p st = Ok r st' -> R st st'.
Proof. unfold EvalSymValue. intros H. inv_Ok H; eauto. Qed.

Lemma EvalSymBytes_rel p st r st' : EvalSymBytes p st = Ok r st' -> R st st'.
Proof. unfold EvalSymBytes. intros H. inv_Ok H; eauto. Qed.

Lemma EvalOperand_rel_both n :
  (forall p prio st r st', EvalOperand_ n p prio st = Ok r st' -> R st st')
  /\ (forall p v prio st r st', BinOps_ n p v prio st = Ok r st' -> R st st').
Proof.
  induction n as [|n [IHe IHb]]; split; intros; try discriminate.
  - simpl in H.
    destruct (SkipSpace p) as [|c q] eqn:Ep; [discriminate|].
    inv_Ok H;
      repeat match goal with
      | H : EvalOperand_ n _ _ _ = Ok _ _ |- _ => apply IHe in H
      | H : BinOps_ n _ _ _ _ = Ok _ _ |- _ => apply IHb in H
      | H : EvalHexValue _ _ = Ok _ _ |- _ => apply EvalHexValue_same in H; subst
      | H : EvalOctValue _ _ = Ok _ _ |- _ => apply EvalOctValue_same in H; subst
      | H : EvalBinValue _ _ = Ok _ _ |- _ => apply EvalBinValue_same in H; subst
      | H : EvalCharValue _ _ = Ok _ _ |- _ => apply EvalCharValue_same in H; subst
      | H : EvalDecValue _ _ = Ok _ _ |- _ => apply EvalDecValue_same in H; subst
      | H : EvalSymValue _ _ = Ok _ _ |- _ => apply EvalSymValue_rel in H
      | H : EvalSymBytes _ _ = Ok _ _ |- _ => apply EvalSymBytes_rel in H
      end; eauto.
  - simpl in H. inv_Ok H;
      repeat match goal with
      | H : EvalOperand_ n _ _ _ = Ok _ _ |- _ => apply IHe in H
      | H : BinOps_ n _ _ _ _ = Ok _ _ |- _ => apply IHb in H
      end; eauto.
Qed.

Lemma EvalOperand_rel p prio st r st' :
  EvalOperand p prio st = Ok r st' -> R st st'.
Proof. apply EvalOperand_rel_both. Qed.

End EvalOperand_relation.

Lemma appends_trans s1 s2 s3 :
  appends s1 s2 -> appends s2 s3 -> appends s1 s3.
Proof.
  intros (O1 & B1 & N1) (O2 & B2 & N2). split; [|split].
  - eapply only_lab_trans; eauto.
  - lia.
  - intros F. destruct (N1 F) as (n1 & E1 & U1).
    assert (F2 : final_pass s2 = false).
    { rewrite <- F. unfold final_pass. rewrite O1. reflexivity. }
    destruct (N2 F2) as (n2 & E2 & U2).
    exists (n1 ++ n2). split.
    + rewrite E2, E1, <- app_assoc. reflexivity.
    + apply Forall_app. split; assumption.
Qed.

Lemma appends_refl st : appends st st.
Proof.
  split; [apply only_lab_refl|]. split; [lia|].
  intros _. exists []. split; [symmetry; apply app_nil_r | constructor].
Qed.

Lemma AddLabel_appends p st a st' : AddLabel p st = Ok a st' -> appends st st'.
Proof.
  intros H. split; [eapply AddLabel_only, H|].
  unfold AddLabel, mbind, M_bind, get in H.
  destruct (too_many_labels st) eqn:E; [discriminate H|].
  unfold modify in H. inversion H; subst st'; clear H.
  unfold too_many_labels in E. apply Z.ltb_ge in E.
  unfold Labels in *. cbn [lab set_lab]. split.
  - rewrite length_app. simpl. lia.
  - intros _. eexists. split; [reflexivity|].
    constructor; [reflexivity | constructor].
Qed.

Lemma SymRefs_appends i st a st' : SymRefs i st = Ok a st' -> appends st st'.
Proof.
  intros H. split; [eapply SymRefs_only, H|].
  unfold SymRefs, mbind, M_bind, get in H.
  destruct (final_pass st) eqn:F; cbn [negb] in H.
  - unfold update_lab, modify in H. inversion H; subst st'; clear H.
    unfold Labels. cbn [lab set_lab]. rewrite length_alter.
    split; [lia | discriminate].
  - inversion H; subst st'; clear H. split; [lia|].
    intros _. exists []. split; [symmetry; apply app_nil_r | constructor].
Qed.

(** X8.  The evaluation of an operand changes nothing but the symbol
    table: program counter, image and every other variable are as before.
    In the table every entry stays at its index with its name, address and
    lock; the table does not outgrow MAXLAB - 1 entries unless it was
    larger before; and in a pass before the final one the evaluation only
    puts entries without an address behind the table.  The text left over
    is no longer than the text given. *)
Theorem evaluation_leaves_state st p prio q v st' :
  EvalOperand p prio st = Ok (q, v) st' ->
  st' = set_lab (lab st') st
  /\ (forall j x, lab st !! j = Some x ->
        exists x', lab st' !! j = Some x' /\ Name x' = Name x
          /\ Address x' = Address x /\ Locked x' = Locked x)
  /\ Labels st' <= Z.max (Labels st) (MAXLAB - 1)
  /\ (final_pass st = false ->
        exists new, lab st' = lab st ++ new
          /\ Forall (fun x => Address x = UNDEF) new)
  /\ (String.length q <= String.length p)%nat.
Proof.
  intros H.
  pose proof (EvalOperand_grows _ _ _ _ _ H) as [O G].
  pose proof (EvalOperand_rel appends appends_refl appends_trans
                AddLabel_appends SymRefs_appends _ _ _ _ _ H) as (_ & B & N).
  pose proof (EvalOperand_length _ _ _ _ _ _ H) as L.
  split; [exact O|]. split; [exact G|]. split; [exact B|].
  split; [exact N | exact L].
Qed.

Lemma evaluation_leaves_state_witness :
  exists st',
    EvalOperand "size*2+$10,x" 0 (start_state 0) = Ok (",x"%string, UNDEF) st'
    /\ pc st' = pc (start_state 0)
    /\ Labels st' = 1.
Proof.
  eexists. split; [vm_compute; reflexivity|].
  match goal with |- context [pc ?s = _] =>
    destruct (evaluation_leaves_state (start_state 0) "size*2+$10,x" 0
                ",x" UNDEF s ltac:(vm_compute; reflexivity)) as (O & _)
  end.
  split; [rewrite O; reflexivity | vm_compute; reflexivity].
Defined.

(** ** .HEX4: the text of a value *)

Lemma store_bytes_run buf : forall a st,
  0 <= a -> a + Z.of_nat (length buf) <= ROM_SIZE ->
  exists st', store_bytes a buf st = Ok tt st'.
Proof.
  induction buf as [|b buf IH]; intros a st Ha Hb; simpl.
  - eexists. reflexivity.
  - simpl length in Hb.
    assert (E : store a b st = Ok tt (set_ROM (rom_set a b (ROM st)) st)).
    { unfold store.
      replace ((0 <=? a) && (a <? ROM_SIZE)) with true; [reflexivity|].
      symmetry. apply andb_true_iff. split; [apply Z.leb_le | apply Z.ltb_lt]; lia. }
    rewrite (bind_eq _ _ _ _ _ E). apply IH; lia.
Qed.

Lemma EvalHexValue_pure p st st0 :
  EvalHexValue p st
  = match EvalHexValue p st0 with
    | Ok r _ => Ok r st
    | Exit => Exit | Hang => Hang | Beyond => Beyond | NoFuel => NoFuel
    end.
Proof.
  unfold EvalHexValue. destruct p as [|c r]; [reflexivity|].
  destruct (negb (isxdigit c)); [reflexivity|].
  destruct (ceq c "0" && _); [reflexivity|].
  destruct (scan_digits isxdigit 16 0 (String c r)) as [w q].
  destruct (w <? 4294967296); reflexivity.
Qed.

Lemma hex_char_digit d :
  0 <= d < 16 ->
  isxdigit (of_chr (hex_char d)) = true
  /\ digit_val (of_chr (hex_char d)) = d
  /\ ceq (of_chr (hex_char d)) "x" = false
  /\ ceq (of_chr (hex_char d)) "X" = false
  /\ 0 <= hex_char d < 128.
Proof.
  intros H.
  assert (d = 0 \/ d = 1 \/ d = 2 \/ d = 3 \/ d = 4 \/ d = 5 \/ d = 6
          \/ d = 7 \/ d = 8 \/ d = 9 \/ d = 10 \/ d = 11 \/ d = 12
          \/ d = 13 \/ d = 14 \/ d = 15) as C by lia.
  repeat (destruct C as [->|C]); try subst d;
    (split; [reflexivity|]; split; [reflexivity|]; split; [reflexivity|];
     split; [reflexivity|]; cbv; split; [discriminate | reflexivity]).
Qed.

Lemma hex4_digits w :
  0 <= w < 65536 ->
  0 <= Z.shiftr w 12 < 16
  /\ 0 <= Z.land (Z.shiftr w 8) 15 < 16
  /\ 0 <= Z.land (Z.shiftr w 4) 15 < 16
  /\ 0 <= Z.land w 15 < 16
  /\ ((Z.shiftr w 12 * 16 + Z.land (Z.shiftr w 8) 15) * 16
      + Z.land (Z.shiftr w 4) 15) * 16 + Z.land w 15 = w.
Proof.
  intros H. change 15 with (Z.ones 4).
  rewrite !Z.land_ones, !Z.shiftr_div_pow2 by lia.
  change (2 ^ 12) with 4096. change (2 ^ 8) with 256.
  change (2 ^ 4) with 16.
  repeat split; try (Z.div_mod_to_equations; lia).
Qed.

Lemma hex4_reads_back v st :
  EvalHexValue (text (map of_chr (hex4 v))) st
  = Ok (EmptyString, Z.land v 0xffff) st
  /\ Forall (fun b => 0 <= b < 128) (hex4 v).
Proof.
  assert (Hw : 0 <= Z.land v 0xffff < 65536).
  { change 0xffff with (Z.ones 16). rewrite Z.land_ones by lia.
    pose proof (Z.mod_pos_bound v (2 ^ 16) ltac:(lia)). lia. }
  unfold hex4. cbv zeta. set (w := Z.land v 0xffff) in *.
  destruct (hex4_digits w Hw) as (B3 & B2 & B1 & B0 & E).
  destruct (hex_char_digit _ B3) as (X3 & D3 & _ & _ & R3).
  destruct (hex_char_digit _ B2) as (X2 & D2 & N2 & M2 & R2).
  destruct (hex_char_digit _ B1) as (X1 & D1 & _ & _ & R1).
  destruct (hex_char_digit _ B0) as (X0 & D0 & _ & _ & R0).
  split; [|repeat constructor; lia].
  unfold EvalHexValue, text. cbn [map String.string_of_list_ascii peek].
  rewrite X3, N2, M2. cbn [negb orb]. rewrite andb_false_r.
  cbn [scan_digits]. rewrite X3, X2, X1, X0, D3, D2, D1, D0.
  replace (((0 * 16 + Z.shiftr w 12) * 16 + Z.land (Z.shiftr w 8) 15) * 16
           + Z.land (Z.shiftr w 4) 15) with
    ((Z.shiftr w 12 * 16 + Z.land (Z.shiftr w 8) 15) * 16
     + Z.land (Z.shiftr w 4) 15) by lia.
  rewrite E.
  replace (w <? 4294967296) with true by (symmetry; apply Z.ltb_lt; lia).
  rewrite wrap_small by lia. reflexivity.
Qed.

(** X9.  In the final pass [.HEX4 expr] stores four characters at the
    program counter and moves it on by four; the characters are the
    hexadecimal text of the low 16 bits of the value: read by the reader of
    hexadecimal constants of the assembler itself they give the value
    [v & 0xffff] back, with no text left over. *)
Theorem hex4_data_reads_back st p q v s1 :
  EvalOperand p 0 st = Ok (q, v) s1 ->
  final_pass st = true ->
  0 <= pc s1 -> pc s1 + 4 <= ROM_SIZE ->
  exists st',
    ParseHex4Data p st = Ok q st'
    /\ pc st' = pc s1 + 4
    /\ EvalHexValue
         (text (map (fun k => of_chr (ROM st' (pc s1 + k))) [0; 1; 2; 3])) st'
       = Ok (EmptyString, Z.land v 0xffff) st'
    /\ forall x, x < pc s1 \/ pc s1 + 4 <= x -> ROM st' x = ROM s1 x.
Proof.
  intros He Hf H0 H4.
  assert (Hf1 : final_pass s1 = true).
  { rewrite <- Hf. unfold final_pass.
    rewrite (EvalOperand_only _ _ _ _ _ He). reflexivity. }
  destruct (store_bytes_run (hex4 v) (pc s1) s1 H0) as [s2 Hs];
    [exact H4|].
  destruct (store_bytes_ROM _ _ _ _ _ Hs) as (E & Hin & Hout).
  destruct (hex4_reads_back v (set_pc (pc s1 + 4) s2)) as [Hr Hb].
  exists (set_pc (pc s1 + 4) s2). split; [|split; [|split]].
  - assert (Hm : emit_raw (hex4 v) s1 = Ok tt (set_pc (pc s1 + 4) s2)).
    { unfold emit_raw. step (get_run s1). rewrite Hf1. cbn [when_].
      step Hs. reflexivity. }
    unfold ParseHex4Data. step He. step Hm. reflexivity.
  - reflexivity.
  - cbn [ROM set_pc]. etransitivity; [|exact Hr]. do 2 f_equal.
    assert (Hk : forall k b, hex4 v !! k = Some b ->
                   of_chr (ROM s2 (pc s1 + Z.of_nat k)) = of_chr b).
    { intros k b Hk. rewrite (Hin k b Hk). f_equal.
      pose proof (Forall_lookup_1 _ _ _ _ Hb Hk) as Hr2. cbv beta in Hr2.
      change 0xff with (Z.ones 8). rewrite Z.land_ones by lia.
      apply Z.mod_small. lia. }
    unfold hex4 in *. cbv zeta in *. cbn [map].
    pose proof (Hk 0%nat _ eq_refl) as K0. pose proof (Hk 1%nat _ eq_refl) as K1.
    pose proof (Hk 2%nat _ eq_refl) as K2. pose proof (Hk 3%nat _ eq_refl) as K3.
    change (Z.of_nat 0) with 0 in K0. change (Z.of_nat 1) with 1 in K1.
    change (Z.of_nat 2) with 2 in K2. change (Z.of_nat 3) with 3 in K3.
    rewrite K0, K1, K2, K3. reflexivity.
  - intros x Hx. cbn [ROM set_pc]. apply Hout. simpl length. lia.
Qed.

Lemma hex4_data_reads_back_witness :
  let st := set_Pass 20 (set_pc 4096 (start_state 0)) in
  exists st', ParseHex4Data " $12AB+1" st = Ok ""%string st'
    /\ map (ROM st') [4096; 4097; 4098; 4099] = [49; 50; 65; 67].
Proof.
  intros st.
  destruct (hex4_data_reads_back st " $12AB+1" "" 4780 st)
    as (st' & E & _); [reflexivity | reflexivity | vm_compute; discriminate
                      | vm_compute; discriminate |].
  exists st'. split; [exact E|].
  vm_compute in E. inversion E. reflexivity.
Defined.

(** ** .FILL *)

(** X10.  [.FILL m (v)] with [0 <= m <= 32767] moves the program counter on
    by [m]; in the final pass it stores the byte [v & 0xff] at each of the
    [m] addresses from the program counter on and at no other address, in
    a pass before the final one it stores nothing. *)
Theorem fill_data_bytes st p q m q1 r v s1 s2 :
  EvalOperand p 0 st = Ok (q, m) s1 -> 0 <= m <= 32767 ->
  strchr q "(" = Some q1 ->
  EvalOperand (tail q1) 0 s1 = Ok (r, v) s2 ->
  (final_pass st = true -> 0 <= pc st -> pc st + m <= ROM_SIZE ->
   exists st', ParseFillData p st = Ok r st'
     /\ pc st' = pc st + m
     /\ forall x, ROM st' x
          = if (pc st <=? x) && (x <? pc st + m) then Z.land v 0xff
            else ROM st x)
  /\ (final_pass st = false ->
      ParseFillData p st = Ok r (set_pc (pc st + m) s2)).
Proof.
  intros H1 Hm Hq H2.
  pose proof (EvalOperand_only _ _ _ _ _ H1) as O1.
  pose proof (EvalOperand_only _ _ _ _ _ H2) as O2.
  assert (Hp : pc s2 = pc st) by (rewrite O2, O1; reflexivity).
  assert (Hr : ROM s2 = ROM st) by (rewrite O2, O1; reflexivity).
  assert (Hf : final_pass s2 = final_pass st)
    by (unfold final_pass; rewrite O2, O1; reflexivity).
  assert (Hc : (m <? 0) || (32767 <? m) = false).
  { apply orb_false_iff. split; apply Z.ltb_ge; lia. }
  assert (Hl : Z.of_nat (length (replicate (Z.to_nat m) (Z.land v 0xff))) = m)
    by (rewrite length_replicate; lia).
  assert (Hu : forall s3, emit_raw (replicate (Z.to_nat m) (Z.land v 0xff)) s2
                          = Ok tt s3 ->
               ParseFillData p st = Ok r s3).
  { intros s3 He. unfold ParseFillData. step H1. rewrite Hc, Hq.
    step H2. step He. reflexivity. }
  split.
  - intros F H0 Hb. rewrite <- Hp in H0, Hb.
    destruct (store_bytes_run (replicate (Z.to_nat m) (Z.land v 0xff))
                (pc s2) s2 H0) as [s3 Hs]; [lia|].
    destruct (store_bytes_ROM _ _ _ _ _ Hs) as (E & Hin & Hout).
    exists (set_pc (pc s2 + m) s3). split; [|split].
    + apply Hu. unfold emit_raw. step (get_run s2). rewrite Hf, F.
      cbn [when_]. step Hs. rewrite Hl. reflexivity.
    + cbn [pc set_pc]. rewrite Hp. reflexivity.
    + intros x. cbn [ROM set_pc]. rewrite <- Hp, <- Hr.
      destruct (Z.leb_spec (pc s2) x) as [L1|L1];
        [destruct (Z.ltb_spec x (pc s2 + m)) as [L2|L2]|]; cbn [andb].
      * replace x with (pc s2 + Z.of_nat (Z.to_nat (x - pc s2))) by lia.
        rewrite (Hin _ (Z.land v 0xff)); [apply land_byte_idem|].
        apply lookup_replicate. split; [reflexivity | lia].
      * apply Hout. lia.
      * apply Hout. lia.
  - intros F. apply Hu. unfold emit_raw. step (get_run s2). rewrite Hf, F.
    cbn [when_]. unfold mret at 1, M_ret at 1.
    unfold mbind, M_bind, modify. rewrite Hl, Hp. reflexivity.
Qed.

Lemma fill_data_bytes_witness :
  let st := set_Pass 20 (set_pc 4096 (start_state 0)) in
  exists st', ParseFillData " 3 ($EA)" st = Ok ")"%string st'
    /\ pc st' = 4099
    /\ map (ROM st') [4095; 4096; 4097; 4098; 4099] = [0; 234; 234; 234; 0].
Proof.
  intros st.
  destruct (fill_data_bytes st " 3 ($EA)" "($EA)" 3 "($EA)" ")" 234 st st)
    as [H _]; [reflexivity | lia | reflexivity | reflexivity |].
  destruct H as (st' & E & P & R);
    [reflexivity | vm_compute; discriminate | vm_compute; discriminate |].
  exists st'. split; [exact E|]. split; [exact P|].
  cbn [map]. rewrite !R. reflexivity.
Defined.

(** ** Conditional assembly: the lines of a false condition *)

Lemma same_but_line_refl st : same_but_line st st.
Proof. unfold same_but_line. destruct st; reflexivity. Qed.

Lemma same_but_line_trans s1 s2 s3 :
  same_but_line s1 s2 -> same_but_line s2 s3 -> same_but_line s1 s3.
Proof.
  unfold same_but_line. intros H1 H2. rewrite H2 at 1. rewrite H1 at 1.
  reflexivity.
Qed.

Lemma line_start_same l st : same_but_line st (line_start l st).
Proof. reflexivity. Qed.

Lemma skipped_line l st :
  Skipping st = true -> plain_line l = true ->
  next_line l st = Ok tt (line_start l st).
Proof.
  intros Hs Hp. unfold next_line, ParseLine, CheckCondition.
  unfold plain_line in Hp. rewrite Hp.
  unfold modify, mbind, M_bind, mret, M_ret, get. cbn beta iota.
  change (Skipping (set_Operand _ _)) with (Skipping st). rewrite Hs.
  reflexivity.
Qed.

Lemma Pass1_loop_skipped rest : forall body st,
  Skipping st = true -> ForcedEnd st = false ->
  Forall (fun l => plain_line l = true) body ->
  exists st1, Pass1_loop (body ++ rest) st = Pass1_loop rest st1
              /\ same_but_line st st1.
Proof.
  induction body as [|l body IH]; intros st Hs Hf Hb.
  - exists st. split; [reflexivity | apply same_but_line_refl].
  - inversion Hb as [|? ? Hl Hb']; subst.
    destruct (IH (line_start l st)) as (st1 & E & S1);
      [exact Hs | exact Hf | exact Hb' |].
    exists st1. split.
    + cbn [app Pass1_loop]. step (skipped_line l st Hs Hl).
      step (get_run (line_start l st)).
      change (ForcedEnd (line_start l st)) with (ForcedEnd st). rewrite Hf.
      exact E.
    + eapply same_but_line_trans; [apply line_start_same | exact S1].
Qed.

Lemma skip_level_set (sl : list bool) n :
  (S n < length sl)%nat ->
  existsb (fun b => b) (take (S n) (drop 1 (<[S n := true]> sl))) = true
  /\ take n (drop 1 (<[S n := true]> sl)) = take n (drop 1 sl).
Proof.
  intros H. destruct sl as [|b sl]; [simpl in H; lia|].
  simpl in H. cbn [drop]. change (<[S n := true]> (b :: sl))
    with (b :: <[n := true]> sl). cbn [drop]. rewrite !drop_0. split.
  - apply existsb_exists. exists true. split; [|reflexivity].
    apply list_elem_of_In. apply list_elem_of_lookup. exists n.
    rewrite lookup_take_lt by lia. apply list_lookup_insert_eq. lia.
  - apply take_insert_ge. lia.
Qed.


Lemma endif_check s :
  0 < IfLevel s ->
  CheckCondition "#endif" s
  = Ok true (set_Skipping
               (existsb (fun b => b)
                  (take (Z.to_nat (IfLevel s - 1)) (drop 1 (SkipLine s))))
               (set_IfLevel (IfLevel s - 1) s)).
Proof.
  intros H. unfold CheckCondition.
  change (negb (ceq (peek "#endif") "#")) with false. cbn beta iota.
  change (SkipSpace (tail "#endif")) with "endif"%string.
  step (get_run s).
  change (keyword "error" "endif") with false.
  change (keyword "ifdef " "endif") with false.
  change (keyword "if " "endif") with false.
  change (keyword "else" "endif") with false.
  cbn [andb orb]. unfold check_endif.
  change (keyword "endif" "endif") with true.
  change (end_or_space (default NUL (at_ "endif" 5))) with true.
  cbn [andb].
  step (eq_refl : modify (fun s0 => set_IfLevel (IfLevel s0 - 1) s0) s
                  = Ok tt (set_IfLevel (IfLevel s - 1) s)).
  step (get_run (set_IfLevel (IfLevel s - 1) s)).
  change (IfLevel (set_IfLevel (IfLevel s - 1) s)) with (IfLevel s - 1).
  replace (IfLevel s - 1 <? 0) with false
    by (symmetry; apply Z.ltb_ge; lia).
  unfold CheckSkip.
  step (eq_refl : modify (fun s0 => set_Skipping
             (existsb (fun b => b)
                (take (Z.to_nat (IfLevel s0)) (drop 1 (SkipLine s0)))) s0)
             (set_IfLevel (IfLevel s - 1) s)
          = Ok tt (set_Skipping
             (existsb (fun b => b)
                (take (Z.to_nat (IfLevel s - 1)) (drop 1 (SkipLine s))))
             (set_IfLevel (IfLevel s - 1) s))).
  reflexivity.
Qed.

Lemma next_line_directive l st s' :
  CheckCondition (SkipSpace (SkipHexCode l)) (line_start l st) = Ok true s' ->
  next_line l st = Ok tt s'.
Proof.
  intros H. unfold next_line.
  step (eq_refl : modify (fun s => set_Line l (set_TotalLiNo (TotalLiNo s + 1)
                     (set_LiNo (LiNo s + 1) s))) st
           = Ok tt (set_Line l (set_TotalLiNo (TotalLiNo st + 1)
                     (set_LiNo (LiNo st + 1) st)))).
  unfold ParseLine.
  step (eq_refl : modify (fun s => set_Operand EmptyString (set_Label EmptyString
                     (set_oc (-1) (set_am (-1) s))))
                    (set_Line l (set_TotalLiNo (TotalLiNo st + 1)
                     (set_LiNo (LiNo st + 1) st)))
           = Ok tt (line_start l st)).
  cbv zeta. step H. reflexivity.
Qed.

Lemma endif_line st :
  0 < IfLevel st ->
  next_line "#endif" st
  = Ok tt (set_Skipping
             (existsb (fun b => b)
                (take (Z.to_nat (IfLevel st - 1)) (drop 1 (SkipLine st))))
             (set_IfLevel (IfLevel st - 1) (line_start "#endif" st))).
Proof.
  intros H. apply next_line_directive.
  change (SkipSpace (SkipHexCode "#endif")) with "#endif"%string.
  rewrite (endif_check (line_start "#endif" st) H).
  reflexivity.
Qed.

Lemma if_false_check e s q v s1 :
  0 <= IfLevel s < 9 -> length (SkipLine s) = 10%nat ->
  EvalOperand e 0 (set_IfLevel (IfLevel s + 1) s) = Ok (q, v) s1 ->
  v = 0 \/ v = UNDEF ->
  keyword "endif" q && end_or_space (default NUL (at_ q 5)) = false ->
  CheckCondition ("#if " +:+ e) s
  = Ok true (set_Skipping true
               (set_SkipLine (<[S (Z.to_nat (IfLevel s)) := true]> (SkipLine s))
                  s1)).
Proof.
  intros Hn Hl He Hv Hq.
  pose proof (EvalOperand_only _ _ _ _ _ He) as O1.
  assert (Hn1 : Z.to_nat (IfLevel s + 1) = S (Z.to_nat (IfLevel s))) by lia.
  destruct (skip_level_set (SkipLine s) (Z.to_nat (IfLevel s))) as [K1 _];
    [lia|].
  assert (L1 : IfLevel s1 = IfLevel s + 1) by (rewrite O1; reflexivity).
  assert (L2 : SkipLine s1 = SkipLine s) by (rewrite O1; reflexivity).
  unfold CheckCondition.
  change (negb (ceq (peek ("#if " +:+ e)) "#")) with false. cbn beta iota.
  change (SkipSpace (tail ("#if " +:+ e))) with ("if " +:+ e)%string.
  step (get_run s).
  change (keyword "error" ("if " +:+ e)) with false.
  change (keyword "ifdef " ("if " +:+ e)) with false.
  replace (keyword "if " ("if " +:+ e)) with true
    by (destruct e; reflexivity).
  cbn [andb orb].
  step (eq_refl : modify (set_IfLevel (IfLevel s + 1)) s
                  = Ok tt (set_IfLevel (IfLevel s + 1) s)).
  replace (9 <? IfLevel s + 1) with false by (symmetry; apply Z.ltb_ge; lia).
  step (eq_refl : inside (adv 3 ("if " +:+ e))
                    (set_IfLevel (IfLevel s + 1) s)
                  = Ok e (set_IfLevel (IfLevel s + 1) s)).
  step He.
  replace ((v =? UNDEF) || (v =? 0)) with true
    by (destruct Hv as [-> | ->]; reflexivity).
  unfold set_skip.
  step (eq_refl : modify (fun s0 => set_SkipLine
                    (<[Z.to_nat (IfLevel s0) := true]> (SkipLine s0)) s0) s1
                  = Ok tt (set_SkipLine
                    (<[Z.to_nat (IfLevel s1) := true]> (SkipLine s1)) s1)).
  rewrite L1, L2, Hn1. unfold CheckSkip.
  step (eq_refl : modify (fun s0 => set_Skipping
             (existsb (fun b => b)
                (take (Z.to_nat (IfLevel s0)) (drop 1 (SkipLine s0)))) s0)
             (set_SkipLine (<[S (Z.to_nat (IfLevel s)) := true]> (SkipLine s)) s1)
          = Ok tt (set_Skipping
             (existsb (fun b => b)
                (take (Z.to_nat (IfLevel s1))
                   (drop 1 (<[S (Z.to_nat (IfLevel s)) := true]> (SkipLine s)))))
             (set_SkipLine (<[S (Z.to_nat (IfLevel s)) := true]> (SkipLine s)) s1))).
  rewrite L1, Hn1.
  replace (existsb _ _) with true by (symmetry; exact K1).
  unfold check_endif. rewrite Hq. reflexivity.
Qed.

(** X11.  A block [#if e] ... [#endif] whose condition has the value 0 or
    is undefined assembles none of its lines: whatever the lines between
    the two directives hold (directives of the conditional assembly
    apart), behind the [#endif] the program counter, the image and the BSS
    pointer are as before the [#if], the symbol table is as the evaluation
    of the condition left it, and the nesting level and the skip state are
    those of the enclosing block. *)
Theorem false_condition_skips_block st e q v s1 body :
  0 <= IfLevel st < 9 -> length (SkipLine st) = 10%nat ->
  ForcedEnd st = false ->
  SkipHexCode ("#if " +:+ e) = ("#if " +:+ e)%string ->
  EvalOperand e 0
    (set_IfLevel (IfLevel st + 1) (line_start ("#if " +:+ e) st))
    = Ok (q, v) s1 ->
  v = 0 \/ v = UNDEF ->
  keyword "endif" q && end_or_space (default NUL (at_ q 5)) = false ->
  Forall (fun l => plain_line l = true) body ->
  exists st',
    Pass1_loop (("#if " +:+ e)%string :: body ++ ["#endif"%string]) st
    = Ok tt st'
    /\ pc st' = pc st /\ ROM st' = ROM st /\ bss st' = bss st
    /\ lab st' = lab s1
    /\ IfLevel st' = IfLevel st
    /\ Skipping st'
       = existsb (fun b => b)
           (take (Z.to_nat (IfLevel st)) (drop 1 (SkipLine st))).
Proof.
  intros Hn Hl Hf Hh He Hv Hq Hb.
  pose proof (EvalOperand_only _ _ _ _ _ He) as O1.
  set (n := Z.to_nat (IfLevel st)).
  destruct (skip_level_set (SkipLine st) n) as [_ K2]; [unfold n; lia|].
  set (sA := set_Skipping true
               (set_SkipLine (<[S n := true]> (SkipLine st)) s1)).
  assert (EA : next_line ("#if " +:+ e) st = Ok tt sA).
  { apply next_line_directive. rewrite Hh.
    change (SkipSpace ("#if " +:+ e)) with ("#if " +:+ e)%string.
    apply (if_false_check e (line_start ("#if " +:+ e) st) q v s1
             Hn Hl He Hv Hq). }
  assert (FA : ForcedEnd sA = false)
    by (unfold sA; rewrite O1; exact Hf).
  destruct (Pass1_loop_skipped ["#endif"%string] body sA eq_refl FA Hb)
    as (sB & EB & SB).
  assert (LB : IfLevel sB = IfLevel st + 1)
    by (rewrite SB; unfold sA; rewrite O1; reflexivity).
  assert (KB : SkipLine sB = <[S n := true]> (SkipLine st))
    by (rewrite SB; reflexivity).
  assert (FB : ForcedEnd sB = false) by (rewrite SB; exact FA).
  assert (PB : pc sB = pc st /\ ROM sB = ROM st /\ bss sB = bss st
               /\ lab sB = lab s1).
  { rewrite SB. unfold sA. repeat split; rewrite O1; reflexivity. }
  destruct PB as (P1 & P2 & P3 & P4).
  eexists. split.
  - cbn [Pass1_loop]. step EA. step (get_run sA). rewrite FA.
    rewrite EB. cbn [Pass1_loop]. step (endif_line sB ltac:(lia)).
    match goal with |- (get ≫= _) ?s = _ => step (get_run s) end.
    match goal with |- context [ForcedEnd ?s] =>
      change (ForcedEnd s) with (ForcedEnd sB) end.
    rewrite FB. reflexivity.
  - match goal with |- pc ?s = _ /\ _ =>
      change (pc s) with (pc sB); change (ROM s) with (ROM sB);
      change (bss s) with (bss sB); change (lab s) with (lab sB);
      change (IfLevel s) with (IfLevel sB - 1);
      change (Skipping s)
        with (existsb (fun b => b)
                (take (Z.to_nat (IfLevel sB - 1)) (drop 1 (SkipLine sB))))
    end.
    rewrite LB, KB.
    replace (Z.to_nat (IfLevel st + 1 - 1)) with n by (unfold n; lia).
    rewrite K2. repeat split; try assumption. lia.
Qed.

Lemma false_condition_skips_block_witness :
  let st := set_pc 4096 (start_state 0) in
  exists st',
    Pass1_loop ["#if 0"; " LDA #1"; "this is not assembled"; "#endif"]%string st
    = Ok tt st'
    /\ pc st' = 4096 /\ lab st' = [] /\ Skipping st' = false.
Proof.
  intros st.
  edestruct (false_condition_skips_block st "0" "" 0)
    with (body := [" LDA #1"; "this is not assembled"]%string)
    as (st' & E & P & _ & _ & L & _ & S);
    [ vm_compute; split; [discriminate | reflexivity]
    | reflexivity | reflexivity | reflexivity
    | vm_compute; reflexivity
    | left; reflexivity | reflexivity
    | repeat constructor | ].
  exists st'. split; [exact E|]. split; [exact P|]. split; [exact L | exact S].
Defined.

(** ** String literals in data lines *)

Lemma append_length s t :
  String.length (s +:+ t) = (String.length s + String.length t)%nat.
Proof.
  induction s as [|c s IH]; [reflexivity|].
  change (String c s +:+ t) with (String c (s +:+ t)).
  cbn [String.length]. rewrite IH. reflexivity.
Qed.

Lemma ParseASCII_loop_plain d rest st : forall s n b,
  plain_text d s = true -> (String.length s <= n)%nat ->
  Z.of_nat (length b) + Z.of_nat (String.length s) <= 255 ->
  ceq (peek rest) d = false ->
  ParseASCII_loop n d (s +:+ String d rest) b st
  = Ok (String d rest, b ++ map chr (chars s)) st.
Proof.
  induction s as [|c s IH]; intros n b Hp Hn Hb Hr.
  - change (EmptyString +:+ String d rest) with (String d rest).
    destruct n; cbn [ParseASCII_loop]; unfold ceq at 1;
      rewrite Ascii.eqb_refl; cbn [negb orb]; rewrite Hr; cbn [andb];
      rewrite app_nil_r; reflexivity.
  - unfold plain_text in Hp. cbn [chars String.list_ascii_of_string forallb] in Hp.
    apply andb_true_iff in Hp. destruct Hp as [Hc Hs].
    apply andb_true_iff in Hc. destruct Hc as [Hc H4].
    apply andb_true_iff in Hc. destruct Hc as [Hc H3].
    apply andb_true_iff in Hc. destruct Hc as [H1 H2].
    apply negb_true_iff in H2, H3.
    cbn [String.length] in Hn, Hb. destruct n as [|n]; [lia|].
    change (String c s +:+ String d rest)
      with (String c (s +:+ String d rest)).
    cbn [ParseASCII_loop]. rewrite H1. cbn [orb andb].
    replace (Z.of_nat (length b) <? ML - 1) with true
      by (symmetry; apply Z.ltb_lt; unfold ML; lia).
    rewrite H2, H3. cbn [andb].
    rewrite (IH n (b ++ [chr c])); [| exact Hs | lia | | exact Hr].
    + rewrite <- app_assoc. reflexivity.
    + rewrite length_app. cbn [length]. lia.
Qed.

Lemma ParseASCII_plain d s rest b st :
  plain_text d s = true -> ceq d NUL = false ->
  Z.of_nat (length b) + Z.of_nat (String.length s) <= 255 ->
  ceq (peek rest) d = false -> ceq (peek rest) "^" = false ->
  starts_with "+$80" rest = false ->
  ParseASCII (String d (s +:+ String d rest)) b st
  = Ok (rest, b ++ map chr (chars s)) st.
Proof.
  intros Hp Hd Hb H1 H2 H3. unfold ParseASCII.
  rewrite (bind_eq _ _ _ _ _
             (ParseASCII_loop_plain d rest st s
                (String.length (s +:+ String d rest)) b Hp
                ltac:(rewrite append_length; lia) Hb H1)).
  cbn beta iota. cbn [peek tail]. rewrite Hd.
  change (ceq d d) with (Ascii.eqb d d). rewrite Ascii.eqb_refl. cbn [negb andb]. rewrite H2.
  step (eq_refl : (mret (rest, b ++ map chr (chars s)) : M (string * list Z)) st
                  = Ok (rest, b ++ map chr (chars s)) st).
  rewrite H3. reflexivity.
Qed.

Lemma isspace_more c r : isspace c = true -> more_data (String c r) = true.
Proof.
  destruct c as [[] [] [] [] [] [] [] []]; try discriminate; reflexivity.
Qed.

Lemma emit_data_run buf st :
  (final_pass st = true ->
   0 <= pc st /\ pc st + Z.of_nat (length buf) <= ROM_SIZE) ->
  exists st', emit_data buf st = Ok tt st'
    /\ pc st' = pc st + Z.of_nat (length buf)
    /\ (final_pass st = true -> forall k b, buf !! k = Some b ->
          ROM st' (pc st + Z.of_nat k) = Z.land b 0xff)
    /\ (forall x, x < pc st \/ pc st + Z.of_nat (length buf) <= x ->
          ROM st' x = ROM st x)
    /\ (final_pass st = false -> ROM st' = ROM st).
Proof.
  intros Hr. unfold emit_data, set_lengths.
  match goal with |- context [modify ?f] =>
    step (eq_refl : modify f st = Ok tt (f st)) end.
  match goal with |- exists _, (get ≫= _) ?s = _ /\ _ =>
    step (get_run s); set (s1 := s) end.
  assert (P1 : pc s1 = pc st) by reflexivity.
  assert (R1 : ROM s1 = ROM st) by reflexivity.
  assert (F1 : final_pass s1 = final_pass st) by reflexivity.
  rewrite F1. destruct (final_pass st) eqn:F; cbn [when_].
  - destruct (Hr eq_refl) as [H0 Hb].
    destruct (store_bytes_run buf (pc s1) s1) as [s2 Hs];
      [rewrite P1; exact H0 | rewrite P1; exact Hb |].
    destruct (store_bytes_ROM _ _ _ _ _ Hs) as (E & Hin & Hout).
    step Hs. eexists. split; [reflexivity|]. cbn [pc ROM set_pc].
    rewrite P1 in *. rewrite R1 in *.
    split; [reflexivity|]. split; [intros _; exact Hin|].
    split; [exact Hout | discriminate].
  - eexists. split; [reflexivity|]. cbn [pc ROM set_pc].
    rewrite P1, R1. split; [reflexivity|]. split; [discriminate|].
    split; [reflexivity | reflexivity].
Qed.

(** X12.  A data line ([.BYTE], [.PET], [.DISP]) that holds one string
    literal in quotes or apostrophes, of plain characters, takes one byte
    for each character: the program counter moves on by the length of the
    text in every pass, and in the final pass the bytes stored from the
    program counter on are the character codes, recoded for the character
    set of the directive; no other address of the image changes.  An
    empty literal alone ends the run (missing byte data). *)
Theorem string_literal_bytes st p d s rest cs :
  SkipSpace p = String d (s +:+ String d rest) ->
  d = DQUOTE \/ d = APOSTROPHE ->
  plain_text d s = true -> (String.length s <= 255)%nat ->
  ceq (peek rest) d = false -> ceq (peek rest) "^" = false ->
  starts_with "+$80" rest = false ->
  more_data (next_item rest) = false ->
  (s = EmptyString -> ParseByteData p cs st = Exit)
  /\ (s <> EmptyString ->
      (final_pass st = true ->
       0 <= pc st /\ pc st + Z.of_nat (String.length s) <= ROM_SIZE) ->
      exists st',
        ParseByteData p cs st = Ok (next_item rest) st'
        /\ pc st' = pc st + Z.of_nat (String.length s)
        /\ (final_pass st = true -> forall k b,
              recode cs 0 (map chr (chars s)) !! k = Some b ->
              ROM st' (pc st + Z.of_nat k) = Z.land b 0xff)
        /\ (forall x,
              x < pc st \/ pc st + Z.of_nat (String.length s) <= x ->
              ROM st' x = ROM st x)
        /\ (final_pass st = false -> ROM st' = ROM st)).
Proof.
  intros Hp Hd Hs Hl H1 H2 H3 Hm.
  assert (Dn : ceq d NUL = false) by (destruct Hd as [-> | ->]; reflexivity).
  assert (Mp : more_data p = true).
  { destruct p as [|a p']; [discriminate Hp|].
    destruct (isspace a) eqn:Ea; [apply isspace_more, Ea|].
    cbn [SkipSpace] in Hp. rewrite Ea in Hp. inversion Hp; subst a.
    destruct Hd as [-> | ->]; reflexivity. }
  assert (Item : byte_item p cs [] st
                 = Ok (next_item rest, recode cs 0 (map chr (chars s))) st).
  { unfold byte_item. cbv zeta. rewrite Hp.
    assert (Fm : byte_form_of (String d (s +:+ String d rest)) st
                 = Ok Quoted st).
    { destruct Hd as [-> | ->]; reflexivity. }
    assert (Qu : quoted (String d (s +:+ String d rest)) cs [] st
                 = Ok (rest, recode cs 0 (map chr (chars s))) st).
    { unfold quoted.
      rewrite (bind_eq _ _ _ _ _
                 (ParseASCII_plain d s rest [] st Hs Dn ltac:(simpl; lia)
                    H1 H2 H3)).
      reflexivity. }
    step Fm. step Qu. reflexivity. }
  assert (Loop : ParseByteData_loop (String.length p) p cs [] st
                 = Ok (next_item rest, recode cs 0 (map chr (chars s))) st).
  { pose proof (more_data_length p Mp) as Ln.
    destruct (String.length p) as [|n]; [lia|].
    cbn [ParseByteData_loop]. rewrite Mp. step Item.
    destruct n; cbn [ParseByteData_loop]; rewrite Hm; reflexivity. }
  assert (Len : length (recode cs 0 (map chr (chars s))) = String.length s).
  { unfold recode. rewrite take_0, drop_0. cbn [app].
    rewrite !length_map. unfold chars.
    clear. induction s as [|c s IH]; [reflexivity|]. simpl. rewrite IH.
    reflexivity. }
  split.
  - intros ->. unfold ParseByteData. step Loop. reflexivity.
  - intros Hne Hr. rewrite <- Len in Hr |- *.
    destruct (emit_data_run _ st Hr) as (st' & E & P & B & O & N).
    exists st'. split; [|auto].
    unfold ParseByteData. step Loop.
    replace (Z.of_nat (length (recode cs 0 (map chr (chars s)))) <? 1)
      with false.
    + step E. reflexivity.
    + symmetry. apply Z.ltb_ge. rewrite Len.
      destruct s; [contradiction|]. simpl. lia.
Qed.

Lemma string_literal_bytes_witness :
  let st := set_Pass 20 (set_pc 4096 (start_state 0)) in
  exists st',
    ParseByteData " 'Hi' ; text" PETSCII st = Ok "; text"%string st'
    /\ pc st' = 4098
    /\ map (ROM st') [4096; 4097] = [200; 73].
Proof.
  intros st.
  destruct (string_literal_bytes st " 'Hi' ; text" APOSTROPHE "Hi" " ; text"
              PETSCII eq_refl (or_intror eq_refl) eq_refl
              ltac:(simpl; lia) eq_refl eq_refl eq_refl eq_refl)
    as [_ H].
  destruct H as (st' & E & P & B & _);
    [discriminate | intros _; vm_compute; split; discriminate |].
  exists st'. split; [exact E|]. split; [exact P|].
  pose proof (B eq_refl 0%nat 200 eq_refl) as B0.
  pose proof (B eq_refl 1%nat 73 eq_refl) as B1.
  change (pc st + Z.of_nat 0) with 4096 in B0.
  change (pc st + Z.of_nat 1) with 4097 in B1.
  cbn [map]. rewrite B0, B1. reflexivity.
Defined.

(** ** .BITS and .LITS *)

Lemma mirrored_zero : mirrored 0 0 0.
Proof.
  intros i Hi. rewrite Z.bits_0.
  destruct (Z.leb_spec (8 - 0) i), (Z.ltb_spec i 8); try reflexivity; lia.
Qed.

Lemma mirrored_step k v w (b : bool) :
  0 <= k < 8 -> mirrored k v w ->
  mirrored (k + 1)
    (if b then Z.lor (v * 2) 1 else v * 2)
    (if b then Z.lor (Z.shiftr w 1) 128 else Z.shiftr w 1).
Proof.
  intros Hk M i Hi.
  assert (W : Z.testbit (if b then Z.lor (Z.shiftr w 1) 128 else Z.shiftr w 1) i
              = Z.testbit w (i + 1) || (b && (i =? 7))).
  { destruct b; rewrite ?Z.lor_spec, Z.shiftr_spec by lia.
    - f_equal. change 128 with (2 ^ 7). rewrite Z.pow2_bits_eqb by lia.
      cbn [andb]. apply Z.eqb_sym.
    - cbn [andb]. rewrite orb_false_r. reflexivity. }
  assert (V : Z.testbit (if b then Z.lor (v * 2) 1 else v * 2) (7 - i)
              = if 7 - i =? 0 then b
                else if 7 - i <? 0 then false else Z.testbit v (6 - i)).
  { replace (v * 2) with (Z.shiftl v 1)
      by (rewrite Z.shiftl_mul_pow2 by lia; reflexivity).
    destruct (Z.eqb_spec (7 - i) 0) as [E|E].
    - rewrite E. destruct b; rewrite ?Z.lor_spec, Z.shiftl_spec by lia;
        change (0 - 1) with (-1); rewrite Z.testbit_neg_r by lia; reflexivity.
    - destruct (Z.ltb_spec (7 - i) 0) as [L|L].
      + apply Z.testbit_neg_r. exact L.
      + replace (6 - i) with (7 - i - 1) by lia.
        destruct b; rewrite ?Z.lor_spec, Z.shiftl_spec by lia.
        * change 1 with (2 ^ 0) at 2. rewrite Z.pow2_bits_eqb by lia.
          replace (0 =? 7 - i) with false by (symmetry; apply Z.eqb_neq; lia).
          apply orb_false_r.
        * reflexivity. }
  rewrite W, V, (M (i + 1)) by lia.
  replace (7 - (i + 1)) with (6 - i) by lia.
  destruct (Z.eqb_spec i 7), (Z.eqb_spec (7 - i) 0),
    (Z.leb_spec (8 - k) (i + 1)), (Z.leb_spec (8 - (k + 1)) i),
    (Z.ltb_spec (i + 1) 8), (Z.ltb_spec i 8), (Z.ltb_spec (7 - i) 0);
    try lia; cbn; rewrite ?andb_false_r, ?orb_false_r, ?andb_true_r;
    try reflexivity.
Qed.

Lemma bits_loop_mirror n : forall k v w p st q v' st',
  0 <= k -> k + Z.of_nat n <= 8 -> mirrored k v w ->
  bits_loop n true v p st = Ok (q, v') st' ->
  exists w', bits_loop n false w p st = Ok (q, w') st'
             /\ mirrored (k + Z.of_nat n) v' w'.
Proof.
  induction n as [|n IH]; intros k v w p st q v' st' Hk Hn M H.
  - cbn [bits_loop] in H. inv_Ok H. inv_pairs.
    exists w. split; [reflexivity|]. rewrite Z.add_0_r. exact M.
  - cbn [bits_loop] in H |- *.
    destruct (adv 1 p) as [p1|] eqn:Ea; [|discriminate H].
    cbn [inside] in H |- *.
    rewrite (bind_eq _ _ st p1 st eq_refl) in H.
    rewrite (bind_eq _ _ st p1 st eq_refl).
    cbn beta iota zeta in H |- *.
    replace (k + Z.of_nat (S n)) with (k + 1 + Z.of_nat n) by lia.
    destruct (ceq (peek (SkipSpace p1)) "*") eqn:Es.
    + apply (IH (k + 1) _ (Z.lor (Z.shiftr w 1) 128)) in H; [exact H|lia|lia|].
      apply (mirrored_step k v w true); [lia | exact M].
    + destruct (negb (ceq (peek (SkipSpace p1)) ".")); [discriminate H|].
      apply (IH (k + 1) _ (Z.shiftr w 1)) in H; [exact H|lia|lia|].
      apply (mirrored_step k v w false); [lia | exact M].
Qed.

Lemma emit_raw_byte v st r st' :
  emit_raw [v] st = Ok r st' ->
  pc st' = pc st + 1
  /\ (final_pass st = true -> ROM st' (pc st) = Z.land v 0xff)
  /\ forall w, exists st2, emit_raw [w] st = Ok tt st2
       /\ pc st2 = pc st + 1
       /\ (final_pass st = true -> ROM st2 (pc st) = Z.land w 0xff).
Proof.
  unfold emit_raw. intros H.
  rewrite (bind_eq _ _ _ _ _ (get_run st)) in H. cbn beta iota in H.
  destruct (final_pass st) eqn:F; cbn [when_] in H.
  - apply bind_Ok in H. destruct H as (u & s1 & Hs & H).
    cbn [store_bytes] in Hs. apply bind_Ok in Hs.
    destruct Hs as (u1 & s2 & Hs & Hr).
    unfold mret, M_ret in Hr. inversion Hr; subst u s1; clear Hr.
    unfold store in Hs.
    destruct ((0 <=? pc st) && (pc st <? ROM_SIZE)) eqn:Er;
      [|discriminate Hs].
    inversion Hs; subst u1 s2; clear Hs.
    unfold modify in H. inversion H; subst r st'; clear H.
    split; [reflexivity|]. split; [intros _; cbn; apply rom_set_same|].
    intros w. step (get_run st). rewrite F. cbn [when_ store_bytes].
    unfold store. rewrite Er. eexists. split; [reflexivity|].
    split; [reflexivity|]. intros _. cbn. apply rom_set_same.
  - unfold mret at 1, M_ret at 1 in H. unfold mbind, M_bind, modify in H.
    inversion H; subst r st'; clear H.
    split; [reflexivity|]. split; [discriminate|].
    intros w. step (get_run st). rewrite F. cbn [when_].
    eexists. split; [reflexivity|]. split; [reflexivity | discriminate].
Qed.

(** X13.  [.LITS] is [.BITS] with the bits in the other order: where
    [.BITS] takes a pattern of eight [*] and [.], [.LITS] takes it too and
    leaves the same text; both move the program counter on by one, and in
    the final pass bit [i] of the byte that [.LITS] stores is bit [7 - i]
    of the byte that [.BITS] stores. *)
Theorem lits_mirrors_bits st p q st1 :
  ParseBitData p st = Ok q st1 ->
  exists st2,
    ParseLitData p st = Ok q st2
    /\ pc st1 = pc st + 1 /\ pc st2 = pc st + 1
    /\ (final_pass st = true -> forall i, 0 <= i < 8 ->
          Z.testbit (ROM st2 (pc st)) i
          = Z.testbit (ROM st1 (pc st)) (7 - i)).
Proof.
  unfold ParseBitData, ParseLitData. intros H.
  apply bind_Ok in H. destruct H as ([q1 v] & s1 & Hb & H).
  pose proof (bits_loop_same _ _ _ _ _ _ _ Hb) as ->.
  apply bind_Ok in H. destruct H as (u & s2 & He & H).
  unfold mret, M_ret in H. inversion H; subst q1 s2; clear H.
  destruct (bits_loop_mirror 8 0 0 0 p st q v st ltac:(lia) ltac:(lia)
              mirrored_zero Hb) as (w & Hl & M).
  destruct (emit_raw_byte v st u st1 He) as (P1 & R1 & Hw).
  destruct (Hw w) as (st2 & E2 & P2 & R2).
  exists st2. split; [|split; [exact P1|split; [exact P2|]]].
  - step Hl. step E2. reflexivity.
  - intros F i Hi. rewrite (R1 F), (R2 F), !Z.land_spec.
    change 0xff with (Z.ones 8). rewrite !Z.ones_spec_low by lia.
    rewrite !andb_true_r, (M i) by lia.
    replace (8 - (0 + Z.of_nat 8) <=? i) with true
      by (symmetry; apply Z.leb_le; lia).
    replace (i <? 8) with true by (symmetry; apply Z.ltb_lt; lia).
    reflexivity.
Qed.

Lemma lits_mirrors_bits_witness :
  let st := set_Pass 20 (set_pc 4096 (start_state 0)) in
  exists st1 st2,
    ParseBitData " **.....*" st = Ok "*"%string st1
    /\ ParseLitData " **.....*" st = Ok "*"%string st2
    /\ ROM st1 4096 = 193 /\ ROM st2 4096 = 131.
Proof.
  intros st.
  assert (E : exists st1, ParseBitData " **.....*" st = Ok "*"%string st1
                          /\ ROM st1 4096 = 193).
  { eexists. split; [vm_compute; reflexivity | reflexivity]. }
  destruct E as (st1 & E & R1).
  destruct (lits_mirrors_bits st " **.....*" "*" st1 E) as (st2 & L & _).
  exists st1, st2. split; [exact E|]. split; [exact L|]. split; [exact R1|].
  vm_compute in L. inversion L. reflexivity.
Defined.

(** ** The length of a data line *)

Lemma byte_number_grows d p buf st r st' :
  byte_number d p buf st = Ok r st' -> grows st st'.
Proof.
  unfold byte_number. intros H.
  apply bind_Ok in H. destruct H as ([q v] & s1 & He & H).
  apply EvalOperand_grows in He.
  rewrite (bind_eq _ _ _ _ _ (get_run s1)) in H. cbn beta iota in H.
  destruct ((v =? UNDEF) && final_pass s1); [discriminate H|].
  apply bind_Ok in H. destruct H as (b1 & s2 & P1 & H).
  apply push_app in P1. destruct P1 as [_ ->].
  destruct (_ && _ && _).
  - apply bind_Ok in H. destruct H as (b2 & s3 & P2 & H).
    apply push_app in P2. destruct P2 as [_ ->].
    unfold mret, M_ret in H. inversion H; subst. exact He.
  - unfold mret, M_ret in H. inversion H; subst. exact He.
Qed.

Lemma byte_item_grows p c buf st r st' :
  byte_item p c buf st = Ok r st' -> grows st st'.
Proof.
  unfold byte_item. intros H.
  apply bind_Ok in H. destruct H as (form & s1 & Hf & H).
  apply byte_form_of_same in Hf. subst s1.
  apply bind_Ok in H. destruct H as ([q b'] & s2 & Hi & H).
  unfold mret, M_ret in H. inversion H; subst r st'; clear H.
  destruct form.
  - apply packed_low_same in Hi. subst. apply grows_refl.
  - apply packed_high_same in Hi. subst. apply grows_refl.
  - apply hashed_same in Hi. subst. apply grows_refl.
  - apply quoted_same in Hi. subst. apply grows_refl.
  - eapply byte_number_grows, Hi.
Qed.

Lemma ParseByteData_loop_grows n : forall p c buf st r st',
  ParseByteData_loop n p c buf st = Ok r st' -> grows st st'.
Proof.
  induction n as [|n IH]; intros p c buf st r st' H;
    cbn [ParseByteData_loop] in H; destruct (more_data p).
  - discriminate H.
  - unfold mret, M_ret in H. inversion H; subst. apply grows_refl.
  - apply bind_Ok in H. destruct H as ([q b'] & s1 & Hi & H).
    apply byte_item_grows in Hi. apply IH in H.
    eapply grows_trans; eassumption.
  - unfold mret, M_ret in H. inversion H; subst. apply grows_refl.
Qed.

Lemma LabelIndex_from_map st p f : forall l i,
  (forall x, Name (f x) = Name x) ->
  LabelIndex_from st p (map f l) i = LabelIndex_from st p l i.
Proof.
  induction l as [|y l IH]; intros i Hf; [reflexivity|].
  cbn [map LabelIndex_from]. rewrite Hf, IH by exact Hf. reflexivity.
Qed.

Lemma emit_data_lengths buf st r st' j x :
  emit_data buf st = Ok r st' ->
  LabelIndex st (Name x) = Some j -> lab st !! j = Some x ->
  Address x = pc st ->
  st' = set_pc (pc st') (set_ROM (ROM st') (set_lab (lab st') st))
  /\ pc st' = pc st + Z.of_nat (length buf)
  /\ LabelIndex st' (Name x) = Some j
  /\ lab st' !! j = Some (set_Bytes (Z.of_nat (length buf)) x).
Proof.
  intros H HL Hx Ha. unfold emit_data, set_lengths in H.
  match type of H with context [modify ?f] =>
    rewrite (bind_eq _ _ _ _ _ (eq_refl : modify f st = Ok tt (f st))) in H
  end.
  cbn beta iota in H.
  match type of H with (get ≫= _) ?s = _ =>
    rewrite (bind_eq _ _ _ _ _ (get_run s)) in H; set (s1 := s) in *
  end.
  cbn beta iota in H.
  apply bind_Ok in H. destruct H as (u & s2 & Hs & H).
  unfold modify in H. inversion H; subst r st'; clear H.
  assert (E2 : s2 = set_ROM (ROM s2) s1).
  { destruct (final_pass s1); cbn [when_] in Hs.
    - apply store_bytes_ROM in Hs. apply Hs.
    - unfold mret, M_ret in Hs. inversion Hs. destruct s1; reflexivity. }
  assert (L2 : lab s2 = lab s1) by (rewrite E2; reflexivity).
  cbn [pc lab set_pc]. rewrite L2. split; [|split; [|split]].
  - rewrite E2 at 1. destruct st; reflexivity.
  - reflexivity.
  - unfold LabelIndex in *. cbn [lab set_pc]. rewrite L2.
    rewrite (LabelIndex_from_case st) by (rewrite E2; reflexivity).
    unfold s1. cbn [lab set_lab].
    rewrite LabelIndex_from_map; [exact HL|].
    intros y. destruct (Address y =? pc st); reflexivity.
  - unfold s1. cbn [lab set_lab]. rewrite list_lookup_fmap, Hx.
    cbn. rewrite Ha, Z.eqb_refl. reflexivity.
Qed.

(** X14.  A data line ([.BYTE], [.PET], [.DISP]) that returns has moved the
    program counter on by the number of bytes of the line, at least one,
    and has recorded this number as the length of each symbol whose address
    is the program counter of the line: behind the line the operand
    [?NAME] of such a symbol has this number as its value. *)
Theorem data_line_length st p cs r st' j x t q :
  ParseByteData p cs st = Ok r st' ->
  LabelIndex st (Name x) = Some j -> lab st !! j = Some x ->
  Address x = pc st ->
  GetSymbol st t = (Name x, q) ->
  1 <= pc st' - pc st
  /\ exists st'', EvalSymBytes t st' = Ok (q, pc st' - pc st) st''.
Proof.
  intros H HL Hx Ha HG. unfold ParseByteData in H.
  apply bind_Ok in H. destruct H as ([q1 buf] & s1 & Hl & H).
  destruct (Z.of_nat (length buf) <? 1) eqn:E1; [discriminate H|].
  apply bind_Ok in H. destruct H as (u & s2 & He & H).
  unfold mret, M_ret in H. inversion H; subst r s2; clear H.
  pose proof (ParseByteData_loop_grows _ _ _ _ _ _ _ Hl) as G.
  destruct G as [O G].
  destruct (G j x Hx) as (x1 & Hx1 & Hn & Had & _).
  assert (HL1 : LabelIndex s1 (Name x1) = Some j).
  { rewrite Hn. eapply LabelIndex_grows; [split; eassumption | exact HL]. }
  assert (P1 : pc s1 = pc st) by (rewrite O; reflexivity).
  destruct (emit_data_lengths buf s1 u st' j x1 He HL1 Hx1)
    as (E' & P' & L' & X'); [rewrite Had, P1; exact Ha|].
  rewrite P', P1.
  replace (pc st + Z.of_nat (length buf) - pc st)
    with (Z.of_nat (length buf)) by lia.
  split; [apply Z.ltb_ge in E1; exact E1|].
  assert (G' : GetSymbol st' t = (Name x1, q)).
  { rewrite Hn, <- HG. apply GetSymbol_scope; rewrite E', O; reflexivity. }
  assert (exists st'', SymRefs j st' = Ok tt st'') as [st'' HS].
  { unfold SymRefs, mbind, M_bind, get.
    destruct (negb (final_pass st')); eexists; reflexivity. }
  exists st''. unfold EvalSymBytes. step (get_run st'). rewrite G', L', X'.
  step HS. reflexivity.
Qed.

Lemma data_line_length_witness :
  let st := set_lab [mkLabel "msg" 4096 0 false false 0 [1] [0]]
              (set_pc 4096 (start_state 0)) in
  exists st' st'',
    ParseByteData " 1,2,'abc',$1234" ASCII st = Ok EmptyString st'
    /\ EvalSymBytes "msg" st' = Ok (EmptyString, 7) st''.
Proof.
  intros st.
  assert (E : exists st', ParseByteData " 1,2,'abc',$1234" ASCII st
                          = Ok EmptyString st' /\ pc st' = 4103).
  { eexists. split; [vm_compute; reflexivity | reflexivity]. }
  destruct E as (st' & E & P).
  destruct (data_line_length st " 1,2,'abc',$1234" ASCII "" st' 0
              (mkLabel "msg" 4096 0 false false 0 [1] [0]) "msg" ""
              E eq_refl eq_refl eq_refl eq_refl) as (_ & st'' & B).
  exists st', st''. split; [exact E|]. rewrite P in B. exact B.
Defined.

(** ** The comparison functions of the symbol listings *)

Ltac cmp_cases :=
  repeat match goal with
         | |- context [?a =? ?b] => destruct (Z.eqb_spec a b)
         | |- context [?a <? ?b] => destruct (Z.ltb_spec a b)
         | H : context [?a =? ?b] |- _ => destruct (Z.eqb_spec a b)
         | H : context [?a <? ?b] |- _ => destruct (Z.ltb_spec a b)
         end; try lia.

(** X15.  [CmpAddress] and [CmpRefs] are orders as [qsort] needs them:
    swapping the arguments negates the result, and "not behind" is
    transitive.  [CmpAddress] puts the smaller address first; [CmpRefs]
    puts the symbol with more references first and, among symbols with the
    same number of references, the one with the larger address; each
    answers 0 only for equal keys. *)
Theorem listing_orders x y z :
  (CmpAddress y x = - CmpAddress x y
   /\ (CmpAddress x y <= 0 -> CmpAddress y z <= 0 -> CmpAddress x z <= 0)
   /\ (CmpAddress x y < 0 <-> Address x < Address y)
   /\ (CmpAddress x y = 0 <-> Address x = Address y))
  /\ (CmpRefs y x = - CmpRefs x y
      /\ (CmpRefs x y <= 0 -> CmpRefs y z <= 0 -> CmpRefs x z <= 0)
      /\ (CmpRefs x y < 0 <->
            NumRef y < NumRef x
            \/ (NumRef x = NumRef y /\ Address y < Address x))
      /\ (CmpRefs x y = 0 <->
            NumRef x = NumRef y /\ Address x = Address y)).
Proof.
  split.
  - unfold CmpAddress. split; [cmp_cases|].
    split; [intros H1 H2; cmp_cases|].
    split; split; intros H; cmp_cases.
  - unfold CmpRefs. split; [cmp_cases|].
    split; [intros H1 H2; cmp_cases|].
    split; split; intros H; cmp_cases.
Qed.

Lemma listing_orders_witness :
  let x := mkLabel "first" 4096 0 false false 1 [1; 7] [0; 0] in
  let y := mkLabel "second" 8192 0 false false 3 [2; 7; 8; 9] [0; 0; 0; 0] in
  CmpAddress x y < 0 /\ CmpRefs y x < 0.
Proof.
  intros x y.
  destruct (listing_orders x y x) as [(_ & _ & A & _) _].
  destruct (listing_orders y x x) as [_ (_ & _ & R & _)].
  split; [apply A; cbn; lia | apply R; left; cbn; lia].
Defined.

(** ** The bytes of an instruction *)

Lemma EvalOperand_still p prio : Still (EvalOperand p prio).
Proof.
  intros st r st' H. apply EvalOperand_only in H. rewrite H.
  split; reflexivity.
Qed.

(** after [inv_Ok]: every run that is left is replaced by what it keeps,
    and the chain of equations is closed *)
Ltac still_facts :=
  repeat match goal with
  | H : EvalOperand _ _ ?s = Ok _ ?s' |- _ =>
      apply EvalOperand_still in H; cbn in H; destruct H
  | L : Still ?f, H : ?f ?s = Ok _ ?s' |- _ =>
      apply L in H; cbn in H; destruct H
  end.

Ltac still_tac H :=
  inv_Ok H; still_facts; cbn; split; congruence.

Lemma gen_implied_still : Still gen_implied.
Proof. unfold gen_implied. intros st r st' H. still_tac H. Qed.

Lemma gen_bits_still p : Still (gen_bits p).
Proof. unfold gen_bits. intros st r st' H. still_tac H. Qed.

Lemma gen_short_still p : Still (gen_short p).
Proof. unfold gen_short. intros st r st' H. still_tac H. Qed.

Lemma gen_long_still p : Still (gen_long p).
Proof. unfold gen_long. intros st r st' H. still_tac H. Qed.

Lemma gen_operand_still v o : Still (gen_operand v o).
Proof. unfold gen_operand. intros st r st' H. still_tac H. Qed.

Lemma gen_stack_still o : Still (gen_stack o).
Proof. unfold gen_stack. intros st r st' H. still_tac H. Qed.

Lemma AdjustOpcode_still v : Still (AdjustOpcode v).
Proof. unfold AdjustOpcode, CPU_Error. intros st r st' H. still_tac H. Qed.

Lemma AddressMode_still : Still AddressMode.
Proof. unfold AddressMode. intros st r st' H. still_tac H. Qed.

Lemma SplitOperand_still p : Still (SplitOperand p).
Proof.
  pose proof AddressMode_still as L.
  unfold SplitOperand. intros st r st' H. still_tac H.
Qed.

(** the prefixes that [AdjustOpcode] asks for fit the instruction *)
Lemma AdjustOpcode_prefix v st r st' :
  AdjustOpcode v st = Ok r st' ->
  (NegNeg st' = true -> 3 <= il st')
  /\ (PreNop st' = true -> NegNeg st' = true /\ il st' = 5).
Proof.
  unfold AdjustOpcode, CPU_Error. intros H. inv_Ok H; cbn;
    try (split; [discriminate | discriminate]);
    repeat match goal with
    | E : _ || _ = true |- _ => apply orb_true_iff in E; destruct E as [E|E]
    | E : _ && _ = true |- _ => apply andb_true_iff in E; destruct E
    | E : (_ =? _) = true |- _ => apply Z.eqb_eq in E
    end;
    cbn in *; (split; [intros _; lia | first [discriminate | intros _; split; [reflexivity | lia]]]).
Qed.

Lemma gen_emit_window v st r st' :
  gen_emit v st = Ok r st' ->
  (NegNeg st = true -> 3 <= il st) ->
  (PreNop st = true -> NegNeg st = true /\ il st = 5) ->
  (forall x, x < pc st \/ pc st + Z.max 1 (il st) <= x ->
     ROM st' x = ROM st x)
  /\ pc st' = pc st /\ il st' = il st.
Proof.
  unfold gen_emit, store. intros H N P.
  destruct (NegNeg st) eqn:EN; destruct (PreNop st) eqn:EP;
    try (destruct (P eq_refl) as [? ?]; discriminate);
    pose proof (fun e => N e) as N'; clear N;
    inv_Ok H; cbn;
    repeat match goal with
    | E : (_ <? _) = true |- _ => apply Z.ltb_lt in E
    | E : (_ <? _) = false |- _ => apply Z.ltb_ge in E
    end;
    (split; [intros x Hx; repeat rewrite rom_set_other by lia; reflexivity
            | split; reflexivity]).
Qed.

Lemma gen_branch_opt_pc p st r st' :
  gen_branch_opt p st = Ok r st' -> pc st' = pc st.
Proof.
  unfold gen_branch_opt, store. intros H. inv_Ok H; still_facts; cbn;
    congruence.
Qed.

Lemma gen_finish_window v o st r st' :
  gen_finish v o st = Ok r st' ->
  (forall x, x < pc st \/ pc st + Z.max 1 (il st') <= x ->
     ROM st' x = ROM st x)
  /\ (pc st' = pc st + il st'
      \/ (0xffff < pc st + il st' /\ pc st' = pc st)).
Proof.
  unfold gen_finish. intros H.
  apply bind_Ok in H. destruct H as ([v1 o1] & s2 & H2 & H).
  apply gen_operand_still in H2. destruct H2 as [R2 P2].
  apply bind_Ok in H. destruct H as (o2 & s3 & H3 & H).
  apply gen_stack_still in H3. destruct H3 as [R3 P3].
  destruct (negb (ceq (peek o2) NUL) && negb (ceq (peek o2) ";"));
    [discriminate H|].
  apply bind_Ok in H. destruct H as (v2 & s4 & H4 & H).
  pose proof (AdjustOpcode_prefix _ _ _ _ H4) as [N4 Q4].
  apply AdjustOpcode_still in H4. destruct H4 as [R4 P4].
  rewrite (bind_eq _ _ _ _ _ (get_run s4)) in H. cbn beta iota in H.
  apply bind_Ok in H. destruct H as (u5 & s5 & H5 & H).
  assert (W5 : (forall x, x < pc s4 \/ pc s4 + Z.max 1 (il s4) <= x ->
                  ROM s5 x = ROM s4 x)
               /\ pc s5 = pc s4 /\ il s5 = il s4).
  { destruct (final_pass s4); cbn [when_] in H5.
    - eapply gen_emit_window; eassumption.
    - unfold mret, M_ret in H5. inversion H5; subst. auto. }
  clear H5. destruct W5 as (W5 & P5 & I5).
  rewrite (bind_eq _ _ _ _ _ (get_run s5)) in H. cbn beta iota in H.
  assert (P : pc s5 = pc st) by congruence.
  assert (R : forall x, x < pc st \/ pc st + Z.max 1 (il s5) <= x ->
                ROM s5 x = ROM st x).
  { intros x Hx. rewrite W5 by (rewrite P4, P3, P2, <- I5; exact Hx).
    rewrite R4, R3, R2. reflexivity. }
  destruct (0xffff <? pc s5 + il s5) eqn:E.
  - apply Z.ltb_lt in E.
    assert (F : ROM st' = ROM s5 /\ pc st' = pc s5 /\ il st' = il s5).
    { destruct (final_pass s5); cbn [when_] in H.
      - unfold modify in H. inversion H; subst. auto.
      - unfold mret, M_ret in H. inversion H; subst. auto. }
    destruct F as (F1 & F2 & F3). rewrite F1, F2, F3, P. split; [exact R|].
    right. split; [lia | reflexivity].
  - unfold modify in H. inversion H; subst r st'; clear H. cbn.
    split; [exact R|]. left. rewrite P. reflexivity.
Qed.

(** X16.  An instruction writes its own bytes only: a call of
    [GenerateCode] that returns has changed no address of the image below
    the program counter or from the program counter plus the length of the
    instruction on (the opcode itself is stored at the program counter
    even for a length below 1), and it has moved the program counter on by
    the length of the instruction, unless that leads beyond $FFFF, where
    the program counter stays. *)
Theorem instruction_writes_own_bytes p st st' :
  GenerateCode p st = Ok tt st' ->
  0 <= pc st
  /\ (forall x, x < pc st \/ pc st + Z.max 1 (il st') <= x ->
        ROM st' x = ROM st x)
  /\ (pc st' = pc st + il st'
      \/ (0xffff < pc st + il st' /\ pc st' = pc st)).
Proof.
  unfold GenerateCode. intros H.
  rewrite (bind_eq _ _ _ _ _ (get_run st)) in H. cbn beta iota in H.
  destruct (pc st <? 0) eqn:E0; [discriminate H|]. apply Z.ltb_ge in E0.
  apply bind_Ok in H. destruct H as ([v o] & s1 & H1 & H).
  assert (A : (forall x, x <> pc st -> ROM s1 x = ROM st x)
              /\ pc s1 = pc st).
  { destruct (am st =? AM_Impl);
      [apply gen_implied_still in H1; destruct H1 as [-> ->]; auto|].
    destruct (am st =? AM_Bits);
      [apply gen_bits_still in H1; destruct H1 as [-> ->]; auto|].
    destruct ((am st =? AM_Rela) && BranchOpt st && (CPU_Type st =? CPU_45GS02)).
    { split; [intros x Hx; eapply gen_branch_opt_store; eassumption
             | eapply gen_branch_opt_pc; eassumption]. }
    destruct (am st =? AM_Rela);
      [apply gen_short_still in H1; destruct H1 as [-> ->]; auto|].
    destruct (am st =? AM_Relo);
      [apply gen_long_still in H1; destruct H1 as [-> ->]; auto|].
    pose proof SplitOperand_still as L.
    inv_Ok H1.
    match goal with
    | S : SplitOperand _ _ = Ok _ _ |- _ =>
        apply SplitOperand_still in S; destruct S as [-> ->]; auto
    end. }
  destruct A as [R1 P1].
  destruct (gen_finish_window _ _ _ _ _ H) as [W Pc].
  rewrite P1 in W, Pc. split; [exact E0|]. split; [|exact Pc].
  intros x Hx. rewrite W by exact Hx. apply R1. lia.
Qed.

Lemma instruction_writes_own_bytes_witness :
  let st0 := set_Pass 20 (set_pc 4096 (start_state 0)) in
  exists o s1 st',
    IsInstruction "LDA #$41" st0 = Ok o s1
    /\ GenerateCode "LDA #$41" (set_oc o s1) = Ok tt st'
    /\ ROM st' 4096 = 169 /\ ROM st' 4097 = 65
    /\ ROM st' 4098 = ROM st0 4098 /\ pc st' = 4098.
Proof.
  intros st0.
  assert (E : exists o s1 st',
    IsInstruction "LDA #$41" st0 = Ok o s1
    /\ GenerateCode "LDA #$41" (set_oc o s1) = Ok tt st'
    /\ ROM st' 4096 = 169 /\ ROM st' 4097 = 65 /\ il st' = 2
    /\ pc st' = 4098).
  { do 3 eexists. split; [vm_compute; reflexivity|].
    split; [vm_compute; reflexivity|]. repeat split. }
  destruct E as (o & s1 & st' & E1 & E2 & R0 & R1 & I & P).
  destruct (instruction_writes_own_bytes _ _ _ E2) as (_ & W & _).
  exists o, s1, st'. repeat (split; [assumption|]).
  split; [|exact P].
  rewrite W.
  - vm_compute in E1. inversion E1. reflexivity.
  - right. rewrite I. vm_compute in E1. inversion E1. vm_compute. discriminate.
Defined.

(** ** The priority of the binary operators *)

Lemma digit_cases d :
  isdigit d = true ->
  In d ["0"; "1"; "2"; "3"; "4"; "5"; "6"; "7"; "8"; "9"]%char.
Proof.
  destruct d as [[] [] [] [] [] [] [] []]; intros H;
    try discriminate H; cbn; tauto.
Qed.

Lemma digit_char d :
  isdigit d = true ->
  isspace d = false /\ ceq d "," = false /\ ceq d "$" = false
  /\ isalpha d = false
  /\ forall k, find_unaop d (take k unaop) = None.
Proof.
  intros H. apply digit_cases in H.
  assert (N : forall c k,
            (forall e, In e unaop -> ceq c (fst e) = false) ->
            find_unaop c (take k unaop) = None).
  { intros c k. generalize unaop. intros l. revert k.
    induction l as [|[e g] l IH]; intros [|k] Hl; try reflexivity.
    cbn [take find_unaop].
    pose proof (Hl (e, g) ltac:(left; reflexivity)) as E. cbn [fst] in E.
    rewrite E.
    apply IH. intros e' He'. apply Hl. right. exact He'. }
  repeat (destruct H as [<-|H];
          [ repeat split; try reflexivity; intros k; apply N;
            intros e He; unfold unaop in He;
            repeat (destruct He as [<-|He]; [reflexivity|]); destruct He
          | ]).
  destruct H.
Qed.

Lemma scan_number rest : forall a acc,
  forallb isdigit (chars a) = true -> isdigit (peek rest) = false ->
  scan_digits isdigit 10 acc (a +:+ rest)
  = (fst (scan_digits isdigit 10 acc a), rest).
Proof.
  induction a as [|c a IH]; intros acc Ha Hr.
  - change (EmptyString +:+ rest) with rest. destruct rest as [|d r];
      [reflexivity|]. cbn in Hr |- *. rewrite Hr. reflexivity.
  - cbn [chars String.list_ascii_of_string forallb] in Ha.
    apply andb_true_iff in Ha. destruct Ha as [Hc Ha].
    change (String c a +:+ rest) with (String c (a +:+ rest)).
    cbn [scan_digits]. rewrite Hc. apply IH; assumption.
Qed.

Lemma isnnd_number rest : forall a,
  forallb isdigit (chars a) = true ->
  isdigit (peek rest) = false -> ceq (peek rest) "$" = false ->
  isnnd (a +:+ rest) = false.
Proof.
  induction a as [|c a IH]; intros Ha Hr Hd.
  - change (EmptyString +:+ rest) with rest. destruct rest as [|d r];
      [reflexivity|]. cbn in Hr, Hd |- *. rewrite Hd, Hr. reflexivity.
  - cbn [chars String.list_ascii_of_string forallb] in Ha.
    apply andb_true_iff in Ha. destruct Ha as [Hc Ha].
    change (String c a +:+ rest) with (String c (a +:+ rest)).
    cbn [isnnd]. destruct (digit_char c Hc) as (_ & _ & -> & _).
    rewrite Hc. apply IH; assumption.
Qed.

(** a number is read whole, and the loop over the operators goes on
    behind it *)
Lemma EvalOperand_number n a rest prio st :
  number a = true ->
  isdigit (peek rest) = false -> isalpha (peek rest) = false ->
  ceq (peek rest) "$" = false ->
  EvalOperand_ (S n) (a +:+ rest) prio st
  = BinOps_ n (SkipSpace rest) (value a) prio st.
Proof.
  intros Ha Hr Hl Hd. unfold number in Ha.
  apply andb_true_iff in Ha. destruct Ha as [Ha Hv].
  apply andb_true_iff in Ha. destruct Ha as [Hn Ha].
  destruct a as [|c a]; [discriminate Hn|].
  pose proof Ha as Hc.
  cbn [chars String.list_ascii_of_string forallb] in Hc.
  apply andb_true_iff in Hc. destruct Hc as [Hc _].
  destruct (digit_char c Hc) as (Sc & Cc & _ & _ & Uc).
  rewrite EvalOperand_unfold. cbv zeta.
  change (String c a +:+ rest) with (String c (a +:+ rest)).
  cbn [SkipSpace]. rewrite Sc, Cc.
  step (get_run st). unfold unaop_of. rewrite Uc, Hc.
  change (String c (a +:+ rest)) with (String c a +:+ rest).
  rewrite (isnnd_number rest (String c a) Ha Hr Hd). cbn [negb andb].
  assert (E : EvalDecValue (String c a +:+ rest) st
              = Ok (rest, value (String c a)) st).
  { unfold EvalDecValue. rewrite (scan_number rest _ 0 Ha Hr).
    fold (value (String c a)). rewrite Hv, Hl. reflexivity. }
  step E. reflexivity.
Qed.

Lemma BinOps_end n r v prio st :
  ends_operand r = true ->
  BinOps_ (S n) (SkipSpace r) v prio st = Ok (r, v) st.
Proof.
  unfold ends_operand. intros H.
  apply andb_true_iff in H. destruct H as [H Hm].
  apply andb_true_iff in H. destruct H as [H Hs].
  apply negb_true_iff in Hm, Hs.
  assert (E : SkipSpace r = r).
  { destruct r as [|c r]; [reflexivity|]. cbn in Hs |- *. rewrite Hs.
    reflexivity. }
  rewrite E, BinOps_unfold, Hm, andb_false_r. reflexivity.
Qed.

Lemma binop_head op o f :
  In (op, o, f) binop ->
  exists c op', op = String c op'
    /\ mem_char c "=*/+-<>!&^|" = true /\ ceq c NUL = false
    /\ isdigit c = false /\ isalpha c = false /\ ceq c "$" = false
    /\ isspace c = false /\ 0 < o.
Proof.
  unfold binop. intros H.
  repeat (destruct H as [H|H];
          [ inversion H; subst; do 2 eexists;
            split; [reflexivity|]; repeat split; reflexivity | ]).
  destruct H.
Qed.

Lemma find_binop_number op o f r :
  In (op, o, f) binop -> isdigit (peek r) = true ->
  find_binop (op +:+ r) binop = Some (op, o, f)
  /\ adv (String.length op) (op +:+ r) = Some r.
Proof.
  intros H Hr. destruct r as [|d r]; [discriminate Hr|].
  cbn [peek] in Hr. apply digit_cases in Hr. unfold binop in H.
  repeat (destruct H as [H|H];
          [ inversion H; subst;
            repeat (destruct Hr as [<-|Hr]; [split; reflexivity|]);
            destruct Hr
          | ]).
  destruct H.
Qed.

Lemma number_head a x :
  number a = true ->
  isdigit (peek (a +:+ x)) = true /\ (1 <= String.length a)%nat.
Proof.
  unfold number. intros H.
  apply andb_true_iff in H. destruct H as [H _].
  apply andb_true_iff in H. destruct H as [Hn Ha].
  destruct a as [|c a]; [discriminate Hn|].
  cbn [chars String.list_ascii_of_string forallb] in Ha.
  apply andb_true_iff in Ha. destruct Ha as [Hc _].
  split; [exact Hc | cbn; lia].
Qed.

(** the value of a number is not negative *)
Lemma scan_digits_nonneg a : forall acc,
  0 <= acc -> forallb isdigit (chars a) = true ->
  0 <= fst (scan_digits isdigit 10 acc a).
Proof.
  induction a as [|c a IH]; intros acc Hacc Ha; [exact Hacc|].
  cbn [chars String.list_ascii_of_string forallb] in Ha.
  apply andb_true_iff in Ha. destruct Ha as [Hc Ha].
  cbn [scan_digits]. rewrite Hc. apply IH; [|exact Ha].
  assert (D : 0 <= digit_val c).
  { apply digit_cases in Hc.
    repeat (destruct Hc as [<-|Hc]; [vm_compute; discriminate|]).
    destruct Hc. }
  lia.
Qed.

Lemma value_nonneg a : number a = true -> 0 <= value a.
Proof.
  unfold number. intros H.
  apply andb_true_iff in H. destruct H as [H _].
  apply andb_true_iff in H. destruct H as [_ Ha].
  apply scan_digits_nonneg; [lia | exact Ha].
Qed.

(** an operator has a result whenever one of its operands is not
    negative *)
Lemma binop_apply_some f v w :
  0 <= v \/ 0 <= w -> exists x, binop_apply f v w = Some x.
Proof.
  intros H. unfold binop_apply.
  destruct ((v =? UNDEF) || (w =? UNDEF)); [eauto|].
  destruct f; cbn [binop_call]; eauto.
  destruct (w =? 0); [eauto|].
  destruct (Z.eqb_spec v INT_MIN), (Z.eqb_spec w (-1)); cbn [andb]; eauto.
  exfalso. unfold INT_MIN in *. lia.
Qed.

(** one operator and its right operand, a number, in the loop *)
Lemma BinOps_number n op o f b r v prio st :
  In (op, o, f) binop -> number b = true ->
  isdigit (peek r) = false -> isalpha (peek r) = false ->
  ceq (peek r) "$" = false ->
  BinOps_ (S (S n)) (op +:+ (b +:+ r)) v prio st
  = if o <=? prio then Ok (op +:+ (b +:+ r), v) st
    else (* the right operand goes on behind the number with priority o *)
      ('(q', w) ← BinOps_ n (SkipSpace r) (value b) o;
       x ← inside (binop_apply f v w);
       BinOps_ (S n) q' x prio) st.
Proof.
  intros Ho Hb Hr Hl Hd.
  destruct (binop_head _ _ _ Ho) as (c & op' & Eo & Hm & Hz & _).
  destruct (number_head b r Hb) as [Hh _].
  destruct (find_binop_number op o f (b +:+ r) Ho Hh) as [Hf Ha].
  rewrite BinOps_unfold.
  replace (peek (op +:+ (b +:+ r))) with c by (rewrite Eo; reflexivity).
  rewrite Hz, Hm, Hf. cbn [negb andb].
  destruct (o <=? prio); [reflexivity|].
  rewrite Ha. cbn [inside].
  rewrite (bind_eq _ _ st (b +:+ r) st eq_refl). cbn beta iota.
  unfold mbind at 1, M_bind at 1.
  rewrite (EvalOperand_number n b r o st Hb Hr Hl Hd).
  reflexivity.
Qed.

Lemma BinOps_stop n r v prio st :
  ends_operand r = true ->
  BinOps_ (S n) (SkipSpace r) v prio st = Ok (r, v) st
  /\ BinOps_ (S n) r v prio st = Ok (r, v) st.
Proof.
  intros H. pose proof (BinOps_end n r v prio st H) as E.
  split; [exact E|].
  unfold ends_operand in H.
  apply andb_true_iff in H. destruct H as [H _].
  apply andb_true_iff in H. destruct H as [_ Hs].
  apply negb_true_iff in Hs.
  replace (SkipSpace r) with r in E; [exact E|].
  destruct r as [|c r]; [reflexivity|]. cbn in Hs |- *. rewrite Hs.
  reflexivity.
Qed.

Lemma ends_operand_head r :
  ends_operand r = true ->
  isdigit (peek r) = false /\ isalpha (peek r) = false
  /\ ceq (peek r) "$" = false.
Proof.
  unfold ends_operand. intros H.
  apply andb_true_iff in H. destruct H as [H _].
  apply andb_true_iff in H. destruct H as [H _].
  apply andb_true_iff in H. destruct H as [H H3].
  apply andb_true_iff in H. destruct H as [H1 H2].
  apply negb_true_iff in H1, H2, H3. auto.
Qed.

(** one operator, its right operand and the end of the operand *)
Lemma BinOps_last n op o f b r v x prio st :
  In (op, o, f) binop -> number b = true -> ends_operand r = true ->
  prio < o -> binop_apply f v (value b) = Some x ->
  BinOps_ (S (S (S n))) (op +:+ (b +:+ r)) v prio st = Ok (r, x) st.
Proof.
  intros Ho Hb He Hp Hx.
  destruct (ends_operand_head r He) as (Hr & Hl & Hd).
  rewrite (BinOps_number _ op o f b r v prio st Ho Hb Hr Hl Hd).
  replace (o <=? prio) with false by (symmetry; apply Z.leb_gt; exact Hp).
  step (proj1 (BinOps_stop n r (value b) o st He)).
  rewrite Hx. cbn [inside].
  step (eq_refl : (mret x : M Z) st = Ok x st).
  apply (BinOps_stop _ r x prio st He).
Qed.

(** X17.  Between numbers the binary operators of [EvalOperand] follow
    their priorities: in [a op1 b op2 c] the operator [op2] is applied
    first exactly when its priority is higher than that of [op1];
    operators of the same priority are applied from left to right.  Both
    applications have a result [x], which the evaluation returns; it ends
    at the text behind [c] and leaves the state as it is. *)
Theorem operator_priority st a b c op1 o1 f1 op2 o2 f2 rest :
  number a = true -> number b = true -> number c = true ->
  In (op1, o1, f1) binop -> In (op2, o2, f2) binop ->
  ends_operand rest = true ->
  exists x,
    (if o2 <=? o1
     then binop_apply f1 (value a) (value b)
            ≫= (fun y => binop_apply f2 y (value c))
     else binop_apply f2 (value b) (value c)
            ≫= (fun y => binop_apply f1 (value a) y)) = Some x
    /\ EvalOperand (a +:+ (op1 +:+ (b +:+ (op2 +:+ (c +:+ rest))))) 0 st
       = Ok (rest, x) st.
Proof.
  intros Ha Hb Hc H1 H2 He.
  destruct (binop_head _ _ _ H1) as (c1 & op1' & E1 & _ & _ & D1 & L1 & S1 & P1 & O1).
  destruct (binop_head _ _ _ H2) as (c2 & op2' & E2 & _ & _ & D2 & L2 & S2 & P2 & O2).
  destruct (ends_operand_head rest He) as (D3 & L3 & S3).
  pose proof (value_nonneg a Ha) as Na.
  pose proof (value_nonneg c Hc) as Nc.
  set (R2 := op2 +:+ (c +:+ rest)).
  set (R1 := op1 +:+ (b +:+ R2)).
  assert (K2 : peek R2 = c2) by (unfold R2; rewrite E2; reflexivity).
  assert (K1 : peek R1 = c1) by (unfold R1; rewrite E1; reflexivity).
  assert (Z2 : SkipSpace R2 = R2).
  { unfold R2. rewrite E2.
    change (String c2 op2' +:+ (c +:+ rest))
      with (String c2 (op2' +:+ (c +:+ rest))).
    cbn [SkipSpace]. rewrite P2. reflexivity. }
  assert (Z1 : SkipSpace R1 = R1).
  { unfold R1. rewrite E1.
    change (String c1 op1' +:+ (b +:+ R2))
      with (String c1 (op1' +:+ (b +:+ R2))).
    cbn [SkipSpace]. rewrite P1. reflexivity. }
  assert (F : exists m, (2 * String.length (a +:+ R1) + 2
                         = S (S (S (S (S (S m))))))%nat).
  { exists (2 * String.length (a +:+ R1) - 4)%nat.
    unfold R1, R2. rewrite !append_length.
    destruct (number_head a EmptyString Ha) as [_ La].
    destruct (number_head b EmptyString Hb) as [_ Lb].
    destruct (number_head c EmptyString Hc) as [_ Lc].
    rewrite E1, E2. cbn [String.length]. lia. }
  destruct F as [m F].
  assert (Run : forall x,
            (if o2 <=? o1
             then binop_apply f1 (value a) (value b)
                    ≫= (fun y => binop_apply f2 y (value c))
             else binop_apply f2 (value b) (value c)
                    ≫= (fun y => binop_apply f1 (value a) y)) = Some x ->
            EvalOperand (a +:+ R1) 0 st = Ok (rest, x) st).
  { intros x Hx. unfold EvalOperand. rewrite F.
    rewrite (EvalOperand_number _ a R1 0 st Ha)
      by (rewrite K1; assumption).
    rewrite Z1. unfold R1 at 1.
    rewrite (BinOps_number _ op1 o1 f1 b R2 (value a) 0 st H1 Hb)
      by (rewrite K2; assumption).
    replace (o1 <=? 0) with false by (symmetry; apply Z.leb_gt; lia).
    rewrite Z2. unfold R2 at 1.
    destruct (o2 <=? o1) eqn:Eo.
    - destruct (binop_apply f1 (value a) (value b)) as [y|] eqn:Ey;
        [|discriminate Hx].
      cbn in Hx.
      assert (In2 : BinOps_ (S (S (S m))) (op2 +:+ (c +:+ rest)) (value b) o1 st
                    = Ok (R2, value b) st).
      { rewrite (BinOps_number _ op2 o2 f2 c rest (value b) o1 st H2 Hc D3 L3 S3).
        rewrite Eo. reflexivity. }
      step In2. rewrite Ey. cbn [inside].
      step (eq_refl : (mret y : M Z) st = Ok y st).
      unfold R2.
      apply (BinOps_last _ op2 o2 f2 c rest y x 0 st H2 Hc He); [lia|exact Hx].
    - destruct (binop_apply f2 (value b) (value c)) as [y|] eqn:Ey;
        [|discriminate Hx].
      cbn in Hx.
      step (BinOps_last m op2 o2 f2 c rest (value b) y o1 st H2 Hc He
              ltac:(apply Z.leb_gt; exact Eo) Ey).
      rewrite Hx. cbn [inside].
      step (eq_refl : (mret x : M Z) st = Ok x st).
      apply (BinOps_stop _ rest x 0 st He). }
  destruct (o2 <=? o1).
  - destruct (binop_apply_some f1 (value a) (value b)) as [y Hy]; [left; exact Na|].
    destruct (binop_apply_some f2 y (value c)) as [x Hx]; [right; exact Nc|].
    exists x.
    assert (Hs : binop_apply f1 (value a) (value b)
                   ≫= (fun y => binop_apply f2 y (value c)) = Some x)
      by (rewrite Hy; exact Hx).
    split; [exact Hs | exact (Run x Hs)].
  - destruct (binop_apply_some f2 (value b) (value c)) as [y Hy]; [right; exact Nc|].
    destruct (binop_apply_some f1 (value a) y) as [x Hx]; [left; exact Na|].
    exists x.
    assert (Hs : binop_apply f2 (value b) (value c)
                   ≫= (fun y => binop_apply f1 (value a) y) = Some x)
      by (rewrite Hy; exact Hx).
    split; [exact Hs | exact (Run x Hs)].
Qed.

Lemma operator_priority_witness :
  EvalOperand "2+3*4,X" 0 (start_state 0) = Ok (",X"%string, 14) (start_state 0)
  /\ EvalOperand "20-3-4" 0 (start_state 0) = Ok (EmptyString, 13) (start_state 0).
Proof.
  split.
  - destruct (operator_priority (start_state 0) "2" "3" "4" "+" 10 op_add
                "*" 11 op_mul ",X" eq_refl eq_refl eq_refl
                ltac:(cbn; tauto) ltac:(cbn; tauto) eq_refl)
      as (x & Hx & E).
    injection Hx as <-. exact E.
  - destruct (operator_priority (start_state 0) "20" "3" "4" "-" 10 op_sub
                "-" 10 op_sub "" eq_refl eq_refl eq_refl
                ltac:(cbn; tauto) ltac:(cbn; tauto) eq_refl)
      as (x & Hx & E).
    injection Hx as <-. exact E.
Defined.

(** ** Parentheses *)

Lemma find_binop_paren op o f r :
  In (op, o, f) binop ->
  find_binop (op +:+ String "(" r) binop = Some (op, o, f)
  /\ adv (String.length op) (op +:+ String "(" r) = Some (String "(" r).
Proof.
  unfold binop. intros H.
  repeat (destruct H as [H|H]; [inversion H; subst; split; reflexivity|]).
  destruct H.
Qed.

Lemma paren_ends r : ends_operand (String ")" r) = true.
Proof. reflexivity. Qed.

(** a parenthesis around [b op c], read as one operand *)
Lemma EvalOperand_paren n b op o f c y rest prio st :
  2 <= unaops st ->
  number b = true -> number c = true -> In (op, o, f) binop ->
  ends_operand rest = true ->
  binop_apply f (value b) (value c) = Some y ->
  EvalOperand_ (S (S (S (S (S (S n))))))
    (String "(" (b +:+ (op +:+ (c +:+ String ")" rest)))) prio st
  = Ok (rest, y) st.
Proof.
  intros Hu Hb Hc Ho He Hy.
  destruct (binop_head _ _ _ Ho) as (c2 & op' & E2 & _ & _ & D2 & L2 & S2 & P2 & O2).
  set (R3 := op +:+ (c +:+ String ")" rest)).
  assert (K3 : peek R3 = c2) by (unfold R3; rewrite E2; reflexivity).
  assert (Z3 : SkipSpace R3 = R3).
  { unfold R3. rewrite E2.
    change (String c2 op' +:+ (c +:+ String ")" rest))
      with (String c2 (op' +:+ (c +:+ String ")" rest))).
    cbn [SkipSpace]. rewrite P2. reflexivity. }
  assert (U : unaop_of st "(" = Some op_par).
  { unfold unaop_of.
    destruct (Z.to_nat (unaops st)) as [|[|k]] eqn:E; try lia. reflexivity. }
  assert (In1 : EvalOperand_ (S (S (S (S (S n))))) (b +:+ R3) 0 st
                = Ok (String ")" rest, y) st).
  { rewrite (EvalOperand_number _ b R3 0 st Hb) by (rewrite K3; assumption).
    rewrite Z3. unfold R3.
    apply (BinOps_last _ op o f c (String ")" rest) (value b) y 0 st Ho Hc
             (paren_ends rest)); [lia | exact Hy]. }
  rewrite EvalOperand_unfold. cbv zeta.
  change (SkipSpace (String "(" (b +:+ R3))) with (String "(" (b +:+ R3)).
  cbv iota. change (ceq "(" ",") with false. cbv iota.
  step (get_run st). rewrite U.
  change (ceq "(" "[") with false. cbv iota.
  assert (Par : (let closing := ")"%char in
                 '(q, v) ← EvalOperand_ (S (S (S (S (S n))))) (b +:+ R3) 0;
                 match strchr q closing with
                 | Some (String _ q') => mret (q', v)
                 | _ => exit_
                 end) st
                = Ok (rest, y) st).
  { cbv zeta. step In1. reflexivity. }
  step Par. apply (BinOps_stop _ rest _ prio st He).
Qed.

(** X18.  Parentheses come before the priorities: in [a op1 (b op2 c)]
    the operator [op2] is applied first whatever the two priorities are,
    and the evaluation goes on behind the closing parenthesis.  Both
    applications have a result, [y] and then [x], which is returned. *)
Theorem parentheses_first st a b c op1 o1 f1 op2 o2 f2 rest :
  2 <= unaops st ->
  number a = true -> number b = true -> number c = true ->
  In (op1, o1, f1) binop -> In (op2, o2, f2) binop ->
  ends_operand rest = true ->
  exists y x,
    binop_apply f2 (value b) (value c) = Some y
    /\ binop_apply f1 (value a) y = Some x
    /\ EvalOperand
         (a +:+ (op1 +:+ String "(" (b +:+ (op2 +:+ (c +:+ String ")" rest)))))
         0 st
       = Ok (rest, x) st.
Proof.
  intros Hu Ha Hb Hc H1 H2 He.
  destruct (binop_apply_some f2 (value b) (value c)) as [y Hy];
    [right; apply value_nonneg; exact Hc|].
  destruct (binop_apply_some f1 (value a) y) as [x Hx];
    [left; apply value_nonneg; exact Ha|].
  exists y, x. split; [exact Hy|]. split; [exact Hx|].
  destruct (binop_head _ _ _ H1)
    as (c1 & op1' & E1 & M1 & N1 & D1 & L1 & S1 & P1 & O1).
  set (P := String "(" (b +:+ (op2 +:+ (c +:+ String ")" rest)))).
  set (R1 := op1 +:+ P).
  assert (K1 : peek R1 = c1) by (unfold R1; rewrite E1; reflexivity).
  assert (Z1 : SkipSpace R1 = R1).
  { unfold R1. rewrite E1.
    change (String c1 op1' +:+ P) with (String c1 (op1' +:+ P)).
    cbn [SkipSpace]. rewrite P1. reflexivity. }
  destruct (find_binop_paren op1 o1 f1
              (b +:+ (op2 +:+ (c +:+ String ")" rest))) H1) as [Hf Hv].
  fold P in Hf, Hv. fold R1 in Hf, Hv.
  assert (F : exists m, (2 * String.length (a +:+ R1) + 2
                         = S (S (S (S (S (S (S (S m))))))))%nat).
  { exists (2 * String.length (a +:+ R1) - 6)%nat.
    unfold R1, P. rewrite !append_length. cbn [String.length].
    rewrite !append_length.
    destruct (number_head a EmptyString Ha) as [_ La].
    destruct (number_head b EmptyString Hb) as [_ Lb].
    destruct (number_head c EmptyString Hc) as [_ Lc].
    rewrite E1. cbn [String.length]. lia. }
  destruct F as [m F]. unfold EvalOperand. rewrite F.
  rewrite (EvalOperand_number _ a R1 0 st Ha) by (rewrite K1; assumption).
  rewrite Z1, BinOps_unfold, K1, N1, M1, Hf. cbn [negb andb].
  replace (o1 <=? 0) with false by (symmetry; apply Z.leb_gt; lia).
  rewrite Hv. cbn [inside].
  rewrite (bind_eq _ _ st P st eq_refl). cbn beta iota. unfold P.
  rewrite (bind_eq _ _ _ _ _
             (EvalOperand_paren m b op2 o2 f2 c y rest o1 st Hu Hb Hc H2 He Hy)).
  cbn beta iota. rewrite Hx. cbn [inside].
  step (eq_refl : (mret x : M Z) st = Ok x st).
  apply (BinOps_stop _ rest _ 0 st He).
Qed.

Lemma parentheses_first_witness :
  EvalOperand "20-(3-4)" 0 (start_state 0)
  = Ok (EmptyString, 21) (start_state 0).
Proof.
  destruct (parentheses_first (start_state 0) "20" "3" "4" "-" 10 op_sub
              "-" 10 op_sub "" ltac:(vm_compute; discriminate)
              eq_refl eq_refl eq_refl
              ltac:(cbn; tauto) ltac:(cbn; tauto) eq_refl)
    as (y & x & Hy & Hx & E).
  injection Hy as <-. injection Hx as <-. exact E.
Defined.

(** ** Conditional assembly: #else *)

Lemma else_check s :
  CheckCondition "#else" s
  = Ok true
      (set_Skipping
         (existsb (fun b => b)
            (take (Z.to_nat (IfLevel s))
               (drop 1 (<[Z.to_nat (IfLevel s) :=
                          negb (default false
                                  (SkipLine s !! Z.to_nat (IfLevel s)))]>
                          (SkipLine s)))))
         (set_SkipLine
            (<[Z.to_nat (IfLevel s) :=
                 negb (default false (SkipLine s !! Z.to_nat (IfLevel s)))]>
               (SkipLine s)) s)).
Proof.
  unfold CheckCondition.
  change (negb (ceq (peek "#else") "#")) with false. cbn beta iota.
  change (SkipSpace (tail "#else")) with "else"%string.
  step (get_run s).
  change (keyword "error" "else") with false.
  change (keyword "ifdef " "else") with false.
  change (keyword "if " "else") with false.
  change (keyword "else" "else") with true.
  change (end_or_space (default NUL (at_ "else" 4))) with true.
  cbn [andb orb].
  step (get_run s). unfold set_skip.
  match goal with |- context [modify ?f] =>
    step (eq_refl : modify f s = Ok tt (f s)) end.
  unfold CheckSkip.
  match goal with |- (modify ?f ≫= _) ?s1 = _ =>
    step (eq_refl : modify f s1 = Ok tt (f s1)) end.
  unfold check_endif. change (keyword "endif" "else") with false.
  reflexivity.
Qed.

Lemma skip_level_flip (sl : list bool) k x :
  (S k < length sl)%nat ->
  existsb (fun b => b) (take (S k) (drop 1 (<[S k := x]> sl)))
  = existsb (fun b => b) (take k (drop 1 sl)) || x.
Proof.
  intros H. destruct sl as [|b sl]; [simpl in H; lia|].
  simpl in H. change (<[S k := x]> (b :: sl)) with (b :: <[k := x]> sl).
  cbn [drop]. rewrite !drop_0.
  rewrite (take_S_r (<[k := x]> sl) k x)
    by (apply list_lookup_insert_eq; lia).
  rewrite take_insert_ge by lia.
  rewrite existsb_app. cbn [existsb]. rewrite orb_false_r. reflexivity.
Qed.

(** X19.  [#else] never ends the run and changes nothing but the skip
    state.  Inside a condition (nesting level 1 .. 9) it turns the
    condition of its own level round: the lines behind it are skipped
    exactly when an enclosing level skips or the lines in front of it were
    not skipped by the own level.  Outside every condition (level 0) it is
    accepted without an error and nothing is skipped. *)
Theorem else_flips_condition st :
  0 <= IfLevel st -> (Z.to_nat (IfLevel st) < length (SkipLine st))%nat ->
  exists st',
    CheckCondition "#else" st = Ok true st'
    /\ st' = set_Skipping (Skipping st') (set_SkipLine (SkipLine st') st)
    /\ (0 < IfLevel st ->
        Skipping st'
        = existsb (fun b => b)
            (take (Z.to_nat (IfLevel st - 1)) (drop 1 (SkipLine st)))
          || negb (default false (SkipLine st !! Z.to_nat (IfLevel st))))
    /\ (IfLevel st = 0 -> Skipping st' = false).
Proof.
  intros H0 Hl. eexists. split; [apply else_check|].
  cbn [Skipping SkipLine set_Skipping set_SkipLine].
  split; [destruct st; reflexivity|]. split.
  - intros Hp.
    destruct (Z.to_nat (IfLevel st)) as [|k] eqn:E; [lia|].
    replace (Z.to_nat (IfLevel st - 1)) with k by lia.
    apply skip_level_flip. exact Hl.
  - intros ->. reflexivity.
Qed.

Lemma else_flips_condition_witness :
  let st := set_Skipping true (set_IfLevel 1
              (set_SkipLine [false; true; false; false; false; false; false;
                             false; false; false] (start_state 0))) in
  exists st', CheckCondition "#else" st = Ok true st'
              /\ Skipping st' = false.
Proof.
  intros st.
  destruct (else_flips_condition st) as (st' & E & _ & S & _);
    [vm_compute; discriminate | vm_compute; lia |].
  exists st'. split; [exact E | exact (S eq_refl)].
Defined.

(** ** GetSymbol: the symbol and the cursor *)

Lemma copy_sym_split : forall p a q,
  copy_sym p = (a, q) -> p = a +:+ q /\ isym q = false.
Proof.
  induction p as [|c r IH]; intros a q H.
  - cbn in H. inversion H; subst. split; reflexivity.
  - cbn [copy_sym] in H. destruct (isym (String c r)) eqn:E.
    + destruct (copy_sym r) as [a' q'] eqn:Er. inversion H; subst.
      destruct (IH a' q eq_refl) as [-> Hq]. split; [reflexivity | exact Hq].
    + inversion H; subst. split; [reflexivity | exact E].
Qed.

Lemma copy_nnd_split : forall p a q,
  isnnd p = true -> copy_nnd p = (a, q) -> p = a +:+ q.
Proof.
  induction p as [|c r IH]; intros a q Hn H; [discriminate Hn|].
  cbn [isnnd] in Hn. cbn [copy_nnd] in H. destruct (ceq c "$").
  - inversion H; subst. reflexivity.
  - destruct (isdigit c); [|discriminate Hn].
    destruct (copy_nnd r) as [a' q'] eqn:Er. inversion H; subst.
    rewrite (IH a' q Hn eq_refl). reflexivity.
Qed.

(** X20.  [GetSymbol] takes the symbol off the front of the text: the text
    is the characters taken followed by the text at the new cursor, and
    the symbol is the characters taken, alone or behind the scope (local
    symbols) or behind the scope and an underscore (labels of the style
    nn$).  Unless the text is a label of the style nn$, the longest run of
    symbol characters is taken: no symbol character stands at the new
    cursor. *)
Theorem GetSymbol_splits st p :
  exists a,
    p = a +:+ snd (GetSymbol st p)
    /\ (fst (GetSymbol st p) = a
        \/ fst (GetSymbol st p) = Scope st +:+ a
        \/ fst (GetSymbol st p) = (Scope st +:+ "_") +:+ a)
    /\ (isnnd p = false -> isym (snd (GetSymbol st p)) = false).
Proof.
  unfold GetSymbol. destruct (isnnd p) eqn:En.
  - destruct (copy_nnd p) as [a q] eqn:Ec. exists a. cbn [fst snd].
    split; [apply (copy_nnd_split p a q En Ec)|].
    split; [|discriminate].
    destruct (nonempty (Scope st)); [right; right; reflexivity|].
    left. reflexivity.
  - destruct p as [|c r].
    + exists EmptyString. cbn. auto.
    + destruct (negb (BSO_Mode st) && (ceq c "." || ceq c "_")
                && nonempty (Scope st)).
      * destruct (copy_sym r) as [a q] eqn:Ec.
        destruct (copy_sym_split r a q Ec) as [-> Hq].
        exists (String c a). cbn [fst snd].
        split; [reflexivity|]. split; [right; left; reflexivity|].
        intros _. exact Hq.
      * destruct (copy_sym (String c r)) as [a q] eqn:Ec.
        destruct (copy_sym_split _ a q Ec) as [E Hq].
        exists a. cbn [fst snd]. split; [exact E|].
        split; [left; reflexivity|]. intros _. exact Hq.
Qed.

Lemma GetSymbol_splits_witness :
  isym (snd (GetSymbol (start_state 0) "loop+1")) = false.
Proof.
  destruct (GetSymbol_splits (start_state 0) "loop+1") as (a & _ & _ & H).
  exact (H eq_refl).
Defined.

(** ** The reference lists of the symbols *)

Lemma new_label_ok n a l t : refs_ok (new_label n a l t).
Proof. unfold refs_ok. cbn. lia. Qed.

Lemma set_Def_ok l t x : refs_ok x -> refs_ok (set_Def l t x).
Proof.
  unfold refs_ok. cbn [NumRef Ref Att set_Def].
  rewrite !length_insert. auto.
Qed.

Lemma set_Address_ok v x : refs_ok x -> refs_ok (set_Address v x).
Proof. unfold refs_ok. cbn. auto. Qed.

Lemma set_Locked_ok v x : refs_ok x -> refs_ok (set_Locked v x).
Proof. unfold refs_ok. cbn. auto. Qed.

Lemma alter_ok f j l :
  (forall x, refs_ok x -> refs_ok (f x)) ->
  Forall refs_ok l -> Forall refs_ok (alter f j l).
Proof.
  intros Hf H. apply Forall_lookup. intros i y Hi.
  destruct (decide (i = j)) as [->|N].
  - rewrite list_lookup_alter_eq in Hi.
    destruct (l !! j) as [x|] eqn:E; [|discriminate Hi].
    cbn in Hi. inversion Hi; subst. apply Hf.
    eapply Forall_lookup_1; eassumption.
  - rewrite list_lookup_alter_ne in Hi by congruence.
    eapply Forall_lookup_1; eassumption.
Qed.

Lemma AddLabel_ok p st a st' :
  AddLabel p st = Ok a st' -> table_ok st -> table_ok st'.
Proof.
  unfold AddLabel, table_ok. intros H T. inv_Ok H. cbn [lab set_lab].
  apply Forall_app. split; [exact T|].
  constructor; [apply new_label_ok | constructor].
Qed.

Lemma SymRefs_ok i st a st' :
  SymRefs i st = Ok a st' -> table_ok st -> table_ok st'.
Proof.
  unfold SymRefs, update_lab, table_ok. intros H T. inv_Ok H; [exact T|].
  cbn [lab set_lab]. apply alter_ok; [|exact T].
  intros x (H0 & H1 & H2). unfold refs_ok. cbn [NumRef Ref Att].
  rewrite !length_app. cbn [length]. lia.
Qed.

Lemma EvalOperand_ok p prio st r st' :
  EvalOperand p prio st = Ok r st' -> table_ok st -> table_ok st'.
Proof.
  apply (EvalOperand_rel (fun s s' => table_ok s -> table_ok s')).
  - auto.
  - auto.
  - apply AddLabel_ok.
  - apply SymRefs_ok.
Qed.


Ltac table_tac :=
  unfold table_ok in *; cbn [lab set_lab set_bss set_BOC set_Label
                             set_Scope set_ModuleStart] in *;
  repeat first
    [ assumption
    | apply alter_ok;
      [ intros;
        first [ apply set_Def_ok | apply set_Address_ok | apply set_Locked_ok ];
        assumption | ]
    | apply Forall_app; split
    | apply Forall_cons; split; [apply new_label_ok|]
    | apply Forall_nil_2 ].

Ltac table_eval :=
  match goal with
  | E : EvalOperand _ _ ?s = Ok _ _ |- _ =>
      let T := fresh "T" in
      assert (T : table_ok s) by table_tac;
      apply (EvalOperand_ok _ _ _ _ _ E) in T; clear E
  end.

Lemma DefineLabel_assign_ok p lk st r st' :
  DefineLabel_assign p lk st = Ok r st' -> table_ok st -> table_ok st'.
Proof.
  unfold DefineLabel_assign, find_or_add, lab_at, update_lab.
  intros H T. inv_Ok H; table_eval; table_tac.
Qed.

Lemma DefineLabel_bss_ok p st r st' :
  DefineLabel_bss p st = Ok r st' -> table_ok st -> table_ok st'.
Proof.
  unfold DefineLabel_bss, find_or_add, lab_at, update_lab.
  intros H T. inv_Ok H; table_eval; table_tac.
Qed.

Lemma DefineLabel_position_ok p st r st' :
  DefineLabel_position p st = Ok r st' -> table_ok st -> table_ok st'.
Proof.
  unfold DefineLabel_position, lab_at, update_lab, count_change.
  intros H T. inv_Ok H; table_tac.
Qed.

(** X21.  The reference lists keep their size: if the arrays [Ref] and
    [Att] of every symbol hold [NumRef + 1] entries (the slot of the
    definition and one for each recorded reference), they do so behind
    every evaluation of an operand and behind every definition of a label
    that returns; so the slot 0 that a definition writes and the slot
    [NumRef] that a reference writes exist. *)
Theorem reference_lists_in_step st :
  table_ok st ->
  (forall p prio r st', EvalOperand p prio st = Ok r st' -> table_ok st')
  /\ (forall p lk r st', DefineLabel p lk st = Ok r st' -> table_ok st').
Proof.
  intros T. split.
  - intros p prio r st' H. eapply EvalOperand_ok; eassumption.
  - intros p lk r st' H. unfold DefineLabel in H.
    rewrite (bind_eq _ _ _ _ _ (get_run st)) in H. cbn beta iota in H.
    destruct (too_many_labels st); [discriminate H|].
    destruct (GetSymbol st p) as [sym q].
    apply bind_Ok in H. destruct H as (u1 & s1 & H1 & H).
    unfold modify in H1. inversion H1; subst u1 s1; clear H1.
    apply bind_Ok in H. destruct H as (u2 & s2 & H2 & H).
    assert (T2 : table_ok s2).
    { destruct (_ && _ && _); cbn [when_] in H2.
      - unfold modify in H2. inversion H2; subst. exact T.
      - unfold mret, M_ret in H2. inversion H2; subst. exact T. }
    clear H2. cbv zeta in H.
    destruct (ceq (peek (SkipSpace _)) "=");
      [eapply DefineLabel_assign_ok; eassumption|].
    destruct (keyword ".BSS" _);
      [eapply DefineLabel_bss_ok; eassumption|].
    eapply DefineLabel_position_ok; eassumption.
Qed.

Lemma reference_lists_in_step_witness :
  exists r st',
    DefineLabel "start = end+1" false (start_state 0) = Ok r st'
    /\ table_ok st' /\ length (lab st') = 2%nat.
Proof.
  assert (E : exists r st',
             DefineLabel "start = end+1" false (start_state 0) = Ok r st'
             /\ length (lab st') = 2%nat).
  { do 2 eexists. split; [vm_compute; reflexivity | reflexivity]. }
  destruct E as (r & st' & E & L).
  exists r, st'. split; [exact E|]. split; [|exact L].
  refine (proj2 (reference_lists_in_step (start_state 0) _) _ _ _ _ E).
  constructor.
Defined.

(** ** Unary operators in front of a binary operator *)

Lemma binop_priority op o f : In (op, o, f) binop -> 0 < o <= 11.
Proof.
  unfold binop. intros H.
  repeat (destruct H as [H|H]; [inversion H; subst; lia|]). destruct H.
Qed.

Lemma unaop_operand c uf st :
  In (c, uf) [("+", op_plu); ("-", op_min); ("!", op_lno); ("~", op_bno);
              ("<", op_low); (">", op_hig)]%char ->
  8 <= unaops st ->
  unaop_of st c = Some uf /\ isspace c = false /\ ceq c "," = false.
Proof.
  intros H Hu. unfold unaop_of.
  destruct (Z.to_nat (unaops st)) as [|[|[|[|[|[|[|[|k]]]]]]]] eqn:E;
    try lia.
  repeat (destruct H as [H|H];
          [inversion H; subst; repeat split; reflexivity|]).
  destruct H.
Qed.

(** X22.  A unary operator that works on an operand ([+ - ! ~ < >]) binds
    tighter than every binary operator: in [u a op b] with numbers [a] and
    [b] the unary operator is applied to [a] alone, and the binary operator
    to its result and [b]; this application has a result [x], which is
    returned.  For a value [v] other than UNDEF the low byte [<v] and the
    high byte [>v] put together give [v] back. *)
Theorem unary_binds_tighter st c uf a op o f b rest :
  In (c, uf) [("+", op_plu); ("-", op_min); ("!", op_lno); ("~", op_bno);
              ("<", op_low); (">", op_hig)]%char ->
  8 <= unaops st ->
  number a = true -> number b = true -> In (op, o, f) binop ->
  ends_operand rest = true ->
  (exists x,
     binop_apply f (unaop_value uf (value a)) (value b) = Some x
     /\ EvalOperand (String c (a +:+ (op +:+ (b +:+ rest)))) 0 st
        = Ok (rest, x) st)
  /\ forall v, v <> UNDEF ->
       unaop_value op_low v + 256 * unaop_value op_hig v = v.
Proof.
  intros Hc Hu Ha Hb Ho He. split.
  - destruct (binop_apply_some f (unaop_value uf (value a)) (value b))
      as [x Hx]; [right; apply value_nonneg; exact Hb|].
    exists x. split; [exact Hx|].
    destruct (unaop_operand c uf st Hc Hu) as (U & Sc & Cc).
    destruct (binop_head _ _ _ Ho)
      as (c1 & op' & E1 & M1 & N1 & D1 & L1 & S1 & P1 & O1).
    destruct (binop_priority _ _ _ Ho) as [_ O11].
    destruct (ends_operand_head rest He) as (D3 & L3 & S3).
    set (R := op +:+ (b +:+ rest)).
    assert (K : peek R = c1) by (unfold R; rewrite E1; reflexivity).
    assert (Z1 : SkipSpace R = R).
    { unfold R. rewrite E1.
      change (String c1 op' +:+ (b +:+ rest))
        with (String c1 (op' +:+ (b +:+ rest))).
      cbn [SkipSpace]. rewrite P1. reflexivity. }
    assert (F : exists m, (2 * String.length (String c (a +:+ R)) + 2
                           = S (S (S (S (S m)))))%nat).
    { exists (2 * String.length (String c (a +:+ R)) - 3)%nat.
      cbn [String.length]. rewrite append_length.
      destruct (number_head a EmptyString Ha) as [_ La]. lia. }
    destruct F as [m F]. unfold EvalOperand. rewrite F.
    assert (In1 : EvalOperand_ (S (S (S (S m)))) (a +:+ R) 12 st
                  = Ok (R, value a) st).
    { rewrite (EvalOperand_number _ a R 12 st Ha) by (rewrite K; assumption).
      rewrite Z1. unfold R.
      rewrite (BinOps_number _ op o f b rest (value a) 12 st Ho Hb D3 L3 S3).
      replace (o <=? 12) with true by (symmetry; apply Z.leb_le; lia).
      reflexivity. }
    rewrite EvalOperand_unfold. cbv zeta. cbn [SkipSpace]. rewrite Sc, Cc.
    step (get_run st). rewrite U.
    assert (Op : (match uf with
                  | op_par =>
                      let closing := (if ceq c "[" then "]" else ")")%char in
                      '(q, v) ← EvalOperand_ (S (S (S (S m)))) (a +:+ R) 0;
                      match strchr q closing with
                      | Some (String _ q') => mret (q', v)
                      | _ => exit_
                      end
                  | op_prc => mret (a +:+ R, pc st)
                  | op_hex => EvalHexValue (a +:+ R)
                  | op_oct => EvalOctValue (a +:+ R)
                  | op_cha => EvalCharValue (a +:+ R)
                  | op_bin => EvalBinValue (a +:+ R)
                  | op_len => EvalSymBytes (a +:+ R)
                  | _ =>
                      '(q, v) ← EvalOperand_ (S (S (S (S m)))) (a +:+ R) 12;
                      mret (q, unaop_value uf v)
                  end) st
                 = Ok (R, unaop_value uf (value a)) st).
    { repeat (destruct Hc as [Hc|Hc];
              [inversion Hc; subst c uf; step In1; reflexivity|]).
      destruct Hc. }
    step Op. rewrite Z1. unfold R.
    apply (BinOps_last _ op o f b rest _ x 0 st Ho Hb He); [lia | exact Hx].
  - intros v Hv. cbn [unaop_value].
    replace (v =? UNDEF) with false by (symmetry; apply Z.eqb_neq; exact Hv).
    change 0xff with (Z.ones 8). rewrite Z.land_ones, Z.shiftr_div_pow2 by lia.
    change (2 ^ 8) with 256. pose proof (Z.div_mod v 256). lia.
Qed.

Lemma unary_binds_tighter_witness :
  EvalOperand "<1+255" 0 (start_state 0) = Ok (EmptyString, 256) (start_state 0)
  /\ EvalOperand "-2*3,Y" 0 (start_state 0) = Ok (",Y"%string, -6) (start_state 0).
Proof.
  split.
  - destruct (proj1 (unary_binds_tighter (start_state 0) "<" op_low "1" "+" 10
                       op_add "255" ""
                       ltac:(cbn; tauto) ltac:(vm_compute; discriminate)
                       eq_refl eq_refl ltac:(cbn; tauto) eq_refl))
      as (x & Hx & E).
    injection Hx as <-. exact E.
  - destruct (proj1 (unary_binds_tighter (start_state 0) "-" op_min "2" "*" 11
                       op_mul "3" ",Y"
                       ltac:(cbn; tauto) ltac:(vm_compute; discriminate)
                       eq_refl eq_refl ltac:(cbn; tauto) eq_refl))
      as (x & Hx & E).
    injection Hx as <-. exact E.
Defined.

(** ** #ifdef and a symbol without an address *)

Lemma alpha_char c :
  isalpha c = true ->
  isspace c = false /\ ceq c "," = false /\ isdigit c = false
  /\ isalnum c = true
  /\ forall k, find_unaop c (take k unaop) = None.
Proof.
  intros H.
  assert (N : forall k,
            (forall e, In e unaop -> ceq c (fst e) = false) ->
            find_unaop c (take k unaop) = None).
  { intros k. generalize unaop. intros l. revert k.
    induction l as [|[e g] l IH]; intros [|k] Hl; try reflexivity.
    cbn [take find_unaop].
    pose proof (Hl (e, g) ltac:(left; reflexivity)) as E. cbn [fst] in E.
    rewrite E. apply IH. intros e' He'. apply Hl. right. exact He'. }
  destruct c as [[] [] [] [] [] [] [] []]; try discriminate H;
    (repeat split; try reflexivity; intros k; apply N;
     intros e He; unfold unaop in He;
     repeat (destruct He as [<-|He]; [reflexivity|]); destruct He).
Qed.

Lemma EvalSymValue_undefined st p sym q j x :
  final_pass st = true ->
  GetSymbol st p = (sym, q) -> LabelIndex st sym = Some j ->
  lab st !! j = Some x -> Address x = UNDEF ->
  EvalSymValue p st = Exit.
Proof.
  intros F HG HL Hx Ha. unfold EvalSymValue. step (get_run st).
  rewrite HG, HL, Hx. cbn [fmap option_fmap option_map default].
  rewrite Ha, F.
  assert (exists s', SymRefs j st = Ok tt s') as [s' HS].
  { unfold SymRefs, mbind, M_bind, get.
    destruct (negb (final_pass st)); eexists; reflexivity. }
  step HS. reflexivity.
Qed.

(** X23.  [#ifdef NAME] evaluates the symbol as an operand: in the final
    pass the directive ends the run when the symbol, a name that starts
    with a letter, is in the table without an address (as a symbol is
    from its first mention on while the source does not define it). *)
Theorem ifdef_of_undefined_symbol st p sym q j x :
  0 <= IfLevel st < 9 ->
  final_pass st = true ->
  isalpha (peek p) = true ->
  GetSymbol st p = (sym, q) -> LabelIndex st sym = Some j ->
  lab st !! j = Some x -> Address x = UNDEF ->
  CheckCondition ("#ifdef " +:+ p) st = Exit.
Proof.
  intros Hn F Hp HG HL Hx Ha.
  destruct p as [|c r]; [discriminate Hp|]. cbn [peek] in Hp.
  destruct (alpha_char c Hp) as (Sc & Cc & Dc & Ac & Uc).
  set (s1 := set_IfLevel (IfLevel st + 1) st).
  assert (Ev : EvalOperand (String c r) 0 s1 = Exit).
  { unfold EvalOperand.
    replace (2 * String.length (String c r) + 2)%nat
      with (S (2 * String.length (String c r) + 1)) by lia.
    rewrite EvalOperand_unfold. cbv zeta. cbn [SkipSpace]. rewrite Sc, Cc.
    step (get_run s1). unfold unaop_of. rewrite Uc, Dc. cbn [andb].
    replace (isym (String c r)) with true
      by (cbn [isym]; rewrite Ac, !orb_true_r; reflexivity).
    cbn [orb].
    apply bind_Exit.
    apply (EvalSymValue_undefined s1 (String c r) sym q j x);
      [exact F | exact HG | | exact Hx | exact Ha].
    unfold LabelIndex. rewrite (LabelIndex_from_case st) by reflexivity.
    exact HL. }
  unfold CheckCondition.
  change (negb (ceq (peek ("#ifdef " +:+ String c r)) "#")) with false.
  cbn beta iota.
  change (SkipSpace (tail ("#ifdef " +:+ String c r)))
    with ("ifdef " +:+ String c r)%string.
  step (get_run st).
  change (keyword "error" ("ifdef " +:+ String c r)) with false.
  replace (keyword "ifdef " ("ifdef " +:+ String c r)) with true
    by reflexivity.
  cbn [andb orb].
  step (eq_refl : modify (set_IfLevel (IfLevel st + 1)) st = Ok tt s1).
  replace (9 <? IfLevel st + 1) with false by (symmetry; apply Z.ltb_ge; lia).
  step (eq_refl : inside (adv 6 ("ifdef " +:+ String c r)) s1
                  = Ok (String c r) s1).
  apply bind_Exit. exact Ev.
Qed.

Lemma ifdef_of_undefined_symbol_witness :
  CheckCondition "#ifdef FOO"
    (set_Pass 20 (set_lab [new_label "FOO" UNDEF 2 0] (start_state 0)))
  = Exit
  /\ main_passes ["*=$1000"; "#ifdef FOO"; " NOP"; "#endif"]%string
       (start_state 0) = Exit.
Proof.
  split.
  - apply (ifdef_of_undefined_symbol _ "FOO" "FOO" "" 0
             (new_label "FOO" UNDEF 2 0));
      first [reflexivity | cbn; lia].
  - vm_compute. reflexivity.
Defined.

(** ** A branch out of range *)

(** X24.  A short relative branch (no branch optimisation) whose target has
    no value, or whose offset [target - (pc + 2)] is below -128 or above
    127, ends the run in the final pass.  In a pass before the final one
    the same branch is accepted whatever its target: the program counter
    moves on by 2 and the image is as it was. *)
Theorem branch_out_of_range p st p3 o target s1 :
  0 <= pc st -> am st = AM_Rela -> GenIndex st = -1 ->
  Operand st = EmptyString ->
  BranchOpt st && (CPU_Type st =? CPU_45GS02) = false ->
  adv 3 p = Some p3 ->
  EvalOperand p3 0 (set_il 2 st) = Ok (o, target) s1 ->
  (final_pass st = true ->
   target = UNDEF \/ target - (pc st + 2) < -128
   \/ 127 < target - (pc st + 2) ->
   GenerateCode p st = Exit)
  /\ (final_pass st = false ->
      ceq (peek o) NUL || ceq (peek o) ";" = true ->
      pc st + 2 <= 0xffff ->
      exists st', GenerateCode p st = Ok tt st'
        /\ pc st' = pc st + 2 /\ ROM st' = ROM st).
Proof.
  intros H0 Ha Hg Ho Hb H3 He.
  pose proof (EvalOperand_only _ _ _ _ _ He) as O1.
  assert (P1 : pc s1 = pc st) by (rewrite O1; reflexivity).
  assert (F1 : final_pass s1 = final_pass st) by (rewrite O1; reflexivity).
  assert (G : GenerateCode p st
              = ('(v, o) ← gen_short p; gen_finish v o) st).
  { unfold GenerateCode. step (get_run st).
    replace (pc st <? 0) with false by (symmetry; apply Z.ltb_ge; lia).
    rewrite Ha.
    change (AM_Rela =? AM_Impl) with false.
    change (AM_Rela =? AM_Bits) with false.
    change (AM_Rela =? AM_Rela) with true.
    cbn [andb]. rewrite Hb. reflexivity. }
  set (v := if target =? UNDEF then target else target - (pc st + 2)).
  assert (S : gen_short p st
              = if final_pass st && (v =? UNDEF) then Exit
                else if final_pass st && ((v <? -128) || (127 <? v))
                     then Exit
                     else Ok (v, o) s1).
  { unfold gen_short.
    step (eq_refl : modify (set_il 2) st = Ok tt (set_il 2 st)).
    rewrite H3.
    step (eq_refl : inside (Some p3) (set_il 2 st) = Ok p3 (set_il 2 st)).
    step He. step (get_run s1). rewrite P1, F1. cbv zeta. fold v.
    destruct (final_pass st && _); [reflexivity|].
    destruct (final_pass st && _); reflexivity. }
  rewrite G. split.
  - intros F Hr. apply bind_Exit. rewrite S, F. cbn [andb]. unfold v.
    destruct (Z.eqb_spec target UNDEF) as [E|E].
    + rewrite E. reflexivity.
    + destruct Hr as [Hr|Hr]; [contradiction|].
      destruct (_ =? UNDEF); [reflexivity|].
      replace ((target - (pc st + 2) <? -128) || (127 <? target - (pc st + 2)))
        with true; [reflexivity|].
      symmetry. apply orb_true_iff.
      destruct Hr; [left | right]; apply Z.ltb_lt; assumption.
  - intros F Hend Hpc. rewrite F in S. cbn [andb] in S.
    step S.
    assert (Q1 : am s1 = AM_Rela) by (rewrite O1; exact Ha).
    assert (Q2 : Operand s1 = EmptyString) by (rewrite O1; exact Ho).
    assert (Q3 : GenIndex s1 = -1) by (rewrite O1; exact Hg).
    assert (Q4 : il s1 = 2) by (rewrite O1; reflexivity).
    assert (Op : gen_operand v o s1 = Ok (v, o) s1).
    { unfold gen_operand. step (get_run s1). rewrite Q2, Q1. reflexivity. }
    assert (St : gen_stack o s1 = Ok o s1).
    { unfold gen_stack. step (get_run s1). rewrite Q1.
      change (AM_Rela =? AM_Indy) with false. rewrite andb_false_r.
      reflexivity. }
    assert (exists s4, AdjustOpcode v s1 = Ok v s4
                       /\ s4 = set_PreNop false (set_NegNeg false s1))
      as (s4 & Ad & E4).
    { eexists. split; [|reflexivity]. unfold AdjustOpcode.
      match goal with |- context [modify ?f] =>
        step (eq_refl : modify f s1 = Ok tt (f s1)) end.
      match goal with |- (get ≫= _) ?s = _ => step (get_run s) end.
      cbn [GenIndex am il set_PreNop set_NegNeg]. rewrite Q3, Q1, Q4.
      reflexivity. }
    unfold gen_finish. step Op. step St.
    apply orb_true_iff in Hend.
    replace (negb (ceq (peek o) NUL) && negb (ceq (peek o) ";")) with false
      by (destruct Hend as [-> | ->]; cbn; rewrite ?andb_false_r; reflexivity).
    step Ad. step (get_run s4).
    assert (F4 : final_pass s4 = false)
      by (rewrite E4; transitivity (final_pass s1);
          [reflexivity | rewrite F1; exact F]).
    rewrite F4. cbn [when_].
    step (eq_refl : (mret tt : M unit) s4 = Ok tt s4).
    step (get_run s4).
    assert (P4 : pc s4 = pc st) by (rewrite E4; exact P1).
    assert (I4 : il s4 = 2) by (rewrite E4; exact Q4).
    rewrite P4, I4.
    replace (65535 <? pc st + 2) with false by (symmetry; apply Z.ltb_ge; lia).
    eexists. split; [reflexivity|]. cbn [pc ROM set_pc].
    split; [reflexivity|]. rewrite E4, O1. reflexivity.
Qed.

Lemma branch_out_of_range_witness :
  let st := set_oc 0xD0 (set_am AM_Rela (set_GenIndex (-1)
              (set_pc 0x1000 (set_Pass 20 (start_state 0))))) in
  GenerateCode "BNE $1100" st = Exit
  /\ main_passes ["*=$1000"; " BNE $1100"]%string (start_state 0) = Exit.
Proof.
  intros st. split.
  - assert (Ev : exists s1, EvalOperand " $1100" 0 (set_il 2 st)
                            = Ok (EmptyString, 0x1100) s1).
    { eexists. vm_compute. reflexivity. }
    destruct Ev as [s1 Ev].
    destruct (branch_out_of_range "BNE $1100" st " $1100" "" 0x1100 s1)
      as [X _];
      [ vm_compute; discriminate | reflexivity | reflexivity | reflexivity
      | reflexivity | reflexivity | exact Ev | ].
    apply X; [reflexivity|]. right. right. vm_compute. reflexivity.
  - vm_compute. reflexivity.
Defined.
